(* ===== verification/_CoqProject ===== *)
-Q . S2P
Prelude.v
RustStr.v
Errors.v
Hash.v
Messages.v
Proc.v
Db.v
Tuning.v
Instances.v
Transport.v
Pages.v
Origin.v
Replica.v
Session.v
SyncLocal.v
Faults.v
Wire.v
Limits.v
Traffic.v
ProtocolTests.v
Ssh.v
Grpc.v
KvText.v
Ha.v
HaLoop.v
HaTests.v
Auth.v
Engine.v
Locks.v
Linear.v
Server.v
GatewayTests.v
Client.v
Endpoint.v
RustText.v
CliText.v
Unified.v
RemoteTests.v
Cli.v
Blocking.v
DbHandle.v
Batch.v
Remote.v
Main.v
ToolTests.v
Cluster.v
Demo.v
