(* ===== verification/Prelude.v ===== *)
(** * A verification library for rsqlite-rsync

    rsqlite-rsync copies SQLite databases page by page between an origin and a
    replica, in the manner of rsync, and runs replicated databases in a
    high-availability mode with a SQL gateway.  This library models its logic as
    executable definitions and proves the properties that make it correct.

    ** The program and its model

    Synchronisation.  The origin handler takes a read snapshot; the replica handler
    offers digests of groups of 64 pages; the origin names the groups that differ,
    compares the pages of each and sends those that changed; the replica writes and
    acknowledges them.
    - [Hash] (src/src/hash.rs), [Messages] (protocol/messages.rs and the framing of
      transport/mod.rs), [Db] (db.rs, snapshot.rs), [Tuning] ([SyncTuning] of
      lib.rs, protocol/mod.rs): the parts both handlers use.
    - [Proc]: an [async fn] of the protocol as a tree of its effects (send, receive,
      write a page), each answered by the environment; a panic is a leaf.
    - [Origin] and [Replica] (protocol/origin.rs, protocol/replica.rs): the two
      handlers, whole, as processes; [Pages] holds the page and group arithmetic.
    - [Transport] (transport/local.rs, stdio.rs, ssh.rs) and [Grpc]
      (transport/grpc.rs): how messages travel.
    - [Session]: both handlers over two ordered channels, as a step relation;
      [SyncLocal] ([sync_local] of lib.rs): the same, scheduled and timed out;
      [Faults]: the same step relation with sends, receives and writes that fail.
    - [Wire]: a session over byte streams of bounded capacity, written and read in
      pieces; [Limits]: the sizes of its messages, and the largest database they admit;
      [Traffic]: the bytes a session puts on its streams.
    - [Ssh] (the authentication and launch of transport/ssh.rs), [DbHandle] (opening,
      closing, statements and columns of db.rs), [Remote] (push, pull and their gRPC
      variants in lib.rs, the server modes of main.rs, the sessions of
      gateway/replication.rs): synchronisation between two machines, each side a
      process built around a handler.

    High availability.  A controller reads a lease, decides the role of the node and
    executes the plan; the gateway serves SQL while the node holds the lease.
    - [KvText] (kv_text.rs): the text of lease and freshness files.
    - [Ha] (ha.rs): leases, write fence, promotion policy, reconciliation, plans, the
      controller over the interfaces [LeaseReader] and [HaActionExecutor], and the
      state shared with the gateway.
    - [HaLoop] (the executors of ha.rs; the loop of [run_ha_mode] in main.rs): one
      turn of the control loop, several of them, the startup fence, the readiness
      endpoint.
    - [Auth], [Engine], [Server] (gateway/auth.rs, engine.rs, server.rs and the
      admission of gateway/replication.rs): authentication, the per-database engine
      over the interface [SqliteDb], the RPC handlers over [GatewayEngine], whose
      laws the engine discharges ([Server.database_engine_laws]).
    - [Locks]: concurrent calls of the engine, each waiting for the lock of its database,
      as a step relation over the lock table of [Engine]; [Linear]: the same calls cut
      into the operations SQLite sees one by one (BEGIN, each statement, COMMIT; of a
      read the opening, the preparing and the stepping), with the histories of their
      invocations and returns.
    - [Cluster]: several nodes under one lease service, each turn of [HaLoop] cut into its
      actions, with the gateways of [Server] answering between them; at the end the
      lease updater of examples/k8s/k3s-ha-stack.yaml as such a service.
    - [Client] (crates/rsqlite-rsync-client): discovery, retries, redirects;
      [Unified] (its calls, and gateway/client.rs): the calls through the retry loop,
      and the client that runs them locally or remotely; [Blocking] (blocking.rs and
      crates/rsqlite-rsync-pool): the blocking client and the pool managers.

    Command line.
    - [Endpoint] (endpoint.rs): gRPC URLs, ssh locations, local paths.
    - [Batch] (batch.rs, [run_batch_mode] and the endpoints of [run] in main.rs):
      manifests, retry delays, the pool of entries in flight, and the panics that
      unwind it.
    - [CliText] and [Cli] (cli/client.rs): literals, statement splitting and output
      formats; connection options, subcommands and the interactive shell over the
      interface [SqlClient].
    - [Main] (main.rs): arguments, choice of the mode, and HA mode from its options to
      its shutdown.
    - [Demo] (examples/client_demo.rs): the demonstration program, whole, from the
      server it starts to its last line of output.

    Unit tests.  [ProtocolTests], [HaTests], [GatewayTests], [RemoteTests] and [ToolTests]
    state the unit tests of the sources (about 300 of them) as propositions about the
    model, under their names, and prove them.  [GatewayTests] gives the engine a small
    SQLite with tables that knows the statements of the tests.

    [Prelude], [RustStr] and [RustText] hold what the files share: results and their notation,
    machine integers, slices that may panic, the string methods of the standard
    library, the tactics, and confluence of step relations with the diamond
    property.  [Instances] gives concrete instances of the external parameters, with
    which the examples evaluate.

    ** What the theorems show

    - Synchronisation: [Session.sync_makes_identical] (every schedule ends, both
      sides return [Ok], the replica file equals the snapshot),
      [Session.sync_sends_the_difference] (exactly the differing pages travel),
      [Session.resync_sends_nothing], [SyncLocal.sync_local_correct] (the call
      returns, with the transaction closed), [Replica.replica_never_panics] and
      [Replica.replica_ok_needs_done] (against any peer).  [Faults.lossy_safe] is the
      invariant of faulty runs, and [Faults.success_means_identical] its consequence:
      a side that reports success has an identical file, whatever failed.
      [Remote] carries both to whole programs: pushes and pulls over ssh and gRPC
      deliver ([Remote.push_delivers], [Remote.grpc_push_delivers]) and never report
      a false success, timeouts included.  A push over ssh kills its ssh child when it is
      done ([Remote.ssh_push_step]): the file is complete then, but the remote process can
      miss [Done] and fail ([Remote.remote_can_miss_done]).  [Remote.push_exposes_partial_image] shows
      what a reader of the pushed database can see meanwhile.  A replica larger than the
      origin is outside these theorems: [Session.larger_replica_panics] shows that
      the origin handler then panics.
    - Transports: [Transport.transports_refine_fifo] (each refines a queue of
      messages, whatever the fragmentation), round trips of the framing and of the
      gRPC conversion, rejection of malformed digests.  [Wire.wire_session_ends] refines
      the sessions to byte streams: no capacity, fragmentation or schedule blocks one or
      changes its result while its messages fit in frames; [Limits.byte_stream_sync] adds
      that they do up to [Limits.MAX_PAGES] pages, and [Limits.coarse_pass_limit] that
      they do not beyond, the receiver refusing the length prefix alone.  [Traffic.session_traffic] bounds the bytes of a session.
    - High availability: at most one gateway accepts writes under exclusive leases
      ([Ha.at_most_one_writer]; in a cluster with late reads, skewed clocks, crashes and
      restarts [Cluster.one_open_gateway]), the generations of admitted writes never go
      back ([Cluster.generations_fence_writes]).  Both cluster theorems assume a lease
      service that passes a lease on only under a higher generation and only when it has
      been expired for a margin, and a clock skew within that margin
      ([Cluster.may_issue]).  A writer holds its lease
      ([Ha.writer_holds_lease]), the gateway is open only under the lease of the last
      turn whatever I/O fails ([HaLoop.gateway_writes_need_lease], for whole runs
      [Main.ha_mode_writes_need_lease]), role, gateway and readiness agree while I/O
      works ([HaLoop.turn_keeps_coherence]), a lease holder with fresh data becomes the
      writer ([HaLoop.lease_holder_becomes_writer], [Main.ha_mode_takeover]), failures
      demote; two theorems exhibit what a failed role-file write leaves behind.
      [Cluster.short_margin_lets_two_write] and [Cluster.delayed_write_runs_late] show
      what the fence needs of the lease service and what it does not cover, and
      [Cluster.shipped_updater_lets_two_write] that the lease updater of the k3s example
      is not such a service.  Lease records read back ([Ha.lease_round_trip], for holders
      on one line without surrounding blanks).
    - Gateway: confinement of database names, atomicity of batches whose statements do not
      end the transaction ([Engine.batch_is_atomic]; [Engine.batch_commit_escapes] for
      those that do), agreement of
      chunked and plain queries, parameters that reach SQLite as the request gives them
      ([Engine.request_values_reach_sqlite]), fencing of writes and strong reads.  Concurrent calls on
      one database are serial and can always finish ([Locks.database_tasks_serial],
      [Locks.task_can_finish]), until the database is dropped
      ([Locks.drop_lets_two_in]).  [Linear.engine_linearizable]: every history of
      single statements, transactional batches and reads on an existing database that is
      not dropped, is spelled one way and keeps its schema is that of the same calls made
      one after the other, in an order that respects real time, and
      [Linear.every_call_can_return]; [Linear.plain_batch_is_seen_in_part] and
      [Linear.schema_change_splits_query] show that a batch without a transaction and a
      change of the schema are not part of this.
    - Client and batch: retries end, a write reaches the engines of a cluster at most
      once ([Unified.execute_at_most_once]), pooled clients have reached their cluster,
      batch reports are complete and independent of the schedule unless an entry panics
      ([Batch.batch_reports_every_entry], [Batch.larger_replica_loses_batch]), delays are
      bounded.
    - Command line: parameters and CSV output read back (texts without the characters
      [CliText.arg_ok] and [CliText.csv_ok] exclude; [CliText.csv_carriage_return_lost]),
      scripts without comments are split into their statements, a line of the shell addresses the current database only, a database
      is dropped only after consent; connections are opened without leaks.
    - Demonstration: [Demo.demo_never_succeeds] shows that the command it starts its
      server with is refused.

    ** Conventions, bounds and fuel

    Bytes are integers below 256, a Rust [String] is the string of its UTF-8 bytes, a
    w-bit integer is a [Z] with the wrap-around or saturation of the operation written
    out; arithmetic that can overflow wraps as in a release build.  [Result] carries
    errors as values with the texts of the source; [option] around a computation is
    a panic.  Group arithmetic is exact for page counts up to [2^32 - 64]
    ([Pages.fits_u32]), close to the largest database SQLite can address
    ([2^32 - 2] pages); the theorems on sessions state it.

    No theorem assumes that fuel suffices.  [SyncLocal.drive] takes scheduling steps
    as fuel and [SyncLocal.sync_local_correct] gives a number from which on every
    fuel gives the result.  [Client.retry_loop] needs [max_retries] rounds
    ([Client.retry_terminates], which [Unified.run_call] supplies); [Batch.run_pool]
    one round per entry ([Batch.run_pool_drains]).  The timers of [Remote] count
    awaits and are universally quantified; the shell and the control loop run over
    the list of their inputs.  The runs of [Wire], [Locks], [Linear] and [Cluster]
    are step relations without fuel; termination over byte streams is strong
    normalisation ([sn]).  The polls of [Demo.wait_until] are as many as its deadline
    allows ([Demo.wait_until_ends]).  [sync_makes_identical] and its companions assume
    that no two differing pages or groups of the two files have equal digests
    ([Session.no_collision], a property of the two files at hand).

    ** Parameters

    SHA-256 and BLAKE3 ([Hash.Digests]), bincode with its round trip
    ([Messages.Bincode], for [Limits] also the sizes of [Limits.BincodeSize]), rayon ([Tuning.Rayon]), the SQLite library (the fields of
    [Db.Connection], the class [Engine.SqliteDb]), the serde parsers, kubectl, the
    network of the client, child processes, sockets, the clock and every I/O outcome
    are arguments of the definitions that use them, as are parsing and printing of
    floating-point numbers and the layout of printed tables.  [Engine.batch_is_atomic]
    relies on what SQLite documents of a connection in a transaction: a BEGIN opens one,
    its changes are unseen by others while it is open, a ROLLBACK leaves the file as it is
    ([Engine.TransactionLaws]); [Linear] also on what it documents of opening and of
    prepared statements ([Linear.FileLaws]).  Both are discharged by small databases in
    the witnesses.  The lease service of [Cluster] is a relation that says what it may
    issue, constrained by [Cluster.may_issue] where a theorem says so.

    ** Not modelled

    Parsing of the command line by clap, the logging setup, elapsed times and the
    history file of the shell (no logic of the program's own); generated protocol code.
    The stream of a gRPC session is two ordered channels:
    tonic's flow control is not modelled, its failures are.  Of the unit tests, those
    of the SQLite bindings, of sockets and of clap are not stated, nor are those that
    assert nothing; the tests under tests/ start processes and are not stated either. *)

From stdpp Require Export prelude list list_numbers strings gmap.
From Stdlib Require Export ZArith Lia.

#[global] Set Warnings "-clear-no-such-hyp,-register-all".
#[global] Open Scope Z_scope.

(** ** Results and panics *)

(** Rust's [Result<A, E>]. *)
Inductive Result (E A : Type) : Type :=
| Ok (a : A)
| Err (e : E).
Arguments Ok {E A} a.
Arguments Err {E A} e.

Declare Scope rust_scope.
Delimit Scope rust_scope with rust.
#[global] Open Scope rust_scope.

(** The [?] operator on a pure [Result]. *)
Notation "'let?' x ':=' c 'in' k" :=
  (match c with Ok x => k | Err e => Err e end)
  (at level 10, x pattern, c at level 100, k at level 200) : rust_scope.

(** A computation that may panic is an [option]; [None] is the panic. *)
Notation "'let!' x ':=' c 'in' k" :=
  (match c with Some x => k | None => None end)
  (at level 10, x pattern, c at level 100, k at level 200) : rust_scope.

Definition is_ok {E A} (r : Result E A) : bool :=
  match r with Ok _ => true | Err _ => false end.

Definition map_err {E F A} (f : E -> F) (r : Result E A) : Result F A :=
  match r with Ok a => Ok a | Err e => Err (f e) end.

Definition ok_or {E A} (o : option A) (e : E) : Result E A :=
  match o with Some a => Ok a | None => Err e end.

(** ** Machine integers *)

Definition U32_MAX : Z := 2 ^ 32 - 1.
Definition U64_MAX : Z := 2 ^ 64 - 1.

(** [as u32] and the wrap-around of release-profile [u32] arithmetic. *)
Definition u32 (z : Z) : Z := z mod 2 ^ 32.
Definition u64 (z : Z) : Z := z mod 2 ^ 64.
Definition add32 (a b : Z) : Z := u32 (a + b).
Definition mul32 (a b : Z) : Z := u32 (a * b).

Definition is_u8 (z : Z) : Prop := 0 <= z < 2 ^ 8.
Definition is_u32 (z : Z) : Prop := 0 <= z < 2 ^ 32.
Definition is_u64 (z : Z) : Prop := 0 <= z < 2 ^ 64.

Definition sat_add64 (a b : Z) : Z := Z.min U64_MAX (a + b).
Definition sat_sub64 (a b : Z) : Z := Z.max 0 (a - b).
Definition sat_mul64 (a b : Z) : Z := Z.min U64_MAX (a * b).

(** [a.div_ceil(b)] on unsigned integers. *)
Definition div_ceil (a b : Z) : Z := if a mod b =? 0 then a / b else a / b + 1.

(** ** Slices *)

Abbreviation byte := Z (only parsing).
Abbreviation bytes := (list Z) (only parsing).

Definition zlen {A} (l : list A) : Z := Z.of_nat (length l).

(** [&l[a..b]]: panics unless [a <= b <= l.len()]. *)
Definition slice {A} (l : list A) (a b : Z) : option (list A) :=
  if (0 <=? a) && (a <=? b) && (b <=? zlen l)
  then Some (take (Z.to_nat (b - a)) (drop (Z.to_nat a) l))
  else None.

(** [l[i]]: panics out of range. *)
Definition index {A} (l : list A) (i : Z) : option A :=
  if (0 <=? i) then l !! Z.to_nat i else None.

(** [(a..=b)] as the list of its elements. *)
Definition range_incl (a b : Z) : list Z := seqZ a (b - a + 1).
(** [(a..b)] as the list of its elements. *)
Definition range (a b : Z) : list Z := seqZ a (b - a).

(** A [map] (resp. [filter_map]) whose closure may panic. *)
Fixpoint map_panic {A B} (f : A -> option B) (l : list A) : option (list B) :=
  match l with
  | [] => Some []
  | x :: l => let! y := f x in let! ys := map_panic f l in Some (y :: ys)
  end.

Fixpoint filter_map_panic {A B} (f : A -> option (option B)) (l : list A)
  : option (list B) :=
  match l with
  | [] => Some []
  | x :: l =>
      let! oy := f x in
      let! ys := filter_map_panic f l in
      Some (match oy with Some y => y :: ys | None => ys end)
  end.

(** ** Automation *)

Create HintDb rust discriminated.
Create Rewrite HintDb rust.

(** Case analysis on the boolean tests of a goal or hypothesis, with the facts
    they decide left in the context. *)
Ltac zbool :=
  repeat match goal with
  | H : _ && _ = true |- _ => apply andb_true_iff in H as [? ?]
  | H : _ || _ = false |- _ => apply orb_false_iff in H as [? ?]
  | H : negb _ = true |- _ => apply negb_true_iff in H
  | H : negb _ = false |- _ => apply negb_false_iff in H
  | H : (_ <=? _) = true |- _ => apply Z.leb_le in H
  | H : (_ <=? _) = false |- _ => apply Z.leb_gt in H
  | H : (_ <? _) = true |- _ => apply Z.ltb_lt in H
  | H : (_ <? _) = false |- _ => apply Z.ltb_ge in H
  | H : (_ =? _) = true |- _ => apply Z.eqb_eq in H
  | H : (_ =? _) = false |- _ => apply Z.eqb_neq in H
  | H : (_ >? _) = true |- _ => rewrite Z.gtb_lt in H
  | H : (_ >? _) = false |- _ => rewrite Z.gtb_ltb in H
  end.

(** Split the first [if] or [match] scrutinee on a boolean or option in sight. *)
Ltac case_test :=
  match goal with
  | |- context [if ?b then _ else _] => destruct b eqn:?
  | H : context [if ?b then _ else _] |- _ => destruct b eqn:?
  end; zbool.

(** Decide the test at the head of the goal by arithmetic. *)
Ltac zdec b v :=
  let H := fresh in
  assert (b = v) as H by
    (first [ apply Z.leb_le | apply Z.leb_gt | apply Z.ltb_lt | apply Z.ltb_ge
           | apply Z.eqb_eq | apply Z.eqb_neq ]; lia);
  rewrite H; clear H.

Ltac unfold_ints :=
  unfold is_u8, is_u32, is_u64, U32_MAX, U64_MAX in *.

(** ** Integer lemmas *)

Lemma u32_id z : is_u32 z -> u32 z = z.
Proof. intros H. apply Z.mod_small, H. Qed.

Lemma u32_range z : is_u32 (u32 z).
Proof. apply Z.mod_pos_bound. lia. Qed.

Lemma add32_id a b : 0 <= a -> 0 <= b -> a + b < 2 ^ 32 -> add32 a b = a + b.
Proof. intros. apply u32_id. unfold is_u32. lia. Qed.

Lemma mul32_id a b : 0 <= a -> 0 <= b -> a * b < 2 ^ 32 -> mul32 a b = a * b.
Proof. intros. apply u32_id. unfold is_u32. nia. Qed.

#[export] Hint Resolve u32_range : rust.

Lemma div_ceil_spec a b : 0 <= a -> 0 < b ->
  b * (div_ceil a b - 1) < a <= b * div_ceil a b \/ (a = 0 /\ div_ceil a b = 0).
Proof.
  intros Ha Hb. unfold div_ceil.
  pose proof (Z.div_mod a b ltac:(lia)).
  pose proof (Z.mod_pos_bound a b Hb).
  destruct (a mod b =? 0) eqn:E; zbool; [|left; nia].
  destruct (decide (a = 0)) as [->|]; [right; rewrite Z.div_0_l by lia; lia|left; nia].
Qed.

Lemma div_ceil_nonneg a b : 0 <= a -> 0 < b -> 0 <= div_ceil a b.
Proof.
  intros Ha Hb. unfold div_ceil.
  pose proof (Z.div_pos a b Ha Hb). destruct (_ =? _); lia.
Qed.

(** ** List lemmas *)

Lemma zlen_nonneg {A} (l : list A) : 0 <= zlen l.
Proof. unfold zlen. lia. Qed.

Lemma zlen_app {A} (l1 l2 : list A) : zlen (l1 ++ l2) = zlen l1 + zlen l2.
Proof. unfold zlen. rewrite length_app. lia. Qed.

Lemma slice_Some {A} (l : list A) a b :
  0 <= a -> a <= b -> b <= zlen l ->
  slice l a b = Some (take (Z.to_nat (b - a)) (drop (Z.to_nat a) l)).
Proof.
  intros Ha Hab Hb. unfold slice.
  zdec (0 <=? a) true. zdec (a <=? b) true. zdec (b <=? zlen l) true. done.
Qed.

Lemma slice_None {A} (l : list A) a b :
  zlen l < b -> slice l a b = None.
Proof.
  intros H. unfold slice. zdec (b <=? zlen l) false. by rewrite andb_false_r.
Qed.

Lemma slice_length {A} (l : list A) a b s :
  slice l a b = Some s -> zlen s = b - a.
Proof.
  unfold slice. case_test; [|done]. intros [= <-].
  unfold zlen in *. rewrite length_take, length_drop. lia.
Qed.

Lemma map_panic_all {A B} (f : A -> option B) (g : A -> B) l :
  (forall x, x ∈ l -> f x = Some (g x)) -> map_panic f l = Some (map g l).
Proof.
  induction l as [|x l IH]; intros H; cbn [map_panic map]; [done|].
  rewrite H by set_solver. rewrite IH by set_solver. done.
Qed.

Lemma filter_map_panic_all {A B} (f : A -> option (option B)) (g : A -> option B) l :
  (forall x, x ∈ l -> f x = Some (g x)) -> filter_map_panic f l = Some (omap g l).
Proof.
  induction l as [|x l IH]; intros H; cbn [filter_map_panic]; [done|].
  rewrite H by set_solver. rewrite IH by set_solver. cbn. by destruct (g x).
Qed.

Lemma filter_map_panic_app {A B} (f : A -> option (option B)) l1 l2 :
  filter_map_panic f (l1 ++ l2) =
  (let! a := filter_map_panic f l1 in let! b := filter_map_panic f l2 in Some (a ++ b)).
Proof.
  induction l1 as [|x l1 IH]; cbn.
  - by destruct (filter_map_panic f l2).
  - destruct (f x) as [oy|]; [|done]. rewrite IH.
    destruct (filter_map_panic f l1), (filter_map_panic f l2), oy; done.
Qed.

Lemma filter_map_panic_ext {A B} (f g : A -> option (option B)) l :
  (forall x, x ∈ l -> f x = g x) -> filter_map_panic f l = filter_map_panic g l.
Proof.
  induction l as [|x l IH]; intros H; cbn; [done|].
  rewrite H by set_solver. by rewrite IH by set_solver.
Qed.

Lemma filter_map_panic_None {A B} (f : A -> option (option B)) l x :
  x ∈ l -> f x = None -> filter_map_panic f l = None.
Proof.
  induction l as [|y l IH]; intros Hin Hf; [set_solver|]. cbn.
  apply elem_of_cons in Hin as [<-|Hin]; [by rewrite Hf|].
  rewrite IH by done. by destruct (f y).
Qed.

Lemma omap_filter {A} (f : A -> bool) (l : list A) :
  omap (fun x => if f x then Some x else None) l = List.filter f l.
Proof. induction l as [|x l IH]; cbn; [done|]. destruct (f x); by rewrite <- IH. Qed.

Lemma elem_of_range_incl a b x : x ∈ range_incl a b <-> a <= x <= b.
Proof. unfold range_incl. rewrite elem_of_seqZ. lia. Qed.

Lemma elem_of_range a b x : x ∈ range a b <-> a <= x < b.
Proof. unfold range. rewrite elem_of_seqZ. lia. Qed.

Lemma NoDup_range_incl a b : NoDup (range_incl a b).
Proof. apply NoDup_seqZ. Qed.

Lemma range_incl_empty a b : b < a -> range_incl a b = [].
Proof. intros H. unfold range_incl. apply seqZ_nil. lia. Qed.

Lemma range_cons a b : a < b -> range a b = a :: range (a + 1) b.
Proof.
  intros H. unfold range. rewrite seqZ_cons by lia.
  f_equal. f_equal; lia.
Qed.

Lemma range_empty a b : b <= a -> range a b = [].
Proof. intros H. unfold range. apply seqZ_nil. lia. Qed.

Lemma range_app a b c : a <= b <= c -> range a c = range a b ++ range b c.
Proof.
  intros [? ?]. unfold range.
  replace (c - a) with ((b - a) + (c - b)) by lia.
  rewrite seqZ_app by lia. do 2 f_equal. lia.
Qed.

Lemma range_incl_range a b : range_incl a b = range a (b + 1).
Proof. unfold range_incl, range. f_equal. lia. Qed.

Lemma zlen_range a b : a <= b -> zlen (range a b) = b - a.
Proof. intros H. unfold zlen, range. rewrite length_seqZ. lia. Qed.

#[export] Hint Rewrite @elem_of_range_incl elem_of_range : rust.

(** ** Runs with the one-step diamond property

    Two concurrent deterministic processes that talk through FIFO queues commute
    step by step: whatever the schedule, the run has the same length and the same
    end. *)
Section Diamond.
Context {St : Type} (step : relation St).

Definition one_step_diamond : Prop :=
  forall c c1 c2, step c c1 -> step c c2 -> c1 = c2 \/ exists d, step c1 d /\ step c2 d.

Context (Hdiamond : one_step_diamond).

Lemma diamond_push n c c1 d :
  nsteps step (S n) c d -> nf step d -> step c c1 -> nsteps step n c1 d.
Proof.
  revert c c1. induction n as [|n IH]; intros c c1 Hn Hnf Hstep.
  - inversion Hn as [|? ? c2 ? Hc2 Hz]; subst. inversion Hz; subst.
    destruct (Hdiamond _ _ _ Hc2 Hstep) as [->|(e & He & _)]; [constructor|].
    destruct Hnf. by exists e.
  - inversion Hn as [|? ? c2 ? Hc2 Hz]; subst.
    destruct (Hdiamond _ _ _ Hc2 Hstep) as [->|(e & He1 & He2)]; [done|].
    apply nsteps_l with e; [done|]. by apply (IH c2).
Qed.

(** If one schedule reaches a final state, every schedule does, in as many steps. *)
Lemma diamond_uniform n c d :
  nsteps step n c d -> nf step d ->
  forall m c', nsteps step m c c' ->
    (m <= n)%nat /\ nsteps step (n - m) c' d.
Proof.
  intros Hn Hnf m. revert n c Hn. induction m as [|m IH]; intros n c Hn c' Hm.
  - inversion Hm; subst. split; [lia|]. by rewrite Nat.sub_0_r.
  - inversion Hm as [|? ? c1 ? Hc1 Hrest]; subst.
    destruct n as [|n].
    + inversion Hn; subst. destruct Hnf. by exists c1.
    + pose proof (diamond_push _ _ _ _ Hn Hnf Hc1) as Hn1.
      destruct (IH n c1 Hn1 c' Hrest). split; [lia|done].
Qed.
End Diamond.
