(* ===== verification/RustStr.v ===== *)
(** * Strings of the Rust standard library

    A Rust [String] is the [string] of its UTF-8 bytes.  This file models the
    methods the program calls on strings: [trim], [split_once], [lines],
    [strip_prefix], [contains], [eq_ignore_ascii_case], the decimal [Display] of
    unsigned integers and [parse::<u32>] and [parse::<u64>]. *)

From S2P Require Import Prelude.
From Stdlib Require Export Ascii.
From Stdlib Require Import Wf_nat.

#[global] Open Scope string_scope.
#[global] Open Scope list_scope.
#[global] Open Scope Z_scope.

Notation "s1 +++ s2" := (String.append s1 s2) (at level 60, right associativity) : rust_scope.

(** stdpp freezes [String.append]; here it computes on a known first string. *)
#[global] Arguments String.append !_ _ : simpl nomatch.

Definition code (a : ascii) : Z := Z.of_N (N_of_ascii a).

Definition NL : ascii := "010"%char.
Definition CR : ascii := "013"%char.
Definition TAB : ascii := "009"%char.
Definition DQUOTE : ascii := "034"%char.
Definition nl : string := String NL "".

(** ** White space

    [char::is_whitespace] (the Unicode White_Space property) on UTF-8: one ASCII
    byte, or one of the two- and three-byte encodings below. *)
Definition ascii_ws (a : ascii) : bool :=
  let c := code a in ((9 <=? c) && (c <=? 13)) || (c =? 32).

Definition ws2 (a b : ascii) : bool :=
  (code a =? 194) && ((code b =? 133) || (code b =? 160)).

Definition ws3 (a b c : ascii) : bool :=
  let '(x, y, z) := (code a, code b, code c) in
  ((x =? 225) && (y =? 154) && (z =? 128)) ||
  ((x =? 226) && (y =? 128) &&
     (((128 <=? z) && (z <=? 138)) || (z =? 168) || (z =? 169) || (z =? 175))) ||
  ((x =? 226) && (y =? 129) && (z =? 159)) ||
  ((x =? 227) && (y =? 128) && (z =? 128)).

Fixpoint trim_start (s : string) : string :=
  match s with
  | "" => ""
  | String a r1 =>
      if ascii_ws a then trim_start r1 else
      match r1 with
      | "" => s
      | String b r2 =>
          if ws2 a b then trim_start r2 else
          match r2 with
          | "" => s
          | String c r3 => if ws3 a b c then trim_start r3 else s
          end
      end
  end.

(** The same on a reversed string: the bytes of a character come last byte first. *)
Fixpoint trim_start_rev (s : string) : string :=
  match s with
  | "" => ""
  | String a r1 =>
      if ascii_ws a then trim_start_rev r1 else
      match r1 with
      | "" => s
      | String b r2 =>
          if ws2 b a then trim_start_rev r2 else
          match r2 with
          | "" => s
          | String c r3 => if ws3 c b a then trim_start_rev r3 else s
          end
      end
  end.

Fixpoint srev (s : string) : string :=
  match s with
  | "" => ""
  | String a r => srev r +++ String a ""
  end.

Definition trim_end (s : string) : string := srev (trim_start_rev (srev s)).
Definition trim (s : string) : string := trim_end (trim_start s).

Definition is_empty (s : string) : bool :=
  match s with "" => true | _ => false end.

(** ** Searching and splitting *)

Fixpoint strip_prefix (p s : string) : option string :=
  match p, s with
  | "", _ => Some s
  | String a p, String b s => if Ascii.eqb a b then strip_prefix p s else None
  | _, "" => None
  end.

Definition starts_with (p s : string) : bool := bool_decide (is_Some (strip_prefix p s)).

Definition ends_with (p s : string) : bool := starts_with (srev p) (srev s).

Fixpoint contains (p s : string) : bool :=
  starts_with p s ||
  match s with "" => false | String _ r => contains p r end.

(** [s.split_once(c)]. *)
Fixpoint split_once (c : ascii) (s : string) : option (string * string) :=
  match s with
  | "" => None
  | String a r =>
      if Ascii.eqb a c then Some ("", r) else
      match split_once c r with
      | Some (x, y) => Some (String a x, y)
      | None => None
      end
  end.

(** [str::lines]: a [\r] before the [\n] is dropped, the last line keeps its own. *)
Definition strip_cr (s : string) : string :=
  match srev s with
  | String a r => if Ascii.eqb a CR then srev r else s
  | "" => s
  end.

Fixpoint lines_go (cur s : string) : list string :=
  match s with
  | "" => if is_empty cur then [] else [cur]
  | String a r =>
      if Ascii.eqb a NL then strip_cr cur :: lines_go "" r
      else lines_go (cur +++ String a "") r
  end.

Definition lines (s : string) : list string := lines_go "" s.

(** ** ASCII case *)

Definition to_ascii_lower (a : ascii) : ascii :=
  let c := N_of_ascii a in
  if (65 <=? c)%N && (c <=? 90)%N then ascii_of_N (c + 32) else a.
Definition to_ascii_upper (a : ascii) : ascii :=
  let c := N_of_ascii a in
  if (97 <=? c)%N && (c <=? 122)%N then ascii_of_N (c - 32) else a.

Fixpoint smap (f : ascii -> ascii) (s : string) : string :=
  match s with "" => "" | String a r => String (f a) (smap f r) end.

Definition to_ascii_lowercase (s : string) : string := smap to_ascii_lower s.
Definition to_ascii_uppercase (s : string) : string := smap to_ascii_upper s.

Definition eq_ignore_ascii_case (s t : string) : bool :=
  String.eqb (to_ascii_lowercase s) (to_ascii_lowercase t).

(** ** Decimal integers *)

Definition digit_char (d : Z) : ascii := ascii_of_N (Z.to_N (48 + d)).

Definition char_digit (a : ascii) : option Z :=
  let c := code a in if (48 <=? c) && (c <=? 57) then Some (c - 48) else None.

Fixpoint show_go (fuel : nat) (n : Z) (acc : string) : string :=
  match fuel with
  | O => acc
  | S fuel =>
      if n <? 10 then String (digit_char n) acc
      else show_go fuel (n / 10) (String (digit_char (n mod 10)) acc)
  end.

(** [n.to_string()] of an unsigned integer: a number below [2^k] has at most [k]
    decimal digits, so [log2 n + 1] rounds suffice. *)
Definition show_Z (n : Z) : string := show_go (S (Z.to_nat (Z.log2 n))) n "".

(** The digit loop of [from_str_radix(_, 10)], with its overflow checks. *)
Fixpoint parse_digits (max : Z) (s : string) (acc : Z) : option Z :=
  match s with
  | "" => Some acc
  | String a r =>
      match char_digit a with
      | None => None
      | Some d =>
          if max <? acc * 10 then None
          else if max <? acc * 10 + d then None
          else parse_digits max r (acc * 10 + d)
      end
  end.

(** [s.parse::<uN>()] with [max] the type's greatest value. *)
Definition parse_unsigned (max : Z) (s : string) : option Z :=
  match s with
  | "" => None
  | String a "" => if Ascii.eqb a "+" || Ascii.eqb a "-" then None else parse_digits max s 0
  | String a r => if Ascii.eqb a "+" then parse_digits max r 0 else parse_digits max s 0
  end.

Definition parse_u64 (s : string) : option Z := parse_unsigned U64_MAX s.
Definition parse_u32 (s : string) : option Z := parse_unsigned U32_MAX s.

(** ** Lemmas *)

Fixpoint all_chars (P : ascii -> bool) (s : string) : bool :=
  match s with "" => true | String a r => P a && all_chars P r end.

Lemma sapp_assoc (a b c : string) : (a +++ b) +++ c = a +++ (b +++ c).
Proof. induction a as [|x a IH]; cbn; [done|]. by rewrite IH. Qed.

Lemma sapp_nil_r (a : string) : a +++ "" = a.
Proof. induction a as [|x a IH]; cbn; [done|]. by rewrite IH. Qed.

Lemma srev_app (a b : string) : srev (a +++ b) = srev b +++ srev a.
Proof.
  induction a as [|x a IH]; cbn; [by rewrite sapp_nil_r|].
  by rewrite IH, sapp_assoc.
Qed.

Lemma srev_srev (a : string) : srev (srev a) = a.
Proof.
  induction a as [|x a IH]; [done|]. cbn [srev]. rewrite srev_app. cbn. by rewrite IH.
Qed.

Lemma all_chars_app P a b : all_chars P (a +++ b) = all_chars P a && all_chars P b.
Proof. induction a as [|x a IH]; cbn; [done|]. rewrite IH. by rewrite andb_assoc. Qed.

Lemma strip_prefix_app p s : strip_prefix p (p +++ s) = Some s.
Proof. induction p as [|a p IH]; cbn; [by destruct s|]. by rewrite Ascii.eqb_refl. Qed.

Lemma strip_prefix_Some p s r : strip_prefix p s = Some r -> s = p +++ r.
Proof.
  revert s. induction p as [|a p IH]; intros s H; cbn in *.
  - destruct s; by simplify_eq.
  - destruct s as [|b s]; [done|]. destruct (Ascii.eqb a b) eqn:E; [|done].
    apply Ascii.eqb_eq in E as ->. cbn. f_equal. by apply IH.
Qed.

Lemma split_once_app c k v :
  all_chars (fun a => negb (Ascii.eqb a c)) k = true ->
  split_once c (k +++ String c v) = Some (k, v).
Proof.
  induction k as [|a k IH]; cbn; intros H.
  - by rewrite Ascii.eqb_refl.
  - apply andb_true_iff in H as [Ha Hk]. rewrite negb_true_iff in Ha.
    rewrite Ha, IH by done. done.
Qed.

Lemma split_once_Some c s k v :
  split_once c s = Some (k, v) ->
  s = k +++ String c v /\ all_chars (fun a => negb (Ascii.eqb a c)) k = true.
Proof.
  revert k. induction s as [|a s IH]; intros k H; cbn in *; [done|].
  destruct (Ascii.eqb a c) eqn:E.
  - simplify_eq. apply Ascii.eqb_eq in E as ->. done.
  - destruct (split_once c s) as [[x y]|]; simplify_eq.
    destruct (IH x eq_refl) as [-> Hx]. cbn. by rewrite E, Hx.
Qed.

Lemma lines_go_line cur l r :
  all_chars (fun a => negb (Ascii.eqb a NL)) l = true ->
  lines_go cur (l +++ String NL r) = strip_cr (cur +++ l) :: lines_go "" r.
Proof.
  revert cur. induction l as [|a l IH]; intros cur H.
  - cbn. by rewrite sapp_nil_r.
  - cbn in H. apply andb_true_iff in H as [Ha Hl]. rewrite negb_true_iff in Ha.
    cbn [String.append lines_go]. rewrite Ha, IH by done. by rewrite sapp_assoc.
Qed.

Lemma strip_cr_id l :
  all_chars (fun a => negb (Ascii.eqb a CR)) l = true -> strip_cr l = l.
Proof.
  intros H. unfold strip_cr. rewrite <- (srev_srev l) in H |- *.
  rewrite srev_srev. destruct (srev l) as [|a r]; [done|].
  cbn [srev] in H. rewrite all_chars_app in H. cbn in H.
  apply andb_true_iff in H as [_ H]. rewrite andb_true_r, negb_true_iff in H.
  by rewrite H.
Qed.

(** *** Trimming *)

(** A string that starts (ends) with an ASCII non-blank byte is not trimmed there. *)
Definition ascii_solid (a : ascii) : bool := (code a <? 128) && negb (ascii_ws a).

Lemma ws2_ascii a b : code a < 128 -> ws2 a b = false.
Proof. intros H. unfold ws2. zdec (code a =? 194) false. done. Qed.

Lemma ws3_ascii a b c : code a < 128 -> ws3 a b c = false.
Proof.
  intros H. unfold ws3. zdec (code a =? 225) false. zdec (code a =? 226) false.
  zdec (code a =? 227) false. done.
Qed.

Lemma ws2_ascii_r a b : code b < 128 -> ws2 a b = false.
Proof.
  intros H. unfold ws2. zdec (code b =? 133) false. zdec (code b =? 160) false.
  by rewrite andb_false_r.
Qed.

Lemma ws3_ascii_m a b c : code b < 128 -> ws3 a b c = false.
Proof.
  intros H. unfold ws3. zdec (code b =? 154) false. zdec (code b =? 128) false.
  zdec (code b =? 129) false. by rewrite !andb_false_r.
Qed.

Lemma ws3_ascii_r a b c : code c < 128 -> ws3 a b c = false.
Proof.
  intros H. unfold ws3. zdec (code c =? 128) false. zdec (128 <=? code c) false.
  zdec (code c =? 168) false. zdec (code c =? 169) false. zdec (code c =? 175) false.
  zdec (code c =? 159) false. by rewrite !andb_false_r.
Qed.

Lemma trim_start_solid a r : ascii_solid a = true -> trim_start (String a r) = String a r.
Proof.
  unfold ascii_solid. intros H. zbool. cbn [trim_start].
  match goal with H : ascii_ws a = false |- _ => rewrite H end.
  destruct r as [|b [|c r]]; [done| |]; rewrite ws2_ascii by done; [done|].
  by rewrite ws3_ascii.
Qed.

Lemma trim_start_rev_solid a r :
  ascii_solid a = true -> trim_start_rev (String a r) = String a r.
Proof.
  unfold ascii_solid. intros H. zbool. cbn [trim_start_rev].
  match goal with H : ascii_ws a = false |- _ => rewrite H end.
  destruct r as [|b [|c r]]; [done| |]; rewrite ws2_ascii_r by done; [done|].
  by rewrite ws3_ascii_r.
Qed.

Lemma trim_end_solid s a : ascii_solid a = true -> trim_end (s +++ String a "") = s +++ String a "".
Proof.
  intros H. unfold trim_end. rewrite srev_app. cbn [srev String.append].
  rewrite trim_start_rev_solid by done. cbn [srev]. by rewrite srev_srev.
Qed.

(** Each round of the trimming loop drops a non-empty prefix. *)
Lemma trim_start_rev_step s :
  trim_start_rev s = s \/
  exists r, (String.length r < String.length s)%nat /\ trim_start_rev s = trim_start_rev r.
Proof.
  destruct s as [|a r1]; [by left|]. cbn [trim_start_rev].
  destruct (ascii_ws a); [right; exists r1; cbn; split; [lia|done]|].
  destruct r1 as [|b r2]; [by left|].
  destruct (ws2 b a); [right; exists r2; cbn; split; [lia|done]|].
  destruct r2 as [|c r3]; [by left|].
  destruct (ws3 c b a); [right; exists r3; cbn; split; [lia|done]|by left].
Qed.

Lemma trim_start_rev_length s : (String.length (trim_start_rev s) <= String.length s)%nat.
Proof.
  induction s as [s IH] using (induction_ltof1 _ String.length). unfold ltof in IH.
  destruct (trim_start_rev_step s) as [->|(r & Hr & ->)]; [done|].
  specialize (IH r Hr). lia.
Qed.

(** A non-empty, already trimmed value stays trimmed behind an ASCII separator. *)
Lemma trim_start_rev_sep v k c :
  ascii_solid c = true -> v <> "" -> trim_start_rev v = v ->
  trim_start_rev (v +++ String c k) = v +++ String c k.
Proof.
  intros Hc Hv Ht. pose proof Hc as Hc'. unfold ascii_solid in Hc'. zbool.
  destruct v as [|x1 v]; [done|]. clear Hv. cbn [trim_start_rev] in Ht.
  assert (Hlt : forall w, trim_start_rev w = String x1 v ->
            (String.length w <= String.length v)%nat -> False).
  { intros w Hw Hl. pose proof (trim_start_rev_length w) as Hlen. rewrite Hw in Hlen.
    cbn in Hlen. lia. }
  destruct (ascii_ws x1) eqn:E1; [exfalso; apply (Hlt v); [done|lia]|].
  destruct v as [|x2 v]; cbn [String.append trim_start_rev]; rewrite E1.
  { rewrite ws2_ascii by done. destruct k as [|c3 k]; [done|]. by rewrite ws3_ascii_m. }
  destruct (ws2 x2 x1) eqn:E2; [exfalso; apply (Hlt v); [done|cbn; lia]|].
  destruct v as [|x3 v]; cbn [String.append].
  { by rewrite ws3_ascii. }
  destruct (ws3 x3 x2 x1) eqn:E3; [|done].
  exfalso; apply (Hlt v); [done|cbn; lia].
Qed.

Lemma trim_end_sep k c v :
  ascii_solid c = true -> v <> "" -> trim_end v = v ->
  trim_end (k +++ String c v) = k +++ String c v.
Proof.
  intros Hc Hv Ht. unfold trim_end in *.
  assert (Hr : srev v <> "").
  { intros E. apply (f_equal srev) in E. rewrite srev_srev in E. done. }
  assert (Ht' : trim_start_rev (srev v) = srev v) by (by rewrite <- Ht at 2; rewrite srev_srev).
  change (String c v) with (String c "" +++ v). rewrite <- sapp_assoc.
  rewrite srev_app, srev_app. cbn [srev String.append].
  rewrite trim_start_rev_sep by done.
  change (String c (srev k)) with (String c "" +++ srev k).
  rewrite !srev_app, !srev_srev. cbn. by rewrite sapp_assoc.
Qed.

(** *** Decimal round trip *)

Lemma code_digit d : 0 <= d <= 9 -> code (digit_char d) = 48 + d.
Proof.
  intros H. unfold code, digit_char. rewrite N_ascii_embedding by lia. lia.
Qed.

Lemma char_digit_digit d : 0 <= d <= 9 -> char_digit (digit_char d) = Some d.
Proof.
  intros H. unfold char_digit. rewrite code_digit by done.
  zdec (48 <=? 48 + d) true. zdec (48 + d <=? 57) true. cbn. f_equal. lia.
Qed.

Definition is_digit (a : ascii) : bool := (48 <=? code a) && (code a <=? 57).

Lemma is_digit_digit d : 0 <= d <= 9 -> is_digit (digit_char d) = true.
Proof.
  intros H. unfold is_digit. rewrite code_digit by done.
  zdec (48 <=? 48 + d) true. zdec (48 + d <=? 57) true. done.
Qed.

Lemma show_go_digits fuel n acc :
  0 <= n -> all_chars is_digit acc = true -> all_chars is_digit (show_go fuel n acc) = true.
Proof.
  revert n acc. induction fuel as [|fuel IH]; intros n acc Hn Hacc; cbn [show_go]; [done|].
  case_test.
  - cbn [all_chars]. by rewrite is_digit_digit by lia.
  - apply IH; [apply Z.div_pos; lia|]. cbn [all_chars].
    rewrite is_digit_digit; [done|]. pose proof (Z.mod_pos_bound n 10). lia.
Qed.

Lemma show_Z_digits n : 0 <= n -> all_chars is_digit (show_Z n) = true.
Proof. intros. by apply show_go_digits. Qed.

Lemma show_go_nonempty fuel n acc : acc <> "" -> show_go fuel n acc <> "".
Proof.
  revert n acc. induction fuel as [|fuel IH]; intros n acc H; cbn [show_go]; [done|].
  case_test; [done|]. by apply IH.
Qed.

Lemma show_Z_nonempty n : show_Z n <> "".
Proof.
  unfold show_Z. cbn [show_go]. case_test; [done|]. by apply show_go_nonempty.
Qed.

Lemma parse_show_go max fuel n acc :
  0 <= n <= max -> n < 2 ^ Z.of_nat fuel ->
  parse_digits max (show_go fuel n acc) 0 = parse_digits max acc n.
Proof.
  revert n acc. induction fuel as [|fuel IH]; intros n acc Hn Hf; cbn [show_go].
  - cbn in Hf. by replace n with 0 by lia.
  - case_test.
    + cbn [parse_digits]. rewrite char_digit_digit by lia.
      zdec (max <? 0 * 10) false. zdec (max <? 0 * 10 + n) false. done.
    + pose proof (Z.div_mod n 10 ltac:(lia)) as Hdm.
      pose proof (Z.mod_pos_bound n 10 ltac:(lia)) as Hmod.
      rewrite IH; [| lia |].
      * cbn [parse_digits]. rewrite char_digit_digit by lia.
        zdec (max <? n / 10 * 10) false. zdec (max <? n / 10 * 10 + n mod 10) false.
        f_equal. lia.
      * rewrite Nat2Z.inj_succ, Z.pow_succ_r in Hf by lia. lia.
Qed.

Lemma digit_not_sign a : is_digit a = true -> Ascii.eqb a "+" = false /\ Ascii.eqb a "-" = false.
Proof.
  unfold is_digit. intros H. zbool.
  split; destruct (Ascii.eqb _ _) eqn:E; try done; apply Ascii.eqb_eq in E; subst;
    repeat match goal with H : _ <= _ |- _ => vm_compute in H end; congruence.
Qed.

Lemma parse_digits_show_Z max n : 0 <= n <= max -> parse_digits max (show_Z n) 0 = Some n.
Proof.
  intros Hn. unfold show_Z. rewrite parse_show_go; [done|done|].
  destruct (decide (n = 0)) as [->|Hz]; [cbn; lia|].
  pose proof (Z.log2_spec n ltac:(lia)). pose proof (Z.log2_nonneg n).
  rewrite Nat2Z.inj_succ, Z2Nat.id by lia. lia.
Qed.

Lemma parse_show_Z max n : 0 <= n <= max -> parse_unsigned max (show_Z n) = Some n.
Proof.
  intros Hn. pose proof (parse_digits_show_Z max n Hn) as Hp.
  pose proof (show_Z_digits n ltac:(lia)) as Hd.
  unfold parse_unsigned. destruct (show_Z n) as [|a [|b r]] eqn:E.
  - by apply show_Z_nonempty in E.
  - cbn in Hd. apply andb_true_iff in Hd as [Ha _].
    apply digit_not_sign in Ha as [-> ->]. done.
  - cbn in Hd. apply andb_true_iff in Hd as [Ha _].
    apply digit_not_sign in Ha as [-> _]. done.
Qed.

Lemma all_chars_impl (P Q : ascii -> bool) s :
  (forall a, P a = true -> Q a = true) -> all_chars P s = true -> all_chars Q s = true.
Proof.
  intros HPQ. induction s as [|a s IH]; cbn; [done|]. intros H.
  apply andb_true_iff in H as [Ha Hs]. by rewrite HPQ, IH.
Qed.

Lemma digit_solid a : is_digit a = true -> ascii_solid a = true.
Proof.
  unfold is_digit, ascii_solid, ascii_ws. intros H. zbool.
  zdec (code a <? 128) true. zdec (code a <=? 13) false. zdec (code a =? 32) false.
  by rewrite andb_false_r.
Qed.

Lemma digit_neq a c : is_digit a = true -> is_digit c = false -> negb (Ascii.eqb a c) = true.
Proof.
  intros Ha Hc. rewrite negb_true_iff. apply Ascii.eqb_neq. by intros ->; congruence.
Qed.

Lemma trim_end_digits s : s <> "" -> all_chars is_digit s = true -> trim_end s = s.
Proof.
  intros Hs Hd. rewrite <- (srev_srev s) in Hd |- *.
  destruct (srev s) as [|a r] eqn:E.
  - apply (f_equal srev) in E. rewrite srev_srev in E. done.
  - cbn [srev] in *. rewrite all_chars_app in Hd. cbn in Hd.
    apply andb_true_iff in Hd as [_ Hd]. rewrite andb_true_r in Hd.
    apply trim_end_solid. by apply digit_solid.
Qed.

#[export] Hint Resolve show_Z_digits show_Z_nonempty trim_end_digits digit_solid : rust.
