(* ===== verification/Errors.v ===== *)
(** * Error values (src/src/error.rs)

    [SyncError] with the constructors of the source, its [Display] and the
    [Result] alias.  [std::io::Error] is kept as a kind and a text. *)

From S2P Require Import Prelude RustStr.

Inductive IoKind := NotFound | OtherKind.

Record IoError := mk_io_error { io_kind : IoKind; io_text : string }.

Inductive SyncError : Type :=
| Sqlite (code : Z) (msg : string)
| Io (e : IoError)
| Protocol (msg : string)
| RemoteLaunch (msg : string)
| Network (msg : string)
| PageSizeMismatch (origin replica : Z)
| Busy (msg : string)
| Codec (msg : string).

Abbreviation SyncResult := (Result SyncError).

#[export] Instance IoKind_eq_dec : EqDecision IoKind.
Proof. solve_decision. Defined.
#[export] Instance IoError_eq_dec : EqDecision IoError.
Proof. solve_decision. Defined.
#[export] Instance SyncError_eq_dec : EqDecision SyncError.
Proof. solve_decision. Defined.

(** [SyncError::sqlite]. *)
Definition sqlite (code : Z) (msg : string) : SyncError := Sqlite code msg.

(** Decimal [Display] of a signed integer. *)
Definition show_int (n : Z) : string :=
  if n <? 0 then "-" +++ show_Z (- n) else show_Z n.

(** The [#[error(...)]] texts. *)
Definition SyncError_to_string (e : SyncError) : string :=
  match e with
  | Sqlite code msg => "SQLite error (code " +++ show_int code +++ "): " +++ msg
  | Io e => "I/O error: " +++ io_text e
  | Protocol m => "Protocol error: " +++ m
  | RemoteLaunch m => "Failed to launch remote endpoint: " +++ m
  | Network m => "Network error: " +++ m
  | PageSizeMismatch o r =>
      "Page-size mismatch: origin=" +++ show_Z o +++ ", replica=" +++ show_Z r
  | Busy m => "Database busy / locked: " +++ m
  | Codec m => "Codec error: " +++ m
  end.
