(* ===== verification/Hash.v ===== *)
(** * Page and group hashes (src/src/hash.rs)

    The digest functions of the crates [sha2] and [blake3] are the fields of the
    class [Digests]; [DigestLaws] states their documented output size.  No
    injectivity is assumed of them: the theorems that need the absence of a
    collision name the pages and groups concerned. *)

From S2P Require Import Prelude.

Class Digests := {
  sha256 : bytes -> bytes;
  blake3 : bytes -> bytes;
}.

Class DigestLaws `{!Digests} : Prop := {
  sha256_length : forall b, length (sha256 b) = 32%nat;
  blake3_length : forall b, length (blake3 b) = 32%nat;
}.

(** Number of pages per coarse hash group. *)
Definition GROUP_SIZE : Z := 64.

(** A [[u8; 32]]. *)
Abbreviation PageHash := (list Z) (only parsing).

Inductive HashAlgorithm := Sha256V1 | Blake3V2.

#[export] Instance HashAlgorithm_eq_dec : EqDecision HashAlgorithm.
Proof. solve_decision. Defined.

Definition from_protocol_version (version : Z) : option HashAlgorithm :=
  match version with
  | 1 => Some Sha256V1
  | 2 => Some Blake3V2
  | _ => None
  end.

Section Hashing.
Context `{!Digests}.

Definition hash_page_for (data : bytes) (algorithm : HashAlgorithm) : PageHash :=
  match algorithm with
  | Sha256V1 => sha256 data
  | Blake3V2 => blake3 data
  end.

Definition hash_page (data : bytes) : PageHash := hash_page_for data Blake3V2.

(** An incremental hasher absorbs its updates in order: its digest is the
    digest of their concatenation. *)
Definition hash_group_for (hashes : list PageHash) (algorithm : HashAlgorithm) : PageHash :=
  match algorithm with
  | Sha256V1 => sha256 (concat hashes)
  | Blake3V2 => blake3 (concat hashes)
  end.

Definition hash_group (hashes : list PageHash) : PageHash := hash_group_for hashes Blake3V2.

Context `{!DigestLaws}.

Lemma hash_page_for_length data alg : length (hash_page_for data alg) = 32%nat.
Proof. destruct alg; [apply sha256_length | apply blake3_length]. Qed.

Lemma hash_group_for_length hs alg : length (hash_group_for hs alg) = 32%nat.
Proof. destruct alg; [apply sha256_length | apply blake3_length]. Qed.
End Hashing.

(** A concatenation of 32-byte digests determines the digests. *)
Lemma concat_fixed_inj {A} (n : nat) (l1 l2 : list (list A)) :
  (0 < n)%nat ->
  Forall (fun h => length h = n) l1 -> Forall (fun h => length h = n) l2 ->
  concat l1 = concat l2 -> l1 = l2.
Proof.
  intros Hn H1. revert l2. induction H1 as [|h1 l1 Hh1 H1 IH]; intros l2 H2 E.
  - destruct H2 as [|h2 l2 Hh2 _]; [done|]. destruct h2; cbn in *; [lia|done].
  - destruct H2 as [|h2 l2 Hh2 H2]; cbn in E.
    + destruct h1; cbn in *; [lia|done].
    + apply app_inj_1 in E as [-> E]; [|lia]. f_equal. by apply IH.
Qed.
