(* ===== verification/Messages.v ===== *)
(** * Wire messages and their framing (src/src/protocol/messages.rs)

    [bincode] (a crate) is the class [Bincode]: a serialiser and a deserialiser of
    messages; [BincodeLaws] is its documented round trip. *)

From S2P Require Import Prelude RustStr Errors Hash.

Definition PROTOCOL_VERSION : Z := 2.
Definition MAX_MESSAGE_SIZE : Z := 256 * 1024 * 1024.

Record PageData := mk_page { page_no : Z; data : bytes }.

Inductive Message : Type :=
| Hello (version page_size page_count : Z)
| HelloAck (version page_size page_count : Z)
| GroupHashes (first_group : Z) (hashes : list PageHash)
| GroupsNeedFine (group_indices : list Z)
| PageHashes (page_nos : list Z) (hashes : list PageHash)
| SendPages (pages : list PageData)
| PagesAck (page_nos : list Z)
| Done
| Error (message : string).

#[export] Instance PageData_eq_dec : EqDecision PageData.
Proof. solve_decision. Defined.
#[export] Instance Message_eq_dec : EqDecision Message.
Proof. solve_decision. Defined.

(** [{:?}] of the derived [Debug], as it appears in the error texts.  The texts
    print a message only after the [Error] variant was handled apart. *)
Fixpoint show_list {A} (f : A -> string) (l : list A) : string :=
  match l with
  | [] => ""
  | [x] => f x
  | x :: l => f x +++ ", " +++ show_list f l
  end.
Definition debug_list {A} (f : A -> string) (l : list A) : string :=
  "[" +++ show_list f l +++ "]".
Definition debug_page (p : PageData) : string :=
  "PageData { page_no: " +++ show_Z (page_no p) +++
  ", data: " +++ debug_list show_Z (data p) +++ " }".
Definition debug_message (m : Message) : string :=
  let hello n v s c :=
    n +++ " { version: " +++ show_Z v +++ ", page_size: " +++ show_Z s +++
    ", page_count: " +++ show_Z c +++ " }" in
  match m with
  | Hello v s c => hello "Hello" v s c
  | HelloAck v s c => hello "HelloAck" v s c
  | GroupHashes g hs =>
      "GroupHashes { first_group: " +++ show_Z g +++ ", hashes: " +++
      debug_list (debug_list show_Z) hs +++ " }"
  | GroupsNeedFine gs => "GroupsNeedFine { group_indices: " +++ debug_list show_Z gs +++ " }"
  | PageHashes ps hs =>
      "PageHashes { page_nos: " +++ debug_list show_Z ps +++ ", hashes: " +++
      debug_list (debug_list show_Z) hs +++ " }"
  | SendPages ps => "SendPages { pages: " +++ debug_list debug_page ps +++ " }"
  | PagesAck ps => "PagesAck { page_nos: " +++ debug_list show_Z ps +++ " }"
  | Done => "Done"
  | Error m => "Error { message: " +++ String DQUOTE (m +++ String DQUOTE " }")
  end.

(** [u32::to_le_bytes] and [u32::from_le_bytes]. *)
Definition to_le_bytes (n : Z) : bytes :=
  [n mod 256; (n / 256) mod 256; (n / 65536) mod 256; (n / 16777216) mod 256].
Definition from_le_bytes (b : bytes) : Z :=
  match b with
  | [b0; b1; b2; b3] => b0 + 256 * b1 + 65536 * b2 + 16777216 * b3
  | _ => 0
  end.

Class Bincode := {
  bincode_encode : Message -> Result string bytes;
  bincode_decode : bytes -> Result string (Message * Z);
}.

Class BincodeLaws `{!Bincode} : Prop := {
  bincode_round_trip : forall m b,
    bincode_encode m = Ok b -> exists n, bincode_decode b = Ok (m, n);
}.

Section Codec.
Context `{!Bincode}.

Definition encode (msg : Message) : SyncResult bytes :=
  match bincode_encode msg with
  | Err e => Err (Codec e)
  | Ok payload =>
      let len := u32 (zlen payload) in
      Ok (to_le_bytes len ++ payload)
  end.

Definition decode (buf : bytes) : SyncResult (Message * Z) :=
  if zlen buf <? 4 then Err (Codec "buffer too short for length prefix") else
  let len := from_le_bytes (take 4 buf) in
  if MAX_MESSAGE_SIZE <? len then
    Err (Codec ("message frame exceeds max size: " +++ show_Z len +++ " > " +++
                show_Z MAX_MESSAGE_SIZE)) else
  if zlen buf <? 4 + len then
    Err (Codec ("buffer has " +++ show_Z (zlen buf - 4) +++ " bytes but expected " +++
                show_Z len +++ " payload bytes")) else
  match bincode_decode (take (Z.to_nat len) (drop 4 buf)) with
  | Err e => Err (Codec e)
  | Ok (msg, _) => Ok (msg, 4 + len)
  end.

(** [transport::try_take_framed_message]: the result and the buffer after it. *)
Definition try_take_framed_message (buf : bytes) : SyncResult (option Message) * bytes :=
  if zlen buf <? 4 then (Ok None, buf) else
  let payload_len := from_le_bytes (take 4 buf) in
  if MAX_MESSAGE_SIZE <? payload_len then
    (Err (Codec ("message frame exceeds max size: " +++ show_Z payload_len +++ " > " +++
                 show_Z MAX_MESSAGE_SIZE)), buf) else
  if zlen buf <? 4 + payload_len then (Ok None, buf) else
  match decode buf with
  | Err e => (Err e, buf)
  | Ok (msg, consumed) => (Ok (Some msg), drop (Z.to_nat consumed) buf)
  end.
End Codec.

(** ** Little-endian lemmas *)

Lemma to_le_bytes_length n : length (to_le_bytes n) = 4%nat.
Proof. done. Qed.

Lemma from_to_le_bytes n : is_u32 n -> from_le_bytes (to_le_bytes n) = n.
Proof.
  unfold is_u32. intros H. cbn -[Z.div Z.modulo].
  Z.to_euclidean_division_equations; lia.
Qed.

Lemma zlen_to_le_bytes n : zlen (to_le_bytes n) = 4.
Proof. done. Qed.

Lemma take4_le n (b : bytes) : take 4 (to_le_bytes n ++ b) = to_le_bytes n.
Proof. done. Qed.

Lemma drop4_le n (b : bytes) : drop 4 (to_le_bytes n ++ b) = b.
Proof. done. Qed.

(** ** A frame at the front of a buffer *)
Section FrameLemmas.
Context `{!Bincode, !BincodeLaws}.

Lemma encode_Ok m e :
  encode m = Ok e ->
  exists payload, bincode_encode m = Ok payload /\
    e = to_le_bytes (u32 (zlen payload)) ++ payload.
Proof.
  unfold encode. destruct (bincode_encode m) as [p|]; [|done].
  intros [= <-]. by exists p.
Qed.

(** The size of the payload of a frame. *)
Definition payload_size (e : bytes) : Z := zlen e - 4.

Lemma frame_front m e rest :
  encode m = Ok e -> payload_size e <= MAX_MESSAGE_SIZE ->
  decode (e ++ rest) = Ok (m, zlen e) /\
  try_take_framed_message (e ++ rest) = (Ok (Some m), rest).
Proof.
  intros (p & Hp & ->)%encode_Ok Hsize.
  unfold payload_size in Hsize. rewrite zlen_app, zlen_to_le_bytes in Hsize.
  pose proof (zlen_nonneg p) as Hp0. unfold MAX_MESSAGE_SIZE in Hsize.
  assert (Hu : is_u32 (zlen p)) by (unfold is_u32; lia).
  rewrite (u32_id _ Hu).
  assert (Hd : decode ((to_le_bytes (zlen p) ++ p) ++ rest) =
               Ok (m, zlen (to_le_bytes (zlen p) ++ p))).
  { unfold decode. rewrite <- app_assoc, take4_le, drop4_le, from_to_le_bytes by done.
    rewrite !zlen_app, zlen_to_le_bytes. pose proof (zlen_nonneg rest).
    zdec (4 + (zlen p + zlen rest) <? 4) false. cbn zeta.
    unfold MAX_MESSAGE_SIZE. zdec (256 * 1024 * 1024 <? zlen p) false.
    zdec (4 + (zlen p + zlen rest) <? 4 + zlen p) false.
    replace (Z.to_nat (zlen p)) with (length p) by (unfold zlen; lia).
    rewrite take_app_length.
    destruct (bincode_round_trip _ _ Hp) as [n ->]. done. }
  split; [done|].
  unfold try_take_framed_message. rewrite Hd. clear Hd.
  rewrite <- app_assoc, take4_le, from_to_le_bytes by done.
  rewrite !zlen_app, zlen_to_le_bytes. pose proof (zlen_nonneg rest).
  zdec (4 + (zlen p + zlen rest) <? 4) false. cbn zeta.
  unfold MAX_MESSAGE_SIZE. zdec (256 * 1024 * 1024 <? zlen p) false.
  zdec (4 + (zlen p + zlen rest) <? 4 + zlen p) false.
  f_equal. replace (Z.to_nat (4 + zlen p)) with (4 + length p)%nat by (unfold zlen; lia).
  rewrite app_assoc. replace (4 + length p)%nat with (length (to_le_bytes (zlen p) ++ p))
    by (rewrite length_app; done).
  apply drop_app_length.
Qed.

(** A strict prefix of a frame is not a message yet: the buffer is kept. *)
Lemma frame_incomplete m e b rest :
  encode m = Ok e -> payload_size e <= MAX_MESSAGE_SIZE ->
  e = b ++ rest -> rest <> [] ->
  try_take_framed_message b = (Ok None, b).
Proof.
  intros (p & Hp & ->)%encode_Ok Hsize He Hne.
  unfold payload_size in Hsize. rewrite zlen_app, zlen_to_le_bytes in Hsize.
  pose proof (zlen_nonneg p) as Hp0. unfold MAX_MESSAGE_SIZE in Hsize.
  assert (Hu : is_u32 (zlen p)) by (unfold is_u32; lia).
  rewrite (u32_id _ Hu) in He.
  assert (Hr : 0 < zlen rest) by (destruct rest; [done|unfold zlen; cbn; lia]).
  unfold try_take_framed_message. destruct (zlen b <? 4) eqn:E; [done|]. zbool.
  assert (take 4 b = to_le_bytes (zlen p)) as ->.
  { apply (f_equal (take 4)) in He. rewrite take4_le, take_app_le in He; [done|].
    unfold zlen in E. lia. }
  rewrite from_to_le_bytes by done. cbn zeta. unfold MAX_MESSAGE_SIZE.
  zdec (256 * 1024 * 1024 <? zlen p) false.
  apply (f_equal zlen) in He. rewrite !zlen_app, zlen_to_le_bytes in He.
  zdec (zlen b <? 4 + zlen p) true. done.
Qed.
End FrameLemmas.
