(* ===== verification/Proc.v ===== *)
(** * Protocol processes

    An [async fn] of the protocol is a tree of the effects it awaits: sending and
    receiving a message ([Transport::send], [Transport::recv]) and writing a page
    of the replica file ([Connection::write_page]).  Every effect returns a
    [Result] that the process inspects; [Panic] is an unwinding panic.

    [never_panics] quantifies over every answer of the environment, so it speaks
    of every peer and of every transport or disk failure. *)

From S2P Require Import Prelude RustStr Errors Hash Messages.

Inductive proc (A : Type) : Type :=
| Ret (a : A)
| Panic
| Send (m : Message) (k : SyncResult unit -> proc A)
| Recv (k : SyncResult Message -> proc A)
| Write (page_no : Z) (data : bytes) (k : SyncResult unit -> proc A).
Arguments Ret {A} a.
Arguments Panic {A}.
Arguments Send {A} m k.
Arguments Recv {A} k.
Arguments Write {A} page_no data k.

Fixpoint pbind {A B} (p : proc A) (f : A -> proc B) : proc B :=
  match p with
  | Ret a => f a
  | Panic => Panic
  | Send m k => Send m (fun r => pbind (k r) f)
  | Recv k => Recv (fun r => pbind (k r) f)
  | Write n d k => Write n d (fun r => pbind (k r) f)
  end.

(** [c?; k] for an effectful [c]. *)
Definition pbindr {A B} (p : proc (SyncResult A)) (f : A -> proc (SyncResult B))
  : proc (SyncResult B) :=
  pbind p (fun r => match r with Ok a => f a | Err e => Ret (Err e) end).

Definition send (m : Message) : proc (SyncResult unit) := Send m Ret.
Definition recv : proc (SyncResult Message) := Recv Ret.
Definition write (n : Z) (d : bytes) : proc (SyncResult unit) := Write n d Ret.

(** A pure [Result] and a computation that may panic, inside a process. *)
Definition ret_err {A} (e : SyncError) : proc (SyncResult A) := Ret (Err e).
Definition lift {A} (o : option A) : proc A :=
  match o with Some a => Ret a | None => Panic end.

Notation "'await?' x ':=' c 'in' k" := (pbindr c (fun x => k))
  (at level 10, x pattern, c at level 100, k at level 200) : rust_scope.
Notation "'await' x ':=' c 'in' k" := (pbind c (fun x => k))
  (at level 10, x pattern, c at level 100, k at level 200) : rust_scope.

(** Whatever the environment answers, the process does not panic. *)
Fixpoint never_panics {A} (p : proc A) : Prop :=
  match p with
  | Ret _ => True
  | Panic => False
  | Send _ k => forall r, never_panics (k r)
  | Recv k => forall r, never_panics (k r)
  | Write _ _ k => forall r, never_panics (k r)
  end.

Lemma never_panics_bind {A B} (p : proc A) (f : A -> proc B) :
  never_panics p -> (forall a, never_panics (f a)) -> never_panics (pbind p f).
Proof. intros Hp Hf. induction p; cbn in *; auto. Qed.

Lemma never_panics_bindr {A B} (p : proc (SyncResult A)) (f : A -> proc (SyncResult B)) :
  never_panics p -> (forall a, never_panics (f a)) -> never_panics (pbindr p f).
Proof. intros Hp Hf. apply never_panics_bind; [done|]. intros [a|e]; cbn; auto. Qed.

(** Solve [never_panics] of a process by walking through its effects. *)
Ltac no_panic :=
  repeat first
    [ progress intros
    | progress cbn [never_panics send recv write ret_err]
    | apply never_panics_bindr
    | apply never_panics_bind
    | match goal with |- never_panics (match ?x with _ => _ end) => destruct x end
    | match goal with |- never_panics (if ?x then _ else _) => destruct x end
    | done ].

(** ** A process against a scripted peer

    The mock of the handlers' unit tests: the messages the process will receive
    and the messages it sent; [write_page] applies to a state of the caller. *)
Section Script.
Context {W : Type} (apply_write : W -> Z -> bytes -> SyncResult unit * W).

Record Outcome (A : Type) := mk_outcome {
  out_result : option A;          (* [None]: still waiting for a message *)
  out_panicked : bool;
  out_sent : list Message;
  out_world : W;
}.
Global Arguments mk_outcome {A}.
Global Arguments out_result {A}.
Global Arguments out_panicked {A}.
Global Arguments out_sent {A}.
Global Arguments out_world {A}.

Fixpoint run_script {A} (p : proc A) (inbox : list (SyncResult Message)) (w : W) : Outcome A :=
  match p with
  | Ret a => mk_outcome (Some a) false [] w
  | Panic => mk_outcome None true [] w
  | Send m k =>
      let o := run_script (k (Ok tt)) inbox w in
      mk_outcome (out_result o) (out_panicked o) (m :: out_sent o) (out_world o)
  | Recv k =>
      match inbox with
      | [] => mk_outcome None false [] w
      | r :: inbox => run_script (k r) inbox w
      end
  | Write n d k =>
      let '(r, w) := apply_write w n d in run_script (k r) inbox w
  end.
End Script.
