(* ===== verification/Db.v ===== *)
(** * The database file and SQLite connection (src/src/db.rs, src/src/snapshot.rs)

    A [Connection] is the page size, the bytes of the database file reached through
    the cached descriptors, and what the SQLite library answers on its handle.  The
    library (a C dependency) appears as data: the outcomes of successive
    [sqlite3_prepare_v2]/[sqlite3_step] calls and the result of
    [sqlite3_serialize]. *)

From S2P Require Import Prelude RustStr Errors.

Definition SQLITE_OK : Z := 0.
Definition SQLITE_BUSY : Z := 5.
Definition SQLITE_LOCKED : Z := 6.
Definition SQLITE_NOMEM : Z := 7.
Definition SQLITE_ROW : Z := 100.
Definition SQLITE_DONE : Z := 101.

(** [check]: [db] is the [sqlite3_errmsg] text, absent for a null handle. *)
Definition check (db : option string) (rc : Z) : SyncResult unit :=
  if (rc =? SQLITE_OK) || (rc =? SQLITE_DONE) || (rc =? SQLITE_ROW) then Ok tt
  else
    let msg := match db with
               | None => "SQLite error code " +++ show_int rc
               | Some errmsg => errmsg
               end in
    Err (sqlite rc msg).

Definition validate_page_no (page_no : Z) : SyncResult unit :=
  if page_no =? 0 then Err (Protocol "page numbers are 1-indexed; page 0 is invalid")
  else Ok tt.

(** ** Reading a pragma *)

Record PragmaOutcome := mk_pragma {
  prepare_rc : Z;
  prepare_errmsg : string;
  step_rc : Z;
  column_int : Z;
}.

Definition MAX_RETRIES : nat := 12.

(** One turn of the retry loop per unit of [budget]; the second component is the
    time slept, in milliseconds. *)
Fixpoint query_pragma_loop (pragma : string) (sqlite3 : nat -> PragmaOutcome)
    (attempt budget : nat) : SyncResult Z * Z :=
  match budget with
  | O => (Err (Protocol ("PRAGMA " +++ pragma +++ " exceeded retry budget")), 0)
  | S budget =>
      let o := sqlite3 attempt in
      match check (Some (prepare_errmsg o)) (prepare_rc o) with
      | Err e => (Err e, 0)
      | Ok _ =>
          let rc := step_rc o in
          if rc =? SQLITE_ROW then (Ok (u32 (column_int o)), 0)
          else if ((rc =? SQLITE_BUSY) || (rc =? SQLITE_LOCKED) || (rc =? SQLITE_DONE))
                  && (attempt <? MAX_RETRIES)%nat
          then
            let delay_ms := Z.min (Z.of_nat attempt + 1) 10 in
            let '(r, slept) := query_pragma_loop pragma sqlite3 (S attempt) budget in
            (r, delay_ms + slept)
          else
            let msg := if rc =? SQLITE_DONE then "PRAGMA " +++ pragma +++ " returned no rows"
                       else "PRAGMA " +++ pragma +++ " failed" in
            (Err (sqlite rc msg), 0)
      end
  end.

Definition query_pragma_u32 (sqlite3 : nat -> PragmaOutcome) (pragma : string)
  : SyncResult Z * Z :=
  query_pragma_loop pragma sqlite3 0 (S MAX_RETRIES).

(** ** Connection *)

Record Connection := mk_conn {
  page_size : Z;
  pragma_page_count : nat -> PragmaOutcome;    (* PRAGMA page_count on the handle *)
  sqlite3_serialize : option bytes;            (* [None] is a NULL pointer *)
  file : bytes;                                (* read_fd / write_fd *)
  write_fd : bool;                             (* present on read-write connections *)
  write_faults : list (option (nat * IoError)); (* bytes written before a failing write *)
}.

Definition page_count (c : Connection) : SyncResult Z :=
  fst (query_pragma_u32 (pragma_page_count c) "page_count").

Definition serialize (c : Connection) : SyncResult bytes :=
  match sqlite3_serialize c with
  | None => Err (sqlite SQLITE_NOMEM "sqlite3_serialize returned NULL")
  | Some bytes => Ok bytes
  end.

(** [seek] then [read] into a buffer of [ps] bytes: a regular file returns all the
    bytes there are, up to [ps]. *)
Definition read_page (c : Connection) (page_no : Z) : SyncResult bytes :=
  let? _ := validate_page_no page_no in
  let ps := page_size c in
  let offset := (page_no - 1) * page_size c in
  let buf := take (Z.to_nat ps) (drop (Z.to_nat offset) (file c)) in
  let n := zlen buf in
  if negb (n =? ps) then
    Err (sqlite 1 ("page " +++ show_Z page_no +++ " is out of range (read " +++ show_Z n +++
                   " of " +++ show_Z ps +++ " bytes)"))
  else Ok buf.

(** Bytes written at an offset of a file; a hole past the end reads as zeroes. *)
Definition file_write (f : bytes) (offset : nat) (data : bytes) : bytes :=
  take offset f ++ replicate (offset - length f) 0 ++ data ++ drop (offset + length data) f.

Definition set_file (c : Connection) (f : bytes) (faults : list (option (nat * IoError)))
  : Connection :=
  mk_conn (page_size c) (pragma_page_count c) (sqlite3_serialize c) f (write_fd c) faults.

(** [write_all]: the next entry of the fault script makes it stop part-way. *)
Definition write_all (c : Connection) (offset : nat) (data : bytes)
  : SyncResult unit * Connection :=
  match write_faults c with
  | Some (n, e) :: faults =>
      (Err (Io e), set_file c (file_write (file c) offset (take n data)) faults)
  | None :: faults => (Ok tt, set_file c (file_write (file c) offset data) faults)
  | [] => (Ok tt, set_file c (file_write (file c) offset data) [])
  end.

Definition write_page (c : Connection) (page_no : Z) (data : bytes)
  : SyncResult unit * Connection :=
  match validate_page_no page_no with
  | Err e => (Err e, c)
  | Ok _ =>
      if negb (zlen data =? page_size c) then
        (Err (Protocol ("page " +++ show_Z page_no +++ " has " +++ show_Z (zlen data) +++
                        " bytes, expected " +++ show_Z (page_size c))), c)
      else if negb (write_fd c) then
        (Err (Protocol "connection is read-only; cannot write pages"), c)
      else
        let offset := (page_no - 1) * page_size c in
        write_all c (Z.to_nat offset) data
  end.

(** ** Snapshots *)

(** [exec]: the result code and error text of [sqlite3_exec]; a NUL byte in the
    statement is refused by [CString::new] with the text [nul_error]. *)
Definition exec (sqlite3_exec : string -> Z * string) (nul_error : string -> option string)
    (sql : string) : SyncResult unit :=
  match nul_error sql with
  | Some e => Err (Protocol e)
  | None => let '(rc, errmsg) := sqlite3_exec sql in check (Some errmsg) rc
  end.

Record Snapshot := mk_snap {
  snap_bytes : bytes;
  snap_page_size : Z;
  snap_page_count : Z;
}.

Section SnapshotOps.
(** The result of [conn.exec] on the origin connection. *)
Context (conn_exec : string -> SyncResult unit).

(** The statements that reached SQLite, with the outcome. *)
Definition snapshot_begin (conn : Connection) : SyncResult Snapshot * list string :=
  match conn_exec "BEGIN DEFERRED" with
  | Err e => (Err e, ["BEGIN DEFERRED"])
  | Ok _ =>
      (let? pc := page_count conn in
       let? bytes := (if pc =? 0 then Ok [] else serialize conn) in
       Ok (mk_snap bytes (page_size conn) pc), ["BEGIN DEFERRED"])
  end.

Definition snapshot_read_page (s : Snapshot) (page_no : Z) : SyncResult bytes :=
  if page_no =? 0 then Err (Protocol "page numbers are 1-indexed; page 0 is invalid") else
  let ps := snap_page_size s in
  let offset := (page_no - 1) * ps in
  if zlen (snap_bytes s) <? offset + ps then
    Err (sqlite 1 ("page " +++ show_Z page_no +++ " is out of range (snapshot has " +++
                   show_Z (snap_page_count s) +++ " pages)"))
  else Ok (take (Z.to_nat ps) (drop (Z.to_nat offset) (snap_bytes s))).

(** [Drop for Snapshot]: the error of the rollback is ignored. *)
Definition snapshot_drop (s : Snapshot) : list string := ["ROLLBACK"].

(** [commit] consumes the snapshot: it is forgotten on success and dropped when
    [COMMIT] fails. *)
Definition snapshot_commit (s : Snapshot) : SyncResult unit * list string :=
  match conn_exec "COMMIT" with
  | Err e => (Err e, "COMMIT" :: snapshot_drop s)
  | Ok _ => (Ok tt, ["COMMIT"])
  end.
End SnapshotOps.

(** ** Lemmas on files and pages *)

(** The bytes of page [n] of an image. *)
Definition page_of (ps : Z) (image : bytes) (n : Z) : bytes :=
  take (Z.to_nat ps) (drop (Z.to_nat ((n - 1) * ps)) image).

Lemma file_write_length f off d :
  length (file_write f off d) = Nat.max (length f) (off + length d).
Proof.
  unfold file_write. rewrite !length_app, length_replicate, length_take, length_drop. lia.
Qed.

(** A byte of the written file: new inside the write, zero in the hole, old elsewhere. *)
Lemma file_write_lookup f off d i :
  (i < Nat.max (length f) (off + length d))%nat ->
  file_write f off d !! i =
    if decide (off <= i < off + length d)%nat then d !! (i - off)%nat
    else if decide (length f <= i < off)%nat then Some 0
    else f !! i.
Proof.
  intros Hi. unfold file_write.
  repeat case_decide.
  - rewrite lookup_app_r by (rewrite length_take; lia).
    rewrite lookup_app_r by (rewrite length_take, length_replicate; lia).
    rewrite length_take, length_replicate, lookup_app_l by lia. f_equal. lia.
  - rewrite lookup_app_r by (rewrite length_take; lia).
    rewrite lookup_app_l by (rewrite length_take, length_replicate; lia).
    rewrite length_take. by apply lookup_replicate_2; lia.
  - destruct (decide (i < off)%nat) as [Hlt|Hge].
    + rewrite lookup_app_l by (rewrite length_take; lia). by apply lookup_take_lt.
    + rewrite !lookup_app_r by (rewrite ?length_take, ?length_replicate; lia).
      rewrite length_take, length_replicate, lookup_drop. f_equal. lia.
Qed.

Lemma page_of_lookup ps image n j :
  0 <= ps -> 1 <= n -> (j < Z.to_nat ps)%nat ->
  page_of ps image n !! j = image !! (Z.to_nat ((n - 1) * ps) + j)%nat.
Proof. intros. unfold page_of. rewrite lookup_take_lt by done. by rewrite lookup_drop. Qed.

Lemma page_of_length ps image n :
  0 <= ps -> 1 <= n -> n * ps <= zlen image -> zlen (page_of ps image n) = ps.
Proof. intros. unfold page_of, zlen in *. rewrite length_take, length_drop. nia. Qed.

(** An image of whole pages is the concatenation of its pages. *)
Lemma image_ext ps n (i1 i2 : bytes) :
  0 < ps -> 0 <= n -> zlen i1 = n * ps -> zlen i2 = n * ps ->
  (forall p, 1 <= p <= n -> page_of ps i1 p = page_of ps i2 p) -> i1 = i2.
Proof.
  intros Hps Hn H1 H2 Hp. assert (Hlen : length i1 = length i2) by (unfold zlen in *; lia).
  apply (list_eq_same_length i1 i2 (length i1)); [done|done|].
  intros i x y Hi Hx Hy. unfold zlen in *.
  pose (p := Z.of_nat i / ps + 1). pose (j := Z.to_nat (Z.of_nat i mod ps)).
  assert (Hdm := Z.div_mod (Z.of_nat i) ps ltac:(lia)).
  assert (Hmb := Z.mod_pos_bound (Z.of_nat i) ps Hps).
  assert (Hp0 : 0 <= Z.of_nat i / ps) by (apply Z.div_pos; lia).
  assert (Hpn : Z.of_nat i / ps < n) by (apply Z.div_lt_upper_bound; nia).
  assert (Hij : (Z.to_nat ((p - 1) * ps) + j)%nat = i) by (subst p j; nia).
  assert (Hjl : (j < Z.to_nat ps)%nat) by (subst j; lia).
  specialize (Hp p ltac:(subst p; lia)).
  apply (f_equal (lookup j)) in Hp.
  rewrite !page_of_lookup, Hij, Hx, Hy in Hp by (subst p; lia). congruence.
Qed.

(** ** Claims *)

Lemma written_page_back ps f n d :
  0 < ps -> 1 <= n -> zlen d = ps ->
  page_of ps (file_write f (Z.to_nat ((n - 1) * ps)) d) n = d.
Proof.
  intros Hps Hn Hd. unfold zlen in Hd.
  assert (Hl : length (page_of ps (file_write f (Z.to_nat ((n - 1) * ps)) d) n) = length d).
  { unfold page_of. rewrite length_take, length_drop, file_write_length. lia. }
  apply (list_eq_same_length _ d (length d)); [done|done|].
  intros j x y Hj Hx Hy. rewrite page_of_lookup in Hx by lia.
  rewrite file_write_lookup, decide_True in Hx by lia.
  replace (Z.to_nat ((n - 1) * ps) + j - Z.to_nat ((n - 1) * ps))%nat with j in Hx by lia.
  congruence.
Qed.

Lemma written_page_frame ps f n d p :
  0 < ps -> 1 <= n -> zlen d = ps -> 1 <= p -> p * ps <= zlen f -> p <> n ->
  page_of ps (file_write f (Z.to_nat ((n - 1) * ps)) d) p = page_of ps f p.
Proof.
  intros Hps Hn Hd Hp Hf Hpn. unfold zlen in *. apply list_eq. intros j.
  destruct (decide (j < Z.to_nat ps)%nat) as [Hj|Hj].
  - rewrite !page_of_lookup by lia. rewrite file_write_lookup by nia.
    rewrite decide_False by nia. by rewrite decide_False by nia.
  - rewrite !lookup_ge_None_2; [done| |]; unfold page_of; rewrite length_take; lia.
Qed.

Lemma read_page_Ok c n d :
  0 < page_size c -> 1 <= n -> page_of (page_size c) (file c) n = d -> zlen d = page_size c ->
  read_page c n = Ok d.
Proof.
  intros Hps Hn Hp Hd. unfold read_page, validate_page_no. zdec (n =? 0) false.
  unfold page_of in Hp. rewrite Hp, Hd, Z.eqb_refl. done.
Qed.

(** A page that was written reads back as written, and every other whole page of the
    file still reads as before. *)
Theorem write_page_read_back c n d c' :
  0 < page_size c -> 0 <= n -> write_page c n d = (Ok tt, c') ->
  read_page c' n = Ok d /\
  forall p, 1 <= p -> p <> n -> p * page_size c <= zlen (file c) -> read_page c' p = read_page c p.
Proof.
  intros Hps Hn. unfold write_page, validate_page_no, write_all.
  destruct (n =? 0) eqn:E0; [done|]. destruct (zlen d =? page_size c) eqn:Ed; [|done].
  cbn [negb]. destruct (write_fd c); [|done]. cbn [negb]. zbool.
  assert (Hgo : forall fs, let c1 := set_file c (file_write (file c)
              (Z.to_nat ((n - 1) * page_size c)) d) fs in
    read_page c1 n = Ok d /\
    forall p, 1 <= p -> p <> n -> p * page_size c <= zlen (file c) -> read_page c1 p = read_page c p).
  { intros fs c1. split.
    - apply read_page_Ok; cbn; [done|lia|by apply written_page_back; lia|done].
    - intros p Hp Hpn Hle. pose proof (page_of_length (page_size c) (file c) p) as Hl.
      rewrite (read_page_Ok c p (page_of (page_size c) (file c) p)) by (done || lia).
      apply read_page_Ok; cbn; [done|done|by apply written_page_frame; lia|lia]. }
  destruct (write_faults c) as [|[[k e]|] fs]; [|done|]; intros [= <-]; apply Hgo.
Qed.

Lemma write_page_read_back_witness :
  let c := mk_conn 2 (fun _ => mk_pragma 0 "" SQLITE_ROW 1) None [1; 2] true [] in
  read_page (snd (write_page c 3 [7; 8])) 3 = Ok [7; 8].
Proof.
  apply (write_page_read_back (mk_conn 2 (fun _ => mk_pragma 0 "" SQLITE_ROW 1) None [1; 2] true [])
           3 [7; 8]); [reflexivity|lia|reflexivity].
Defined.

(** A pragma outcome the retry loop waits on. *)
Definition transient (o : PragmaOutcome) : bool :=
  is_ok (check (Some (prepare_errmsg o)) (prepare_rc o)) &&
  ((step_rc o =? SQLITE_BUSY) || (step_rc o =? SQLITE_LOCKED) || (step_rc o =? SQLITE_DONE)).

Lemma transient_no_row o : transient o = true -> (step_rc o =? SQLITE_ROW) = false.
Proof.
  unfold transient. intros [_ H]%andb_true_iff. apply Z.eqb_neq. intros E.
  rewrite E in H. done.
Qed.

Lemma query_pragma_skip pragma db a b :
  transient (db a) = true -> (a < MAX_RETRIES)%nat ->
  query_pragma_loop pragma db a (S b) =
  (fst (query_pragma_loop pragma db (S a) b),
   Z.min (Z.of_nat a + 1) 10 + snd (query_pragma_loop pragma db (S a) b)).
Proof.
  intros Ht Ha. pose proof (transient_no_row _ Ht) as Hr.
  unfold transient in Ht. apply andb_true_iff in Ht as [Hc Ht].
  cbn [query_pragma_loop]. destruct (check _ _); [|done].
  rewrite Hr, Ht. apply Nat.ltb_lt in Ha. rewrite Ha. cbn [andb].
  by destruct (query_pragma_loop pragma db (S a) b).
Qed.

(** The delays the loop can still spend. *)
Fixpoint delays (attempt budget : nat) : Z :=
  match budget with
  | O => 0
  | S budget =>
      (if (attempt <? MAX_RETRIES)%nat then Z.min (Z.of_nat attempt + 1) 10 else 0)
      + delays (S attempt) budget
  end.

Lemma delays_nonneg b : forall a, 0 <= delays a b.
Proof.
  induction b as [|b IH]; intros a; cbn [delays]; [lia|].
  specialize (IH (S a)). destruct (a <? MAX_RETRIES)%nat; lia.
Qed.

Lemma query_pragma_sleep pragma db : forall b a,
  0 <= snd (query_pragma_loop pragma db a b) <= delays a b.
Proof.
  induction b as [|b IH]; intros a; [cbn; lia|].
  cbn [query_pragma_loop delays]. pose proof (delays_nonneg b (S a)) as Hd.
  destruct (check _ _); [|cbn [snd]; destruct (a <? MAX_RETRIES)%nat; lia].
  destruct (_ =? SQLITE_ROW); [cbn [snd]; destruct (a <? MAX_RETRIES)%nat; lia|].
  specialize (IH (S a)).
  destruct (a <? MAX_RETRIES)%nat; [|rewrite andb_false_r; cbn [snd]; lia].
  rewrite andb_true_r. destruct (_ || _); [|cbn [snd]; lia].
  destruct (query_pragma_loop _ _ _ _). cbn [snd] in *. lia.
Qed.

Lemma query_pragma_reach pragma db k : (k <= MAX_RETRIES)%nat ->
  (forall i, (i < k)%nat -> transient (db i) = true) -> forall a, (a <= k)%nat ->
  fst (query_pragma_loop pragma db a (S MAX_RETRIES - a)) =
  fst (query_pragma_loop pragma db k (S MAX_RETRIES - k)).
Proof.
  intros Hk Ht a Ha. remember (k - a)%nat as d eqn:Hd. revert a Ha Hd.
  induction d as [|d IH]; intros a Ha Hd; [by replace a with k by lia|].
  rewrite <- (IH (S a)) by lia.
  replace (S MAX_RETRIES - a)%nat with (S (S MAX_RETRIES - S a)) by lia.
  rewrite query_pragma_skip; [done|apply Ht; lia|lia].
Qed.

(** A pragma read returns the row of the first attempt that is not transient, as long as
    that attempt is among the thirteen the budget allows, and never sleeps more
    than 75 ms in total. *)
Theorem query_pragma_row pragma db k :
  (k <= MAX_RETRIES)%nat -> (forall i, (i < k)%nat -> transient (db i) = true) ->
  prepare_rc (db k) = SQLITE_OK -> step_rc (db k) = SQLITE_ROW ->
  fst (query_pragma_u32 db pragma) = Ok (u32 (column_int (db k))) /\
  0 <= snd (query_pragma_u32 db pragma) <= 75.
Proof.
  intros Hk Ht Hp Hs. unfold query_pragma_u32. split.
  - change (S MAX_RETRIES) with (S MAX_RETRIES - 0)%nat.
    rewrite (query_pragma_reach pragma db k Hk Ht 0%nat ltac:(lia)).
    replace (S MAX_RETRIES - k)%nat with (S (MAX_RETRIES - k)) by lia.
    cbn [query_pragma_loop]. by rewrite Hp, Hs.
  - exact (query_pragma_sleep pragma db (S MAX_RETRIES) 0%nat).
Qed.

Lemma query_pragma_row_witness :
  let db i := if (i <? 3)%nat then mk_pragma 0 "" SQLITE_BUSY 0 else mk_pragma 0 "" SQLITE_ROW 42 in
  fst (query_pragma_u32 db "page_count") = Ok 42 /\
  0 <= snd (query_pragma_u32 db "page_count") <= 75.
Proof.
  intros db. apply (query_pragma_row "page_count" db 3);
    [unfold MAX_RETRIES; lia|intros i Hi; by do 3 (destruct i as [|i]; [reflexivity|]); lia
    |reflexivity|reflexivity].
Defined.

(** Thirteen transient answers in a row are reported as an error with the last result
    code, not retried for ever. *)
Theorem query_pragma_gives_up pragma db :
  (forall i, transient (db i) = true) ->
  exists msg, fst (query_pragma_u32 db pragma) = Err (Sqlite (step_rc (db MAX_RETRIES)) msg).
Proof.
  intros Ht. unfold query_pragma_u32. change (S MAX_RETRIES) with (S MAX_RETRIES - 0)%nat.
  rewrite (query_pragma_reach pragma db MAX_RETRIES (Nat.le_refl _) (fun i _ => Ht i) 0%nat ltac:(lia)).
  pose proof (transient_no_row _ (Ht MAX_RETRIES)) as Hr.
  pose proof (Ht MAX_RETRIES) as Hc. unfold transient in Hc. apply andb_true_iff in Hc as [Hc _].
  replace (S MAX_RETRIES - MAX_RETRIES)%nat with 1%nat by (unfold MAX_RETRIES; lia).
  cbn [query_pragma_loop]. destruct (check _ _); [|done].
  rewrite Hr, Nat.ltb_irrefl, andb_false_r. by eexists.
Qed.

Lemma query_pragma_gives_up_witness :
  exists msg, fst (query_pragma_u32 (fun _ => mk_pragma 0 "" SQLITE_DONE 0) "page_size")
              = Err (Sqlite SQLITE_DONE msg).
Proof.
  apply (query_pragma_gives_up "page_size" (fun _ => mk_pragma 0 "" SQLITE_DONE 0)).
  intros i. reflexivity.
Defined.
