(* ===== verification/Tuning.v ===== *)
(** * Hashing strategy (src/src/lib.rs [SyncTuning], src/src/protocol/mod.rs)

    The tuning record decides how the hash computations are cut into chunks and
    whether a chunk runs on a thread pool.  [chunk_loop] is the loop both handlers
    use; [chunk_loop_additive] shows that the cut is invisible in its result. *)

From S2P Require Import Prelude RustStr.

Record SyncTuning := mk_tuning {
  max_hash_threads : option Z;
  parallel_min_pages : Z;
  hash_chunk_groups : Z;
}.

Definition default_tuning : SyncTuning := mk_tuning None 4096 16.

(** The [.ok().and_then(parse).filter(|v| *v > 0)] of each variable. *)
Definition env_positive (parse : string -> option Z) (v : option string) : option Z :=
  match v with
  | None => None
  | Some s => match parse s with
              | Some n => if 0 <? n then Some n else None
              | None => None
              end
  end.

Definition from_env (var : string -> option string) : SyncTuning :=
  let d := default_tuning in
  mk_tuning
    (match env_positive parse_u64 (var "RSQLITE_RSYNC_MAX_HASH_THREADS") with
     | Some n => Some n
     | None => max_hash_threads d
     end)
    (default (parallel_min_pages d)
       (env_positive parse_u32 (var "RSQLITE_RSYNC_PARALLEL_MIN_PAGES")))
    (default (hash_chunk_groups d)
       (env_positive parse_u32 (var "RSQLITE_RSYNC_HASH_CHUNK_GROUPS"))).

Definition should_parallelize (t : SyncTuning) (pages : Z) : bool :=
  parallel_min_pages t <=? pages.

(** Whether [ThreadPoolBuilder::build] succeeds is up to the [rayon] crate; the
    closure runs in the pool or on the calling thread, and a panic of the closure
    is a panic of the caller either way. *)
Class Rayon := { pool_build : Z -> bool }.

(** The iteration order of a [HashSet] printed with [{:?}] is unspecified. *)
Class HashSetDebug := { debug_hashset : list Z -> string }.

Section Compute.
Context `{!Rayon}.

Definition with_configured_pool {T} (t : SyncTuning) (f : unit -> option T) : option T :=
  match max_hash_threads t with
  | Some threads =>
      if (0 <? threads) && pool_build threads
      then (let install := f in install tt)
      else f tt
  | None => f tt
  end.

Definition compute_with_parallelism {T} (t : SyncTuning) (item_count : Z)
    (parallel_fn serial_fn : unit -> option (list T)) : option (list T) :=
  if should_parallelize t item_count then with_configured_pool t parallel_fn
  else serial_fn tt.

Lemma compute_same {T} t n (f : unit -> option (list T)) :
  compute_with_parallelism t n f f = f tt.
Proof.
  unfold compute_with_parallelism, with_configured_pool.
  destruct (should_parallelize t n); [|done].
  destruct (max_hash_threads t); [|done]. by destruct (_ && _).
Qed.

End Compute.

(** [(0..len).step_by(step)]. *)
Definition step_by (len step : Z) : list Z :=
  map (fun i => i * step) (range 0 (div_ceil len step)).

(** [for start in (0..len).step_by(step) { let end = (start + step).min(len); ... }],
    each turn extending the accumulator with [body start end]. *)
Definition chunk_loop {T} (len step : Z) (body : Z -> Z -> option (list T)) : option (list T) :=
  let! parts := map_panic (fun start => body start (Z.min (start + step) len)) (step_by len step) in
  Some (concat parts).

(** [iter().enumerate()]. *)
Definition enumerate {A} (l : list A) : list (Z * A) := zip (range 0 (zlen l)) l.

Lemma map_panic_app {A B} (f : A -> option B) l1 l2 :
  map_panic f (l1 ++ l2) =
  (let! a := map_panic f l1 in let! b := map_panic f l2 in Some (a ++ b)).
Proof.
  induction l1 as [|x l1 IH]; cbn.
  - by destruct (map_panic f l2).
  - destruct (f x); [|done]. rewrite IH.
    destruct (map_panic f l1), (map_panic f l2); done.
Qed.

Lemma map_panic_map {A B C} (f : B -> option C) (g : A -> B) l :
  map_panic f (map g l) = map_panic (fun x => f (g x)) l.
Proof. induction l as [|x l IH]; cbn; [done|]. by rewrite IH. Qed.

Section Additive.
Context {T : Type} (F : Z -> Z -> option (list T)).
Context (F_nil : forall a, F a a = Some []).
Context (F_app : forall a b c, 0 <= a -> a <= b -> b <= c ->
  F a c = (let! x := F a b in let! y := F b c in Some (x ++ y))).

Lemma chunk_prefix len step k :
  0 < step -> 0 <= len -> (Z.of_nat k <= div_ceil len step) ->
  (let! parts := map_panic (fun i => F (i * step) (Z.min (i * step + step) len))
                   (range 0 (Z.of_nat k)) in Some (concat parts))
  = F 0 (Z.min (Z.of_nat k * step) len).
Proof.
  intros Hs Hl. induction k as [|k IH]; intros Hk.
  - rewrite range_empty by lia. cbn. rewrite Z.min_l by lia. by rewrite F_nil.
  - pose proof (div_ceil_spec len step Hl Hs) as Hd.
    rewrite (range_app 0 (Z.of_nat k)) by lia.
    rewrite (range_cons (Z.of_nat k)), (range_empty _ (Z.of_nat (S k))) by lia.
    rewrite map_panic_app.
    assert (Hle : Z.of_nat k * step <= len) by nia.
    specialize (IH ltac:(lia)). rewrite (Z.min_l (Z.of_nat k * step)) in IH by lia.
    rewrite (F_app 0 (Z.of_nat k * step)) by lia. rewrite <- IH. cbn [map_panic].
    replace (Z.of_nat k * step + step) with (Z.of_nat (S k) * step) by lia.
    destruct (map_panic _ _); [|done].
    destruct (F (Z.of_nat k * step) _); [|done]. rewrite concat_app. f_equal. cbn. by rewrite app_nil_r.
Qed.

(** The chunk size does not show in the accumulated result. *)
Lemma chunk_loop_additive len step :
  0 < step -> 0 <= len -> chunk_loop len step F = F 0 len.
Proof.
  intros Hs Hl. unfold chunk_loop, step_by.
  pose proof (div_ceil_spec len step Hl Hs) as Hd.
  pose proof (div_ceil_nonneg len step Hl Hs) as Hn.
  rewrite map_panic_map.
  pose proof (chunk_prefix len step (Z.to_nat (div_ceil len step)) Hs Hl) as H.
  rewrite Z2Nat.id in H by done. rewrite H by done. f_equal. nia.
Qed.
End Additive.

Lemma chunk_loop_ext {T} len step (f g : Z -> Z -> option (list T)) :
  0 < step -> 0 <= len ->
  (forall a b, 0 <= a -> a <= b -> b <= len -> f a b = g a b) ->
  chunk_loop len step f = chunk_loop len step g.
Proof.
  intros Hs Hl H. unfold chunk_loop.
  assert (Hin : forall a, a ∈ step_by len step -> 0 <= a < len).
  { intros a (i & -> & Hi)%list_elem_of_fmap. rewrite elem_of_range in Hi.
    pose proof (div_ceil_spec len step Hl Hs). nia. }
  assert (map_panic (fun start => f start (Z.min (start + step) len)) (step_by len step) =
          map_panic (fun start => g start (Z.min (start + step) len)) (step_by len step))
    as ->; [|done].
  revert Hin. generalize (step_by len step) as l. induction l as [|a l IH]; intros Hin; cbn; [done|].
  pose proof (Hin a (list_elem_of_here a l)).
  rewrite H by lia. rewrite IH; [done|]. intros; apply Hin; by right.
Qed.

(** Both iterator pipelines of the handlers are additive. *)
Lemma filter_map_range_app {B} (f : Z -> option (option B)) a b c :
  a <= b -> b <= c ->
  filter_map_panic f (range a c) =
  (let! x := filter_map_panic f (range a b) in
   let! y := filter_map_panic f (range b c) in Some (x ++ y)).
Proof. intros. rewrite (range_app a b c) by lia. apply filter_map_panic_app. Qed.

Lemma map_range_app {B} (f : Z -> option B) a b c :
  a <= b -> b <= c ->
  map_panic f (range a c) =
  (let! x := map_panic f (range a b) in
   let! y := map_panic f (range b c) in Some (x ++ y)).
Proof. intros. rewrite (range_app a b c) by lia. apply map_panic_app. Qed.

Lemma enumerate_go {A B} (f : Z -> A -> option (option B)) (l : list A) (a b : Z) :
  0 <= a -> b = a + zlen l ->
  forall pre, zlen pre = a ->
  filter_map_panic (fun '(i, x) => f i x) (zip (range a b) l) =
  filter_map_panic (fun i => let! x := index (pre ++ l) i in f i x) (range a b).
Proof.
  revert a b. induction l as [|x l IH]; intros a b Ha -> pre Hpre.
  - unfold zlen; cbn. by rewrite range_empty by lia.
  - rewrite range_cons by (unfold zlen; cbn; lia).
    cbn [zip zip_with filter_map_panic].
    assert (index (pre ++ x :: l) a = Some x) as ->.
    { unfold index. zdec (0 <=? a) true. unfold zlen in Hpre.
      rewrite lookup_app_r by lia. by replace (Z.to_nat a - length pre)%nat with 0%nat by lia. }
    destruct (f a x); [|done].
    assert (Hl : a + zlen (x :: l) = a + 1 + zlen l) by (unfold zlen; cbn; lia).
    rewrite Hl. rewrite (IH (a + 1) (a + 1 + zlen l) ltac:(lia) eq_refl (pre ++ [x])).
    2:{ rewrite zlen_app. unfold zlen in *; cbn; lia. }
    by rewrite <- app_assoc.
Qed.

Lemma filter_map_enumerate {A B} (f : Z -> A -> option (option B)) (l : list A) :
  filter_map_panic (fun '(i, x) => f i x) (enumerate l) =
  filter_map_panic (fun i => let! x := index l i in f i x) (range 0 (zlen l)).
Proof. unfold enumerate. by apply (enumerate_go f l 0 (zlen l) ltac:(lia) ltac:(lia) []). Qed.

Lemma index_Some_range {A} (l : list A) i : 0 <= i < zlen l -> exists x, index l i = Some x.
Proof.
  intros H. unfold index. zdec (0 <=? i) true. apply lookup_lt_is_Some. unfold zlen in H. lia.
Qed.

Lemma index_slice {A} (l s : list A) a b i :
  slice l a b = Some s -> 0 <= i < b - a -> index s i = index l (a + i).
Proof.
  unfold slice. intros H Hi. case_test; [|done]. unfold index. injection H as <-.
  zdec (0 <=? i) true. zdec (0 <=? a + i) true.
  rewrite lookup_take_lt, lookup_drop by lia. f_equal. lia.
Qed.

Lemma index_range first k i : 0 <= i < k -> index (range first (first + k)) i = Some (first + i).
Proof.
  intros H. unfold index. zdec (0 <=? i) true. unfold range.
  rewrite lookup_seqZ_lt by lia. f_equal. lia.
Qed.

Lemma filter_all {A} (f : A -> bool) l : (forall x, x ∈ l -> f x = true) -> List.filter f l = l.
Proof.
  induction l as [|x l IH]; intros H; [done|]. cbn.
  rewrite H by (by left). f_equal. apply IH. intros; apply H; by right.
Qed.

Lemma index_past {A} (l : list A) i : zlen l <= i -> index l i = None.
Proof.
  intros H. unfold index. destruct (0 <=? i); [|done].
  apply lookup_ge_None. unfold zlen in H. lia.
Qed.
