(* ===== verification/Instances.v ===== *)
(** * Concrete instances of the external parameters

    Small executable stand-ins for the crates the development abstracts from
    ([sha2], [blake3], [bincode], [rayon], the printing order of [HashSet]).  They
    satisfy the stated laws, and the example runs evaluate with them. *)

From S2P Require Import Prelude RustStr Hash Messages Tuning.

(** A 256-bit polynomial checksum in 32 bytes. *)
Definition checksum (b : bytes) : Z :=
  foldr (fun x acc => (x + 1 + 257 * acc) mod 2 ^ 256) 0 b.

Fixpoint le_bytes (n : nat) (z : Z) : bytes :=
  match n with O => [] | S n => z mod 256 :: le_bytes n (z / 256) end.

Lemma le_bytes_length n z : length (le_bytes n z) = n.
Proof. revert z. induction n; intros z; cbn; [done|]. by rewrite IHn. Qed.

Definition toy_digest (b : bytes) : bytes := le_bytes 32 (checksum b).

#[export] Instance toy_digests : Digests :=
  {| sha256 := toy_digest; blake3 := fun b => toy_digest (7 :: b) |}.

#[export] Instance toy_digest_laws : DigestLaws.
Proof. split; intros b; apply le_bytes_length. Qed.

#[export] Instance toy_rayon : Rayon := {| pool_build := fun n => n <? 1024 |}.

#[export] Instance toy_hashset_debug : HashSetDebug :=
  {| debug_hashset := fun l => "{" +++ show_list show_Z l +++ "}" |}.

(** A message as nested sums and products, then as a number, then as bytes. *)
Definition message_code (m : Message) :
  ((Z * Z * Z) + (Z * Z * Z)) + ((Z * list (list Z)) + list Z) +
  (((list Z * list (list Z)) + list (Z * list Z)) + (list Z + (unit + string))) :=
  match m with
  | Hello v s c => inl (inl (inl (v, s, c)))
  | HelloAck v s c => inl (inl (inr (v, s, c)))
  | GroupHashes g hs => inl (inr (inl (g, hs)))
  | GroupsNeedFine gs => inl (inr (inr gs))
  | PageHashes ps hs => inr (inl (inl (ps, hs)))
  | SendPages pages => inr (inl (inr (map (fun p => (page_no p, data p)) pages)))
  | PagesAck ps => inr (inr (inl ps))
  | Done => inr (inr (inr (inl tt)))
  | Error t => inr (inr (inr (inr t)))
  end.

Definition message_uncode (c :
  ((Z * Z * Z) + (Z * Z * Z)) + ((Z * list (list Z)) + list Z) +
  (((list Z * list (list Z)) + list (Z * list Z)) + (list Z + (unit + string)))) : Message :=
  match c with
  | inl (inl (inl (v, s, c))) => Hello v s c
  | inl (inl (inr (v, s, c))) => HelloAck v s c
  | inl (inr (inl (g, hs))) => GroupHashes g hs
  | inl (inr (inr gs)) => GroupsNeedFine gs
  | inr (inl (inl (ps, hs))) => PageHashes ps hs
  | inr (inl (inr pages)) => SendPages (map (fun p => mk_page (fst p) (snd p)) pages)
  | inr (inr (inl ps)) => PagesAck ps
  | inr (inr (inr (inl _))) => Done
  | inr (inr (inr (inr t))) => Error t
  end.

#[export] Instance message_countable : Countable Message.
Proof.
  apply (inj_countable' message_code message_uncode).
  intros [| | | | |pages| | |]; cbn; try done.
  rewrite map_map. f_equal. rewrite <- (map_id pages) at 2. apply map_ext. by intros [].
Defined.

Fixpoint bits (p : positive) : bytes :=
  match p with xH => [] | xO p => 0 :: bits p | xI p => 1 :: bits p end.
Fixpoint unbits (b : bytes) : positive :=
  match b with [] => xH | x :: b => if x =? 0 then xO (unbits b) else xI (unbits b) end.

Lemma unbits_bits p : unbits (bits p) = p.
Proof. induction p; cbn; by rewrite ?IHp. Qed.

#[export] Instance toy_bincode : Bincode :=
  {| bincode_encode := fun m => Ok (bits (countable.encode m));
     bincode_decode := fun b =>
       match countable.decode (unbits b) with
       | Some m => Ok (m, zlen b)
       | None => Err "UnexpectedEnd"
       end |}.

#[export] Instance toy_bincode_laws : BincodeLaws.
Proof.
  split. cbn. intros m b [= <-]. rewrite unbits_bits, decode_encode. by eexists.
Qed.
