(* ===== verification/Transport.v ===== *)
(** * Byte-stream transports (src/src/transport/{mod,local,stdio,ssh}.rs)

    A transport sends encoded frames down a byte stream and reassembles frames
    from whatever pieces the stream delivers.  The three byte-stream transports
    share the receive loop [recv_loop]; they differ in the text of their
    end-of-stream error and in that an SSH transport can be closed.

    [FifoSpec] is the contract the protocol handlers rely on: an ordered, reliable
    message channel.  [transports_refine_fifo] shows that the receive loops implement
    it over any fragmentation of the byte stream. *)

From S2P Require Import Prelude RustStr Errors Hash Messages Tuning Instances.

(** What one [read] of the stream yields: bytes (none at end of stream) or an error. *)
Inductive ReadEvent :=
| Got (b : bytes)
| Failed (e : IoError).

(** The read buffer of the receive loop: [[0u8; 8192]]. *)
Definition READ_SIZE : Z := 8192.

Definition CLOSED_TEXT : string := "connection closed unexpectedly".
Definition SSH_EOF_TEXT : string := "SSH connection closed unexpectedly".
Definition SSH_CLOSED_TEXT : string := "SSH transport is closed".

Section Streams.
Context `{!Bincode}.

(** The [recv] loop: decode from the buffer, else read more.  [None] while the
    peer has not written enough for the call to return. *)
Fixpoint recv_loop (eof : string) (evs : list ReadEvent) (buf : bytes)
  : option (SyncResult Message) * list ReadEvent * bytes :=
  match try_take_framed_message buf with
  | (Err e, buf) => (Some (Err e), evs, buf)
  | (Ok (Some msg), buf) => (Some (Ok msg), evs, buf)
  | (Ok None, buf) =>
      match evs with
      | [] => (None, [], buf)
      | Failed e :: evs => (Some (Err (Io e)), evs, buf)
      | Got b :: evs =>
          if zlen b =? 0 then (Some (Err (Protocol eof)), evs, buf)
          else recv_loop eof evs (buf ++ b)
      end
  end.

(** [write_all] (and [flush]) of the outgoing stream: [None] is success. *)
Definition send_bytes (write_all : bytes -> option IoError) (msg : Message) (out : bytes)
  : SyncResult unit * bytes :=
  match encode msg with
  | Err e => (Err e, out)
  | Ok b =>
      match write_all b with
      | Some e => (Err (Io e), out)
      | None => (Ok tt, out ++ b)
      end
  end.

(** ** LocalTransport *)
Record LocalTransport := mk_local {
  local_in : list ReadEvent;
  local_buf : bytes;
  local_out : bytes;
}.

Definition local_send (write_all : bytes -> option IoError) (msg : Message)
    (t : LocalTransport) : SyncResult unit * LocalTransport :=
  let '(r, out) := send_bytes write_all msg (local_out t) in
  (r, mk_local (local_in t) (local_buf t) out).

Definition local_recv (t : LocalTransport) : option (SyncResult Message) * LocalTransport :=
  let '(r, evs, buf) := recv_loop CLOSED_TEXT (local_in t) (local_buf t) in
  (r, mk_local evs buf (local_out t)).

(** ** StdioTransport: [write_all] then [flush] *)
Record StdioTransport := mk_stdio {
  stdio_in : list ReadEvent;
  stdio_buf : bytes;
  stdio_out : bytes;
}.

Definition stdio_send (write_all : bytes -> option IoError) (flush : option IoError)
    (msg : Message) (t : StdioTransport) : SyncResult unit * StdioTransport :=
  let '(r, out) := send_bytes write_all msg (stdio_out t) in
  match r with
  | Err e => (Err e, mk_stdio (stdio_in t) (stdio_buf t) out)
  | Ok _ =>
      (match flush with Some e => Err (Io e) | None => Ok tt end,
       mk_stdio (stdio_in t) (stdio_buf t) out)
  end.

Definition stdio_recv (t : StdioTransport) : option (SyncResult Message) * StdioTransport :=
  let '(r, evs, buf) := recv_loop CLOSED_TEXT (stdio_in t) (stdio_buf t) in
  (r, mk_stdio evs buf (stdio_out t)).

(** ** SshTransport *)
Record SshTransport := mk_ssh {
  ssh_stdin : option bytes;                (* bytes written to the child, while open *)
  ssh_stdout : option (list ReadEvent);    (* reads of the child, while open *)
  ssh_buf : bytes;
  ssh_control_path : option string;
  ssh_child_running : bool;
  ssh_files : list string;                 (* control sockets on disk *)
}.

Definition ssh_send (write_all : bytes -> option IoError) (msg : Message) (t : SshTransport)
  : SyncResult unit * SshTransport :=
  match encode msg with
  | Err e => (Err e, t)
  | Ok b =>
      match ssh_stdin t with
      | None => (Err (Protocol SSH_CLOSED_TEXT), t)
      | Some out =>
          match write_all b with
          | Some e => (Err (Io e), t)
          | None =>
              (Ok tt, mk_ssh (Some (out ++ b)) (ssh_stdout t) (ssh_buf t)
                             (ssh_control_path t) (ssh_child_running t) (ssh_files t))
          end
      end
  end.

Definition ssh_recv (t : SshTransport) : option (SyncResult Message) * SshTransport :=
  let upd out buf :=
    mk_ssh (ssh_stdin t) out buf (ssh_control_path t) (ssh_child_running t) (ssh_files t) in
  match ssh_stdout t with
  | Some evs =>
      let '(r, evs, buf) := recv_loop SSH_EOF_TEXT evs (ssh_buf t) in
      (r, upd (Some evs) buf)
  | None =>
      match try_take_framed_message (ssh_buf t) with
      | (Err e, buf) => (Some (Err e), upd None buf)
      | (Ok (Some msg), buf) => (Some (Ok msg), upd None buf)
      | (Ok None, buf) => (Some (Err (Protocol SSH_CLOSED_TEXT)), upd None buf)
      end
  end.

Definition cleanup_control_path (t : SshTransport) : list string :=
  match ssh_control_path t with
  | Some p => filter (fun f => f <> p) (ssh_files t)
  | None => ssh_files t
  end.

(** [try_wait] may fail; otherwise a child that still runs is killed and waited for.  What the
    kill does to the remote process and to the bytes on their way to it is the step relation
    [ssh_push_step] of [Remote]. *)
Definition reap_child (try_wait : option IoError) (running : bool) : SyncResult unit * bool :=
  match try_wait with
  | Some e => (Err (Io e), running)
  | None => (Ok tt, false)
  end.

Definition ssh_close (try_wait : option IoError) (t : SshTransport)
  : SyncResult unit * SshTransport :=
  let '(r, running) := reap_child try_wait (ssh_child_running t) in
  (r, mk_ssh None None (ssh_buf t) (ssh_control_path t) running (cleanup_control_path t)).

(** ** The abstract channel *)
Definition FifoSpec := list Message.

Definition fifo_recv (q : FifoSpec) : option (Message * FifoSpec) :=
  match q with [] => None | m :: q => Some (m, q) end.

Definition frames (ms : list Message) (b : bytes) : Prop :=
  exists es, Forall2 (fun m e => encode m = Ok e /\ payload_size e <= MAX_MESSAGE_SIZE) ms es
    /\ b = concat es.

Definition delivers (evs : list ReadEvent) (chunks : list bytes) : Prop :=
  evs = map Got chunks /\ Forall (fun c => c <> []) chunks.

(** The bytes buffered and still to be read are the frames of the queued messages. *)
Definition fifo_abs (q : FifoSpec) (evs : list ReadEvent) (buf : bytes) : Prop :=
  exists chunks, delivers evs chunks /\ frames q (buf ++ concat chunks).

Context `{!BincodeLaws}.

Lemma recv_loop_front eof m e evs chunks buf rest :
  encode m = Ok e -> payload_size e <= MAX_MESSAGE_SIZE ->
  delivers evs chunks -> buf ++ concat chunks = e ++ rest ->
  exists chunks' buf',
    recv_loop eof evs buf = (Some (Ok m), map Got chunks', buf') /\
    Forall (fun c => c <> []) chunks' /\ buf' ++ concat chunks' = rest.
Proof.
  intros He Hs [-> Hne]. revert buf. induction Hne as [|c chunks Hc Hne IH]; intros buf Hcat.
  - cbn in Hcat. rewrite app_nil_r in Hcat. subst buf. cbn.
    destruct (frame_front m e rest He Hs) as [_ ->].
    exists [], rest. by rewrite app_nil_r.
  - apply app_eq_inv in Hcat as [(b' & -> & Hr)|(r & Hr & Hrest)].
    + cbn [map recv_loop]. destruct (frame_front m e b' He Hs) as [_ ->].
      exists (c :: chunks), b'. split; [done|]. split; [by constructor|done].
    + destruct r as [|x r].
      { rewrite app_nil_r in Hr. subst buf. cbn [map recv_loop].
        destruct (frame_front m e [] He Hs) as [_ Hf]. rewrite app_nil_r in Hf. rewrite Hf.
        exists (c :: chunks), []. split; [done|]. split; [by constructor|done]. }
      cbn [map recv_loop]. rewrite (frame_incomplete m e buf (x :: r) He Hs Hr) by done.
      assert (0 < zlen c) by (destruct c; [done|unfold zlen; cbn; lia]).
      zdec (zlen c =? 0) false. apply IH. cbn [concat] in Hrest. 
      by rewrite <- app_assoc, Hrest, Hr, <- app_assoc.
Qed.
End Streams.

Section Claims.
Context `{!Bincode, !BincodeLaws}.

(** A message that encodes within the limit. *)
Definition sendable (m : Message) : Prop :=
  exists e, encode m = Ok e /\ payload_size e <= MAX_MESSAGE_SIZE.

(** Successive sends on a stream that accepts every write, and successive receives. *)
Fixpoint send_list (ms : list Message) (t : LocalTransport) : SyncResult unit * LocalTransport :=
  match ms with
  | [] => (Ok tt, t)
  | m :: ms =>
      match local_send (fun _ => None) m t with
      | (Ok _, t) => send_list ms t
      | (Err e, t) => (Err e, t)
      end
  end.

Fixpoint recv_list (n : nat) (t : LocalTransport) : option (list Message) :=
  match n with
  | O => Some []
  | S n =>
      match local_recv t with
      | (Some (Ok m), t) => option_map (cons m) (recv_list n t)
      | _ => None
      end
  end.

Lemma recv_loop_eof_irrelevant eof1 eof2 m evs buf evs' buf' :
  recv_loop eof1 evs buf = (Some (Ok m), evs', buf') ->
  recv_loop eof2 evs buf = (Some (Ok m), evs', buf').
Proof.
  revert buf. induction evs as [|ev evs IH]; intros buf; cbn;
    destruct (try_take_framed_message buf) as [[[m'|]|e] b']; try done.
  destruct ev as [b|e]; [|done]. destruct (zlen b =? 0); [done|]. apply IH.
Qed.

Lemma send_list_frames ms t :
  Forall sendable ms ->
  exists t' b, send_list ms t = (Ok tt, t') /\ local_out t' = local_out t ++ b /\ frames ms b.
Proof.
  intros Hms. revert t. induction Hms as [|m ms (e & He & Hs) _ IH]; intros t; cbn.
  - exists t, []. rewrite app_nil_r. split; [done|]. split; [done|]. by exists [].
  - unfold local_send, send_bytes. rewrite He.
    destruct (IH (mk_local (local_in t) (local_buf t) (local_out t ++ e)))
      as (t' & b & Ht & Hb & es & Hes & ->).
    exists t', (e ++ concat es). split; [done|].
    split; [rewrite Hb; cbn; by rewrite <- app_assoc|]. exists (e :: es). split; [by constructor|done].
Qed.

Lemma fifo_abs_recv eof m q evs buf :
  fifo_abs (m :: q) evs buf ->
  exists evs' buf', recv_loop eof evs buf = (Some (Ok m), evs', buf') /\ fifo_abs q evs' buf'.
Proof.
  intros (chunks & Hd & es & Hes & Hcat).
  inversion Hes as [|? e ? es' [He Hs] Hes']; subst. cbn in Hcat.
  destruct (recv_loop_front eof m e evs chunks buf (concat es') He Hs Hd Hcat)
    as (chunks' & buf' & Hr & Hne & Hrest).
  exists (map Got chunks'), buf'. split; [done|].
  exists chunks'. split; [by split|]. by exists es'.
Qed.

Lemma recv_list_abs ms evs buf out :
  fifo_abs ms evs buf -> recv_list (length ms) (mk_local evs buf out) = Some ms.
Proof.
  revert evs buf. induction ms as [|m ms IH]; intros evs buf Habs; cbn; [done|].
  destruct (fifo_abs_recv CLOSED_TEXT m ms evs buf Habs) as (evs' & buf' & Hr & Habs').
  unfold local_recv. cbn. rewrite Hr. by rewrite IH.
Qed.

Lemma fifo_abs_empty eof evs buf :
  fifo_abs [] evs buf -> recv_loop eof (evs ++ [Got []]) buf = (Some (Err (Protocol eof)), [], []).
Proof.
  intros (chunks & [-> Hne] & es & Hes & Hcat). inversion Hes; subst. cbn in Hcat.
  apply app_eq_nil in Hcat as [-> Hc].
  destruct Hne as [|c chunks Hcne _]; [done|].
  cbn in Hc. by apply app_eq_nil in Hc as [-> _].
Qed.

(** C17. Over a byte stream that delivers the frames of a queue of messages, cut into
    pieces in any way, each transport receives the messages of the queue in
    order: a [recv] returns the front of the queue and leaves the rest. *)
Theorem transports_refine_fifo m q evs buf :
  fifo_abs (m :: q) evs buf ->
  exists evs' buf',
    fifo_abs q evs' buf' /\
    (forall out, local_recv (mk_local evs buf out) = (Some (Ok m), mk_local evs' buf' out)) /\
    (forall out, stdio_recv (mk_stdio evs buf out) = (Some (Ok m), mk_stdio evs' buf' out)) /\
    (forall stdin cp run files,
       ssh_recv (mk_ssh stdin (Some evs) buf cp run files) =
       (Some (Ok m), mk_ssh stdin (Some evs') buf' cp run files)).
Proof.
  intros Habs.
  destruct (fifo_abs_recv CLOSED_TEXT m q evs buf Habs) as (evs' & buf' & Hr & Habs').
  destruct (fifo_abs_recv SSH_EOF_TEXT m q evs buf Habs) as (evs2 & buf2 & Hr2 & _).
  pose proof (recv_loop_eof_irrelevant CLOSED_TEXT SSH_EOF_TEXT m _ _ _ _ Hr) as Hr3.
  exists evs', buf'. split; [done|].
  unfold local_recv, stdio_recv, ssh_recv. cbn. rewrite Hr, Hr3. done.
Qed.

(** What a local transport sends, its peer receives: any list of messages within the
    size limit, written by successive [send]s, arrives through any fragmentation
    of the bytes. *)
Theorem send_then_recv_all ms t :
  local_out t = [] -> Forall sendable ms ->
  exists t', send_list ms t = (Ok tt, t') /\
    forall chunks, Forall (fun c => c <> []) chunks -> concat chunks = local_out t' ->
      recv_list (length ms) (mk_local (map Got chunks) [] []) = Some ms.
Proof.
  intros Hout Hms. destruct (send_list_frames ms t Hms) as (t' & b & Hs & Hb & Hfr).
  rewrite Hout in Hb. cbn in Hb. exists t'. split; [done|]. intros chunks Hne Hc.
  apply recv_list_abs. exists chunks. split; [by split|]. cbn.
  rewrite Hc, Hb. exact Hfr.
Qed.

(** A stream that ends inside or between frames is an error, never a silent stop: once
    the queued messages are consumed, the end of the stream reports a closed
    connection. *)
Theorem recv_after_end evs buf out :
  fifo_abs [] evs buf ->
  fst (local_recv (mk_local (evs ++ [Got []]) buf out)) = Some (Err (Protocol CLOSED_TEXT)) /\
  fst (stdio_recv (mk_stdio (evs ++ [Got []]) buf out)) = Some (Err (Protocol CLOSED_TEXT)).
Proof.
  intros Habs. unfold local_recv, stdio_recv. cbn. by rewrite fifo_abs_empty.
Qed.
End Claims.

(** ** Claims on the frame codec *)
Section CodecClaims.
Context `{!Bincode, !BincodeLaws}.

(** Decoding the bytes of an encoded message, whatever follows them, gives the message
    back and consumes exactly its bytes. *)
Theorem codec_round_trip m e rest :
  encode m = Ok e -> payload_size e <= MAX_MESSAGE_SIZE ->
  decode (e ++ rest) = Ok (m, zlen e) /\
  try_take_framed_message (e ++ rest) = (Ok (Some m), rest).
Proof. apply frame_front. Qed.

(** A length prefix over the limit is refused from the four prefix bytes alone: the
    codec neither waits for the payload nor consumes the buffer. *)
Theorem oversize_frame_refused len rest :
  is_u32 len -> MAX_MESSAGE_SIZE < len ->
  exists text, decode (to_le_bytes len ++ rest) = Err (Codec text) /\
    try_take_framed_message (to_le_bytes len ++ rest) =
    (Err (Codec text), to_le_bytes len ++ rest).
Proof.
  intros Hu Hlen. unfold decode, try_take_framed_message.
  rewrite zlen_app, zlen_to_le_bytes, take4_le, from_to_le_bytes by done.
  pose proof (zlen_nonneg rest). zdec (4 + zlen rest <? 4) false. cbn zeta.
  zdec (MAX_MESSAGE_SIZE <? len) true. by eexists.
Qed.
End CodecClaims.

(** ** Examples *)

Definition example_messages : list Message :=
  [Hello 2 2 2; GroupHashes 0 [[7]]; SendPages [mk_page 2 [3; 4]]; Done].

Definition toy_frame (m : Message) : bytes :=
  match encode m with Ok e => e | Err _ => [] end.

(** The byte stream of a message, delivered byte by byte. *)
Definition drip (b : bytes) : list bytes := map (fun x => [x]) b.

Lemma drip_nonempty b : Forall (fun c => c <> []) (drip b).
Proof. apply Forall_map, Forall_forall. done. Qed.

Lemma transports_refine_fifo_witness :
  exists evs' buf', fifo_abs [Done] evs' buf' /\
    local_recv (mk_local (map Got (drip (toy_frame (Hello 2 2 2) ++ toy_frame Done))) [] []) =
    (Some (Ok (Hello 2 2 2)), mk_local evs' buf' []).
Proof.
  destruct (transports_refine_fifo (Hello 2 2 2) [Done]
              (map Got (drip (toy_frame (Hello 2 2 2) ++ toy_frame Done))) [])
    as (evs' & buf' & Habs & Hl & _ & _).
  - exists (drip (toy_frame (Hello 2 2 2) ++ toy_frame Done)). split.
    + split; [reflexivity|apply drip_nonempty].
    + exists [toy_frame (Hello 2 2 2); toy_frame Done]. split; [|vm_compute; reflexivity].
      repeat constructor; vm_compute; congruence.
  - exists evs', buf'. split; [exact Habs|apply Hl].
Defined.

Lemma send_then_recv_all_witness :
  exists t', send_list example_messages (mk_local [] [] []) = (Ok tt, t') /\
    forall chunks, Forall (fun c => c <> []) chunks -> concat chunks = local_out t' ->
      recv_list 4 (mk_local (map Got chunks) [] []) = Some example_messages.
Proof.
  apply (send_then_recv_all example_messages (mk_local [] [] [])); [reflexivity|].
  repeat constructor; eexists; (split; [reflexivity|vm_compute; congruence]).
Defined.

Lemma recv_after_end_witness :
  fst (local_recv (mk_local [Got []] [] [])) = Some (Err (Protocol CLOSED_TEXT)) /\
  fst (stdio_recv (mk_stdio [Got []] [] [])) = Some (Err (Protocol CLOSED_TEXT)).
Proof.
  apply (recv_after_end [] [] []). exists []. split; [split; [reflexivity|constructor]|].
  exists []. split; [constructor|reflexivity].
Defined.

Lemma codec_round_trip_witness :
  decode (toy_frame (PagesAck [1; 2]) ++ [9]) = Ok (PagesAck [1; 2], zlen (toy_frame (PagesAck [1; 2]))) /\
  try_take_framed_message (toy_frame (PagesAck [1; 2]) ++ [9]) = (Ok (Some (PagesAck [1; 2])), [9]).
Proof.
  apply (codec_round_trip (PagesAck [1; 2]) (toy_frame (PagesAck [1; 2])) [9]);
    [reflexivity|vm_compute; congruence].
Defined.

Lemma oversize_frame_refused_witness :
  exists text, decode (to_le_bytes 4000000000 ++ []) = Err (Codec text) /\
    try_take_framed_message (to_le_bytes 4000000000 ++ []) =
    (Err (Codec text), to_le_bytes 4000000000 ++ []).
Proof.
  apply (oversize_frame_refused 4000000000 []); [vm_compute; intuition congruence|reflexivity].
Defined.
