(* ===== verification/Pages.v ===== *)
(** * Pages, groups and their digests

    The arithmetic both handlers share: group [g] holds the pages [64 g + 1] to
    [64 g + 64], cut at the page count; its digest hashes the digests of its pages. *)

From S2P Require Import Prelude Hash Db.

(** ** Page and group numbers without wrap-around *)

(** Page counts whose group arithmetic stays within [u32]. *)
Definition fits_u32 (page_count : Z) : Prop := 0 <= page_count <= 2 ^ 32 - 64.

Lemma group_first_page g : 0 <= g -> 64 * g + 64 < 2 ^ 32 ->
  add32 (mul32 g GROUP_SIZE) 1 = 64 * g + 1.
Proof. intros. unfold GROUP_SIZE. rewrite mul32_id, add32_id; lia. Qed.

Lemma group_last_page g : 0 <= g -> 64 * g + 64 < 2 ^ 32 ->
  mul32 (add32 g 1) GROUP_SIZE = 64 * g + 64.
Proof. intros. unfold GROUP_SIZE. rewrite add32_id, mul32_id; lia. Qed.

Section Digest.
Context `{!Digests}.

(** The digests of a group's pages, and of the group. *)
Definition group_range (pc g : Z) : list Z := range_incl (64 * g + 1) (Z.min (64 * g + 64) pc).
Definition group_page_hashes (ps pc : Z) (b : bytes) (alg : HashAlgorithm) (g : Z)
  : list PageHash := map (fun p => hash_page_for (page_of ps b p) alg) (group_range pc g).
Definition group_digest ps pc b alg g : PageHash :=
  hash_group_for (group_page_hashes ps pc b alg g) alg.
End Digest.

Lemma elem_of_group_range pc g p : p ∈ group_range pc g <-> 64 * g + 1 <= p <= Z.min (64 * g + 64) pc.
Proof. apply elem_of_range_incl. Qed.

(** Every page lies in one group. *)
Lemma page_group pc p : 1 <= p <= pc ->
  p ∈ group_range pc ((p - 1) / 64) /\ 0 <= (p - 1) / 64 < div_ceil pc 64.
Proof.
  intros Hp. rewrite elem_of_group_range. unfold div_ceil.
  assert (H64 : 0 < 64) by lia.
  pose proof (Z.div_mod (p - 1) 64 ltac:(lia)). pose proof (Z.mod_pos_bound (p - 1) 64 H64).
  pose proof (Z.div_mod pc 64 ltac:(lia)). pose proof (Z.mod_pos_bound pc 64 H64).
  destruct (pc mod 64 =? 0) eqn:E; zbool; lia.
Qed.
