(* ===== verification/Origin.v ===== *)
(** * Origin-side handler (src/src/protocol/origin.rs)

    [run_with_tuning] is the whole handler as a process; its sections keep the
    structure of the source: handshake, coarse pass, fine pass.  Page and group
    numbers are [u32] with the wrap-around of a release build; an out-of-range
    slice of the snapshot is a panic. *)

From S2P Require Import Prelude RustStr Errors Hash Messages Proc Db Tuning Pages.

Definition protocol_violation (message : string) : proc SyncError :=
  Send (Error message) (fun _ => Ret (Protocol message)).

(** [return Err(protocol_violation(transport, message).await)]. *)
Definition violate {A} (message : string) : proc (SyncResult A) :=
  await e := protocol_violation message in Ret (Err e).

Fixpoint check_page_nos (first_page group_last_page group_idx : Z) (seen : gset Z)
    (prev : option Z) (page_nos : list Z) : SyncResult unit :=
  match page_nos with
  | [] => Ok tt
  | page_no :: rest =>
      if page_no =? 0 then Err (Protocol "PageHashes includes invalid page number 0") else
      if (page_no <? first_page) || (group_last_page <? page_no) then
        Err (Protocol ("PageHashes page " +++ show_Z page_no +++ " is outside group " +++
                       show_Z group_idx +++ " range [" +++ show_Z first_page +++ ", " +++
                       show_Z group_last_page +++ "]")) else
      if bool_decide (page_no ∈ seen) then
        Err (Protocol ("PageHashes contains duplicate page number " +++ show_Z page_no)) else
      match (match prev with
             | Some prev_page => if page_no <=? prev_page then Some prev_page else None
             | None => None
             end) with
      | Some prev_page =>
          Err (Protocol ("PageHashes page numbers must be strictly increasing (got " +++
                         show_Z prev_page +++ " then " +++ show_Z page_no +++ ")"))
      | None =>
          check_page_nos first_page group_last_page group_idx ({[page_no]} ∪ seen)
            (Some page_no) rest
      end
  end.

Fixpoint check_contiguous (first_page group_idx idx : Z) (page_nos : list Z)
  : SyncResult unit :=
  match page_nos with
  | [] => Ok tt
  | page_no :: rest =>
      let expected_page := add32 first_page (u32 idx) in
      if negb (page_no =? expected_page) then
        Err (Protocol ("PageHashes page numbers must be a contiguous prefix for group " +++
                       show_Z group_idx +++ " (expected page " +++ show_Z expected_page +++
                       ", got " +++ show_Z page_no +++ ")"))
      else check_contiguous first_page group_idx (idx + 1) rest
  end.

Definition validate_page_hashes_for_group (page_nos : list Z) (page_hashes : list PageHash)
    (group_idx : Z) : SyncResult unit :=
  if negb (zlen page_nos =? zlen page_hashes) then
    Err (Protocol ("PageHashes has mismatched lengths: page_nos=" +++ show_Z (zlen page_nos) +++
                   ", hashes=" +++ show_Z (zlen page_hashes)))
  else
    let first_page := add32 (mul32 group_idx GROUP_SIZE) 1 in
    let group_last_page := mul32 (add32 group_idx 1) GROUP_SIZE in
    let? _ := check_page_nos first_page group_last_page group_idx ∅ None page_nos in
    check_contiguous first_page group_idx 0 page_nos.

Section Handler.
Context `{!Digests, !Rayon, !HashSetDebug}.

Definition validate_pages_ack (expected_page_nos ack_page_nos : list Z) : SyncResult unit :=
  let expected : gset Z := list_to_set expected_page_nos in
  let actual : gset Z := list_to_set ack_page_nos in
  if negb (zlen ack_page_nos =? Z.of_nat (size actual)) then
    Err (Protocol "PagesAck contains duplicate page numbers")
  else if negb (bool_decide (expected = actual)) then
    Err (Protocol ("PagesAck does not match sent pages: expected " +++
                   debug_hashset (elements expected) +++ ", got " +++
                   debug_hashset (elements actual)))
  else Ok tt.

(** [&snap_bytes[(p - 1) * ps .. (p - 1) * ps + ps]]. *)
Definition page_slice (snap_bytes : bytes) (ps p : Z) : option bytes :=
  let offset := (p - 1) * ps in slice snap_bytes offset (offset + ps).

Definition origin_group_hash_for_pages (snap_bytes : bytes) (snap_page_size : Z)
    (page_range : list Z) (alg : HashAlgorithm) : option PageHash :=
  let! page_hashes :=
    map_panic (fun p => let! d := page_slice snap_bytes snap_page_size p in
                        Some (hash_page_for d alg)) page_range in
  Some (hash_group_for page_hashes alg).

Definition changed_page_for (page_no : Z) (replica_hash : PageHash) (snap_bytes : bytes)
    (snap_page_size : Z) (alg : HashAlgorithm) : option (option PageData) :=
  let! data_slice := page_slice snap_bytes snap_page_size page_no in
  let origin_hash := hash_page_for data_slice alg in
  if negb (bool_decide (origin_hash = replica_hash))
  then Some (Some (mk_page page_no data_slice))
  else Some None.

(** ** Coarse pass *)

(** The closure mapped over a chunk of the replica's group hashes. *)
Definition coarse_closure (snap_bytes : bytes) (ps page_count first_group chunk_start : Z)
    (alg : HashAlgorithm) (i : Z) (replica_group_hash : PageHash) : option (option Z) :=
  let group_idx := add32 first_group (u32 (chunk_start + i)) in
  let first_page := add32 (mul32 group_idx GROUP_SIZE) 1 in
  let last_page := Z.min (mul32 (add32 group_idx 1) GROUP_SIZE) page_count in
  if page_count <? first_page then Some (Some group_idx) else
  let! origin_group_hash :=
    origin_group_hash_for_pages snap_bytes ps (range_incl first_page last_page) alg in
  if negb (bool_decide (origin_group_hash = replica_group_hash))
  then Some (Some group_idx) else Some None.

Definition coarse_chunk (t : SyncTuning) (snap_bytes : bytes) (ps page_count first_group : Z)
    (alg : HashAlgorithm) (replica_group_hashes : list PageHash) (chunk_start chunk_end : Z)
  : option (list Z) :=
  let! replica_hashes_chunk := slice replica_group_hashes chunk_start chunk_end in
  let pages_in_chunk := mul32 (u32 (chunk_end - chunk_start)) GROUP_SIZE in
  let closure '(i, h) := coarse_closure snap_bytes ps page_count first_group chunk_start alg i h in
  compute_with_parallelism t pages_in_chunk
    (fun _ => filter_map_panic closure (enumerate replica_hashes_chunk))
    (fun _ => filter_map_panic closure (enumerate replica_hashes_chunk)).

(** [need_fine]: the groups that differ, then those only the origin has. *)
Definition coarse_need_fine (t : SyncTuning) (snap_bytes : bytes) (ps page_count first_group : Z)
    (alg : HashAlgorithm) (replica_group_hashes : list PageHash) : option (list Z) :=
  let groups_per_chunk := Z.max (hash_chunk_groups t) 1 in
  let! need_fine :=
    chunk_loop (zlen replica_group_hashes) groups_per_chunk
      (coarse_chunk t snap_bytes ps page_count first_group alg replica_group_hashes) in
  let max_replica_group := add32 first_group (u32 (zlen replica_group_hashes)) in
  let max_origin_group := div_ceil page_count GROUP_SIZE in
  Some (need_fine ++ range max_replica_group max_origin_group).

(** ** Fine pass *)

Definition fine_closure (snap_bytes : bytes) (ps : Z) (alg : HashAlgorithm)
    (page_nos : list Z) (page_hashes : list PageHash) (i : Z) : option (option PageData) :=
  let! page_no := index page_nos i in
  let! replica_hash := index page_hashes i in
  changed_page_for page_no replica_hash snap_bytes ps alg.

(** [iter().copied().max()]. *)
Definition max_page (page_nos : list Z) : option Z :=
  match page_nos with [] => None | p :: l => Some (fold_left Z.max l p) end.

(** The pages sent for one group: those whose hash differs, then those past the
    replica's last page. *)
Definition changed_pages_for (t : SyncTuning) (snap_bytes : bytes) (ps page_count : Z)
    (alg : HashAlgorithm) (group_idx : Z) (page_nos : list Z) (page_hashes : list PageHash)
  : option (list PageData) :=
  let first_page := add32 (mul32 group_idx GROUP_SIZE) 1 in
  let last_page := Z.min (mul32 (add32 group_idx 1) GROUP_SIZE) page_count in
  let closure := fine_closure snap_bytes ps alg page_nos page_hashes in
  let! changed_pages :=
    compute_with_parallelism t (u32 (zlen page_nos))
      (fun _ => filter_map_panic closure (range 0 (zlen page_nos)))
      (fun _ => filter_map_panic closure (range 0 (zlen page_nos))) in
  let next_missing_page :=
    match max_page page_nos with Some p => add32 p 1 | None => first_page end in
  let! missing :=
    map_panic (fun p => let! d := page_slice snap_bytes ps p in Some (mk_page p d))
      (range_incl next_missing_page last_page) in
  Some (changed_pages ++ missing).

Definition fine_group (t : SyncTuning) (snap_bytes : bytes) (ps page_count : Z)
    (alg : HashAlgorithm) (group_idx : Z) : proc (SyncResult unit) :=
  await? msg := recv in
  await? (replica_page_nos, replica_page_hashes) :=
    match msg with
    | PageHashes page_nos hashes => Ret (Ok (page_nos, hashes))
    | Done => violate "received Done before all requested fine-pass groups were processed"
    | Error message => ret_err (Protocol message)
    | other => violate ("expected PageHashes, got " +++ debug_message other)
    end in
  match validate_page_hashes_for_group replica_page_nos replica_page_hashes group_idx with
  | Err (Protocol message) => violate message
  | Err other => ret_err other
  | Ok _ =>
      await changed_pages :=
        lift (changed_pages_for t snap_bytes ps page_count alg group_idx
                replica_page_nos replica_page_hashes) in
      let expected_ack_page_nos := map page_no changed_pages in
      await? _ := send (SendPages changed_pages) in
      await? ack := recv in
      match ack with
      | PagesAck page_nos =>
          match validate_pages_ack expected_ack_page_nos page_nos with
          | Err (Protocol message) => violate message
          | Err other => ret_err other
          | Ok _ => Ret (Ok tt)
          end
      | Error message => ret_err (Protocol message)
      | other => violate ("expected PagesAck, got " +++ debug_message other)
      end
  end.

Fixpoint fine_pass (t : SyncTuning) (snap_bytes : bytes) (ps page_count : Z)
    (alg : HashAlgorithm) (need_fine : list Z) : proc (SyncResult unit) :=
  match need_fine with
  | [] => Ret (Ok tt)
  | group_idx :: rest =>
      await? _ := fine_group t snap_bytes ps page_count alg group_idx in
      fine_pass t snap_bytes ps page_count alg rest
  end.

(** ** The handler *)

Definition handshake (snap : Snapshot) : proc (SyncResult HashAlgorithm) :=
  await? hello := recv in
  await? (replica_version, replica_page_size) :=
    match hello with
    | Hello version page_size _ => Ret (Ok (version, page_size))
    | Error message => ret_err (Protocol message)
    | other => violate ("expected Hello, got " +++ debug_message other)
    end in
  if replica_version =? 0 then violate "replica offered unsupported protocol version 0" else
  let negotiated_version := Z.min replica_version PROTOCOL_VERSION in
  match from_protocol_version negotiated_version with
  | None => ret_err (Protocol ("unsupported negotiated protocol version " +++
                               show_Z negotiated_version))
  | Some hash_algorithm =>
      let origin_page_size := snap_page_size snap in
      if negb (origin_page_size =? replica_page_size) && negb (replica_page_size =? 0) then
        await? _ := send (Error ("page size mismatch: origin=" +++ show_Z origin_page_size +++
                                 ", replica=" +++ show_Z replica_page_size)) in
        ret_err (PageSizeMismatch origin_page_size replica_page_size)
      else
        await? _ := send (HelloAck negotiated_version origin_page_size (snap_page_count snap)) in
        Ret (Ok hash_algorithm)
  end.

(** Everything after the handshake. *)
Definition passes (snap : Snapshot) (t : SyncTuning) (hash_algorithm : HashAlgorithm)
  : proc (SyncResult unit) :=
  let page_count := snap_page_count snap in
  await? msg := recv in
  await? (first_group, replica_group_hashes) :=
    match msg with
    | GroupHashes first_group hashes => Ret (Ok (first_group, hashes))
    | Error message => ret_err (Protocol message)
    | other => violate ("expected GroupHashes, got " +++ debug_message other)
    end in
  if negb (first_group =? 0) then
    violate ("unsupported GroupHashes.first_group=" +++ show_Z first_group +++
             "; this protocol version requires first_group=0")
  else
    let snap_bytes := snap_bytes snap in
    let ps := snap_page_size snap in
    await need_fine :=
      lift (coarse_need_fine t snap_bytes ps page_count first_group hash_algorithm
              replica_group_hashes) in
    await? _ := send (GroupsNeedFine need_fine) in
    await? _ := fine_pass t snap_bytes ps page_count hash_algorithm need_fine in
    await? _ := send Done in
    Ret (Ok tt).

Definition run_with_tuning (snap : Snapshot) (t : SyncTuning) : proc (SyncResult unit) :=
  await? hash_algorithm := handshake snap in
  passes snap t hash_algorithm.

(** [run]: the tuning comes from the environment. *)
Definition run (snap : Snapshot) (var : string -> option string) : proc (SyncResult unit) :=
  run_with_tuning snap (from_env var).
End Handler.

(** ** The validators *)

Lemma check_page_nos_range first last g l : forall n seen prev,
  1 <= first -> first <= n -> n + zlen l - 1 <= last ->
  (forall x, x ∈ seen -> x < n) -> (forall x, prev = Some x -> x < n) ->
  l = range n (n + zlen l) ->
  check_page_nos first last g seen prev l = Ok tt.
Proof.
  induction l as [|p l IH]; intros n seen prev H1 Hn Hl Hseen Hprev E; [done|].
  assert (Hz : zlen (p :: l) = zlen l + 1) by (unfold zlen; cbn; lia).
  pose proof (zlen_nonneg l). rewrite Hz in *.
  rewrite range_cons in E by lia. injection E as -> E.
  cbn. zdec (n =? 0) false. zdec (n <? first) false. zdec (last <? n) false. cbn.
  rewrite bool_decide_eq_false_2 by (intros ?%Hseen; lia).
  assert ((match prev with Some prev_page => if n <=? prev_page then Some prev_page else None
           | None => None end) = None) as ->.
  { destruct prev as [q|]; [|done]. specialize (Hprev q eq_refl). zdec (n <=? q) false. done. }
  apply (IH (n + 1)); [done|lia|lia| | |].
  - intros x. rewrite elem_of_union, elem_of_singleton. intros [->|?%Hseen]; lia.
  - intros x [= <-]. lia.
  - rewrite E at 1. f_equal. lia.
Qed.

Lemma check_contiguous_Ok first g l : forall idx,
  is_u32 (first + idx + zlen l) -> 0 <= first -> 0 <= idx ->
  check_contiguous first g idx l = Ok tt <-> l = range (first + idx) (first + idx + zlen l).
Proof.
  unfold is_u32. induction l as [|p l IH]; intros idx Hb Hf Hi.
  - split; [|done]. intros _. unfold zlen; cbn. by rewrite range_empty by lia.
  - assert (Hz : zlen (p :: l) = zlen l + 1) by (unfold zlen; cbn; lia).
    pose proof (zlen_nonneg l). rewrite Hz in *. cbn.
    rewrite (u32_id idx), add32_id by (unfold is_u32; lia).
    rewrite range_cons by lia.
    replace (first + idx + (zlen l + 1)) with (first + (idx + 1) + zlen l) by lia.
    destruct (p =? first + idx) eqn:E; cbn; zbool.
    + rewrite IH by lia. replace (first + idx + 1) with (first + (idx + 1)) by lia.
      subst p. split; [by intros <-|congruence].
    + split; [done|]. congruence.
Qed.

(** Accepted page numbers increase strictly, so a group never has more than its 64. *)
Lemma check_page_nos_increasing first last g l : forall seen prev n,
  check_page_nos first last g seen prev l = Ok tt -> (forall q, prev = Some q -> n <= q) ->
  n <= first - 1 \/ is_Some prev -> l <> [] -> n + zlen l <= last.
Proof.
  induction l as [|p l IH]; intros seen prev n Hc Hprev Hn Hne; [done|]. cbn in Hc.
  assert (Hz : zlen (p :: l) = zlen l + 1) by (unfold zlen; cbn; lia).
  destruct (p =? 0); [done|].
  destruct (_ || _) eqn:Eb; [done|]. zbool.
  destruct (bool_decide _); [done|].
  assert (Hnp : n + 1 <= p).
  { destruct Hn as [Hn|[q ->]]; [lia|]. specialize (Hprev q eq_refl).
    destruct (p <=? q) eqn:E; [done|]. zbool. lia. }
  destruct (match prev with Some _ => _ | None => _ end); [done|].
  destruct l as [|p' l]; [unfold zlen in *; cbn in *; lia|].
  specialize (IH _ (Some p) (n + 1) Hc). rewrite Hz.
  assert (n + 1 + zlen (p' :: l) <= last); [|lia].
  apply IH; [intros q [= <-]; lia|by right|done].
Qed.

Lemma check_length g l :
  check_page_nos (64 * g + 1) (64 * g + 64) g ∅ None l = Ok tt -> zlen l <= 64.
Proof.
  intros Hc. destruct (decide (l = [])) as [->|Hne]; [unfold zlen; cbn; lia|].
  pose proof (check_page_nos_increasing _ _ _ _ _ _ (64 * g) Hc) as H.
  specialize (H ltac:(done) ltac:(left; lia) Hne). lia.
Qed.

(** A list as long as its set has no duplicates. *)
Lemma NoDup_size (l : list Z) :
  Z.of_nat (length l) = Z.of_nat (size (list_to_set l : gset Z)) -> NoDup l.
Proof.
  intros H. apply Nat2Z.inj in H. induction l as [|x l IH]; [constructor|]. cbn in H.
  assert (Hle : (size (list_to_set l : gset Z) <= length l)%nat).
  { clear. induction l as [|y l IH]; cbn; [by rewrite size_empty|].
    pose proof (size_union_alt ({[y]} : gset Z) (list_to_set l)) as Hu.
    rewrite Hu, size_singleton.
    pose proof (subseteq_size (list_to_set l ∖ {[y]} : gset Z) (list_to_set l) ltac:(set_solver)). lia. }
  destruct (decide (x ∈ l)) as [Hx|Hx].
  - assert (E : ({[x]} ∪ list_to_set l : gset Z) = list_to_set l).
    { apply set_eq. intros y. rewrite elem_of_union, elem_of_singleton, elem_of_list_to_set.
      naive_solver. }
    rewrite E in H. lia.
  - constructor; [done|]. apply IH.
    rewrite size_union, size_singleton in H; [lia|].
    intros y. rewrite elem_of_singleton, elem_of_list_to_set. by intros ->.
Qed.

Section OriginFacts.
Context `{!Digests, !Rayon, !HashSetDebug}.

Lemma page_slice_ok b ps pc p :
  0 < ps -> zlen b = pc * ps -> 1 <= p <= pc -> page_slice b ps p = Some (page_of ps b p).
Proof.
  intros Hps Hb Hp. unfold page_slice, page_of. rewrite slice_Some by nia.
  do 2 f_equal. lia.
Qed.

Lemma page_slice_past b ps pc p :
  0 < ps -> zlen b = pc * ps -> pc < p -> page_slice b ps p = None.
Proof. intros Hps Hb Hp. unfold page_slice. apply slice_None. nia. Qed.

Lemma origin_group_hash_ok b ps pc g alg :
  0 < ps -> zlen b = pc * ps -> 0 <= g ->
  origin_group_hash_for_pages b ps (group_range pc g) alg = Some (group_digest ps pc b alg g).
Proof.
  intros Hps Hb Hg. unfold origin_group_hash_for_pages.
  rewrite (map_panic_all _ (fun p => hash_page_for (page_of ps b p) alg)); [done|].
  intros p Hp. unfold group_range in Hp. rewrite elem_of_range_incl in Hp.
  by rewrite (page_slice_ok b ps pc) by lia.
Qed.

(** The groups the origin must refine, for any hashes a peer offers. *)
Definition group_differs (ps pc : Z) (b : bytes) (alg : HashAlgorithm) (hs : list PageHash)
    (g : Z) : bool :=
  (pc <? 64 * g + 1) ||
  negb (bool_decide (index hs g = Some (group_digest ps pc b alg g))).

Definition need_fine_spec ps pc b alg hs : list Z :=
  List.filter (group_differs ps pc b alg hs) (range 0 (zlen hs)) ++
  range (zlen hs) (div_ceil pc 64).

Definition coarse_at (b : bytes) (ps pc : Z) (alg : HashAlgorithm) (hs : list PageHash) (j : Z)
  : option (option Z) :=
  let! h := index hs j in coarse_closure b ps pc 0 0 alg j h.

Lemma coarse_chunk_range t b ps pc alg hs a e :
  0 <= a -> a <= e -> e <= zlen hs ->
  coarse_chunk t b ps pc 0 alg hs a e =
  filter_map_panic (coarse_at b ps pc alg hs) (range a e).
Proof.
  intros Ha Hae He. unfold coarse_chunk.
  rewrite slice_Some by lia. cbn zeta. rewrite compute_same.
  set (s := take _ _).
  assert (Hs : slice hs a e = Some s) by (by rewrite slice_Some by lia).
  pose proof (slice_length _ _ _ _ Hs) as Hsl.
  rewrite (filter_map_enumerate (fun i h => coarse_closure b ps pc 0 a alg i h) s).
  rewrite Hsl. clear Hsl.
  assert (Hgen : forall k, 0 <= k -> a + k <= e ->
    filter_map_panic (fun i => let! x := index s i in coarse_closure b ps pc 0 a alg i x)
      (range 0 k) =
    filter_map_panic (coarse_at b ps pc alg hs) (range a (a + k))).
  { intros k Hk. revert k Hk. apply (natlike_ind (fun k => a + k <= e -> _)).
    - intros _. by rewrite !range_empty by lia.
    - intros k Hk IH Hb. rewrite <- Z.add_1_r in *.
      rewrite (range_app 0 k), (range_app a (a + k) (a + (k + 1))) by lia.
      rewrite !filter_map_panic_app, IH by lia.
      rewrite (range_cons k), (range_empty (k + 1)) by lia.
      rewrite (range_cons (a + k)), (range_empty (a + k + 1)) by lia.
      cbn. unfold coarse_at. rewrite (index_slice hs s a e k Hs) by lia.
      replace (coarse_closure b ps pc 0 a alg k) with (coarse_closure b ps pc 0 0 alg (a + k));
        [done|]. unfold coarse_closure. by rewrite Z.add_0_l. }
  rewrite Hgen by lia. do 2 f_equal. lia.
Qed.

Lemma coarse_at_spec b ps pc alg hs j :
  0 < ps -> zlen b = pc * ps -> fits_u32 pc -> 0 <= j < zlen hs -> 64 * zlen hs < 2 ^ 32 ->
  coarse_at b ps pc alg hs j =
  Some (if group_differs ps pc b alg hs j then Some j else None).
Proof.
  unfold fits_u32. intros Hps Hb Hpc Hj Hhs. unfold coarse_at, group_differs.
  destruct (index_Some_range hs j Hj) as [h Hh]. rewrite Hh. unfold coarse_closure.
  rewrite Z.add_0_l, (u32_id j), (add32_id 0 j), Z.add_0_l by (unfold is_u32; lia).
  rewrite group_first_page, group_last_page by lia.
  destruct (pc <? 64 * j + 1) eqn:E; zbool; cbn [orb]; [done|].
  change (range_incl (64 * j + 1) (Z.min (64 * j + 64) pc)) with (group_range pc j).
  rewrite origin_group_hash_ok by lia.
  repeat case_bool_decide; cbn; congruence.
Qed.

(** The origin flags exactly the groups of the specification, however the tuning
    cuts and parallelises the work. *)
Lemma coarse_need_fine_ok t b ps pc alg hs :
  0 < ps -> zlen b = pc * ps -> fits_u32 pc -> 64 * zlen hs < 2 ^ 32 ->
  coarse_need_fine t b ps pc 0 alg hs = Some (need_fine_spec ps pc b alg hs).
Proof.
  intros Hps Hb Hpc Hhs. unfold coarse_need_fine.
  pose proof (zlen_nonneg hs) as Hz.
  rewrite (chunk_loop_ext _ _ _ (fun a e => filter_map_panic (coarse_at b ps pc alg hs) (range a e)));
    [|lia|done|intros; by apply coarse_chunk_range].
  rewrite chunk_loop_additive;
    [|intros; by rewrite range_empty by lia|intros; by apply filter_map_range_app|lia|done].
  rewrite (filter_map_panic_all _ (fun j => if group_differs ps pc b alg hs j then Some j else None)).
  2:{ intros j Hj%elem_of_range. by apply coarse_at_spec. }
  rewrite omap_filter, (u32_id (zlen hs)), add32_id, Z.add_0_l by (unfold is_u32; lia).
  done.
Qed.
End OriginFacts.

Section OriginFine.
Context `{!Digests, !Rayon, !HashSetDebug}.

(** A page is sent unless the replica offered the digest of its bytes. *)
Definition page_changed (ps : Z) (b : bytes) (alg : HashAlgorithm) (first : Z)
    (hs : list PageHash) (p : Z) : bool :=
  negb (bool_decide (index hs (p - first) = Some (hash_page_for (page_of ps b p) alg))).

Definition changed_spec ps pc b alg g hs : list PageData :=
  map (fun p => mk_page p (page_of ps b p))
    (List.filter (page_changed ps b alg (64 * g + 1) hs) (group_range pc g)).

Lemma fold_max_range a n : forall m, m < a ->
  fold_left Z.max (seqZ a (Z.of_nat n)) m = if (n =? 0)%nat then m else a + Z.of_nat n - 1.
Proof.
  revert a. induction n as [|n IH]; intros a m Hm; [done|].
  rewrite seqZ_cons by lia. cbn [fold_left].
  replace (Z.pred (Z.of_nat (S n))) with (Z.of_nat n) by lia.
  rewrite IH by lia. rewrite Z.max_r by lia.
  destruct n; cbn [Nat.eqb]; lia.
Qed.

Lemma max_page_range first k : 0 <= k ->
  max_page (range first (first + k)) = if k =? 0 then None else Some (first + k - 1).
Proof.
  intros Hk. destruct (k =? 0) eqn:E; zbool.
  - by rewrite range_empty by lia.
  - rewrite range_cons by lia. unfold max_page, range. f_equal.
    replace (first + k - (first + 1)) with (Z.of_nat (Z.to_nat (k - 1))) by lia.
    rewrite fold_max_range by lia. destruct (_ =? _)%nat eqn:E2.
    + apply Nat.eqb_eq in E2. lia.
    + lia.
Qed.

Lemma fine_closure_at b ps alg first hs i :
  0 <= i < zlen hs -> fine_closure b ps alg (range first (first + zlen hs)) hs i =
  (let! d := page_slice b ps (first + i) in
   Some (if negb (bool_decide (index hs i = Some (hash_page_for d alg)))
         then Some (mk_page (first + i) d) else None)).
Proof.
  intros Hi. unfold fine_closure. rewrite index_range by done.
  destruct (index_Some_range hs i Hi) as [h Hh]. rewrite Hh. unfold changed_page_for.
  destruct (page_slice _ _ _); [|done]. repeat case_bool_decide; cbn; congruence.
Qed.

Lemma filter_map_page_changed b ps pc alg first hs :
  0 < ps -> zlen b = pc * ps -> 1 <= first -> first + zlen hs - 1 <= pc ->
  filter_map_panic (fine_closure b ps alg (range first (first + zlen hs)) hs)
    (range 0 (zlen hs)) =
  Some (map (fun p => mk_page p (page_of ps b p))
          (List.filter (page_changed ps b alg first hs) (range first (first + zlen hs)))).
Proof.
  intros Hps Hb Hf Hle.
  assert (Hgen : forall k, 0 <= k -> k <= zlen hs ->
    filter_map_panic (fine_closure b ps alg (range first (first + zlen hs)) hs) (range 0 k) =
    Some (map (fun p => mk_page p (page_of ps b p))
          (List.filter (page_changed ps b alg first hs) (range first (first + k))))).
  { apply (natlike_ind (fun k => k <= zlen hs -> _)).
    - intros _. by rewrite (range_empty 0 0), (range_empty first (first + 0)) by lia.
    - intros k Hk IH Hkl. rewrite <- Z.add_1_r in *.
      rewrite (range_app 0 k), (range_app first (first + k) (first + (k + 1))) by lia.
      rewrite filter_map_panic_app, IH by lia.
      rewrite (range_cons k), (range_empty (k + 1)) by lia.
      rewrite (range_cons (first + k)), (range_empty (first + k + 1)) by lia.
      cbn [filter_map_panic]. rewrite fine_closure_at by lia.
      rewrite (page_slice_ok b ps pc) by lia.
      rewrite List.filter_app, map_app. do 2 f_equal.
      cbn [List.filter]. unfold page_changed.
      replace (first + k - first) with k by lia. by destruct (negb _). }
  apply Hgen; [apply zlen_nonneg|lia].
Qed.

Lemma missing_pages b ps pc a e :
  0 < ps -> zlen b = pc * ps -> 1 <= a -> e <= pc ->
  map_panic (fun p => let! d := page_slice b ps p in Some (mk_page p d)) (range_incl a e) =
  Some (map (fun p => mk_page p (page_of ps b p)) (range_incl a e)).
Proof.
  intros. apply map_panic_all. intros p Hp%elem_of_range_incl.
  by rewrite (page_slice_ok b ps pc) by lia.
Qed.

(** What the origin sends for a group, for any digests of a prefix of the group. *)
Lemma changed_pages_for_ok t b ps pc alg g hs :
  0 < ps -> zlen b = pc * ps -> fits_u32 pc -> 0 <= g -> 64 * g + 64 < 2 ^ 32 ->
  zlen hs <= 64 -> 64 * g + zlen hs <= Z.max pc (64 * g) ->
  changed_pages_for t b ps pc alg g (range (64 * g + 1) (64 * g + 1 + zlen hs)) hs =
  Some (changed_spec ps pc b alg g hs).
Proof.
  unfold fits_u32. intros Hps Hb Hpc Hg Hg2 Hhs Hle. pose proof (zlen_nonneg hs) as Hz.
  unfold changed_pages_for. rewrite compute_same.
  rewrite group_first_page, group_last_page by lia. cbn zeta.
  rewrite (zlen_range (64 * g + 1)) by lia.
  replace (64 * g + 1 + zlen hs - (64 * g + 1)) with (zlen hs) by lia.
  assert (Hcase : zlen hs = 0 \/ 64 * g + zlen hs <= pc) by lia.
  assert (Hfm : filter_map_panic
     (fine_closure b ps alg (range (64 * g + 1) (64 * g + 1 + zlen hs)) hs) (range 0 (zlen hs)) =
     Some (map (fun p => mk_page p (page_of ps b p))
       (List.filter (page_changed ps b alg (64 * g + 1) hs)
          (range (64 * g + 1) (64 * g + 1 + zlen hs))))).
  { destruct Hcase as [Hz0|Hz0]; [by rewrite Hz0, !range_empty by lia|].
    apply (filter_map_page_changed b ps pc); lia. }
  rewrite Hfm, max_page_range by done. clear Hfm.
  assert (Hnext : (match (if zlen hs =? 0 then None else Some (64 * g + 1 + zlen hs - 1)) with
            | Some p => add32 p 1 | None => 64 * g + 1 end) = 64 * g + 1 + zlen hs).
  { destruct (zlen hs =? 0) eqn:E; zbool; [lia|]. rewrite add32_id; lia. }
  rewrite Hnext, (missing_pages b ps pc), <- map_app by lia. unfold changed_spec.
  do 2 f_equal. unfold group_range. rewrite !range_incl_range.
  destruct (decide (64 * g + 1 <= Z.min (64 * g + 64) pc + 1)) as [Hd|Hd].
  - rewrite (range_app (64 * g + 1) (64 * g + 1 + zlen hs) (Z.min _ _ + 1)) by lia.
    rewrite List.filter_app. f_equal. symmetry. apply filter_all.
    intros p Hp%elem_of_range. unfold page_changed. rewrite index_past by lia.
    by rewrite bool_decide_eq_false_2.
  - rewrite !(range_empty _ (Z.min _ _ + 1)) by lia.
    destruct Hcase as [Hz0|Hz0]; [|lia]. by rewrite range_empty by lia.
Qed.

(** A page past the snapshot's last one is outside the snapshot bytes: the slice
    of the comparison closure panics. *)
Lemma changed_pages_for_past t b ps pc alg g hs :
  0 < ps -> zlen b = pc * ps -> 0 <= g -> 64 * g + 64 < 2 ^ 32 -> zlen hs <= 64 ->
  0 < zlen hs -> pc < 64 * g + zlen hs ->
  changed_pages_for t b ps pc alg g (range (64 * g + 1) (64 * g + 1 + zlen hs)) hs = None.
Proof.
  intros Hps Hb Hg Hg2 Hhs Hz0 Hpast.
  unfold changed_pages_for. rewrite compute_same. cbn zeta.
  rewrite (zlen_range (64 * g + 1)) by lia.
  replace (64 * g + 1 + zlen hs - (64 * g + 1)) with (zlen hs) by lia.
  rewrite (filter_map_panic_None _ _ (zlen hs - 1)); [done| |].
  - apply elem_of_range. lia.
  - rewrite fine_closure_at by lia. by rewrite (page_slice_past b ps pc) by lia.
Qed.
End OriginFine.

(** ** Claims *)
Section OriginClaims.
Context `{!HashSetDebug}.

(** The origin accepts a replica's page digests for a group exactly when there is one
    digest per page number and the numbers are a contiguous prefix of the group. *)
Theorem validate_page_hashes_accepts page_nos hashes g :
  0 <= g -> 64 * g + 64 < 2 ^ 32 ->
  validate_page_hashes_for_group page_nos hashes g = Ok tt <->
  zlen page_nos = zlen hashes /\ zlen page_nos <= 64 /\
  page_nos = range (64 * g + 1) (64 * g + 1 + zlen page_nos).
Proof.
  intros Hg Hg2. unfold validate_page_hashes_for_group.
  rewrite group_first_page, group_last_page by done.
  destruct (zlen page_nos =? zlen hashes) eqn:E; cbn [negb]; zbool; [|naive_solver lia].
  pose proof (zlen_nonneg page_nos) as Hz. split.
  - destruct (check_page_nos _ _ _ _ _ _) as [[]|] eqn:Ec; [|done]. intros Hcont.
    assert (Hlen : zlen page_nos <= 64) by (by eapply check_length).
    apply check_contiguous_Ok in Hcont; [|unfold is_u32; lia|lia|lia].
    split; [done|]. split; [done|]. by rewrite Z.add_0_r in Hcont.
  - intros (_ & Hlen & Hr).
    rewrite (check_page_nos_range _ _ _ _ (64 * g + 1)); [|lia|lia|lia|set_solver|done|done].
    apply check_contiguous_Ok; [unfold is_u32; lia|lia|lia|]. by rewrite Z.add_0_r.
Qed.

(** An acknowledgement is accepted exactly when it names every page that was sent,
    no other page, and none twice. *)
Theorem validate_pages_ack_accepts expected ack :
  validate_pages_ack expected ack = Ok tt <->
  NoDup ack /\ forall p, p ∈ ack <-> p ∈ expected.
Proof.
  unfold validate_pages_ack, zlen.
  destruct (decide (NoDup ack)) as [Hn|Hn].
  - rewrite size_list_to_set, Z.eqb_refl by done. cbn.
    case_bool_decide as Hb; cbn.
    + split; [|done]. intros _. split; [done|]. intros p.
      by rewrite <- (elem_of_list_to_set (C := gset Z) p ack), <- Hb, elem_of_list_to_set.
    + split; [done|]. intros [_ Hp]. destruct Hb. apply set_eq. intros p.
      rewrite !elem_of_list_to_set. by rewrite Hp.
  - split; [|by intros [? _]]. intros Hok. destruct Hn.
    destruct (_ =? _) eqn:E; cbn in Hok; [|done]. zbool. by apply NoDup_size.
Qed.
End OriginClaims.

Lemma validate_page_hashes_accepts_witness :
  validate_page_hashes_for_group [65; 66] [[]; []] 1 = Ok tt <->
  zlen [65; 66] = zlen ([[]; []] : list (list Z)) /\ zlen [65; 66] <= 64 /\
  [65; 66] = range 65 67.
Proof. apply (validate_page_hashes_accepts [65; 66] [[]; []] 1); lia. Defined.
