(* ===== verification/Replica.v ===== *)
(** * Replica-side handler (src/src/protocol/replica.rs)

    [run_with_tuning] drives the protocol: it offers hashes of the replica's pages
    and writes the pages the origin sends. *)

From S2P Require Import Prelude RustStr Errors Hash Messages Proc Db Tuning Pages Instances.

Definition protocol_violation (message : string) : proc SyncError :=
  Send (Error message) (fun _ => Ret (Protocol message)).

Definition violate {A} (message : string) : proc (SyncResult A) :=
  await e := protocol_violation message in Ret (Err e).

Section Handler.
Context `{!Digests, !Rayon}.

(** ** Coarse pass *)

Definition page_hash_closure (replica_bytes : bytes) (ps : Z) (alg : HashAlgorithm)
    (page_idx : Z) : option PageHash :=
  let offset := page_idx * ps in
  let! d := slice replica_bytes offset (offset + ps) in
  Some (hash_page_for d alg).

Definition all_page_hashes (t : SyncTuning) (replica_bytes : bytes) (ps page_count : Z)
    (alg : HashAlgorithm) : option (list PageHash) :=
  compute_with_parallelism t page_count
    (fun _ => map_panic (page_hash_closure replica_bytes ps alg) (range 0 page_count))
    (fun _ => map_panic (page_hash_closure replica_bytes ps alg) (range 0 page_count)).

Definition group_hash_closure (page_hashes : list PageHash) (page_count : Z)
    (alg : HashAlgorithm) (g : Z) : option PageHash :=
  let first_page := add32 (mul32 (u32 g) GROUP_SIZE) 1 in
  let last_page := Z.min (mul32 (add32 (u32 g) 1) GROUP_SIZE) page_count in
  let start_idx := first_page - 1 in
  let end_idx := last_page in
  let! hs := slice page_hashes start_idx end_idx in
  Some (hash_group_for hs alg).

Definition group_chunk (t : SyncTuning) (page_hashes : list PageHash) (page_count : Z)
    (alg : HashAlgorithm) (chunk_start chunk_end : Z) : option (list PageHash) :=
  let pages_in_chunk := mul32 (u32 (chunk_end - chunk_start)) GROUP_SIZE in
  let closure := group_hash_closure page_hashes page_count alg in
  compute_with_parallelism t pages_in_chunk
    (fun _ => map_panic closure (range chunk_start chunk_end))
    (fun _ => map_panic closure (range chunk_start chunk_end)).

Definition num_groups (page_count : Z) : Z := Z.max (div_ceil page_count GROUP_SIZE) 1.

Definition group_hashes (t : SyncTuning) (page_hashes : list PageHash) (page_count : Z)
    (alg : HashAlgorithm) : option (list PageHash) :=
  let groups_per_chunk := Z.max (hash_chunk_groups t) 1 in
  chunk_loop (num_groups page_count) groups_per_chunk
    (group_chunk t page_hashes page_count alg).

(** ** Fine pass *)

(** The page numbers and hashes offered for one group. *)
Definition fine_offer (page_hashes : list PageHash) (page_count group_idx : Z)
  : option (list Z * list PageHash) :=
  let first_page := add32 (mul32 group_idx GROUP_SIZE) 1 in
  let last_page := Z.min (mul32 (add32 group_idx 1) GROUP_SIZE) page_count in
  if first_page <=? page_count then
    let! hs := map_panic (fun p => index page_hashes (p - 1)) (range_incl first_page last_page) in
    Some (range_incl first_page last_page, hs)
  else Some ([], []).

(** The [for page in &pages] loop; returns the acknowledged page numbers. *)
Fixpoint write_pages (pages : list PageData) : proc (SyncResult (list Z)) :=
  match pages with
  | [] => Ret (Ok [])
  | page :: rest =>
      await? _ := write (page_no page) (data page) in
      await? ack := write_pages rest in
      Ret (Ok (page_no page :: ack))
  end.

(** [fine_pass] returns [true] when the origin's [Done] ended the loop early.
    [need_fine] is the tail of the requested groups, so [remaining] is the
    length of its own tail. *)
Fixpoint fine_pass (page_hashes : list PageHash) (page_count : Z) (need_fine : list Z)
  : proc (SyncResult bool) :=
  match need_fine with
  | [] => Ret (Ok false)
  | group_idx :: rest =>
      await offer := lift (fine_offer page_hashes page_count group_idx) in
      await? _ := send (PageHashes (fst offer) (snd offer)) in
      await? msg := recv in
      match msg with
      | SendPages pages =>
          await? ack_page_nos := write_pages pages in
          await? _ := send (PagesAck ack_page_nos) in
          fine_pass page_hashes page_count rest
      | Done =>
          let remaining := zlen rest in
          if 0 <? remaining then
            violate ("origin sent Done mid-fine-pass with " +++ show_Z remaining +++
                     " group(s) still pending")
          else Ret (Ok true)
      | Error message => ret_err (Protocol message)
      | other => violate ("expected SendPages or Done, got " +++ debug_message other)
      end
  end.

Definition expect_done (text : string) : proc (SyncResult unit) :=
  await? done := recv in
  match done with
  | Done => Ret (Ok tt)
  | _ => violate text
  end.

(** After the fine pass: wait for [Done] unless it already came. *)
Definition finish (ended : bool) : proc (SyncResult unit) :=
  if ended then Ret (Ok tt) else expect_done "expected Done after fine pass".

(** ** The handler *)

Definition handshake (conn : Connection) (replica_page_count : Z)
  : proc (SyncResult HashAlgorithm) :=
  let offered_version := PROTOCOL_VERSION in
  await? _ := send (Hello offered_version (page_size conn) replica_page_count) in
  await? ack := recv in
  await? negotiated_version :=
    match ack with
    | HelloAck version _ _ => Ret (Ok version)
    | Error message => ret_err (Protocol message)
    | other => violate ("expected HelloAck, got " +++ debug_message other)
    end in
  if (negotiated_version =? 0) || (offered_version <? negotiated_version) then
    ret_err (Protocol ("invalid negotiated protocol version " +++ show_Z negotiated_version))
  else
    match from_protocol_version negotiated_version with
    | None => ret_err (Protocol ("unsupported negotiated protocol version " +++
                                 show_Z negotiated_version))
    | Some hash_algorithm => Ret (Ok hash_algorithm)
    end.

(** Everything after the handshake. *)
Definition passes (conn : Connection) (t : SyncTuning) (replica_page_count : Z)
    (hash_algorithm : HashAlgorithm) : proc (SyncResult unit) :=
  await? replica_bytes :=
    Ret (if replica_page_count =? 0 then Ok [] else serialize conn) in
  await page_hashes :=
    lift (all_page_hashes t replica_bytes (page_size conn) replica_page_count hash_algorithm) in
  await hashes := lift (group_hashes t page_hashes replica_page_count hash_algorithm) in
  await? _ := send (GroupHashes 0 hashes) in
  await? need_fine_msg := recv in
  await? need_fine :=
    match need_fine_msg with
    | GroupsNeedFine group_indices => Ret (Ok group_indices)
    | Error message => ret_err (Protocol message)
    | other => violate ("expected GroupsNeedFine, got " +++ debug_message other)
    end in
  match need_fine with
  | [] => expect_done "expected Done after empty GroupsNeedFine"
  | _ =>
      await? ended := fine_pass page_hashes replica_page_count need_fine in
      finish ended
  end.

Definition run_with_tuning (conn : Connection) (t : SyncTuning) : proc (SyncResult unit) :=
  await? replica_page_count := Ret (page_count conn) in
  await? hash_algorithm := handshake conn replica_page_count in
  passes conn t replica_page_count hash_algorithm.

Definition run (conn : Connection) (var : string -> option string) : proc (SyncResult unit) :=
  run_with_tuning conn (from_env var).
End Handler.

(** ** What the replica offers *)
Section ReplicaFacts.
Context `{!Digests, !Rayon}.

(** The digests of all pages of an image. *)
Definition image_hashes (ps pc : Z) (b : bytes) (alg : HashAlgorithm) : list PageHash :=
  map (fun p => hash_page_for (page_of ps b p) alg) (range_incl 1 pc).

Lemma zlen_image_hashes ps pc b alg : 0 <= pc -> zlen (image_hashes ps pc b alg) = pc.
Proof.
  intros. unfold image_hashes, zlen. rewrite length_map.
  unfold range_incl. rewrite length_seqZ. lia.
Qed.

Lemma map_range_shift {B} (f g : Z -> B) a n d :
  (forall i, a <= i < a + n -> f i = g (i + d)) ->
  map f (seqZ a n) = map g (seqZ (a + d) n).
Proof.
  intros Hfg. unfold seqZ. rewrite !map_map.
  apply map_ext_in. intros i Hi%in_seq. rewrite Hfg by lia. f_equal. lia.
Qed.

Lemma all_page_hashes_ok t b ps pc alg :
  0 < ps -> 0 <= pc -> pc * ps <= zlen b ->
  all_page_hashes t b ps pc alg = Some (image_hashes ps pc b alg).
Proof.
  intros Hps Hpc Hb. unfold all_page_hashes. rewrite compute_same.
  rewrite (map_panic_all _ (fun i => hash_page_for (page_of ps b (i + 1)) alg)).
  - f_equal. unfold image_hashes, range, range_incl. rewrite (map_range_shift _ (fun p => hash_page_for (page_of ps b p) alg) 0 _ 1) by done.
    do 2 f_equal. lia.
  - intros i Hi%elem_of_range. unfold page_hash_closure, page_of.
    rewrite slice_Some by nia. do 4 f_equal; lia.
Qed.

Lemma image_hashes_slice ps pc b alg a e :
  0 <= a -> a <= e -> e <= pc ->
  slice (image_hashes ps pc b alg) a e =
  Some (map (fun p => hash_page_for (page_of ps b p) alg) (range_incl (a + 1) e)).
Proof.
  intros Ha Hae He. rewrite slice_Some by (rewrite ?zlen_image_hashes; lia).
  f_equal. unfold image_hashes. rewrite skipn_map, firstn_map. f_equal.
  rewrite !range_incl_range.
  rewrite (range_app 1 (a + 1) (pc + 1)), (range_app (a + 1) (e + 1) (pc + 1)) by lia.
  rewrite drop_app_length', take_app_length'; [done| |].
  - pose proof (zlen_range (a + 1) (e + 1) ltac:(lia)). unfold zlen in *. lia.
  - pose proof (zlen_range 1 (a + 1) ltac:(lia)). unfold zlen in *. lia.
Qed.

Lemma group_hash_closure_ok ps pc b alg g :
  fits_u32 pc -> 0 <= g < num_groups pc ->
  group_hash_closure (image_hashes ps pc b alg) pc alg g = Some (group_digest ps pc b alg g).
Proof.
  unfold fits_u32, num_groups, GROUP_SIZE. intros Hpc Hg.
  pose proof (div_ceil_spec pc 64 ltac:(lia) ltac:(lia)) as Hd.
  unfold group_hash_closure.
  rewrite (u32_id g), group_first_page, group_last_page by (unfold is_u32; lia).
  cbn zeta. rewrite image_hashes_slice by lia.
  unfold group_digest, group_page_hashes, group_range.
  by replace (64 * g + 1 - 1 + 1) with (64 * g + 1) by lia.
Qed.

Lemma group_hashes_ok t ps pc b alg :
  fits_u32 pc ->
  group_hashes t (image_hashes ps pc b alg) pc alg =
  Some (map (group_digest ps pc b alg) (range 0 (num_groups pc))).
Proof.
  intros Hpc. unfold group_hashes.
  rewrite (chunk_loop_ext _ _ _ (fun a e =>
    map_panic (group_hash_closure (image_hashes ps pc b alg) pc alg) (range a e)));
    [|lia|unfold num_groups; lia|intros; unfold group_chunk; by rewrite compute_same].
  rewrite chunk_loop_additive;
    [|intros; by rewrite range_empty by lia|intros; by apply map_range_app|lia|unfold num_groups; lia].
  apply map_panic_all. intros g Hg%elem_of_range. by apply group_hash_closure_ok.
Qed.

Lemma index_image_hashes ps pc b alg p :
  1 <= p <= pc ->
  index (image_hashes ps pc b alg) (p - 1) = Some (hash_page_for (page_of ps b p) alg).
Proof.
  intros Hp. unfold index, image_hashes. zdec (0 <=? p - 1) true.
  rewrite list_lookup_fmap. unfold range_incl. rewrite lookup_seqZ_lt by lia. cbn.
  do 3 f_equal. lia.
Qed.

Lemma fine_offer_ok ps pc b alg g :
  fits_u32 pc -> 0 <= g -> 64 * g + 64 < 2 ^ 32 ->
  fine_offer (image_hashes ps pc b alg) pc g =
  Some (group_range pc g, group_page_hashes ps pc b alg g).
Proof.
  intros Hpc Hg Hg2. unfold fine_offer, group_page_hashes, group_range.
  rewrite group_first_page, group_last_page by lia.
  destruct (64 * g + 1 <=? pc) eqn:E; zbool.
  - rewrite (map_panic_all _ (fun p => hash_page_for (page_of ps b p) alg)); [done|].
    intros p Hp%elem_of_range_incl. apply index_image_hashes. lia.
  - by rewrite range_incl_empty by lia.
Qed.

(** Any [u32] group index a peer may request is answered without a panic. *)
Lemma fine_offer_total hs pc g :
  is_u32 pc -> zlen hs = pc -> fine_offer hs pc g <> None.
Proof.
  intros Hpc Hhs. unfold fine_offer. destruct (_ <=? _) eqn:E; [|done]. zbool.
  set (first := add32 _ _) in *. set (last := Z.min _ _).
  assert (Hfirst : 1 <= first).
  { subst first. unfold add32, mul32, u32, GROUP_SIZE in *. clear.
    pose proof (Z.mod_pos_bound (g * 64) (2 ^ 32) ltac:(lia)).
    assert ((g * 64) mod 2 ^ 32 = 64 * (g mod 2 ^ 26)) as ->.
    { change (2 ^ 32) with (2 ^ 26 * 64). rewrite Z.mul_mod_distr_r by lia. lia. }
    pose proof (Z.mod_pos_bound g (2 ^ 26) ltac:(lia)).
    rewrite Z.mod_small by lia. lia. }
  assert (Hidx : forall p, p ∈ range_incl first last -> exists h, index hs (p - 1) = Some h).
  { intros p Hp%elem_of_range_incl. apply index_Some_range. subst last. lia. }
  clearbody first last. clear -Hidx.
  assert (map_panic (fun p => index hs (p - 1)) (range_incl first last) <> None) as Hn.
  { revert Hidx. generalize (range_incl first last) as l.
    induction l as [|p l IH]; intros Hidx; cbn; [done|].
    destruct (Hidx p (list_elem_of_here p l)) as [h ->].
    specialize (IH (fun q Hq => Hidx q (list_elem_of_further q p l Hq))).
    by destruct (map_panic _ l). }
  by destruct (map_panic _ _).
Qed.

Lemma violate_no_panic {A} m : never_panics (@violate A m).
Proof. done. Qed.

Lemma write_pages_no_panic ps : never_panics (write_pages ps).
Proof. induction ps as [|p ps IH]; cbn [write_pages]; no_panic. Qed.

Lemma fine_pass_no_panic hs pc gs :
  is_u32 pc -> zlen hs = pc -> never_panics (fine_pass hs pc gs).
Proof.
  intros Hpc Hhs. induction gs as [|g gs IH]; cbn [fine_pass]; [done|].
  pose proof (fine_offer_total hs pc g Hpc Hhs) as Ho.
  destruct (fine_offer hs pc g) as [offer|]; [|done]. cbn [lift pbind].
  no_panic; auto using write_pages_no_panic.
Qed.
End ReplicaFacts.

(** ** Success needs [Done]

    [needs_done p]: whatever the environment answers, [p] does not return [Ok]
    unless it received [Done]. *)
Fixpoint needs_done {A} (p : proc (SyncResult A)) : Prop :=
  match p with
  | Ret (Ok _) => False
  | Ret (Err _) => True
  | Panic => True
  | Send _ k => forall r, needs_done (k r)
  | Recv k => forall r, r <> Ok Done -> needs_done (k r)
  | Write _ _ k => forall r, needs_done (k r)
  end.

Lemma needs_done_bind {A B} (p : proc A) (f : A -> proc (SyncResult B)) :
  (forall a, needs_done (f a)) -> needs_done (pbind p f).
Proof. intros Hf. induction p; cbn; auto. Qed.

Lemma needs_done_bindr {A B} (p : proc (SyncResult A)) (f : A -> proc (SyncResult B)) :
  (forall a, needs_done (f a)) -> needs_done (pbindr p f).
Proof. intros Hf. apply needs_done_bind. intros [a|e]; cbn; auto. Qed.

Lemma needs_done_bindr_nested {A B C} (p : proc (SyncResult A)) (f : A -> proc (SyncResult B))
    (h : B -> proc (SyncResult C)) :
  (forall a, needs_done (pbindr (f a) h)) -> needs_done (pbindr (pbindr p f) h).
Proof. intros Hf. unfold pbindr in *. induction p as [[|]| | | |]; cbn; auto. Qed.

Lemma expect_done_needs_done text : needs_done (expect_done text).
Proof. intros [[]|e] Hr; cbn; auto; congruence. Qed.

Section ReplicaClaims.
Context `{!Digests, !Rayon}.

Lemma fine_pass_finish_needs_done hs pc gs : needs_done (pbindr (fine_pass hs pc gs) finish).
Proof.
  induction gs as [|g gs IH].
  - apply expect_done_needs_done.
  - cbn [fine_pass]. destruct (fine_offer hs pc g) as [offer|]; [|done]. cbn [lift pbind].
    apply needs_done_bindr_nested. intros _.
    intros [m|e] Hm; [|done]. destruct m; cbn; auto; [|congruence].
    apply (needs_done_bindr_nested (write_pages pages)). intros ack.
    apply (needs_done_bindr_nested (send (PagesAck ack))). intros _. exact IH.
Qed.

(** The replica handler reports success only after it received the origin's [Done],
    whatever messages, transport errors or disk errors it meets. *)
Theorem replica_ok_needs_done conn t : needs_done (run_with_tuning conn t).
Proof.
  unfold run_with_tuning, passes.
  repeat first
    [ apply needs_done_bindr; intros | apply needs_done_bind; intros ].
  destruct (_ : list Z) as [|g gs]; [apply expect_done_needs_done|].
  apply fine_pass_finish_needs_done.
Qed.

Lemma run_no_panic conn t rc :
  page_count conn = Ok rc -> fits_u32 rc -> 0 < page_size conn ->
  (forall b, serialize conn = Ok b -> rc * page_size conn <= zlen b) ->
  never_panics (run_with_tuning conn t).
Proof.
  intros Hc Hrc Hps Hb. unfold run_with_tuning. rewrite Hc. cbn [pbindr pbind].
  assert (Hu : is_u32 rc) by (unfold is_u32, fits_u32 in *; lia).
  apply never_panics_bindr; [unfold handshake; no_panic|]. intros alg. unfold passes.
  destruct (if rc =? 0 then Ok [] else serialize conn) as [b|e] eqn:Eb; [|done].
  unfold pbindr at 1. cbn [pbind].
  assert (Hlen : rc * page_size conn <= zlen b).
  { destruct (rc =? 0) eqn:E; [|by apply Hb]. zbool. injection Eb as <-. unfold zlen; cbn. lia. }
  unfold fits_u32 in Hrc. rewrite all_page_hashes_ok by lia. cbn [lift pbind].
  rewrite group_hashes_ok by done. cbn [lift pbind].
  assert (Hfine : forall gs, never_panics (fine_pass (image_hashes (page_size conn) rc b alg) rc gs)).
  { intros gs. apply fine_pass_no_panic; [done|]. by apply zlen_image_hashes; lia. }
  apply never_panics_bindr; [done|]. intros _.
  apply never_panics_bindr; [done|]. intros m.
  apply never_panics_bindr; [destruct m; no_panic|]. intros gs.
  destruct gs as [|g gs]; [unfold expect_done; no_panic|].
  apply never_panics_bindr; [apply Hfine|].
  intros ended. unfold finish, expect_done. no_panic.
Qed.
(** C23. Against any peer, transport or disk the replica handler returns a result: it does
    not panic when SQLite serialises at least the pages it counts. *)
Theorem replica_never_panics conn t rc :
  page_count conn = Ok rc -> fits_u32 rc -> 0 < page_size conn ->
  (forall b, serialize conn = Ok b -> rc * page_size conn <= zlen b) ->
  never_panics (run_with_tuning conn t).
Proof. apply run_no_panic. Qed.
End ReplicaClaims.

Lemma replica_never_panics_witness :
  never_panics (run_with_tuning
    (mk_conn 2 (fun _ => mk_pragma 0 "" SQLITE_ROW 2) (Some [1; 2; 3; 4]) [1; 2; 3; 4] true [])
    default_tuning).
Proof.
  apply (replica_never_panics _ _ 2);
    [reflexivity|unfold fits_u32; lia|reflexivity|intros b [= <-]; vm_compute; congruence].
Defined.
