(* ===== verification/Session.v ===== *)
(** * A synchronisation session (both handlers and the channel between them)

    [step] interleaves the origin and replica processes over two FIFO channels,
    the contract proved of the transports; page writes go to the replica's
    connection.  [sync_makes_identical] covers every interleaving: the handlers
    are deterministic and the queues commute, so one run decides them all. *)

From S2P Require Import Prelude RustStr Errors Hash Messages Proc Db Tuning Pages Instances Origin Replica.

Record config_of (A B : Type) := mk_config {
  origin : proc A;
  replica : proc B;
  to_origin : list Message;
  to_replica : list Message;
  conn : Connection;                (* the replica's *)
  origin_sent : list Message;
  replica_sent : list Message;
}.
Arguments mk_config {A B}.
Arguments origin {A B}.
Arguments replica {A B}.
Arguments to_origin {A B}.
Arguments to_replica {A B}.
Arguments conn {A B}.
Arguments origin_sent {A B}.
Arguments replica_sent {A B}.

(** The two handlers alone. *)
Abbreviation config := (config_of (SyncResult unit) (SyncResult unit)).

Inductive step {A B} : config_of A B -> config_of A B -> Prop :=
| origin_sends m k r qo qr c os rs :
    step (mk_config (Send m k) r qo qr c os rs)
         (mk_config (k (Ok tt)) r qo (qr ++ [m]) c (os ++ [m]) rs)
| origin_receives m k r qo qr c os rs :
    step (mk_config (Recv k) r (m :: qo) qr c os rs)
         (mk_config (k (Ok m)) r qo qr c os rs)
| replica_sends m k o qo qr c os rs :
    step (mk_config o (Send m k) qo qr c os rs)
         (mk_config o (k (Ok tt)) (qo ++ [m]) qr c os (rs ++ [m]))
| replica_receives m k o qo qr c os rs :
    step (mk_config o (Recv k) qo (m :: qr) c os rs)
         (mk_config o (k (Ok m)) qo qr c os rs)
| replica_writes n d k o qo qr c os rs :
    step (mk_config o (Write n d k) qo qr c os rs)
         (mk_config o (k (fst (write_page c n d))) qo qr (snd (write_page c n d)) os rs).

(** Steps of the two handlers commute. *)
Lemma step_diamond {A B} : one_step_diamond (@step A B).
Proof.
  intros c c1 c2 H1 H2.
  inversion H1; subst; inversion H2; subst; try (by left); right;
    eexists; split; econstructor.
Qed.

(** ** Local traces

    One event list describes a dialogue; each handler follows its own side of it. *)
Inductive event :=
| ToReplica (m : Message)
| ToOrigin (m : Message)
| PageWrite (n : Z) (d : bytes).

Inductive otrace {A} : proc A -> list event -> proc A -> Prop :=
| ot_nil p : otrace p [] p
| ot_send m k T p : otrace (k (Ok tt)) T p -> otrace (Send m k) (ToReplica m :: T) p
| ot_recv m k T p : otrace (k (Ok m)) T p -> otrace (Recv k) (ToOrigin m :: T) p
| ot_write n d q T p : otrace q T p -> otrace q (PageWrite n d :: T) p.

Inductive rtrace {A} : proc A -> list event -> proc A -> Prop :=
| rt_nil p : rtrace p [] p
| rt_send m k T p : rtrace (k (Ok tt)) T p -> rtrace (Send m k) (ToOrigin m :: T) p
| rt_recv m k T p : rtrace (k (Ok m)) T p -> rtrace (Recv k) (ToReplica m :: T) p
| rt_write n d k T p : rtrace (k (Ok tt)) T p -> rtrace (Write n d k) (PageWrite n d :: T) p.

#[local] Hint Constructors otrace rtrace : rust.

Lemma otrace_app {A} (p q r : proc A) T1 T2 :
  otrace p T1 q -> otrace q T2 r -> otrace p (T1 ++ T2) r.
Proof. induction 1; cbn; auto with rust. Qed.

Lemma rtrace_app {A} (p q r : proc A) T1 T2 :
  rtrace p T1 q -> rtrace q T2 r -> rtrace p (T1 ++ T2) r.
Proof. induction 1; cbn; auto with rust. Qed.

Lemma otrace_bind {A B} (p p' : proc A) T (f : A -> proc B) :
  otrace p T p' -> otrace (pbind p f) T (pbind p' f).
Proof. induction 1; cbn; auto with rust. Qed.

Lemma rtrace_bind {A B} (p p' : proc A) T (f : A -> proc B) :
  rtrace p T p' -> rtrace (pbind p f) T (pbind p' f).
Proof. induction 1; cbn; auto with rust. Qed.

Lemma otrace_bindr {A B} (p : proc (SyncResult A)) a T1 T2 (f : A -> proc (SyncResult B)) q :
  otrace p T1 (Ret (Ok a)) -> otrace (f a) T2 q -> otrace (pbindr p f) (T1 ++ T2) q.
Proof. intros Hp Hf. eapply otrace_app; [by apply otrace_bind|done]. Qed.

Lemma rtrace_bindr {A B} (p : proc (SyncResult A)) a T1 T2 (f : A -> proc (SyncResult B)) q :
  rtrace p T1 (Ret (Ok a)) -> rtrace (f a) T2 q -> rtrace (pbindr p f) (T1 ++ T2) q.
Proof. intros Hp Hf. eapply rtrace_app; [by apply rtrace_bind|done]. Qed.

(** The messages of a trace in each direction, and its page writes. *)
Definition sent_by_origin (T : list event) : list Message :=
  omap (fun e => match e with ToReplica m => Some m | _ => None end) T.
Definition sent_by_replica (T : list event) : list Message :=
  omap (fun e => match e with ToOrigin m => Some m | _ => None end) T.
Definition writes (T : list event) : list PageData :=
  omap (fun e => match e with PageWrite n d => Some (mk_page n d) | _ => None end) T.

(** Page writes that all succeed. *)
Fixpoint apply_writes (c : Connection) (ws : list PageData) : option Connection :=
  match ws with
  | [] => Some c
  | w :: ws =>
      match write_page c (page_no w) (data w) with
      | (Ok _, c) => apply_writes c ws
      | (Err _, _) => None
      end
  end.

(** Two handlers that follow the same dialogue run it together. *)
Lemma trace_run {A B} (o o' : proc A) (r r' : proc B) T c c' os rs :
  otrace o T o' -> rtrace r T r' -> apply_writes c (writes T) = Some c' ->
  rtc step (mk_config o r [] [] c os rs)
           (mk_config o' r' [] [] c' (os ++ sent_by_origin T) (rs ++ sent_by_replica T)).
Proof.
  intros Ho Hr. revert o r c os rs Ho Hr.
  induction T as [|e T IH]; intros o r c os rs Ho Hr Hc.
  { inversion Ho; inversion Hr; subst. cbn in *. rewrite !app_nil_r. injection Hc as ->. done. }
  destruct e as [m|m|n d]; inversion Ho; subst; inversion Hr; subst; cbn in *.
  - eapply rtc_l; [apply origin_sends|]. eapply rtc_l; [apply replica_receives|].
    epose proof (IH _ _ c (os ++ [m]) rs ltac:(eassumption) ltac:(eassumption) Hc) as IH'.
    by rewrite <- app_assoc in IH'.
  - eapply rtc_l; [apply replica_sends|]. eapply rtc_l; [apply origin_receives|].
    epose proof (IH _ _ c os (rs ++ [m]) ltac:(eassumption) ltac:(eassumption) Hc) as IH'.
    by rewrite <- app_assoc in IH'.
  - destruct (write_page c n d) as [[[]|e] c1] eqn:E; [|done].
    eapply rtc_l; [apply replica_writes|]. rewrite E. cbn.
    apply (IH _ _ c1 os rs); done.
Qed.

(** The end of a run is the end of all of them. *)
Lemma uniform_end {A B} (c d : config_of A B) :
  rtc step c d -> nf step d ->
  exists n, nsteps step n c d /\
    forall m c', nsteps step m c c' -> (m <= n)%nat /\ nsteps step (n - m) c' d.
Proof.
  intros (n & Hn)%rtc_nsteps Hnf. exists n. split; [done|].
  intros m c' Hm. by eapply diamond_uniform; eauto using step_diamond.
Qed.

(** ** The dialogue of a session *)
Section Dialogue.
Context `{!Digests, !Rayon, !HashSetDebug}.

Definition start (snap : Snapshot) (c : Connection) (ot rt : SyncTuning) : config :=
  mk_config (Origin.run_with_tuning snap ot) (Replica.run_with_tuning c rt) [] [] c [] [].

(** A snapshot as [Snapshot::begin] leaves it: whole pages of the page size. *)
Definition snapshot_ok (s : Snapshot) : Prop :=
  0 < snap_page_size s /\ fits_u32 (snap_page_count s) /\
  zlen (snap_bytes s) = snap_page_count s * snap_page_size s.

(** A writable replica at rest: SQLite reports the pages the file holds. *)
Definition replica_ok (ps rc : Z) (c : Connection) : Prop :=
  page_size c = ps /\ page_count c = Ok rc /\ sqlite3_serialize c = Some (file c) /\
  zlen (file c) = rc * ps /\ fits_u32 rc /\ write_fd c = true /\ write_faults c = [].

Variables (ps pc rc : Z) (ob rb : bytes).
Let alg := Blake3V2.

(** The hashes of a group as the replica offers them, and the pages sent for it. *)
Definition offered (g : Z) : list PageHash := group_page_hashes ps rc rb alg g.
Definition pages_sent (g : Z) : list PageData := changed_spec ps pc ob alg g (offered g).

Definition write_events (pages : list PageData) : list event :=
  map (fun p => PageWrite (page_no p) (data p)) pages.

Definition group_trace (g : Z) : list event :=
  [ToOrigin (PageHashes (group_range rc g) (offered g)); ToReplica (SendPages (pages_sent g))]
  ++ write_events (pages_sent g) ++ [ToOrigin (PagesAck (map page_no (pages_sent g)))].

Definition replica_digests : list PageHash :=
  map (group_digest ps rc rb alg) (range 0 (num_groups rc)).
Definition need_fine : list Z := need_fine_spec ps pc ob alg replica_digests.

Definition session_trace : list event :=
  [ToOrigin (Hello 2 ps rc); ToReplica (HelloAck 2 ps pc);
   ToOrigin (GroupHashes 0 replica_digests); ToReplica (GroupsNeedFine need_fine)]
  ++ concat (map group_trace need_fine) ++ [ToReplica Done].

Context (Hps : 0 < ps) (Hpc : fits_u32 pc) (Hrc : fits_u32 rc).
Context (Hob : zlen ob = pc * ps) (Hrb : zlen rb = rc * ps).

Lemma zlen_group_range n g : 0 <= g -> zlen (group_range n g) = Z.max 0 (Z.min (64 * g + 64) n - 64 * g).
Proof.
  intros Hg. unfold group_range. rewrite range_incl_range.
  destruct (decide (64 * g + 1 <= Z.min (64 * g + 64) n + 1)).
  - rewrite zlen_range by lia. lia.
  - rewrite range_empty by lia. unfold zlen; cbn. lia.
Qed.

Lemma zlen_offered g : 0 <= g -> zlen (offered g) = Z.max 0 (Z.min (64 * g + 64) rc - 64 * g).
Proof.
  intros Hg. unfold offered, group_page_hashes. rewrite <- zlen_group_range by done.
  unfold zlen. by rewrite length_map.
Qed.

Lemma group_range_offered g : 0 <= g ->
  group_range rc g = range (64 * g + 1) (64 * g + 1 + zlen (offered g)).
Proof.
  intros Hg. rewrite zlen_offered by done. unfold group_range. rewrite range_incl_range.
  destruct (decide (64 * g + 1 <= Z.min (64 * g + 64) rc + 1)).
  - f_equal. lia.
  - by rewrite !range_empty by lia.
Qed.

Lemma zlen_replica_digests : zlen replica_digests = num_groups rc.
Proof.
  unfold replica_digests, zlen. rewrite length_map.
  pose proof (zlen_range 0 (num_groups rc) ltac:(unfold num_groups; lia)) as Hz.
  unfold zlen in Hz. lia.
Qed.

Lemma num_groups_bound : 64 * num_groups rc < 2 ^ 32.
Proof.
  unfold num_groups, GROUP_SIZE, fits_u32 in *.
  pose proof (div_ceil_spec rc 64 ltac:(lia) ltac:(lia)). lia.
Qed.

(** Every requested group is within [u32] arithmetic. *)
Definition group_ok (g : Z) : Prop := 0 <= g /\ 64 * g + 64 < 2 ^ 32.

Lemma need_fine_groups g : g ∈ need_fine -> group_ok g.
Proof.
  unfold need_fine, need_fine_spec, group_ok. rewrite zlen_replica_digests.
  pose proof num_groups_bound. unfold fits_u32 in *.
  pose proof (div_ceil_spec pc 64 ltac:(lia) ltac:(lia)).
  intros [Hg|Hg%elem_of_range]%elem_of_app; [|unfold num_groups in *; lia].
  apply list_elem_of_In, filter_In in Hg as [Hg%list_elem_of_In%elem_of_range _]. lia.
Qed.

(** *** The validators accept what the replica sends *)

Lemma validate_offered g : group_ok g ->
  validate_page_hashes_for_group (group_range rc g) (offered g) g = Ok tt.
Proof.
  intros [Hg Hg2]. unfold validate_page_hashes_for_group.
  pose proof (zlen_offered g Hg) as Hz. pose proof (zlen_group_range rc g Hg) as Hz2.
  rewrite Hz, Hz2, Z.eqb_refl. cbn [negb]. rewrite group_first_page, group_last_page by lia.
  rewrite (check_page_nos_range _ _ _ _ (64 * g + 1)); [|lia|lia|lia|set_solver|done|].
  - apply check_contiguous_Ok; [unfold is_u32; lia|lia|lia|].
    rewrite (group_range_offered g Hg) at 1. f_equal; lia.
  - rewrite (group_range_offered g Hg) at 1. f_equal. lia.
Qed.

Lemma validate_ack_refl (l : list Z) : NoDup l -> validate_pages_ack l l = Ok tt.
Proof.
  intros Hl. unfold validate_pages_ack. rewrite size_list_to_set by done.
  unfold zlen. rewrite Z.eqb_refl. cbn. by rewrite bool_decide_eq_true_2.
Qed.

Lemma pages_sent_nos g :
  map page_no (pages_sent g) =
  List.filter (page_changed ps ob alg (64 * g + 1) (offered g)) (group_range pc g).
Proof. unfold pages_sent, changed_spec. rewrite map_map. apply map_id. Qed.

Lemma NoDup_pages_sent g : NoDup (map page_no (pages_sent g)).
Proof.
  rewrite pages_sent_nos. apply NoDup_ListNoDup, List.NoDup_filter, NoDup_ListNoDup.
  apply NoDup_range_incl.
Qed.

(** *** The handlers follow the dialogue *)

Lemma otrace_writes {A} (p : proc A) ws T q :
  otrace p T q -> otrace p (write_events ws ++ T) q.
Proof. intros Hq. induction ws; cbn; auto with rust. Qed.

Lemma fine_group_otrace t g :
  group_ok g -> 64 * g + zlen (offered g) <= Z.max pc (64 * g) ->
  otrace (Origin.fine_group t ob ps pc alg g) (group_trace g) (Ret (Ok tt)).
Proof.
  intros Hg Hle. destruct (Hg) as [Hg1 Hg2].
  unfold Origin.fine_group, group_trace. apply ot_recv. cbn [pbind pbindr].
  cbn. rewrite validate_offered by done.
  rewrite (group_range_offered g Hg1), changed_pages_for_ok;
    [|done|done|done|done|done|rewrite zlen_offered; lia|done].
  cbn. apply ot_send. fold (pages_sent g).
  apply otrace_writes. apply ot_recv.
  cbn. rewrite validate_ack_refl by apply NoDup_pages_sent. apply ot_nil.
Qed.

(** The origin's fine pass over a prefix of the flagged groups. *)
Lemma fine_pass_otrace t gs rest :
  (forall g, g ∈ gs -> group_ok g /\ 64 * g + zlen (offered g) <= Z.max pc (64 * g)) ->
  otrace (Origin.fine_pass t ob ps pc alg (gs ++ rest)) (concat (map group_trace gs))
    (Origin.fine_pass t ob ps pc alg rest).
Proof.
  induction gs as [|g gs IH]; intros Hgs; cbn [Origin.fine_pass map concat app]; [apply ot_nil|].
  destruct (Hgs g (list_elem_of_here g gs)).
  eapply otrace_bindr; [by apply fine_group_otrace|]. apply IH.
  intros h Hh. apply Hgs. by right.
Qed.

(** Digests for more pages than the snapshot has make the origin panic. *)
Lemma fine_group_panics t g :
  group_ok g -> pc < 64 * g + zlen (offered g) -> 0 < zlen (offered g) ->
  otrace (Origin.fine_group t ob ps pc alg g)
    [ToOrigin (PageHashes (group_range rc g) (offered g))] Panic.
Proof.
  intros Hg Hpast Hpos. destruct (Hg) as [Hg1 Hg2].
  unfold Origin.fine_group. apply ot_recv. cbn. rewrite validate_offered by done.
  rewrite (group_range_offered g Hg1), changed_pages_for_past;
    [|done|done|done|done|rewrite zlen_offered; lia|done|done].
  apply ot_nil.
Qed.

Lemma write_pages_rtrace ws :
  rtrace (write_pages ws) (write_events ws) (Ret (Ok (map page_no ws))).
Proof.
  induction ws as [|w ws IH]; cbn [write_pages write_events map]; [apply rt_nil|].
  apply rt_write. cbn.
  apply (rtrace_bind _ _ _ (fun r => match r with Ok ack => Ret (Ok (page_no w :: ack))
                                      | Err e => Ret (Err e) end)) in IH. exact IH.
Qed.

(** The replica's fine pass over a prefix of the requested groups. *)
Lemma fine_pass_rtrace gs rest :
  (forall g, g ∈ gs -> group_ok g) ->
  rtrace (Replica.fine_pass (image_hashes ps rc rb alg) rc (gs ++ rest))
    (concat (map group_trace gs)) (Replica.fine_pass (image_hashes ps rc rb alg) rc rest).
Proof.
  induction gs as [|g gs IH]; intros Hgs; cbn [map concat app]; [apply rt_nil|].
  destruct (Hgs g (list_elem_of_here g gs)) as [Hg Hg2].
  cbn [Replica.fine_pass]. rewrite fine_offer_ok by done. cbn [lift pbind fst snd].
  unfold group_trace. rewrite <- app_assoc. apply rt_send. apply rt_recv. cbn [pbind].
  rewrite <- app_assoc. eapply rtrace_bindr; [apply write_pages_rtrace|].
  apply rt_send. cbn [pbind]. apply IH. intros h Hh. apply Hgs. by right.
Qed.
End Dialogue.

(** ** Writing pages into the replica file *)
Section PageWrites.
Variables (ps : Z) (Hps : 0 < ps).

Lemma file_write_page f m n d :
  0 <= m -> zlen f = m * ps -> 1 <= n -> zlen d = ps ->
  let f' := file_write f (Z.to_nat ((n - 1) * ps)) d in
  zlen f' = Z.max m n * ps /\ page_of ps f' n = d /\
  (forall p, 1 <= p <= m -> p <> n -> page_of ps f' p = page_of ps f p).
Proof.
  intros Hm Hf Hn Hd f'. split; [|split].
  - unfold zlen in *. subst f'. rewrite file_write_length. nia.
  - by apply written_page_back.
  - intros p Hp Hpn. apply written_page_frame; (done || nia).
Qed.

(** What a sequence of page writes makes of a file of [m] pages. *)
Record written (ob rb : bytes) (m : Z) (ws : list PageData) (c : Connection) (m' : Z) : Prop := {
  written_size : zlen (file c) = m' * ps;
  written_grow : m <= m';
  written_cover : forall w, w ∈ ws -> page_no w <= m';
  written_bound : forall n, m <= n -> (forall w, w ∈ ws -> page_no w <= n) -> m' <= n;
  written_new : forall p, p ∈ map page_no ws -> page_of ps (file c) p = page_of ps ob p;
  written_old : forall p, 1 <= p <= m -> p ∉ map page_no ws ->
    page_of ps (file c) p = page_of ps rb p;
}.

Lemma write_page_ok c n d :
  page_size c = ps -> write_fd c = true -> write_faults c = [] -> 1 <= n -> zlen d = ps ->
  write_page c n d =
  (Ok tt, set_file c (file_write (file c) (Z.to_nat ((n - 1) * ps)) d) []).
Proof.
  intros Hs Hw Hf Hn Hd. unfold write_page, validate_page_no, write_all.
  zdec (n =? 0) false. rewrite Hs, Hd, Z.eqb_refl, Hw, Hf. done.
Qed.

Lemma apply_writes_snoc c ws w :
  apply_writes c (ws ++ [w]) =
  (let! c1 := apply_writes c ws in
   match write_page c1 (page_no w) (data w) with (Ok _, c2) => Some c2 | (Err _, _) => None end).
Proof.
  revert c. induction ws as [|x ws IH]; intros c; cbn.
  - destruct (write_page c _ _) as [[|] ?]; done.
  - destruct (write_page c _ _) as [[|] ?]; [apply IH|done].
Qed.

Lemma apply_writes_ok ob c m ws :
  page_size c = ps -> write_fd c = true -> write_faults c = [] ->
  0 <= m -> zlen (file c) = m * ps ->
  Forall (fun w => 1 <= page_no w /\ data w = page_of ps ob (page_no w) /\ zlen (data w) = ps) ws ->
  exists c' m', apply_writes c ws = Some c' /\ written ob (file c) m ws c' m' /\
    page_size c' = ps /\ write_fd c' = true /\ write_faults c' = [] .
Proof.
  intros Hs Hw Hf Hm Hz. induction ws as [|w ws IH] using rev_ind; intros Hws.
  - exists c, m. split; [done|]. split; [|done].
    constructor; try done; try lia; set_solver.
  - apply Forall_app in Hws as [Hws Hw1].
    apply Forall_cons_1 in Hw1 as [(Hn & Hd & Hdl) _].
    destruct (IH Hws) as (c1 & m1 & H1 & [A B C D E F] & Hs1 & Hw2 & Hf1).
    rewrite apply_writes_snoc, H1, write_page_ok by done.
    eexists _, (Z.max m1 (page_no w)). split; [done|].
    split; [|done].
    destruct (file_write_page (file c1) m1 (page_no w) (data w)) as (G1 & G2 & G3);
      [lia|done|done|done|]. cbn in *.
    constructor; cbn [file set_file].
    + done.
    + lia.
    + intros x [Hx%C|Hx%list_elem_of_singleton]%elem_of_app; [|subst x]; lia.
    + intros n Hmn Hn'. apply Z.max_lub.
      * apply D; [done|]. intros x Hx. apply Hn', elem_of_app. by left.
      * apply Hn', elem_of_app. right. by apply list_elem_of_singleton.
    + intros p. rewrite map_app. intros [Hp|Hp%list_elem_of_singleton]%elem_of_app.
      * destruct (decide (p = page_no w)) as [->|Hne]; [congruence|].
        rewrite G3; [by apply E| |done].
        apply list_elem_of_fmap in Hp as (x & -> & Hx).
        apply Forall_forall with (x := x) in Hws; [|done]. specialize (C x Hx). lia.
      * congruence.
    + intros p Hp. rewrite map_app, not_elem_of_app. intros [Hp1 Hp2].
      assert (p <> page_no w) by (intros ->; apply Hp2; by left).
      rewrite G3 by (done || lia). by apply F.
Qed.
End PageWrites.

(** ** Which pages travel *)
Section Sync.
Context `{!Digests, !Rayon, !HashSetDebug}.
Variables (ps pc rc : Z) (ob rb : bytes).
Abbreviation alg := Blake3V2.

(** No digest of this session collides: pages of the same number, and page-digest
    lists of the same group, are told apart by their digests. *)
Record no_collision : Prop := {
  nc_page : forall p, 1 <= p <= Z.min pc rc ->
    hash_page_for (page_of ps ob p) alg = hash_page_for (page_of ps rb p) alg ->
    page_of ps ob p = page_of ps rb p;
  nc_group : forall g, 0 <= g < num_groups rc ->
    group_digest ps pc ob alg g = group_digest ps rc rb alg g ->
    group_page_hashes ps pc ob alg g = group_page_hashes ps rc rb alg g;
}.

(** The pages of the origin that the replica lacks or holds with other bytes. *)
Definition differs (p : Z) : bool :=
  (rc <? p) || negb (bool_decide (page_of ps ob p = page_of ps rb p)).

Context (Hps : 0 < ps) (Hpc : fits_u32 pc) (Hrc : fits_u32 rc).
Context (Hob : zlen ob = pc * ps) (Hrb : zlen rb = rc * ps).

Lemma offered_index g p : 0 <= g -> 64 * g + 1 <= p <= 64 * g + 64 ->
  index (offered ps rc rb g) (p - (64 * g + 1)) =
  if p <=? rc then Some (hash_page_for (page_of ps rb p) alg) else None.
Proof.
  intros Hg Hp. destruct (p <=? rc) eqn:E; zbool.
  - unfold offered, group_page_hashes, index. zdec (0 <=? p - (64 * g + 1)) true.
    rewrite list_lookup_fmap. unfold group_range, range_incl.
    rewrite lookup_seqZ_lt by lia. cbn. do 3 f_equal. lia.
  - apply index_past. rewrite zlen_offered; lia.
Qed.

Lemma index_replica_digests g : 0 <= g < num_groups rc ->
  index (replica_digests ps rc rb) g = Some (group_digest ps rc rb alg g).
Proof.
  intros Hg. unfold replica_digests, index. zdec (0 <=? g) true.
  rewrite list_lookup_fmap. unfold range. rewrite lookup_seqZ_lt by lia. cbn.
  by replace (Z.of_nat (Z.to_nat g)) with g by lia.
Qed.

Lemma group_range_length_eq g : 0 <= g ->
  length (group_range pc g) = length (group_range rc g) ->
  group_range pc g = group_range rc g.
Proof.
  intros Hg Hl. pose proof (zlen_group_range pc g Hg). pose proof (zlen_group_range rc g Hg).
  unfold group_range, range_incl, zlen in *.
  destruct (decide (Z.min (64 * g + 64) pc <= 64 * g)).
  - rewrite !seqZ_nil by lia. done.
  - f_equal. lia.
Qed.

(** A group that is not flagged has nothing to transfer. *)
Lemma unflagged_same (NC : no_collision) g p : 0 <= g < num_groups rc ->
  group_differs ps pc ob alg (replica_digests ps rc rb) g = false ->
  p ∈ group_range pc g -> differs p = false.
Proof.
  intros Hg Hd Hp. unfold group_differs in Hd.
  apply orb_false_iff in Hd as [_ Hd]. zbool. apply bool_decide_eq_true in Hd.
  rewrite index_replica_digests in Hd by done.
  assert (Hgd : group_page_hashes ps pc ob alg g = group_page_hashes ps rc rb alg g)
    by (apply (nc_group NC); [done|congruence]).
  assert (Hr : group_range pc g = group_range rc g).
  { apply group_range_length_eq; [lia|]. apply (f_equal length) in Hgd.
    unfold group_page_hashes in Hgd. by rewrite !length_map in Hgd. }
  assert (Hprc : p <= rc) by (rewrite Hr, elem_of_group_range in Hp; lia).
  unfold group_page_hashes in Hgd. rewrite <- Hr in Hgd.
  assert (Hh : hash_page_for (page_of ps ob p) alg = hash_page_for (page_of ps rb p) alg).
  { clear -Hgd Hp. induction (group_range pc g) as [|q l IH]; [set_solver|].
    cbn in Hgd. injection Hgd as H1 H2. apply elem_of_cons in Hp as [->|Hp]; auto. }
  rewrite elem_of_group_range in Hp.
  unfold differs. zdec (rc <? p) false. cbn.
  rewrite bool_decide_eq_true_2; [done|]. apply (nc_page NC); [lia|done].
Qed.

Lemma page_changed_differs (NC : no_collision) g p : 0 <= g -> p ∈ group_range pc g ->
  page_changed ps ob alg (64 * g + 1) (offered ps rc rb g) p = differs p.
Proof.
  intros Hg Hp%elem_of_group_range. unfold page_changed, differs.
  rewrite offered_index by lia.
  destruct (p <=? rc) eqn:E; zbool.
  - zdec (rc <? p) false. cbn. f_equal. apply bool_decide_ext.
    split; [intros [= Hh]; symmetry in Hh; apply (nc_page NC); [lia|done]|by intros ->].
  - by zdec (rc <? p) true.
Qed.

Lemma filter_ext_elem {A} (f h : A -> bool) l :
  (forall x, x ∈ l -> f x = h x) -> List.filter f l = List.filter h l.
Proof.
  intros Hfh. apply List.filter_ext_in. intros x Hx. apply Hfh. by apply list_elem_of_In.
Qed.

Lemma pages_sent_differ (NC : no_collision) g : 0 <= g ->
  pages_sent ps pc rc ob rb g =
  map (fun p => mk_page p (page_of ps ob p)) (List.filter differs (group_range pc g)).
Proof.
  intros Hg. unfold pages_sent, changed_spec. f_equal. apply filter_ext_elem.
  intros p Hp. by apply page_changed_differs.
Qed.

Lemma groups_cover k : 0 <= k ->
  concat (map (group_range pc) (range 0 k)) = range_incl 1 (Z.min (64 * k) pc).
Proof.
  revert k. apply natlike_ind; [by rewrite range_empty, range_incl_empty by lia|].
  intros k Hk IH. rewrite <- Z.add_1_r.
  rewrite (range_app 0 k), (range_cons k), (range_empty (k + 1)) by lia.
  rewrite map_app, concat_app, IH. cbn [map concat]. rewrite app_nil_r.
  unfold group_range. rewrite !range_incl_range.
  destruct (decide (64 * k <= pc)) as [Hd|Hd].
  - rewrite (range_app 1 (64 * k + 1) (Z.min (64 * (k + 1)) pc + 1)) by (unfold fits_u32 in *; lia).
    f_equal; [f_equal; lia|]. f_equal. lia.
  - rewrite (range_empty (64 * k + 1)) by lia. rewrite app_nil_r. f_equal. lia.
Qed.

Lemma concat_filter_nil {A B} (f : A -> bool) (h : A -> list B) l :
  (forall x, x ∈ l -> f x = false -> h x = []) ->
  concat (map h (List.filter f l)) = concat (map h l).
Proof.
  induction l as [|x l IH]; intros Hl; cbn; [done|].
  assert (IH' := IH (fun y Hy => Hl y (list_elem_of_further y x l Hy))).
  destruct (f x) eqn:E; cbn; [by rewrite IH'|].
  by rewrite (Hl x (list_elem_of_here x l) E).
Qed.

Lemma filter_none {A} (f : A -> bool) l : (forall x, x ∈ l -> f x = false) -> List.filter f l = [].
Proof.
  induction l as [|x l IH]; intros Hl; cbn; [done|].
  rewrite (Hl x (list_elem_of_here x l)). apply IH. intros y Hy. apply Hl. by right.
Qed.

Lemma concat_map_filter {A B} (f : A -> bool) (h : B -> list A) l :
  concat (map (fun x => List.filter f (h x)) l) = List.filter f (concat (map h l)).
Proof. induction l as [|x l IH]; cbn; [done|]. by rewrite List.filter_app, IH. Qed.

(** The pages sent are exactly the pages that differ, in ascending order. *)
Lemma session_pages (NC : no_collision) :
  concat (map (pages_sent ps pc rc ob rb) (need_fine ps pc rc ob rb)) =
  map (fun p => mk_page p (page_of ps ob p)) (List.filter differs (range_incl 1 pc)).
Proof.
  pose (F g := map (fun p => mk_page p (page_of ps ob p)) (List.filter differs (group_range pc g))).
  transitivity (concat (map F (need_fine ps pc rc ob rb))).
  { f_equal. apply map_ext_in. intros g Hg%list_elem_of_In. apply pages_sent_differ; [done|].
    by destruct (need_fine_groups ps pc rc ob rb Hpc Hrc g Hg). }
  unfold need_fine, need_fine_spec. rewrite map_app, concat_app, concat_filter_nil.
  2:{ intros g Hg%elem_of_range Hd. rewrite zlen_replica_digests in Hg. subst F. cbn.
      rewrite filter_none; [done|]. intros p Hp. by apply (unflagged_same NC g). }
  rewrite zlen_replica_digests, <- concat_app, <- map_app.
  assert (HF : forall k, concat (map F (range 0 k)) =
    map (fun p => mk_page p (page_of ps ob p))
      (List.filter differs (concat (map (group_range pc) (range 0 k))))).
  { intros k. rewrite <- concat_map_filter, List.concat_map, map_map. done. }
  unfold fits_u32 in *.
  pose proof (div_ceil_spec pc 64 ltac:(lia) ltac:(lia)).
  destruct (decide (num_groups rc <= div_ceil pc 64)) as [Hd|Hd].
  - rewrite <- range_app by (unfold num_groups in *; lia).
    rewrite HF, groups_cover by (unfold num_groups in *; lia). do 3 f_equal. lia.
  - rewrite (range_empty (num_groups rc)), app_nil_r, HF, groups_cover
      by (unfold num_groups in *; lia). do 3 f_equal. lia.
Qed.

Lemma pages_sent_wf g : group_ok g ->
  Forall (fun w => 1 <= page_no w <= pc /\ data w = page_of ps ob (page_no w) /\ zlen (data w) = ps)
    (pages_sent ps pc rc ob rb g).
Proof.
  intros [Hg _]. apply Forall_forall. intros w (p & -> & Hp)%list_elem_of_fmap. cbn.
  apply list_elem_of_In, filter_In in Hp as [Hp%list_elem_of_In%elem_of_group_range _].
  split; [lia|]. split; [done|]. apply page_of_length; nia.
Qed.

(** An image compared with itself flags nothing. *)
Lemma need_fine_self : 0 < pc -> need_fine ps pc pc ob ob = [].
Proof.
  intros Hpos. unfold need_fine, need_fine_spec. rewrite zlen_replica_digests.
  unfold fits_u32 in *. pose proof (div_ceil_spec pc 64 ltac:(lia) ltac:(lia)).
  assert (Hn : num_groups pc = div_ceil pc 64) by (unfold num_groups, GROUP_SIZE; lia).
  rewrite (range_empty (num_groups pc)), app_nil_r by lia. apply filter_none.
  intros g Hg%elem_of_range. unfold group_differs.
  zdec (pc <? 64 * g + 1) false. cbn.
  rewrite bool_decide_eq_true_2; [done|].
  unfold replica_digests, index. zdec (0 <=? g) true.
  rewrite list_lookup_fmap. unfold range. rewrite lookup_seqZ_lt by lia. cbn.
  by replace (Z.of_nat (Z.to_nat g)) with g by lia.
Qed.

(** Writing every differing page of a replica that is not larger leaves the
    origin's image. *)
Lemma elem_of_differing p :
  p ∈ List.filter differs (range_incl 1 pc) <-> 1 <= p <= pc /\ differs p = true.
Proof. by rewrite list_elem_of_In, filter_In, <- list_elem_of_In, elem_of_range_incl. Qed.

Lemma written_differing c m :
  rc <= pc ->
  written ps ob rb rc
    (map (fun p => mk_page p (page_of ps ob p)) (List.filter differs (range_incl 1 pc))) c m ->
  file c = ob.
Proof.
  intros Hle [Hz Hg Hcov Hbnd Hnew Hold]. rewrite map_map, map_id in Hnew, Hold.
  unfold fits_u32 in *.
  assert (m = pc) as ->.
  { apply Z.le_antisymm.
    - apply Hbnd; [lia|]. intros w (p & -> & [Hp _]%elem_of_differing)%list_elem_of_fmap.
      cbn. lia.
    - destruct (decide (rc = pc)); [lia|].
      apply (Hcov (mk_page pc (page_of ps ob pc))).
      apply list_elem_of_fmap. exists pc. split; [done|].
      apply elem_of_differing. split; [lia|]. unfold differs. by zdec (rc <? pc) true. }
  apply (image_ext ps pc); [done|lia|done|done|].
  intros p Hp. destruct (differs p) eqn:E.
  - by apply Hnew, elem_of_differing.
  - pose proof E as Ed. unfold differs in Ed. zbool. apply bool_decide_eq_true in H3 as ->.
    apply Hold; [lia|]. rewrite elem_of_differing. intros [_ ?]. congruence.
Qed.

(** *** Whole traces *)

(** The origin's side over a prefix of the flagged groups. *)
Lemma passes_otrace snap t gs rest :
  snap_page_size snap = ps -> snap_page_count snap = pc -> snap_bytes snap = ob ->
  need_fine ps pc rc ob rb = gs ++ rest ->
  (forall g, g ∈ gs -> 64 * g + zlen (offered ps rc rb g) <= Z.max pc (64 * g)) ->
  otrace (Origin.run_with_tuning snap t)
    ([ToOrigin (Hello 2 ps rc); ToReplica (HelloAck 2 ps pc);
      ToOrigin (GroupHashes 0 (replica_digests ps rc rb)); ToReplica (GroupsNeedFine (gs ++ rest))]
     ++ concat (map (group_trace ps pc rc ob rb) gs))
    (await? _ := Origin.fine_pass t ob ps pc alg rest in await? _ := send Done in Ret (Ok tt)).
Proof.
  intros Es Ec Eb Hnf Hle. unfold Origin.run_with_tuning.
  eapply (otrace_bindr _ alg [_; _]).
  { unfold Origin.handshake. apply ot_recv. cbn -[from_protocol_version].
    rewrite Es, Ec, Z.eqb_refl. cbn. apply ot_send. apply ot_nil. }
  unfold Origin.passes. rewrite Es, Ec, Eb. apply ot_recv. cbn -[Origin.fine_pass].
  rewrite coarse_need_fine_ok;
    [|done|done|done|rewrite zlen_replica_digests; by apply num_groups_bound].
  cbn -[Origin.fine_pass]. fold (need_fine ps pc rc ob rb). rewrite Hnf. apply ot_send.
  apply otrace_bind, fine_pass_otrace; try done.
  intros g Hg. split; [|by apply Hle].
  apply (need_fine_groups ps pc rc ob rb Hpc Hrc g). rewrite Hnf. apply elem_of_app. by left.
Qed.

Lemma sync_otrace snap t :
  snap_page_size snap = ps -> snap_page_count snap = pc -> snap_bytes snap = ob -> rc <= pc ->
  otrace (Origin.run_with_tuning snap t) (session_trace ps pc rc ob rb) (Ret (Ok tt)).
Proof.
  intros Es Ec Eb Hle. unfold session_trace.
  pose proof (passes_otrace snap t (need_fine ps pc rc ob rb) [] Es Ec Eb) as Hp.
  rewrite app_nil_r in Hp. rewrite app_assoc.
  eapply otrace_app; [apply Hp; [done|]|].
  - intros g Hg. destruct (need_fine_groups ps pc rc ob rb Hpc Hrc g Hg).
    rewrite zlen_offered by done. lia.
  - apply ot_send. apply ot_nil.
Qed.

(** The replica's passes, its hashes computed. *)
Lemma passes_hashes c t :
  page_size c = ps -> sqlite3_serialize c = Some rb ->
  Replica.passes c t rc alg =
  Send (GroupHashes 0 (replica_digests ps rc rb)) (fun r =>
    pbindr (Ret r) (fun _ => 
    await? need_fine_msg := recv in
    await? need_fine :=
      match need_fine_msg with
      | GroupsNeedFine group_indices => Ret (Ok group_indices)
      | Error message => ret_err (Protocol message)
      | other => Replica.violate ("expected GroupsNeedFine, got " +++ debug_message other)
      end in
    match need_fine with
    | [] => expect_done "expected Done after empty GroupsNeedFine"
    | _ => await? ended := Replica.fine_pass (image_hashes ps rc rb alg) rc need_fine in
           finish ended
    end)).
Proof.
  intros Es Eb. unfold Replica.passes, serialize. rewrite Eb, Es.
  assert (Hb : (if rc =? 0 then Ok [] else Ok rb : SyncResult bytes) = Ok rb).
  { destruct (rc =? 0) eqn:E; [|done]. zbool. unfold zlen in Hrb. by destruct rb; [|cbn in Hrb; lia]. }
  rewrite Hb. unfold pbindr at 1. cbn [pbind].
  unfold fits_u32 in *.
  rewrite all_page_hashes_ok by lia. cbn [lift pbind].
  rewrite group_hashes_ok by done. done.
Qed.

(** The replica's side up to its fine pass. *)
Lemma passes_rtrace c t gs rest :
  page_size c = ps -> page_count c = Ok rc -> sqlite3_serialize c = Some rb ->
  (forall g, g ∈ gs -> group_ok g) -> gs ++ rest <> [] ->
  rtrace (Replica.run_with_tuning c t)
    ([ToOrigin (Hello 2 ps rc); ToReplica (HelloAck 2 ps pc);
      ToOrigin (GroupHashes 0 (replica_digests ps rc rb)); ToReplica (GroupsNeedFine (gs ++ rest))]
     ++ concat (map (group_trace ps pc rc ob rb) gs))
    (pbindr (Replica.fine_pass (image_hashes ps rc rb alg) rc rest) finish).
Proof.
  intros Es Ec Eb Hgs Hne. unfold Replica.run_with_tuning. rewrite Ec. cbn [pbindr pbind].
  eapply (rtrace_bindr _ alg [_; _]).
  { unfold Replica.handshake. rewrite Es. apply rt_send. apply rt_recv. cbn. apply rt_nil. }
  rewrite passes_hashes by done.
  apply rt_send. cbn [pbind pbindr]. apply rt_recv. cbn [pbind].
  assert (Hm : forall (A B : proc (SyncResult unit)),
    match gs ++ rest with [] => A | _ :: _ => B end = B) by (intros; by destruct (gs ++ rest)).
  unfold pbindr at 1. cbn [pbind]. rewrite Hm. apply rtrace_bind. by apply fine_pass_rtrace.
Qed.

Lemma sync_rtrace c t :
  page_size c = ps -> page_count c = Ok rc -> sqlite3_serialize c = Some rb ->
  rtrace (Replica.run_with_tuning c t) (session_trace ps pc rc ob rb) (Ret (Ok tt)).
Proof.
  intros Es Ec Eb. unfold session_trace.
  destruct (decide (need_fine ps pc rc ob rb = [])) as [E|E].
  - rewrite E. unfold Replica.run_with_tuning. rewrite Ec. cbn [pbindr pbind].
    eapply (rtrace_bindr _ alg [_; _]).
    { unfold Replica.handshake. rewrite Es. apply rt_send. apply rt_recv. cbn. apply rt_nil. }
    rewrite passes_hashes by done. apply rt_send. apply rt_recv. cbn.
    apply rt_recv. apply rt_nil.
  - rewrite app_assoc. eapply rtrace_app.
    + pose proof (passes_rtrace c t (need_fine ps pc rc ob rb) [] Es Ec Eb) as Hp.
      rewrite app_nil_r in Hp. apply Hp; [|done].
      intros g Hg. by apply (need_fine_groups ps pc rc ob rb).
    + cbn. apply rt_recv. apply rt_nil.
Qed.
End Sync.

(** ** Ends of a session *)
Section Ends.
Context `{!Digests, !Rayon, !HashSetDebug}.

Definition finished (c : config) : Prop :=
  origin c = Ret (Ok tt) /\ replica c = Ret (Ok tt).

(** The pages carried by a list of messages. *)
Definition pages_in (ms : list Message) : list PageData :=
  concat (map (fun m => match m with SendPages ps => ps | _ => [] end) ms).

Lemma ret_nf {A B} (a : A) (b : B) qo qr c os rs : nf step (mk_config (Ret a) (Ret b) qo qr c os rs).
Proof. intros [d Hd]. inversion Hd. Qed.

Lemma writes_app T1 T2 : writes (T1 ++ T2) = writes T1 ++ writes T2.
Proof. apply omap_app. Qed.

Lemma writes_events ws : writes (write_events ws) = ws.
Proof. induction ws as [|[n d] ws IH]; cbn; [done|]. by rewrite <- IH at 2. Qed.

Lemma sent_events ws : sent_by_origin (write_events ws) = [].
Proof. induction ws as [|w ws IH]; cbn; done. Qed.

Lemma writes_groups ps pc rc ob rb gs :
  writes (concat (map (group_trace ps pc rc ob rb) gs)) =
  concat (map (pages_sent ps pc rc ob rb) gs).
Proof.
  induction gs as [|g gs IH]; cbn [map concat]; [done|].
  rewrite writes_app, IH. f_equal. unfold group_trace.
  cbn. change (omap _ ?l) with (writes l).
  rewrite writes_app, writes_events. cbn. apply app_nil_r.
Qed.

Lemma pages_in_groups ps pc rc ob rb gs :
  pages_in (sent_by_origin (concat (map (group_trace ps pc rc ob rb) gs))) =
  concat (map (pages_sent ps pc rc ob rb) gs).
Proof.
  induction gs as [|g gs IH]; cbn [map concat]; [done|].
  unfold sent_by_origin in *. rewrite omap_app.
  unfold pages_in in *. rewrite map_app, concat_app, IH. f_equal.
  unfold group_trace. cbn. change (omap _ ?l) with (sent_by_origin l).
  unfold sent_by_origin. rewrite omap_app. change (omap _ (write_events ?l)) with (sent_by_origin (write_events l)).
  rewrite sent_events. cbn. apply app_nil_r.
Qed.

Lemma pages_sent_writable ps pc rc ob rb gs :
  0 < ps -> zlen ob = pc * ps -> (forall g, g ∈ gs -> group_ok g) ->
  Forall (fun w => 1 <= page_no w /\ data w = page_of ps ob (page_no w) /\ zlen (data w) = ps)
    (concat (map (pages_sent ps pc rc ob rb) gs)).
Proof.
  intros Hps Hob Hgs. apply Forall_concat, Forall_map, Forall_forall. intros g Hg.
  eapply Forall_impl; [apply pages_sent_wf; auto|].
  intros w (? & ? & ?). split; [lia|done].
Qed.

(** The common run of the session theorems. *)
Lemma session_run snap c ot rt rc :
  snapshot_ok snap -> replica_ok (snap_page_size snap) rc c -> rc <= snap_page_count snap ->
  let ps := snap_page_size snap in
  let pc := snap_page_count snap in
  let ob := snap_bytes snap in
  let ws := concat (map (pages_sent ps pc rc ob (file c)) (need_fine ps pc rc ob (file c))) in
  exists c' m', written ps ob (file c) rc ws c' m' /\ apply_writes c ws = Some c' /\
    rtc step (start snap c ot rt)
      (mk_config (Ret (Ok tt)) (Ret (Ok tt)) [] [] c'
         (sent_by_origin (session_trace ps pc rc ob (file c)))
         (sent_by_replica (session_trace ps pc rc ob (file c)))).
Proof.
  intros (Hps & Hpc & Hob) (Es & Ec & Eb & Hrb & Hrc & Hw & Hf) Hle ps pc ob ws.
  assert (Hws := pages_sent_writable ps pc rc ob (file c) (need_fine ps pc rc ob (file c))
    Hps Hob (need_fine_groups _ _ _ _ _ Hpc Hrc)).
  assert (Hrc0 : 0 <= rc) by (destruct Hrc; lia).
  destruct (apply_writes_ok ps Hps ob c rc ws Es Hw Hf Hrc0 Hrb Hws)
    as (c' & m' & Ha & Hwr & _).
  exists c', m'. split; [done|]. split; [done|].
  apply (trace_run _ _ _ _ _ _ _ [] []).
  - by apply sync_otrace.
  - by apply sync_rtrace.
  - unfold session_trace. rewrite !writes_app, writes_groups. cbn.
    rewrite app_nil_r. exact Ha.
Qed.

Lemma apply_groups_ok ps pc rc ob c gs :
  0 < ps -> zlen ob = pc * ps -> (forall g, g ∈ gs -> group_ok g) ->
  page_size c = ps -> write_fd c = true -> write_faults c = [] ->
  fits_u32 rc -> zlen (file c) = rc * ps ->
  exists c', apply_writes c (concat (map (pages_sent ps pc rc ob (file c)) gs)) = Some c'.
Proof.
  intros Hps Hob Hgs Es Hw Hf [Hrc _] Hrb.
  destruct (apply_writes_ok ps Hps ob c rc _ Es Hw Hf Hrc Hrb
              (pages_sent_writable ps pc rc ob (file c) gs Hps Hob Hgs)) as (c' & m' & Ha & _).
  by exists c'.
Qed.

(** With a larger replica, some flagged group has digests past the snapshot. *)
Definition excess (pc rc g : Z) : Prop := pc < 64 * g + 64 /\ pc < rc /\ 64 * g < rc.

Lemma excess_group ps pc rc ob rb :
  fits_u32 pc -> fits_u32 rc -> pc < rc -> no_collision ps pc rc ob rb ->
  exists g, g ∈ need_fine ps pc rc ob rb /\ excess pc rc g.
Proof.
  unfold fits_u32. intros Hpc Hrc Hlt NC. exists (pc / 64).
  pose proof (Z.div_mod pc 64 ltac:(lia)). pose proof (Z.mod_pos_bound pc 64 ltac:(lia)).
  pose proof (div_ceil_spec rc 64 ltac:(lia) ltac:(lia)).
  assert (Hg : 0 <= pc / 64 < num_groups rc) by (unfold num_groups, GROUP_SIZE; lia).
  split; [|unfold excess; lia].
  unfold need_fine, need_fine_spec. apply elem_of_app. left.
  apply list_elem_of_In, filter_In. rewrite <- list_elem_of_In, elem_of_range.
  rewrite zlen_replica_digests. split; [done|].
  unfold group_differs. apply orb_true_iff. right. apply negb_true_iff, bool_decide_eq_false.
  rewrite index_replica_digests by done. intros [= Hd].
  symmetry in Hd. apply (nc_group _ _ _ _ _ NC) in Hd; [|done].
  apply (f_equal length) in Hd. unfold group_page_hashes in Hd. rewrite !length_map in Hd.
  pose proof (zlen_group_range pc (pc / 64) ltac:(lia)).
  pose proof (zlen_group_range rc (pc / 64) ltac:(lia)). unfold zlen in *. lia.
Qed.

Lemma first_split (P : Z -> Prop) `{!forall x, Decision (P x)} l :
  (exists x, x ∈ l /\ P x) ->
  exists pre x post, l = pre ++ x :: post /\ P x /\ forall y, y ∈ pre -> ~ P y.
Proof.
  intros (x & Hx & HP). induction l as [|y l IH]; [set_solver|].
  destruct (decide (P y)) as [Hy|Hy].
  - exists [], y, l. split; [done|]. split; [done|]. set_solver.
  - apply elem_of_cons in Hx as [->|Hx]; [done|].
    destruct (IH Hx) as (pre & z & post & -> & Hz & Hpre).
    exists (y :: pre), z, post. split; [done|]. split; [done|].
    intros w [->|Hw]%elem_of_cons; auto.
Qed.

#[local] Instance excess_dec pc rc g : Decision (excess pc rc g).
Proof. unfold excess. apply _. Defined.

(** The dialogue up to the first group with digests past the snapshot. *)
Definition panic_trace ps pc rc ob rb pre g post : list event :=
  ([ToOrigin (Hello 2 ps rc); ToReplica (HelloAck 2 ps pc);
    ToOrigin (GroupHashes 0 (replica_digests ps rc rb));
    ToReplica (GroupsNeedFine (pre ++ g :: post))]
   ++ concat (map (group_trace ps pc rc ob rb) pre))
  ++ [ToOrigin (PageHashes (group_range rc g) (offered ps rc rb g))].

Lemma panic_otrace snap t rc rb pre g post :
  let ps := snap_page_size snap in
  let pc := snap_page_count snap in
  let ob := snap_bytes snap in
  snapshot_ok snap -> fits_u32 rc -> zlen rb = rc * ps ->
  need_fine ps pc rc ob rb = pre ++ g :: post ->
  (forall h, h ∈ pre ++ g :: post -> group_ok h) ->
  excess pc rc g -> (forall h, h ∈ pre -> ~ excess pc rc h) ->
  otrace (Origin.run_with_tuning snap t) (panic_trace ps pc rc ob rb pre g post) Panic.
Proof.
  intros ps pc ob (Hps & Hpc & Hob) Hrc Hrb Hnf Hok Hg Hpre.
  eapply otrace_app; [apply (passes_otrace ps pc rc ob rb); try done|].
  - intros h Hh. specialize (Hpre h Hh).
    destruct (Hok h ltac:(apply elem_of_app; by left)).
    rewrite zlen_offered by done. unfold excess in Hpre. lia.
  - destruct (Hok g ltac:(apply elem_of_app; right; by left)). cbn [Origin.fine_pass].
    do 2 apply (otrace_bind _ Panic). apply fine_group_panics; try done;
      rewrite zlen_offered by done; unfold excess in Hg; lia.
Qed.

Lemma panic_rtrace ps pc rc ob c t pre g post :
  replica_ok ps rc c -> 0 < ps -> (forall h, h ∈ pre ++ g :: post -> group_ok h) ->
  exists k, rtrace (Replica.run_with_tuning c t) (panic_trace ps pc rc ob (file c) pre g post)
    (Recv k).
Proof.
  intros (Es & Ec & Eb & Hrb & Hrc & _) Hps Hok.
  eexists. eapply rtrace_app; [apply (passes_rtrace ps pc rc ob (file c)); try done|].
  - intros h Hh. apply Hok, elem_of_app. by left.
  - by destruct pre.
  - destruct (Hok g ltac:(apply elem_of_app; right; by left)).
    cbn [Replica.fine_pass]. rewrite fine_offer_ok by done.
    cbn [lift pbind pbindr fst snd]. apply rt_send. apply rt_nil.
Qed.

(** A terminal state every schedule ends in. *)
Lemma nf_unique {A B} (c d e : config_of A B) : rtc step c d -> nf step d -> rtc step c e -> nf step e -> e = d.
Proof.
  intros Hd Hnd (m & Hm)%rtc_nsteps Hne.
  destruct (uniform_end c d Hd Hnd) as (n & Hn & Hall).
  destruct (Hall m e Hm) as [Hle Hrest]. inversion Hrest as [|? ? x]; subst; [done|].
  destruct Hne. eexists. eassumption.
Qed.

(** A session with a replica that is not larger ends well. *)
Lemma sync_end snap c ot rt rc :
  snapshot_ok snap -> replica_ok (snap_page_size snap) rc c -> rc <= snap_page_count snap ->
  no_collision (snap_page_size snap) (snap_page_count snap) rc (snap_bytes snap) (file c) ->
  exists n final, nsteps step n (start snap c ot rt) final /\ nf step final /\
    finished final /\ file (conn final) = snap_bytes snap.
Proof.
  intros Hs Hr Hle NC.
  destruct (session_run snap c ot rt rc Hs Hr Hle) as (c' & m' & Hw & Ha & Hrun).
  destruct Hs as (Hps & Hpc & Hob). destruct Hr as (Es & Ec & Eb & Hrb & Hrc & Hwf & Hf).
  rewrite session_pages in Hw by done.
  apply rtc_nsteps in Hrun as [n Hn].
  eexists n, _. split; [exact Hn|]. split; [apply ret_nf|]. split; [done|]. cbn [conn].
  eapply (written_differing _ (snap_page_count snap) rc _ (file c)); eauto.
Qed.

(** A session with a larger replica ends in a panic of the origin. *)
Lemma panic_end snap c ot rt rc :
  snapshot_ok snap -> replica_ok (snap_page_size snap) rc c -> snap_page_count snap < rc ->
  no_collision (snap_page_size snap) (snap_page_count snap) rc (snap_bytes snap) (file c) ->
  exists final, rtc step (start snap c ot rt) final /\ nf step final /\
    origin final = Panic /\ (exists k, replica final = Recv k) /\
    forall other, rtc step (start snap c ot rt) other -> nf step other -> other = final.
Proof.
  intros Hs Hrep Hlt NC. destruct (Hs) as (Hps & Hpc & Hob).
  destruct (Hrep) as (Es & Ec & Eb & Hrb & Hrc & Hw & Hf).
  set (ps := snap_page_size snap) in *. set (pc := snap_page_count snap) in *.
  set (ob := snap_bytes snap) in *.
  destruct (first_split (excess pc rc) _ (excess_group ps pc rc ob (file c) Hpc Hrc Hlt NC))
    as (pre & g & post & Hnf & Hg & Hpre).
  assert (Hok : forall h, h ∈ pre ++ g :: post -> group_ok h)
    by (intros h Hh; rewrite <- Hnf in Hh; by apply (need_fine_groups ps pc rc ob (file c))).
  destruct (apply_groups_ok ps pc rc ob c pre) as (c' & Ha); try done.
  { intros h Hh. apply Hok, elem_of_app. by left. }
  pose (T := panic_trace ps pc rc ob (file c) pre g post).
  assert (Ho : otrace (Origin.run_with_tuning snap ot) T Panic) by by apply panic_otrace.
  destruct (panic_rtrace ps pc rc ob c rt pre g post) as [k Hr]; try done.
  assert (HT : apply_writes c (writes T) = Some c').
  { unfold T, panic_trace. rewrite !writes_app, writes_groups. cbn. by rewrite app_nil_r. }
  pose proof (trace_run _ Panic _ (Recv k) T c c' [] [] Ho Hr HT) as Hrun.
  eexists. split; [exact Hrun|].
  assert (Hnfin : forall os rs, nf step (@mk_config (SyncResult unit) _ Panic (Recv k) [] [] c' os rs))
    by (intros os rs [d Hd]; inversion Hd).
  split; [apply Hnfin|].
  split; [done|]. split; [by eexists|]. intros other Hoth Hno.
  by apply (nf_unique _ _ _ Hrun).
Qed.
End Ends.

(** ** Claims *)
Section Claims.
Context `{!Digests, !Rayon, !HashSetDebug}.

(** C1. Both handlers, run over an ordered channel with any tuning on either side,
    against a replica that has no more pages than the origin snapshot: every
    schedule of the two ends after the same number of steps, with [Ok] on both
    sides and the replica file equal to the snapshot bytes. *)
Theorem sync_makes_identical snap c ot rt rc :
  snapshot_ok snap -> replica_ok (snap_page_size snap) rc c -> rc <= snap_page_count snap ->
  no_collision (snap_page_size snap) (snap_page_count snap) rc (snap_bytes snap) (file c) ->
  exists n final,
    nsteps step n (start snap c ot rt) final /\ nf step final /\
    finished final /\ file (conn final) = snap_bytes snap /\
    forall m c', nsteps step m (start snap c ot rt) c' ->
      (m <= n)%nat /\ nsteps step (n - m) c' final.
Proof.
  intros Hs Hr Hle NC.
  destruct (sync_end snap c ot rt rc Hs Hr Hle NC) as (n0 & final & Hn0 & Hnf & Hfin & Hfile).
  assert (Hrun : rtc step (start snap c ot rt) final) by (apply rtc_nsteps; by exists n0).
  destruct (uniform_end _ _ Hrun Hnf) as (n & Hn & Hall).
  by exists n, final.
Qed.

(** C9. Every terminated session has transferred exactly the pages the replica lacks
    or holds with other bytes, each once and in ascending order. *)
Theorem sync_sends_the_difference snap c ot rt rc final :
  snapshot_ok snap -> replica_ok (snap_page_size snap) rc c -> rc <= snap_page_count snap ->
  no_collision (snap_page_size snap) (snap_page_count snap) rc (snap_bytes snap) (file c) ->
  rtc step (start snap c ot rt) final -> nf step final ->
  pages_in (origin_sent final) =
  map (fun p => mk_page p (page_of (snap_page_size snap) (snap_bytes snap) p))
    (List.filter (differs (snap_page_size snap) rc (snap_bytes snap) (file c))
       (range_incl 1 (snap_page_count snap))).
Proof.
  intros Hs Hr Hle NC Hfin Hnf.
  destruct (session_run snap c ot rt rc Hs Hr Hle) as (c' & m' & _ & _ & Hrun).
  rewrite (nf_unique _ _ _ Hrun (ret_nf _ _ _ _ _ _ _) Hfin Hnf). cbn [origin_sent].
  destruct Hs as (Hps & Hpc & Hob). destruct Hr as (Es & Ec & Eb & Hrb & Hrc & Hwf & Hf).
  rewrite <- (session_pages _ _ rc _ (file c)) by done. unfold session_trace.
  unfold sent_by_origin. rewrite !omap_app. unfold pages_in. rewrite !map_app, !concat_app.
  cbn. rewrite app_nil_r. apply pages_in_groups.
Qed.

(** Synchronising again is cheap: against a non-empty replica with the snapshot's
    bytes no group is flagged, no page is sent and the replica is untouched,
    whatever the digest functions are. *)
Theorem resync_sends_nothing snap c ot rt final :
  snapshot_ok snap -> 0 < snap_page_count snap ->
  replica_ok (snap_page_size snap) (snap_page_count snap) c -> file c = snap_bytes snap ->
  rtc step (start snap c ot rt) final -> nf step final ->
  finished final /\ conn final = c /\
  origin_sent final = [HelloAck 2 (snap_page_size snap) (snap_page_count snap);
                       GroupsNeedFine []; Done].
Proof.
  intros Hs Hpos Hr Heq Hfin Hnf.
  destruct (session_run snap c ot rt _ Hs Hr ltac:(lia)) as (c' & m' & _ & Ha & Hrun).
  rewrite (nf_unique _ _ _ Hrun (ret_nf _ _ _ _ _ _ _) Hfin Hnf).
  destruct Hs as (Hps & Hpc & Hob). cbn [origin_sent conn].
  assert (Hnf0 : need_fine (snap_page_size snap) (snap_page_count snap) (snap_page_count snap)
                  (snap_bytes snap) (file c) = []).
  { rewrite Heq. by apply need_fine_self. }
  rewrite Hnf0 in Ha. cbn in Ha. injection Ha as <-.
  unfold session_trace. by rewrite Hnf0.
Qed.

(** C24. A replica with more pages than the origin snapshot is not truncated: the
    origin handler panics on a slice past the snapshot, on every schedule, and
    leaves the replica waiting for an answer. *)
Theorem larger_replica_panics snap c ot rt rc :
  snapshot_ok snap -> replica_ok (snap_page_size snap) rc c -> snap_page_count snap < rc ->
  no_collision (snap_page_size snap) (snap_page_count snap) rc (snap_bytes snap) (file c) ->
  exists final, rtc step (start snap c ot rt) final /\ nf step final /\
    origin final = Panic /\ (exists k, replica final = Recv k) /\
    forall other, rtc step (start snap c ot rt) other -> nf step other -> other = final.
Proof. apply panic_end. Qed.
End Claims.

(** ** Example sessions *)
Module Example.
Definition pages_row (n : Z) : nat -> PragmaOutcome := fun _ => mk_pragma 0 "" SQLITE_ROW n.

(** Three pages of two bytes at the origin. *)
Definition snap : Snapshot := mk_snap [1; 2; 3; 4; 5; 6] 2 3.

(** Replicas: a stale one of two pages, an equal one, one with a page too many. *)
Definition replica_of (pages : Z) (image : bytes) : Connection :=
  mk_conn 2 (pages_row pages) (Some image) image true [].
Definition stale : Connection := replica_of 2 [1; 2; 9; 9].
Definition equal : Connection := replica_of 3 [1; 2; 3; 4; 5; 6].
Definition larger : Connection := replica_of 4 [1; 2; 3; 4; 5; 6; 7; 8].

(** Decide the collision hypothesis of a session of at most four pages. *)
Ltac collision_free :=
  constructor;
  [ intros p Hp;
    assert (Hc : p = 1 \/ p = 2 \/ p = 3 \/ p = 4) by lia;
    destruct Hc as [Hc|[Hc|[Hc|Hc]]]; subst p; vm_compute; congruence
  | intros g Hg; vm_compute in Hg;
    assert (g = 0) as -> by (destruct g as [|q|q]; [done|destruct q|]; by destruct Hg);
    vm_compute; congruence ].

Lemma stale_free : no_collision 2 3 2 (snap_bytes snap) (file stale).
Proof. collision_free. Qed.

Lemma larger_free : no_collision 2 3 4 (snap_bytes snap) (file larger).
Proof. collision_free. Qed.
End Example.

Lemma snap_ok : snapshot_ok Example.snap.
Proof. repeat split; vm_compute; congruence. Qed.

Lemma stale_ok : replica_ok 2 2 Example.stale.
Proof. repeat split; vm_compute; congruence. Qed.

Lemma equal_ok : replica_ok 2 3 Example.equal.
Proof. repeat split; vm_compute; congruence. Qed.

Lemma larger_ok : replica_ok 2 4 Example.larger.
Proof. repeat split; vm_compute; congruence. Qed.

Lemma sync_makes_identical_witness :
  exists n final,
    nsteps step n (start Example.snap Example.stale default_tuning default_tuning) final /\
    nf step final /\ finished final /\ file (conn final) = [1; 2; 3; 4; 5; 6] /\
    forall m c', nsteps step m (start Example.snap Example.stale default_tuning default_tuning) c' ->
      (m <= n)%nat /\ nsteps step (n - m) c' final.
Proof.
  apply (sync_makes_identical Example.snap Example.stale default_tuning default_tuning 2);
    [exact snap_ok|exact stale_ok|vm_compute; congruence|exact Example.stale_free].
Defined.

(** Every schedule that ends has sent pages 2 and 3. *)
Lemma sync_sends_the_difference_witness :
  exists final, rtc step (start Example.snap Example.stale default_tuning default_tuning) final /\
    nf step final /\ pages_in (origin_sent final) = [mk_page 2 [3; 4]; mk_page 3 [5; 6]].
Proof.
  destruct (sync_end Example.snap Example.stale default_tuning default_tuning 2
              snap_ok stale_ok ltac:(vm_compute; congruence) Example.stale_free)
    as (n & final & Hn & Hnf & _).
  assert (Hrun := rtc_nsteps_2 _ _ _ Hn).
  exists final. split; [exact Hrun|]. split; [exact Hnf|].
  rewrite (sync_sends_the_difference Example.snap Example.stale default_tuning default_tuning 2 final
             snap_ok stale_ok ltac:(vm_compute; congruence) Example.stale_free Hrun Hnf).
  vm_compute. reflexivity.
Defined.

Lemma resync_sends_nothing_witness :
  exists final, rtc step (start Example.snap Example.equal default_tuning default_tuning) final /\
    nf step final /\ conn final = Example.equal /\
    origin_sent final = [HelloAck 2 2 3; GroupsNeedFine []; Done].
Proof.
  destruct (session_run Example.snap Example.equal default_tuning default_tuning 3
              snap_ok equal_ok ltac:(vm_compute; congruence)) as (c' & m' & _ & _ & Hrun).
  eexists. split; [exact Hrun|]. split; [apply ret_nf|].
  destruct (resync_sends_nothing Example.snap Example.equal default_tuning default_tuning _
              snap_ok ltac:(vm_compute; congruence) equal_ok ltac:(reflexivity)
              Hrun (ret_nf _ _ _ _ _ _ _)) as (_ & Hc & Hs).
  split; [exact Hc|exact Hs].
Defined.

Lemma larger_replica_panics_witness :
  exists final, rtc step (start Example.snap Example.larger default_tuning default_tuning) final /\
    nf step final /\ origin final = Panic /\ (exists k, replica final = Recv k) /\
    forall other, rtc step (start Example.snap Example.larger default_tuning default_tuning) other ->
      nf step other -> other = final.
Proof.
  apply (larger_replica_panics Example.snap Example.larger default_tuning default_tuning 4);
    [exact snap_ok|exact larger_ok|vm_compute; congruence|exact Example.larger_free].
Defined.
