(* ===== verification/SyncLocal.v ===== *)
(** * Local synchronisation (src/src/lib.rs [sync_local], [sync_local_with_tuning])

    [drive] is an executable scheduler of a session; [drive_complete] shows that it
    reaches the end of every terminating session.  [sync_local_with_tuning] opens
    both databases, takes the snapshot, runs the session and commits: a session
    that can make no more progress is the five-minute timeout of the source. *)

From S2P Require Import Prelude RustStr Errors Hash Messages Proc Db Tuning Pages Instances.
From S2P Require Import Origin Replica Session.

Definition replica_step {A B} (c : config_of A B) : option (config_of A B) :=
  match replica c with
  | Send m k =>
      Some (mk_config (origin c) (k (Ok tt)) (to_origin c ++ [m]) (to_replica c) (conn c)
              (origin_sent c) (replica_sent c ++ [m]))
  | Recv k =>
      match to_replica c with
      | m :: q => Some (mk_config (origin c) (k (Ok m)) (to_origin c) q (conn c)
                          (origin_sent c) (replica_sent c))
      | [] => None
      end
  | Write n d k =>
      let '(r, conn') := write_page (conn c) n d in
      Some (mk_config (origin c) (k r) (to_origin c) (to_replica c) conn'
              (origin_sent c) (replica_sent c))
  | Ret _ | Panic => None
  end.

Definition sched_step {A B} (c : config_of A B) : option (config_of A B) :=
  match origin c with
  | Send m k =>
      Some (mk_config (k (Ok tt)) (replica c) (to_origin c) (to_replica c ++ [m]) (conn c)
              (origin_sent c ++ [m]) (replica_sent c))
  | Recv k =>
      match to_origin c with
      | m :: q => Some (mk_config (k (Ok m)) (replica c) q (to_replica c) (conn c)
                          (origin_sent c) (replica_sent c))
      | [] => replica_step c
      end
  | _ => replica_step c
  end.

Fixpoint drive {A B} (fuel : nat) (c : config_of A B) : config_of A B :=
  match fuel with
  | O => c
  | S fuel => match sched_step c with Some c => drive fuel c | None => c end
  end.

Lemma replica_step_sound {A B} (c : config_of A B) (d : config_of A B) : replica_step c = Some d -> step c d.
Proof.
  destruct c as [o r qo qr cn os rs]. unfold replica_step. cbn.
  destruct r as [a| |m k|k|n b k]; try done.
  - intros [= <-]. constructor.
  - destruct qr; [done|]. intros [= <-]. constructor.
  - pose proof (replica_writes n b k o qo qr cn os rs) as H.
    destruct (write_page cn n b). cbn in H. by intros [= <-].
Qed.

Lemma sched_step_sound {A B} (c : config_of A B) (d : config_of A B) : sched_step c = Some d -> step c d.
Proof.
  unfold sched_step. pose proof (replica_step_sound c d) as Hr.
  destruct c as [o r qo qr cn os rs]. cbn [origin to_origin] in *.
  destruct o as [a| |m k|k|n b k]; auto.
  - intros [= <-]. constructor.
  - destruct qo; [done|]. intros [= <-]. constructor.
Qed.

Lemma sched_step_complete {A B} (c : config_of A B) (d : config_of A B) : step c d -> is_Some (sched_step c).
Proof.
  destruct 1; unfold sched_step; cbn; try (by eexists).
  - destruct o; try (by eexists); destruct qo; by eexists.
  - destruct o; try (by eexists); destruct qo; by eexists.
  - assert (H : forall o' : proc A, is_Some (replica_step (mk_config o' (Write n d k) qo qr c os rs))).
    { intros o'. unfold replica_step. cbn. destruct (write_page c n d). by eexists. }
    destruct o; try apply H; [by eexists|]. destruct qo; [apply H|by eexists].
Qed.

(** The scheduler finds the end of any session that has one. *)
Lemma drive_steps {A B} fuel : forall c : config_of A B, rtc step c (drive fuel c).
Proof.
  induction fuel as [|fuel IH]; intros c; [apply rtc_refl|]. cbn.
  destruct (sched_step c) eqn:E; [|apply rtc_refl]. eapply rtc_l; [by apply sched_step_sound|apply IH].
Qed.

Lemma drive_complete {A B} n (c : config_of A B) (d : config_of A B) fuel :
  nsteps step n c d -> nf step d -> (n <= fuel)%nat -> drive fuel c = d.
Proof.
  revert c fuel. induction n as [|n IH]; intros c fuel Hn Hnf Hle.
  - inversion Hn; subst. destruct fuel as [|fuel]; [done|]. cbn.
    destruct (sched_step d) eqn:E; [|done].
    destruct Hnf. eexists. by apply sched_step_sound.
  - destruct fuel as [|fuel]; [lia|]. cbn.
    destruct (sched_step c) as [c1|] eqn:E.
    + apply IH; [|done|lia].
      eapply diamond_push; eauto using step_diamond, sched_step_sound.
    + inversion Hn as [|? ? c1 ? Hstep _]; subst.
      apply sched_step_complete in Hstep. rewrite E in Hstep. by destruct Hstep.
Qed.

(** What [sync_local] leaves: its result ([None] is a panic), the replica's
    connection, and the statements run on the origin's transaction. *)
Record LocalOutcome := mk_local_outcome {
  lo_result : option (SyncResult unit);
  lo_replica : option Connection;
  lo_statements : list string;
}.

Section SyncLocal.
Context `{!Digests, !Rayon, !HashSetDebug}.

(** [tokio::join!] of both handlers under the timeout. *)
Definition join_result (final : config) : option (SyncResult (SyncResult unit * SyncResult unit)) :=
  match origin final, replica final with
  | Panic, _ | _, Panic => None
  | Ret a, Ret b => Some (Ok (a, b))
  | _, _ => Some (Err (Protocol "local sync timed out"))
  end.

Definition sync_local_with_tuning (open_origin open_replica : SyncResult Connection)
    (conn_exec : string -> SyncResult unit) (tuning : SyncTuning) (fuel : nat) : LocalOutcome :=
  match open_origin with
  | Err e => mk_local_outcome (Some (Err e)) None []
  | Ok origin_conn =>
      match open_replica with
      | Err e => mk_local_outcome (Some (Err e)) None []
      | Ok replica_conn =>
          match snapshot_begin conn_exec origin_conn with
          | (Err e, stmts) => mk_local_outcome (Some (Err e)) (Some replica_conn) stmts
          | (Ok snap, stmts) =>
              let final := drive fuel (start snap replica_conn tuning tuning) in
              let fail r := mk_local_outcome r (Some (conn final)) (stmts ++ snapshot_drop snap) in
              match join_result final with
              | None => fail None
              | Some (Err e) => fail (Some (Err e))
              | Some (Ok (Err e, _)) => fail (Some (Err e))
              | Some (Ok (Ok _, Err e)) => fail (Some (Err e))
              | Some (Ok (Ok _, Ok _)) =>
                  let '(r, commit_stmts) := snapshot_commit conn_exec snap in
                  mk_local_outcome (Some r) (Some (conn final)) (stmts ++ commit_stmts)
              end
          end
      end
  end.

Definition sync_local (open_origin open_replica : SyncResult Connection)
    (conn_exec : string -> SyncResult unit) (var : string -> option string) (fuel : nat)
  : LocalOutcome :=
  sync_local_with_tuning open_origin open_replica conn_exec (from_env var) fuel.

(** The origin connection at rest: SQLite reports the pages of its image. *)
Definition origin_ok (ps pc : Z) (image : bytes) (c : Connection) : Prop :=
  page_size c = ps /\ page_count c = Ok pc /\ sqlite3_serialize c = Some image /\
  0 < ps /\ fits_u32 pc /\ zlen image = pc * ps.

Lemma snapshot_begin_ok conn_exec ps pc image c :
  origin_ok ps pc image c -> conn_exec "BEGIN DEFERRED" = Ok tt ->
  snapshot_begin conn_exec c = (Ok (mk_snap image ps pc), ["BEGIN DEFERRED"]).
Proof.
  intros (Es & Ec & Eb & Hps & Hpc & Hz) Hx. unfold snapshot_begin. rewrite Hx, Ec, Es.
  unfold serialize. rewrite Eb. destruct (pc =? 0) eqn:E; [|done]. zbool.
  unfold zlen in Hz. by destruct image; [|cbn in Hz; lia].
Qed.

(** C3. [sync_local] between a readable origin and a writable replica that is not larger
    returns [Ok] (with enough scheduling steps) having made the replica file the
    origin's image; the read transaction is begun once and committed. *)
Theorem sync_local_correct oc rc_conn conn_exec tuning ps pc rc image :
  origin_ok ps pc image oc -> replica_ok ps rc rc_conn -> rc <= pc ->
  no_collision ps pc rc image (file rc_conn) ->
  conn_exec "BEGIN DEFERRED" = Ok tt -> conn_exec "COMMIT" = Ok tt ->
  exists n, forall fuel, (n <= fuel)%nat ->
    let out := sync_local_with_tuning (Ok oc) (Ok rc_conn) conn_exec tuning fuel in
    lo_result out = Some (Ok tt) /\
    option_map file (lo_replica out) = Some image /\
    lo_statements out = ["BEGIN DEFERRED"; "COMMIT"].
Proof.
  intros Ho Hr Hle NC Hb Hc.
  pose (snap := mk_snap image ps pc).
  assert (Hs : snapshot_ok snap) by (destruct Ho as (_ & _ & _ & ? & ? & ?); done).
  destruct (sync_end snap rc_conn tuning tuning rc Hs Hr Hle NC)
    as (n & final & Hn & Hnf & [Hfo Hfr] & Hfile).
  exists n. intros fuel Hfuel. unfold sync_local_with_tuning.
  rewrite (snapshot_begin_ok _ ps pc image) by done.
  rewrite (drive_complete n _ final) by done.
  unfold join_result. rewrite Hfo, Hfr. unfold snapshot_commit. rewrite Hc. cbn.
  by rewrite Hfile.
Qed.

(** A larger replica makes [sync_local] panic instead of returning; the origin's
    transaction is rolled back as the snapshot unwinds. *)
Theorem sync_local_larger_panics oc rc_conn conn_exec tuning ps pc rc image :
  origin_ok ps pc image oc -> replica_ok ps rc rc_conn -> pc < rc ->
  no_collision ps pc rc image (file rc_conn) ->
  conn_exec "BEGIN DEFERRED" = Ok tt ->
  exists n, forall fuel, (n <= fuel)%nat ->
    let out := sync_local_with_tuning (Ok oc) (Ok rc_conn) conn_exec tuning fuel in
    lo_result out = None /\ lo_statements out = ["BEGIN DEFERRED"; "ROLLBACK"].
Proof.
  intros Ho Hr Hlt NC Hb.
  pose (snap := mk_snap image ps pc).
  assert (Hs : snapshot_ok snap) by (destruct Ho as (_ & _ & _ & ? & ? & ?); done).
  destruct (panic_end snap rc_conn tuning tuning rc Hs Hr Hlt NC)
    as (final & Hrun & Hnf & Hfo & _).
  apply rtc_nsteps in Hrun as [n Hn].
  exists n. intros fuel Hfuel. unfold sync_local_with_tuning.
  rewrite (snapshot_begin_ok _ ps pc image) by done.
  rewrite (drive_complete n _ final) by done.
  unfold join_result. by rewrite Hfo.
Qed.
End SyncLocal.

(** ** Examples *)

Definition example_origin : Connection :=
  mk_conn 2 (Example.pages_row 3) (Some [1; 2; 3; 4; 5; 6]) [1; 2; 3; 4; 5; 6] false [].

Lemma example_origin_ok : origin_ok 2 3 [1; 2; 3; 4; 5; 6] example_origin.
Proof. repeat split; vm_compute; congruence. Qed.

Lemma sync_local_correct_witness :
  exists n, forall fuel, (n <= fuel)%nat ->
    let out := sync_local_with_tuning (Ok example_origin) (Ok Example.stale) (fun _ => Ok tt)
                 default_tuning fuel in
    lo_result out = Some (Ok tt) /\
    option_map file (lo_replica out) = Some [1; 2; 3; 4; 5; 6] /\
    lo_statements out = ["BEGIN DEFERRED"; "COMMIT"].
Proof.
  apply (sync_local_correct example_origin Example.stale (fun _ => Ok tt) default_tuning 2 3 2);
    [exact example_origin_ok|exact stale_ok|lia|exact Example.stale_free|reflexivity|reflexivity].
Defined.

Lemma sync_local_larger_panics_witness :
  exists n, forall fuel, (n <= fuel)%nat ->
    let out := sync_local_with_tuning (Ok example_origin) (Ok Example.larger) (fun _ => Ok tt)
                 default_tuning fuel in
    lo_result out = None /\ lo_statements out = ["BEGIN DEFERRED"; "ROLLBACK"].
Proof.
  apply (sync_local_larger_panics example_origin Example.larger (fun _ => Ok tt) default_tuning
           2 3 4 [1; 2; 3; 4; 5; 6]);
    [exact example_origin_ok|exact larger_ok|lia|exact Example.larger_free|reflexivity].
Defined.

(** The same run, evaluated. *)
Example sync_local_runs :
  let out := sync_local_with_tuning (Ok example_origin) (Ok Example.stale) (fun _ => Ok tt)
               (mk_tuning (Some 2) 1 1) 100 in
  lo_result out = Some (Ok tt) /\ option_map file (lo_replica out) = Some [1; 2; 3; 4; 5; 6].
Proof. vm_compute. done. Qed.

(** A page write that fails is not reported: the replica handler returns its error, the
    origin handler keeps waiting for an acknowledgement on a channel that stays
    open, and the call ends with the timeout's error. *)
Definition full_disk : Connection :=
  mk_conn 2 (Example.pages_row 2) (Some [1; 2; 9; 9]) [1; 2; 9; 9] true
    [Some (0%nat, mk_io_error OtherKind "no space left on device")].

Theorem write_failure_reported_as_timeout :
  let final := drive 100 (start Example.snap full_disk default_tuning default_tuning) in
  replica final = Ret (Err (Io (mk_io_error OtherKind "no space left on device"))) /\
  sched_step final = None /\
  lo_result (sync_local_with_tuning (Ok example_origin) (Ok full_disk) (fun _ => Ok tt)
               default_tuning 100)
  = Some (Err (Protocol "local sync timed out")).
Proof. vm_compute. done. Qed.
