(* ===== verification/Faults.v ===== *)
(** * Sessions over failing links

    [lossy_step] adds to [Session.step] every failure a transport or disk can have:
    at any moment a send, a receive or a page write may return an error (the
    message is then not delivered; the file may be left in any state).  A process
    that has met an error is [quiet]: it writes nothing, sends nothing but [Error]
    messages and cannot succeed.  Both handlers obey this, so success of either
    side proves that the copy is complete ([success_means_identical]). *)

From S2P Require Import Prelude RustStr Errors Hash Messages Proc Db Tuning Pages Instances.
From S2P Require Import Origin Replica Session SyncLocal.

Inductive lossy_step {A B} : config_of A B -> config_of A B -> Prop :=
| link_works c d : step c d -> lossy_step c d
| origin_send_fails m k r qo qr c os rs e :
    lossy_step (mk_config (Send m k) r qo qr c os rs) (mk_config (k (Err e)) r qo qr c os rs)
| origin_recv_fails k r qo qr c os rs e :
    lossy_step (mk_config (Recv k) r qo qr c os rs) (mk_config (k (Err e)) r qo qr c os rs)
| replica_send_fails o m k qo qr c os rs e :
    lossy_step (mk_config o (Send m k) qo qr c os rs) (mk_config o (k (Err e)) qo qr c os rs)
| replica_recv_fails o k qo qr c os rs e :
    lossy_step (mk_config o (Recv k) qo qr c os rs) (mk_config o (k (Err e)) qo qr c os rs)
| replica_write_fails o n d k qo qr c c' os rs e :
    lossy_step (mk_config o (Write n d k) qo qr c os rs) (mk_config o (k (Err e)) qo qr c' os rs).

(** ** Processes that stop at the first failure *)
Section Quiet.
Context {A : Type} (ok : A -> bool).

Fixpoint quiet (p : proc A) : Prop :=
  match p with
  | Ret a => ok a = false
  | Panic => True
  | Send (Error _) k => forall r, quiet (k r)
  | Send _ _ => False
  | Recv k => forall r, quiet (k r)
  | Write _ _ _ => False
  end.

Fixpoint obedient (p : proc A) : Prop :=
  match p with
  | Ret _ | Panic => True
  | Send _ k => (forall e, quiet (k (Err e))) /\ obedient (k (Ok tt))
  | Recv k => (forall e, quiet (k (Err e))) /\ (forall t, quiet (k (Ok (Error t)))) /\
              (forall m, obedient (k (Ok m)))
  | Write _ _ k => (forall e, quiet (k (Err e))) /\ obedient (k (Ok tt))
  end.

(** A process that follows the dialogue [T] until, possibly, a failure. *)
Inductive ofollows : proc A -> list event -> Prop :=
| of_quiet p T : quiet p -> ofollows p T
| of_ret a : ofollows (Ret a) []
| of_send m k T : (forall e, quiet (k (Err e))) -> ofollows (k (Ok tt)) T ->
    ofollows (Send m k) (ToReplica m :: T)
| of_recv m k T : (forall e, quiet (k (Err e))) -> (forall t, quiet (k (Ok (Error t)))) ->
    ofollows (k (Ok m)) T -> ofollows (Recv k) (ToOrigin m :: T)
| of_skip n d p T : ofollows p T -> ofollows p (PageWrite n d :: T).

Inductive rfollows : proc A -> list event -> Prop :=
| rf_quiet p T : quiet p -> rfollows p T
| rf_ret a : rfollows (Ret a) []
| rf_send m k T : (forall e, quiet (k (Err e))) -> rfollows (k (Ok tt)) T ->
    rfollows (Send m k) (ToOrigin m :: T)
| rf_recv m k T : (forall e, quiet (k (Err e))) -> (forall t, quiet (k (Ok (Error t)))) ->
    rfollows (k (Ok m)) T -> rfollows (Recv k) (ToReplica m :: T)
| rf_write n d k T : (forall e, quiet (k (Err e))) -> rfollows (k (Ok tt)) T ->
    rfollows (Write n d k) (PageWrite n d :: T).

Lemma ofollows_trace p T a : obedient p -> otrace p T (Ret a) -> ofollows p T.
Proof.
  intros Hp HT. remember (Ret a) as q eqn:Eq.
  induction HT; subst; cbn in Hp; destruct_and?; eauto using ofollows.
Qed.

Lemma rfollows_trace p T a : obedient p -> rtrace p T (Ret a) -> rfollows p T.
Proof.
  intros Hp HT. remember (Ret a) as q eqn:Eq.
  induction HT; subst; cbn in Hp; destruct_and?; eauto using rfollows.
Qed.
End Quiet.

#[export] Hint Constructors ofollows rfollows : rust.

Lemma quiet_bind {A B} (okA : A -> bool) (okB : B -> bool) p (f : A -> proc B) :
  (forall a, okA a = false -> quiet okB (f a)) -> quiet okA p -> quiet okB (pbind p f).
Proof. intros Hf. induction p as [a| |m k IH|k IH|]; cbn; auto. destruct m; naive_solver. Qed.

Lemma quiet_bindr {A B} p (f : A -> proc (SyncResult B)) :
  quiet is_ok p -> quiet is_ok (pbindr p f).
Proof. apply quiet_bind. by intros []. Qed.

Lemma obedient_bind {A B} (okA : A -> bool) (okB : B -> bool) p (f : A -> proc B) :
  (forall a, okA a = false -> quiet okB (f a)) -> (forall a, obedient okB (f a)) ->
  obedient okA p -> obedient okB (pbind p f).
Proof.
  intros Hq Hf. induction p; cbn; auto; intros Hp; destruct_and?; repeat split;
    intros; eauto using quiet_bind.
Qed.

Lemma obedient_bindr {A B} p (f : A -> proc (SyncResult B)) :
  obedient is_ok p -> (forall a, obedient is_ok (f a)) -> obedient is_ok (pbindr p f).
Proof.
  intros Hp Hf. eapply (obedient_bind is_ok); [by intros []| |done].
  intros [a|e]; [apply Hf|done].
Qed.

(** ** The handlers obey *)

Lemma obedient_recv {B} (f : Message -> proc (SyncResult B)) :
  (forall t, quiet is_ok (f (Error t))) -> (forall m, obedient is_ok (f m)) ->
  obedient is_ok (await? m := recv in f m).
Proof. intros. repeat split; done. Qed.

Lemma obedient_lift {A B} (o : option A) (f : A -> proc (SyncResult B)) :
  (forall a, obedient is_ok (f a)) -> obedient is_ok (await a := lift o in f a).
Proof. intros Hf. destruct o; cbn; auto. Qed.

Lemma obedient_send m : obedient is_ok (send m).
Proof. done. Qed.

Lemma obedient_write n d : obedient is_ok (write n d).
Proof. done. Qed.

Lemma obedient_ret {A} (r : SyncResult A) : obedient is_ok (Ret r).
Proof. done. Qed.

Lemma origin_violate_obedient {A} t : obedient is_ok (@Origin.violate A t).
Proof. done. Qed.

Lemma replica_violate_obedient {A} t : obedient is_ok (@Replica.violate A t).
Proof. done. Qed.

Lemma obedient_err {A} e : obedient is_ok (@ret_err A e).
Proof. done. Qed.

#[export] Hint Resolve obedient_send obedient_write obedient_ret obedient_err origin_violate_obedient
  replica_violate_obedient : rust.

(** Walk through the effects of a handler. *)
Ltac obey :=
  repeat match goal with
  | |- forall _, _ => intros
  | |- obedient _ (pbindr recv _) => apply obedient_recv
  | |- obedient _ (pbindr _ _) => apply obedient_bindr
  | |- obedient _ (pbind (lift _) _) => apply obedient_lift
  | |- obedient _ (match ?x with _ => _ end) => destruct x
  | |- quiet _ _ => by cbn
  | |- _ => solve [auto with rust]
  end.

Section Handlers.
Context `{!Digests, !Rayon, !HashSetDebug}.

Lemma origin_fine_pass_obedient t b ps pc alg gs :
  obedient is_ok (Origin.fine_pass t b ps pc alg gs).
Proof. induction gs as [|g gs IH]; cbn [Origin.fine_pass]; unfold Origin.fine_group; obey. Qed.

Lemma origin_obedient snap t : obedient is_ok (Origin.run_with_tuning snap t).
Proof.
  unfold Origin.run_with_tuning, Origin.handshake, Origin.passes.
  obey; auto using origin_fine_pass_obedient.
Qed.

Lemma write_pages_obedient ps : obedient is_ok (write_pages ps).
Proof. induction ps as [|p ps IH]; cbn [write_pages]; obey. Qed.

Lemma replica_fine_pass_obedient hs pc gs : obedient is_ok (Replica.fine_pass hs pc gs).
Proof.
  induction gs as [|g gs IH]; cbn [Replica.fine_pass]; obey; auto using write_pages_obedient.
Qed.

Lemma replica_obedient c t : obedient is_ok (Replica.run_with_tuning c t).
Proof.
  unfold Replica.run_with_tuning, Replica.handshake, Replica.passes, finish, expect_done.
  obey; auto using replica_fine_pass_obedient.
Qed.
End Handlers.

(** ** The invariant of a failing session *)

Definition is_write (e : event) : Prop := match e with PageWrite _ _ => True | _ => False end.
Definition not_acked (e : event) : Prop := match e with ToOrigin _ => False | _ => True end.
Definition not_offered (e : event) : Prop := match e with ToReplica _ => False | _ => True end.
Definition is_error (m : Message) : Prop := match m with Error _ => True | _ => False end.

(** Every page write of the dialogue is followed by an acknowledgement. *)
Definition acked (T : list event) : Prop :=
  forall T1 T2, T = T1 ++ T2 -> Forall not_acked T2 -> writes T2 = [].

Lemma acked_suffix X T : acked (X ++ T) -> acked T.
Proof. intros H T1 T2 -> . apply (H (X ++ T1) T2). by rewrite app_assoc. Qed.

(** The first event of a trace that is not a page write. *)
Lemma first_event P Q e f U V :
  Forall is_write P -> Forall is_write Q -> ~ is_write e -> ~ is_write f ->
  P ++ e :: U = Q ++ f :: V -> P = Q /\ e = f /\ U = V.
Proof.
  intros HP. revert Q. induction HP as [|x P Hx HP IH]; intros [|y Q] HQ He Hf Heq; cbn in Heq.
  - by simplify_eq.
  - simplify_eq. by inversion HQ.
  - simplify_eq. done.
  - inversion HQ; subst. injection Heq as -> Heq.
    destruct (IH Q) as (-> & -> & ->); done.
Qed.

Lemma sent_by_origin_app T1 T2 : sent_by_origin (T1 ++ T2) = sent_by_origin T1 ++ sent_by_origin T2.
Proof. apply omap_app. Qed.

Lemma sent_by_replica_app T1 T2 :
  sent_by_replica (T1 ++ T2) = sent_by_replica T1 ++ sent_by_replica T2.
Proof. apply omap_app. Qed.

Lemma writes_silent P : Forall is_write P -> sent_by_origin P = [] /\ sent_by_replica P = [].
Proof. induction 1 as [|[] P Hx _ IH]; cbn; done. Qed.

Lemma writes_not_acked P : Forall is_write P -> Forall not_acked P.
Proof. intros H. eapply Forall_impl; [exact H|by intros []]. Qed.

(** The queue of the messages of [D] begins at its first message. *)
Lemma offered_front D m q : Forall not_acked D -> sent_by_origin D = m :: q ->
  exists P D', Forall is_write P /\ D = P ++ ToReplica m :: D' /\ sent_by_origin D' = q.
Proof.
  induction 1 as [|e D He HD IH]; cbn; [done|]. destruct e as [m'| |n d]; cbn; [|done|].
  - intros [= <- <-]. by exists [], D.
  - intros (P & D' & HP & -> & <-)%IH. exists (PageWrite n d :: P), D'. by repeat constructor.
Qed.

Lemma acked_front D m q : Forall not_offered D -> sent_by_replica D = m :: q ->
  exists P D', Forall is_write P /\ D = P ++ ToOrigin m :: D' /\ sent_by_replica D' = q.
Proof.
  induction 1 as [|e D He HD IH]; cbn; [done|]. destruct e as [|m'|n d]; cbn; [done| |].
  - intros [= <- <-]. by exists [], D.
  - intros (P & D' & HP & -> & <-)%IH. exists (PageWrite n d :: P), D'. by repeat constructor.
Qed.

(** [D] without offers is all of the writes before an offer. *)
Lemma not_offered_prefix D R P m U :
  Forall not_offered D -> Forall is_write P -> D ++ R = P ++ ToReplica m :: U ->
  exists P', Forall is_write D /\ Forall is_write P' /\ R = P' ++ ToReplica m :: U.
Proof.
  intros HD. revert P. induction HD as [|e D He HD IH]; intros P HP Heq; cbn in Heq.
  - by exists P.
  - destruct HP as [|f P Hf HP]; cbn in Heq; injection Heq as -> Heq; [done|].
    destruct (IH P HP Heq) as (P' & ? & ? & ->). exists P'. by repeat constructor.
Qed.

(** What the process at the origin is about to do, on the dialogue. *)
Section Inversions.
Context {A : Type} (ok : A -> bool).

Lemma ofollows_send m k T : ofollows ok (Send m k) T ->
  quiet ok (Send m k) \/
  exists P U, T = P ++ ToReplica m :: U /\ Forall is_write P /\
    (forall e, quiet ok (k (Err e))) /\ ofollows ok (k (Ok tt)) U.
Proof.
  intros H. remember (Send m k) as p eqn:Ep.
  induction H as [| |m' k' T He H _| |n d p T H IH]; subst; try (by left); try done.
  - simplify_eq. right. by exists [], T.
  - destruct IH as [|(P & U & -> & HP & ?)]; [done|by left|]. right.
    exists (PageWrite n d :: P), U. split; [done|]. split; [by constructor|done].
Qed.

Lemma ofollows_recv k T : ofollows ok (Recv k) T ->
  quiet ok (Recv k) \/
  exists P m U, T = P ++ ToOrigin m :: U /\ Forall is_write P /\ (forall e, quiet ok (k (Err e))) /\
    (forall t, quiet ok (k (Ok (Error t)))) /\ ofollows ok (k (Ok m)) U.
Proof.
  intros H. remember (Recv k) as p eqn:Ep.
  induction H as [| | |m' k' T He Ht H _|n d p T H IH]; subst; try (by left); try done.
  - simplify_eq. right. by exists [], m', T.
  - destruct IH as [|(P & m & U & -> & HP & ?)]; [done|by left|]. right.
    exists (PageWrite n d :: P), m, U. split; [done|]. split; [by constructor|done].
Qed.

Lemma ofollows_ret a T : ofollows ok (Ret a) T -> ok a = true -> Forall is_write T.
Proof.
  intros H Ha. remember (Ret a) as p eqn:Ep.
  induction H; subst; try done; [cbn in *; congruence|]. constructor; [done|auto].
Qed.
End Inversions.

Section Invariant.
Context {A B : Type} (okA : A -> bool) (okB : B -> bool) (cf : Connection).

(** Both processes follow one dialogue: [rest] is ahead of both, [Do] was offered by
    the origin and not yet taken, [Dr] was answered by the replica and not yet
    taken; [Eo] and [Er] are parting [Error] messages.  [X] is what a quiet replica
    took without acting on it. *)
Record lossy_parts (c : config_of A B) (rest Do Dr : list event) (Eo Er : list Message)
    (X : list event) : Prop := {
  lp_origin : ofollows okA (origin c) (Dr ++ rest);
  lp_replica : rfollows okB (replica c) (Do ++ rest);
  lp_ahead : Do = [] \/ Dr = [];
  lp_Do : Forall not_acked Do;
  lp_Dr : Forall not_offered Dr;
  lp_to_replica : to_replica c = sent_by_origin Do ++ Eo;
  lp_to_origin : to_origin c = sent_by_replica Dr ++ Er;
  lp_Eo : Forall is_error Eo;
  lp_Er : Forall is_error Er;
  lp_Eo_quiet : Eo = [] \/ quiet okA (origin c);
  lp_Er_quiet : Er = [] \/ quiet okB (replica c);
  lp_X : Forall not_acked X;
  lp_X_quiet : X = [] \/ quiet okB (replica c);
  lp_acked : acked (X ++ Do ++ rest);
  lp_conn : apply_writes (conn c) (writes (X ++ Do ++ rest)) = Some cf \/
            quiet okB (replica c) /\ exists n d T, X ++ Do ++ rest = PageWrite n d :: T;
}.

Definition lossy_inv (c : config_of A B) : Prop :=
  exists rest Do Dr Eo Er X, lossy_parts c rest Do Dr Eo Er X.

Lemma lossy_inv_start o r T c os rs :
  ofollows okA o T -> rfollows okB r T -> acked T -> apply_writes c (writes T) = Some cf ->
  lossy_inv (mk_config o r [] [] c os rs).
Proof. intros. exists T, [], [], [], [], []. by constructor; auto. Qed.

(** A failure leaves a quiet process, and everything else as it was. *)
Lemma inv_origin_fails o o' r qo qr c os rs :
  lossy_inv (mk_config o r qo qr c os rs) -> quiet okA o' ->
  lossy_inv (mk_config o' r qo qr c os rs).
Proof.
  intros (rest & Do & Dr & Eo & Er & X & []) Hq. exists rest, Do, Dr, Eo, Er, X.
  constructor; cbn in *; auto with rust.
Qed.

Lemma inv_replica_fails o r r' qo qr c os rs :
  lossy_inv (mk_config o r qo qr c os rs) -> quiet okB r' ->
  lossy_inv (mk_config o r' qo qr c os rs).
Proof.
  intros (rest & Do & Dr & Eo & Er & X & []) Hq. exists rest, Do, Dr, Eo, Er, X.
  constructor; cbn in *; auto with rust. naive_solver.
Qed.

Lemma inv_origin_sends m k r qo qr c os rs :
  lossy_inv (mk_config (Send m k) r qo qr c os rs) ->
  lossy_inv (mk_config (k (Ok tt)) r qo (qr ++ [m]) c (os ++ [m]) rs).
Proof.
  intros (rest & Do & Dr & Eo & Er & X & H). destruct H. cbn in *.
  assert (Hq : quiet okA (Send m k) ->
    lossy_inv (mk_config (k (Ok tt)) r qo (qr ++ [m]) c (os ++ [m]) rs)).
  { cbn. intros Hq. exists rest, Do, Dr, (Eo ++ [m]), Er, X. destruct m; try done.
    constructor; cbn; auto with rust.
    - rewrite lp_to_replica0. by rewrite app_assoc.
    - apply Forall_app. split; [done|]. by repeat constructor. }
  destruct lp_Eo_quiet0 as [->|]; [|auto].
  destruct (ofollows_send _ _ _ _ lp_origin0) as [|(P & U & HT & HP & _ & Hf)]; [auto|].
  destruct (not_offered_prefix _ _ _ _ _ lp_Dr0 HP HT) as (P' & HD & HP' & ->).
  destruct (writes_silent _ HD) as [_ Hs]. destruct (writes_silent _ HP') as [Hs' _].
  exists U, (Do ++ P' ++ [ToReplica m]), [], [], Er, X.
  assert (E : (Do ++ P' ++ [ToReplica m]) ++ U = Do ++ P' ++ ToReplica m :: U)
    by (by rewrite <- !app_assoc).
  constructor; cbn; rewrite ?E; auto.
  - rewrite !Forall_app. repeat split; auto using writes_not_acked. by repeat constructor.
  - rewrite !sent_by_origin_app, Hs', app_nil_r, lp_to_replica0. cbn. by rewrite app_nil_r.
  - by rewrite lp_to_origin0, Hs.
Qed.

Lemma inv_origin_receives m k r qo qr c os rs :
  lossy_inv (mk_config (Recv k) r (m :: qo) qr c os rs) ->
  lossy_inv (mk_config (k (Ok m)) r qo qr c os rs).
Proof.
  intros (rest & Do & Dr & Eo & Er & X & H). destruct H. cbn in *.
  destruct (sent_by_replica Dr) as [|m' q'] eqn:Es; cbn in lp_to_origin0.
  - subst Er. inversion lp_Er0 as [|? ? Hm Her]; subst. destruct m; try done.
    assert (Hq : quiet okA (k (Ok (Error message)))).
    { destruct (ofollows_recv _ _ _ lp_origin0) as [Hq|(P & m' & U & _ & _ & _ & Ht & _)];
        [apply Hq|apply Ht]. }
    exists rest, Do, Dr, Eo, qo, X. constructor; cbn; auto with rust.
    + by rewrite Es.
    + destruct lp_Er_quiet0; [done|auto].
  - injection lp_to_origin0 as <- ->.
    destruct (acked_front _ _ _ lp_Dr0 Es) as (P & Dr' & HP & -> & Hs').
    exists rest, Do, Dr', Eo, Er, X.
    assert (Ho : ofollows okA (k (Ok m)) (Dr' ++ rest)).
    { destruct (ofollows_recv _ _ _ lp_origin0) as [Hq|(P' & m' & U & HT & HP' & _ & _ & Hf)].
      { apply of_quiet, Hq. }
      rewrite <- app_assoc, <- app_comm_cons in HT.
      apply first_event in HT as (_ & [= <-] & <-); cbn; auto. }
    constructor; cbn; auto.
    + destruct lp_ahead0 as [|E]; [auto|]. by destruct P.
    + apply Forall_app in lp_Dr0 as [_ H]. by inversion H.
    + by rewrite Hs'.
    + destruct lp_Eo_quiet0 as [|Hq]; [auto|]. right. apply Hq.
Qed.

Lemma inv_replica_sends m k o qo qr c os rs :
  lossy_inv (mk_config o (Send m k) qo qr c os rs) ->
  lossy_inv (mk_config o (k (Ok tt)) (qo ++ [m]) qr c os (rs ++ [m])).
Proof.
  intros (rest & Do & Dr & Eo & Er & X & H). destruct H. cbn in *.
  assert (Hq : quiet okB (Send m k) ->
    lossy_inv (mk_config o (k (Ok tt)) (qo ++ [m]) qr c os (rs ++ [m]))).
  { cbn. intros Hq. exists rest, Do, Dr, Eo, (Er ++ [m]), X. destruct m; try done.
    constructor; cbn; auto with rust.
    - rewrite lp_to_origin0. by rewrite app_assoc.
    - apply Forall_app. split; [done|]. by repeat constructor.
    - destruct lp_conn0 as [|[_ ?]]; auto. }
  destruct lp_Er_quiet0 as [->|]; [|auto]. destruct lp_X_quiet0 as [->|]; [|auto].
  inversion lp_replica0 as [|?|? ? T _ Hf Ek ET| |]; subst; [auto|].
  destruct lp_Do0 as [|e Do He HDo]; cbn in *; [|by simplify_eq].
  subst rest. exists T, [], (Dr ++ [ToOrigin m]), Eo, [], [].
  constructor; cbn; auto.
  - by rewrite <- app_assoc.
  - apply Forall_app. split; [done|]. by repeat constructor.
  - rewrite sent_by_replica_app, !app_nil_r. done.
  - by apply (acked_suffix [ToOrigin m]).
  - destruct lp_conn0 as [|[_ (n & d & T' & [=])]]. by left.
Qed.

(** Taking a message of the dialogue advances a quiet replica past the writes before it. *)
Lemma inv_replica_receives m k o qo qr c os rs :
  lossy_inv (mk_config o (Recv k) qo (m :: qr) c os rs) ->
  lossy_inv (mk_config o (k (Ok m)) qo qr c os rs).
Proof.
  intros (rest & Do & Dr & Eo & Er & X & H). destruct H. cbn in *.
  destruct (sent_by_origin Do) as [|m' q'] eqn:Es; cbn in lp_to_replica0.
  - subst Eo. inversion lp_Eo0 as [|? ? Hm Her]; subst. destruct m; try done.
    assert (Hq : quiet okB (k (Ok (Error message)))).
    { inversion lp_replica0 as [? ? Hq| | |? ? ? _ Ht|]; subst; [apply Hq|apply Ht]. }
    exists rest, Do, Dr, qr, Er, X. constructor; cbn; auto with rust.
    + by rewrite Es.
    + destruct lp_Eo_quiet0; [done|auto].
    + destruct lp_conn0 as [|[_ ?]]; auto.
  - injection lp_to_replica0 as <- ->.
    destruct (offered_front _ _ _ lp_Do0 Es) as (P & Do' & HP & -> & Hs').
    assert (HDo' : Forall not_acked Do') by (apply Forall_app in lp_Do0 as [_ H]; by inversion H).
    destruct lp_ahead0 as [E| ->]; [by destruct P|].
    assert (Hq : quiet okB (Recv k) -> lossy_inv (mk_config o (k (Ok m)) qo (q' ++ Eo) c os rs)).
    { cbn. intros Hq. exists rest, Do', [], Eo, Er, (X ++ P ++ [ToReplica m]).
      assert (E : (X ++ P ++ [ToReplica m]) ++ Do' ++ rest = X ++ (P ++ ToReplica m :: Do') ++ rest)
        by (by rewrite <- !app_assoc).
      constructor; cbn; rewrite ?E; auto with rust.
      - by rewrite Hs'.
      - rewrite !Forall_app. repeat split; auto using writes_not_acked. by repeat constructor.
      - destruct lp_conn0 as [|[_ ?]]; auto. }
    destruct lp_Er_quiet0 as [->|]; [|auto]. destruct lp_X_quiet0 as [->|]; [|auto].
    inversion lp_replica0 as [| | |m1 k1 T _ _ Hf Ek ET|]; [auto|].
    destruct HP as [|e P He HP]; cbn in ET; simplify_eq; [|done].
    exists rest, Do', [], Eo, [], []. constructor; cbn in *; auto.
    + by apply (acked_suffix [ToReplica m]).
    + destruct lp_conn0 as [|[_ (n & d & T' & [=])]]. by left.
Qed.

Lemma inv_replica_writes n d k o qo qr c os rs :
  lossy_inv (mk_config o (Write n d k) qo qr c os rs) ->
  lossy_inv (mk_config o (k (fst (write_page c n d))) qo qr (snd (write_page c n d)) os rs) /\
  forall e c', lossy_inv (mk_config o (k (Err e)) qo qr c' os rs).
Proof.
  intros (rest & Do & Dr & Eo & Er & X & H). destruct H. cbn in *.
  destruct lp_Er_quiet0 as [->|[]]. destruct lp_X_quiet0 as [->|[]].
  inversion lp_replica0 as [? ? Hq| | | |n' d' k' T He Hf Ek ET]; [by subst|]. simplify_eq.
  split; [|intros e c'; exists rest, Do, Dr, Eo, [], []; constructor; cbn; auto with rust;
    right; split; [done|]; by exists n, d, T].
  destruct lp_conn0 as [Hw|[[] _]]. cbn in Hw. rewrite <- ET in Hw. cbn in Hw.
  destruct (write_page c n d) as [[[]|] c1] eqn:E; [|done]. cbn.
  destruct Do as [|e Do].
  - cbn in ET. subst rest. exists T, [], (Dr ++ [PageWrite n d]), Eo, [], [].
    constructor; cbn; auto.
    + by rewrite <- app_assoc.
    + apply Forall_app. split; [done|]. by repeat constructor.
    + rewrite sent_by_replica_app. cbn. rewrite !app_nil_r in *. done.
    + by apply (acked_suffix [PageWrite n d]).
  - injection ET as <- ->. destruct lp_ahead0 as [| ->]; [done|].
    exists rest, Do, [], Eo, [], []. constructor; cbn in *; auto.
    + by inversion lp_Do0.
    + by apply (acked_suffix [PageWrite n d]).
Qed.

Lemma ofollows_err p T : ofollows okA p T ->
  match p with
  | Send _ k => forall e, quiet okA (k (Err e))
  | Recv k => forall e, quiet okA (k (Err e))
  | _ => True
  end.
Proof. induction 1 as [p T Hq| | | |]; auto. destruct p as [| |[]| |]; try done; cbn in Hq; auto. Qed.

Lemma rfollows_err p T : rfollows okB p T ->
  match p with
  | Send _ k => forall e, quiet okB (k (Err e))
  | Recv k => forall e, quiet okB (k (Err e))
  | _ => True
  end.
Proof. destruct 1 as [p T Hq| | | |]; auto. destruct p as [| |[]| |]; try done; cbn in Hq; auto. Qed.

Lemma lossy_inv_step c d : lossy_inv c -> lossy_step c d -> lossy_inv d.
Proof.
  intros Hi Hs. destruct (Hi) as (rest & Do & Dr & Eo & Er & X & [Ho Hr]).
  apply ofollows_err in Ho. apply rfollows_err in Hr.
  destruct Hs as [c d Hs| | | | |]; cbn in Ho, Hr;
    [|by eapply inv_origin_fails|by eapply inv_origin_fails|by eapply inv_replica_fails|
      by eapply inv_replica_fails|by apply inv_replica_writes with (1 := Hi)].
  destruct Hs; eauto using inv_origin_sends, inv_origin_receives, inv_replica_sends,
    inv_replica_receives. by apply inv_replica_writes.
Qed.

Lemma lossy_inv_origin c a : lossy_inv c -> origin c = Ret a -> okA a = true -> conn c = cf.
Proof.
  intros (rest & Do & Dr & Eo & Er & X & []) Ha Hok. rewrite Ha in lp_origin0.
  apply ofollows_ret in lp_origin0 as [_ Hw]%Forall_app; [|done].
  assert (Hn : Forall not_acked (X ++ Do ++ rest))
    by (rewrite !Forall_app; auto using writes_not_acked).
  pose proof (lp_acked0 [] _ eq_refl Hn) as Hz.
  destruct lp_conn0 as [Hc|(_ & n & d & T & E)]; [|by rewrite E in Hz].
  rewrite Hz in Hc. by injection Hc.
Qed.

Lemma lossy_inv_replica c b : lossy_inv c -> replica c = Ret b -> okB b = true -> conn c = cf.
Proof.
  intros (rest & Do & Dr & Eo & Er & X & []) Hb Hok. rewrite Hb in *. cbn in *.
  assert (X = []) as -> by (destruct lp_X_quiet0; congruence).
  assert (Do ++ rest = []) as Hz.
  { inversion lp_replica0; subst; try done. cbn in *; congruence. }
  destruct lp_conn0 as [Hc|[Hq _]]; [|congruence].
  cbn in Hc. rewrite Hz in Hc. by injection Hc.
Qed.

(** Success of either process means that all writes of the dialogue were made. *)
Lemma lossy_safe o r T c os rs d :
  ofollows okA o T -> rfollows okB r T -> acked T -> apply_writes c (writes T) = Some cf ->
  rtc lossy_step (mk_config o r [] [] c os rs) d ->
  (forall a, origin d = Ret a -> okA a = true -> conn d = cf) /\
  (forall b, replica d = Ret b -> okB b = true -> conn d = cf).
Proof.
  intros Ho Hr Ha Hw Hrun.
  assert (lossy_inv d) as Hi.
  { assert (Hs := lossy_inv_start _ _ _ _ os rs Ho Hr Ha Hw).
    induction Hrun; eauto using lossy_inv_step. }
  eauto using lossy_inv_origin, lossy_inv_replica.
Qed.
End Invariant.

(** ** Sessions *)

Lemma acked_app T1 T2 : acked T1 -> acked T2 -> acked (T1 ++ T2).
Proof.
  intros H1 H2 U V E Hn. apply app_eq_inv in E as [(K & -> & ->)|(K & -> & ->)].
  - apply Forall_app in Hn as [Hk Ht]. rewrite writes_app.
    by rewrite (H1 U K eq_refl Hk), (H2 [] T2 eq_refl Ht).
  - by apply (H2 K V).
Qed.

Lemma acked_ack T m : acked (T ++ [ToOrigin m]).
Proof.
  intros U V E Hn. destruct V as [|e V _] using rev_ind; [done|].
  rewrite app_assoc in E. apply app_inj_tail in E as [_ <-].
  apply Forall_app in Hn as [_ Hn]. by inversion Hn.
Qed.

Lemma acked_nil : acked [].
Proof. intros U V E%eq_sym%app_eq_nil _. by destruct E as [_ ->]. Qed.

Lemma acked_offer m : acked [ToReplica m].
Proof. intros [|? [|]] V E _; cbn in E; simplify_eq; done. Qed.

Lemma acked_session ps pc rc ob rb : forall `{!Digests}, acked (session_trace ps pc rc ob rb).
Proof.
  intros D. unfold session_trace. apply acked_app.
  { apply (acked_app [_; _; _]); [apply (acked_ack [_; _])|apply acked_offer]. }
  apply acked_app; [|apply acked_offer].
  induction (need_fine _ _ _ _ _) as [|g gs IH]; cbn [map concat]; [apply acked_nil|].
  apply acked_app; [|done]. unfold group_trace. rewrite app_assoc. apply acked_ack.
Qed.

Section Claims.
Context `{!Digests, !Rayon, !HashSetDebug}.

(** The page writes of a session make the replica the image of the snapshot. *)
Lemma session_writes snap c rc :
  snapshot_ok snap -> replica_ok (snap_page_size snap) rc c -> rc <= snap_page_count snap ->
  no_collision (snap_page_size snap) (snap_page_count snap) rc (snap_bytes snap) (file c) ->
  exists c', file c' = snap_bytes snap /\
    apply_writes c (writes (session_trace (snap_page_size snap) (snap_page_count snap) rc
                              (snap_bytes snap) (file c))) = Some c'.
Proof.
  intros Hs Hr Hle NC.
  destruct (session_run snap c default_tuning default_tuning rc Hs Hr Hle) as (c' & m' & Hw & Ha & _).
  destruct Hs as (Hps & Hpc & Hob). destruct Hr as (Es & Ec & Eb & Hrb & Hrc & Hwf & Hf).
  exists c'. split.
  - rewrite session_pages in Hw by done.
    eapply (written_differing _ (snap_page_count snap) rc _ (file c)); eauto.
  - unfold session_trace. rewrite !writes_app, writes_groups. cbn. by rewrite app_nil_r.
Qed.

Lemma origin_follows snap c t rc :
  snapshot_ok snap -> replica_ok (snap_page_size snap) rc c -> rc <= snap_page_count snap ->
  ofollows is_ok (Origin.run_with_tuning snap t)
    (session_trace (snap_page_size snap) (snap_page_count snap) rc (snap_bytes snap) (file c)).
Proof.
  intros (Hps & Hpc & Hob) (Es & Ec & Eb & Hrb & Hrc & Hwf & Hf) Hle.
  eapply ofollows_trace; [apply origin_obedient|by apply sync_otrace].
Qed.

Lemma replica_follows snap c t rc :
  snapshot_ok snap -> replica_ok (snap_page_size snap) rc c -> rc <= snap_page_count snap ->
  rfollows is_ok (Replica.run_with_tuning c t)
    (session_trace (snap_page_size snap) (snap_page_count snap) rc (snap_bytes snap) (file c)).
Proof.
  intros (Hps & Hpc & Hob) (Es & Ec & Eb & Hrb & Hrc & Hwf & Hf) Hle.
  eapply rfollows_trace; [apply replica_obedient|by apply sync_rtrace].
Qed.

(** C2. Success is never a lie: whatever sends, receives and page writes fail, and
    whenever they fail, a session in which either side returns [Ok] has made the
    replica file the origin's image. *)
Theorem success_means_identical snap c ot rt rc d :
  snapshot_ok snap -> replica_ok (snap_page_size snap) rc c -> rc <= snap_page_count snap ->
  no_collision (snap_page_size snap) (snap_page_count snap) rc (snap_bytes snap) (file c) ->
  rtc lossy_step (start snap c ot rt) d ->
  origin d = Ret (Ok tt) \/ replica d = Ret (Ok tt) ->
  file (conn d) = snap_bytes snap.
Proof.
  intros Hs Hr Hle NC Hrun Hok.
  destruct (session_writes snap c rc Hs Hr Hle NC) as (c' & Hf & Hw).
  destruct (lossy_safe is_ok is_ok c' _ _ _ _ _ _ _ (origin_follows snap c ot rc Hs Hr Hle)
    (replica_follows snap c rt rc Hs Hr Hle) (acked_session _ _ _ _ _) Hw Hrun) as [Ho Hp].
  rewrite <- Hf. f_equal. destruct Hok as [E|E]; [by eapply Ho|by eapply Hp].
Qed.
End Claims.

(** ** Example: the link breaks before the replica sees [Done] *)
Definition cut_replica {A B} (e : SyncError) (c : config_of A B) : config_of A B :=
  match replica c with
  | Recv k => mk_config (origin c) (k (Err e)) (to_origin c) (to_replica c) (conn c)
                (origin_sent c) (replica_sent c)
  | _ => c
  end.

Lemma cut_replica_sound {A B} e (c : config_of A B) : rtc lossy_step c (cut_replica e c).
Proof.
  destruct c as [o r qo qr c os rs]. unfold cut_replica. cbn.
  destruct r; try done. apply rtc_once, replica_recv_fails.
Qed.

Definition cut_origin {A B} (e : SyncError) (c : config_of A B) : config_of A B :=
  match origin c with
  | Recv k => mk_config (k (Err e)) (replica c) (to_origin c) (to_replica c) (conn c)
                (origin_sent c) (replica_sent c)
  | _ => c
  end.

Lemma cut_origin_sound {A B} e (c : config_of A B) : rtc lossy_step c (cut_origin e c).
Proof.
  destruct c as [o r qo qr c os rs]. unfold cut_origin. cbn.
  destruct o; try done. apply rtc_once, origin_recv_fails.
Qed.

Lemma drive_sound {A B} fuel (c : config_of A B) : rtc lossy_step c (drive fuel c).
Proof. eapply (rtc_congruence (fun c => c)), drive_steps. intros d d'. apply link_works. Qed.

Definition broken_session : config :=
  cut_replica (Protocol "connection closed unexpectedly")
    (drive 17 (start Example.snap Example.stale default_tuning default_tuning)).

Example broken_session_ends :
  origin broken_session = Ret (Ok tt) /\
  replica broken_session = Ret (Err (Protocol "connection closed unexpectedly")).
Proof. vm_compute. done. Qed.

Lemma success_means_identical_witness : file (conn broken_session) = [1; 2; 3; 4; 5; 6].
Proof.
  apply (success_means_identical Example.snap Example.stale default_tuning default_tuning 2);
    [exact snap_ok|exact stale_ok|cbn; lia|exact Example.stale_free| |left; vm_compute; done].
  etrans; [apply drive_sound|apply cut_replica_sound].
Defined.
