(* ===== verification/Wire.v ===== *)
(** * Sessions over byte streams (src/src/transport/local.rs, stdio.rs, ssh.rs; src/src/lib.rs)

    The two handlers of a session with the bytes between them: a send encodes its
    message and writes the frame in pieces, as long as the pipe has room; a receive
    takes a frame from its buffer or reads a piece of the pipe.  The capacity of
    the pipes is a parameter (8 MiB for [LocalTransport::pair], the system's for a
    child process): [wire_session_ends] shows that no capacity, no fragmentation and
    no schedule blocks a session or changes its result, as long as its messages fit in
    frames ([Limits] says when they do).

    Both transports of a local sync live until both handlers have returned, so no
    read meets the end of the stream here; broken streams are the subject of
    [Faults]. *)

From S2P Require Import Prelude RustStr Errors Hash Messages Proc Db Tuning Pages Instances.
From S2P Require Import Transport Origin Replica Session SyncLocal Faults.

(** [tokio::io::duplex(8 * 1024 * 1024)]. *)
Definition DUPLEX_SIZE : Z := 8 * 1024 * 1024.

(** A handler between two awaits of its transport, or inside [write_all]. *)
Inductive wproc (A : Type) : Type :=
| Running (p : proc A)
| Writing (rest : bytes) (k : SyncResult unit -> proc A).
Arguments Running {A} p.
Arguments Writing {A} rest k.

Record wire (A B : Type) := mk_wire {
  w_origin : wproc A;
  w_replica : wproc B;
  origin_out : bytes;       (* the pipe towards the replica *)
  replica_out : bytes;      (* the pipe towards the origin *)
  origin_buf : bytes;       (* the receive buffers *)
  replica_buf : bytes;
  w_conn : Connection;
}.
Arguments mk_wire {A B}.
Arguments w_origin {A B}.
Arguments w_replica {A B}.
Arguments origin_out {A B}.
Arguments replica_out {A B}.
Arguments origin_buf {A B}.
Arguments replica_buf {A B}.
Arguments w_conn {A B}.

Section Wire.
Context `{!Bincode} (capacity : Z).

(** One step of a transport: the handler, its outgoing pipe, its incoming pipe and its
    buffer, before and after. *)
Inductive end_step {A} : wproc A -> bytes -> bytes -> bytes ->
                         wproc A -> bytes -> bytes -> bytes -> Prop :=
| end_encode m k e out inp buf :
    encode m = Ok e ->
    end_step (Running (Send m k)) out inp buf (Writing e k) out inp buf
| end_encode_fails m k e out inp buf :
    encode m = Err e ->
    end_step (Running (Send m k)) out inp buf (Running (k (Err e))) out inp buf
| end_push c rest k out inp buf :
    c <> [] -> zlen out + zlen c <= capacity ->
    end_step (Writing (c ++ rest) k) out inp buf (Writing rest k) (out ++ c) inp buf
| end_sent k out inp buf :
    end_step (Writing [] k) out inp buf (Running (k (Ok tt))) out inp buf
| end_take m k out inp buf buf' :
    try_take_framed_message buf = (Ok (Some m), buf') ->
    end_step (Running (Recv k)) out inp buf (Running (k (Ok m))) out inp buf'
| end_bad e k out inp buf buf' :
    try_take_framed_message buf = (Err e, buf') ->
    end_step (Running (Recv k)) out inp buf (Running (k (Err e))) out inp buf'
| end_read c k out inp buf buf' :
    try_take_framed_message buf = (Ok None, buf') -> c <> [] -> zlen c <= READ_SIZE ->
    end_step (Running (Recv k)) out (c ++ inp) buf (Running (Recv k)) out inp (buf' ++ c).

Inductive wire_step {A B} : wire A B -> wire A B -> Prop :=
| wire_origin o o' r oo oo' ro ro' ob ob' rb c :
    end_step o oo ro ob o' oo' ro' ob' ->
    wire_step (mk_wire o r oo ro ob rb c) (mk_wire o' r oo' ro' ob' rb c)
| wire_replica o r r' oo oo' ro ro' ob rb rb' c :
    end_step r ro oo rb r' ro' oo' rb' ->
    wire_step (mk_wire o r oo ro ob rb c) (mk_wire o r' oo' ro' ob rb' c)
| wire_page n d k o oo ro ob rb c :
    wire_step (mk_wire o (Running (Write n d k)) oo ro ob rb c)
              (mk_wire o (Running (k (fst (write_page c n d)))) oo ro ob rb (snd (write_page c n d))).

Definition wire_start {A B} (o : proc A) (r : proc B) (c : Connection) : wire A B :=
  mk_wire (Running o) (Running r) [] [] [] [] c.

(** The steps of a receive are the receive loop of the transports. *)
Lemma recv_loop_steps {A} eof chunks (k : SyncResult Message -> proc A) out inp : forall buf r buf',
  Forall (fun c => c <> [] /\ zlen c <= READ_SIZE) chunks ->
  recv_loop eof (map Got chunks) buf = (Some r, [], buf') ->
  exists n, nsteps (fun '(s, o, i, b) '(s', o', i', b') => end_step (A := A) s o i b s' o' i' b') n
    (Running (Recv k), out, concat chunks ++ inp, buf) (Running (k r), out, inp, buf').
Proof.
  induction chunks as [|c chunks IH]; intros buf r buf' Hc; cbn [map recv_loop concat].
  - destruct (try_take_framed_message buf) as [[[m|]|e] b'] eqn:E; [|done|];
      intros [= <- <-]; exists 1%nat; eapply nsteps_l; [|apply nsteps_O| |apply nsteps_O]; cbn; by constructor.
  - apply Forall_cons in Hc as [[Hne Hl] Hc].
    destruct (try_take_framed_message buf) as [[[m|]|e] b'] eqn:E; [done| |done].
    assert (0 < zlen c) by (destruct c; [done|unfold zlen; cbn; lia]).
    zdec (zlen c =? 0) false. intros Hr. destruct (IH _ _ _ Hc Hr) as [n Hn].
    exists (S n). eapply nsteps_l; [|exact Hn]. cbn. rewrite <- app_assoc. by constructor.
Qed.
End Wire.

(** ** Frames in transit *)
Section Frames.
Context `{!Bincode, !BincodeLaws}.

Lemma frames_nil b : frames [] b -> b = [].
Proof. intros (es & Hes & ->). by inversion Hes. Qed.

Lemma frames_snoc q b m e :
  frames q b -> encode m = Ok e -> payload_size e <= MAX_MESSAGE_SIZE -> frames (q ++ [m]) (b ++ e).
Proof.
  intros (es & Hes & ->) He Hs. exists (es ++ [e]). split.
  - by apply Forall2_app; [|constructor].
  - by rewrite concat_app, <- (app_nil_r e) at 1.
Qed.

Lemma frames_empty : frames [] [].
Proof. by exists []. Qed.

(** What a receiver finds in its buffer when the bytes in transit are frames. *)
Lemma frames_take q buf rest :
  frames q (buf ++ rest) ->
  match try_take_framed_message buf with
  | (Ok (Some m), buf') => exists q', q = m :: q' /\ frames q' (buf' ++ rest)
  | (Ok None, buf') => buf' = buf /\ (q <> [] -> rest <> [])
  | (Err _, _) => False
  end.
Proof.
  intros (es & Hes & Hcat). destruct Hes as [|m e q es [He Hs] Hes]; cbn in Hcat.
  { by apply app_eq_nil in Hcat as [-> ->]. }
  apply app_eq_inv in Hcat as [(r & -> & Hr)|(r & He' & Hr)].
  - destruct (frame_front m e r He Hs) as [_ ->]. exists q. split; [done|]. by exists es.
  - destruct r as [|x r].
    + rewrite app_nil_r in He'. subst buf. destruct (frame_front m e [] He Hs) as [_ Hf].
      rewrite app_nil_r in Hf. rewrite Hf. exists q. split; [done|]. by exists es.
    + rewrite (frame_incomplete m e buf (x :: r) He Hs He') by done. split; [done|]. by intros _ ->.
Qed.
End Frames.

(** ** The dialogue the bytes belong to *)
Section Invariant.
Context `{!Bincode, !BincodeLaws} (capacity : Z) (Hcap : 1 <= capacity).
Context {A B : Type} (a : A) (b : B) (final : Connection).

Definition running {X} (s : wproc X) : proc X :=
  match s with Running p => p | Writing _ k => k (Ok tt) end.
Definition unsent {X} (s : wproc X) : bytes :=
  match s with Running _ => [] | Writing rest _ => rest end.

Definition message_of (e : event) : option Message :=
  match e with ToReplica m | ToOrigin m => Some m | PageWrite _ _ => None end.
Definition sendable_events (T : list event) : Prop := Forall sendable (omap message_of T).

(** The bytes towards each side. *)
Definition for_replica (w : wire A B) : bytes := replica_buf w ++ origin_out w ++ unsent (w_origin w).
Definition for_origin (w : wire A B) : bytes := origin_buf w ++ replica_out w ++ unsent (w_replica w).

(** One side is ahead of the other in the dialogue by the events [D], and the messages of [D]
    are in transit; nothing travels in the other direction. *)
Inductive lag (w : wire A B) (To Tr : list event) : Prop :=
| origin_ahead D :
    Tr = D ++ To -> sent_by_replica D = [] ->
    frames (sent_by_origin D) (for_replica w) -> for_origin w = [] -> lag w To Tr
| replica_ahead D :
    To = D ++ Tr -> sent_by_origin D = [] ->
    frames (sent_by_replica D) (for_origin w) -> for_replica w = [] -> lag w To Tr.

Record wire_inv (w : wire A B) (To Tr : list event) : Prop := {
  wi_origin : otrace (running (w_origin w)) To (Ret a);
  wi_replica : rtrace (running (w_replica w)) Tr (Ret b);
  wi_conn : apply_writes (w_conn w) (writes Tr) = Some final;
  wi_sendable_o : sendable_events To;
  wi_sendable_r : sendable_events Tr;
  wi_lag : lag w To Tr;
}.

(** The bytes that still have to move. *)
Definition pending_bytes (w : wire A B) : nat :=
  2 * (length (unsent (w_origin w)) + length (unsent (w_replica w))) +
  length (origin_out w) + length (replica_out w) +
  (match w_origin w with Writing _ _ => 1 | _ => 0 end) +
  (match w_replica w with Writing _ _ => 1 | _ => 0 end).

(** *** The origin's next message in its trace, past page writes of the replica *)
Definition page_writes (W : list event) : Prop := Forall (fun e => message_of e = None) W.

Lemma page_writes_none W : page_writes W -> sent_by_origin W = [] /\ sent_by_replica W = [].
Proof. induction 1 as [|[] W He _ [IH1 IH2]]; cbn in *; done. Qed.

Lemma otrace_send_inv m k T :
  otrace (A := A) (Send m k) T (Ret a) ->
  exists W T', page_writes W /\ T = W ++ ToReplica m :: T' /\ otrace (k (Ok tt)) T' (Ret a).
Proof.
  remember (Send m k) as p eqn:Ep. remember (Ret a) as q eqn:Eq.
  induction 1 as [p|m' k' T p HT _|m' k' T p HT _|n d p T q _ IH]; subst; try done.
  - injection Ep as -> ->. exists [], T. split; [constructor|done].
  - destruct IH as (W & T' & HW & -> & HT); [done..|].
    exists (PageWrite n d :: W), T'. split; [by constructor|done].
Qed.

Lemma otrace_recv_inv k T :
  otrace (A := A) (Recv k) T (Ret a) ->
  exists W m T', page_writes W /\ T = W ++ ToOrigin m :: T' /\ otrace (k (Ok m)) T' (Ret a).
Proof.
  remember (Recv k) as p eqn:Ep. remember (Ret a) as q eqn:Eq.
  induction 1 as [p|m' k' T p HT _|m' k' T p HT _|n d p T q _ IH]; subst; try done.
  - injection Ep as ->. exists [], m', T. split; [constructor|done].
  - destruct IH as (W & m & T' & HW & -> & HT); [done..|].
    exists (PageWrite n d :: W), m, T'. split; [by constructor|done].
Qed.

Lemma lag_bytes w w' To Tr :
  for_replica w' = for_replica w -> for_origin w' = for_origin w -> lag w To Tr -> lag w' To Tr.
Proof.
  intros Er Eo [D|D]; [eapply (origin_ahead w' _ _ D)|eapply (replica_ahead w' _ _ D)];
    rewrite ?Er, ?Eo; done.
Qed.

Lemma sendable_app T1 T2 : sendable_events (T1 ++ T2) <-> sendable_events T1 /\ sendable_events T2.
Proof. unfold sendable_events. rewrite omap_app. apply Forall_app. Qed.

Lemma sent_o_app T1 T2 : sent_by_origin (T1 ++ T2) = sent_by_origin T1 ++ sent_by_origin T2.
Proof. apply omap_app. Qed.
Lemma sent_r_app T1 T2 : sent_by_replica (T1 ++ T2) = sent_by_replica T1 ++ sent_by_replica T2.
Proof. apply omap_app. Qed.

(** *** A message of the origin enters the pipe *)
Lemma lag_origin_sends w w' To Tr W m T' e :
  lag w To Tr -> page_writes W -> To = W ++ ToReplica m :: T' ->
  encode m = Ok e -> payload_size e <= MAX_MESSAGE_SIZE ->
  for_replica w' = for_replica w ++ e -> for_origin w' = for_origin w -> lag w' T' Tr.
Proof.
  intros Hl HW -> He Hs Er Eo. destruct (page_writes_none W HW) as [Wo Wr].
  destruct Hl as [D -> Hd Hf Hn|D HD Hd Hf Hn].
  - apply (origin_ahead _ _ _ (D ++ W ++ [ToReplica m])); rewrite ?Er, ?Eo; [by rewrite <- !app_assoc|..|done].
    + by rewrite !sent_r_app, Hd, Wr.
    + rewrite !sent_o_app, Wo. by apply frames_snoc.
  - symmetry in HD. apply app_eq_inv in HD as [(W2 & -> & HD)|(W2 & -> & ->)].
    + destruct W2 as [|x W2]; [|injection HD as <- _; by rewrite sent_o_app, Wo in Hd].
      rewrite app_nil_r, Wr in Hf. apply frames_nil in Hf. cbn in HD. subst Tr.
      apply (origin_ahead _ _ _ [ToReplica m]); rewrite ?Er, ?Eo, ?Hn; try done.
      by apply (frames_snoc [] []); [apply frames_empty|..].
    + rewrite sent_o_app in Wo. rewrite sent_r_app in Wr.
      apply app_eq_nil in Wo as [_ Wo]. apply app_eq_nil in Wr as [Dr Wr].
      rewrite Dr in Hf. apply frames_nil in Hf.
      apply (origin_ahead _ _ _ (W2 ++ [ToReplica m])); rewrite ?Er, ?Eo, ?Hn; try done.
      * by rewrite <- app_assoc.
      * by rewrite sent_r_app, Wr.
      * rewrite sent_o_app, Wo. by apply (frames_snoc [] []); [apply frames_empty|..].
Qed.

(** A message of the replica enters the pipe. *)
Lemma lag_replica_sends w w' To Tr m T' e :
  lag w To Tr -> Tr = ToOrigin m :: T' ->
  encode m = Ok e -> payload_size e <= MAX_MESSAGE_SIZE ->
  for_origin w' = for_origin w ++ e -> for_replica w' = for_replica w -> lag w' To T'.
Proof.
  intros Hl -> He Hs Eo Er. destruct Hl as [D HD Hd Hf Hn|D -> Hd Hf Hn].
  - destruct D as [|x D]; [|injection HD as <- _; by cbn in Hd]. cbn in HD. subst To.
    apply frames_nil in Hf.
    apply (replica_ahead _ _ _ [ToOrigin m]); rewrite ?Er, ?Eo, ?Hn; try done.
    by apply (frames_snoc [] []); [apply frames_empty|..].
  - apply (replica_ahead _ _ _ (D ++ [ToOrigin m])); rewrite ?Er, ?Eo, ?Hn; try done.
    + by rewrite <- app_assoc.
    + by rewrite sent_o_app, Hd.
    + rewrite sent_r_app. by apply frames_snoc.
Qed.

(** The origin takes a frame: it is the next message of its trace. *)
Lemma lag_origin_takes w w' To Tr W m m' T' buf' :
  lag w To Tr -> page_writes W -> To = W ++ ToOrigin m :: T' ->
  try_take_framed_message (origin_buf w) = (Ok (Some m'), buf') ->
  for_origin w' = buf' ++ replica_out w ++ unsent (w_replica w) ->
  for_replica w' = for_replica w -> m' = m /\ lag w' T' Tr.
Proof.
  intros Hl HW -> Ht Eo Er. destruct (page_writes_none W HW) as [_ Wr].
  destruct Hl as [D _ _ _ Hn|D HD Hd Hf Hn].
  { apply app_eq_nil in Hn as [Hb _]. by rewrite Hb in Ht. }
  apply frames_take in Hf. rewrite Ht in Hf. destruct Hf as (q' & Hq & Hf).
  symmetry in HD. apply app_eq_inv in HD as [([|x k] & -> & HD)|(k & -> & _)].
  - by rewrite app_nil_r, Wr in Hq.
  - injection HD as <- ->. rewrite sent_r_app, Wr in Hq. injection Hq as -> <-.
    split; [done|]. rewrite sent_o_app in Hd. apply app_eq_nil in Hd as [_ Hd].
    apply (replica_ahead _ _ _ k); by rewrite ?Er, ?Eo.
  - rewrite sent_r_app in Wr. apply app_eq_nil in Wr as [Wr _]. by rewrite Wr in Hq.
Qed.

(** The replica takes a frame. *)
Lemma lag_replica_takes w w' To Tr m m' T' buf' :
  lag w To Tr -> Tr = ToReplica m :: T' ->
  try_take_framed_message (replica_buf w) = (Ok (Some m'), buf') ->
  for_replica w' = buf' ++ origin_out w ++ unsent (w_origin w) ->
  for_origin w' = for_origin w -> m' = m /\ lag w' To T'.
Proof.
  intros Hl -> Ht Er Eo. destruct Hl as [D HD Hd Hf Hn|D _ _ _ Hn].
  2:{ apply app_eq_nil in Hn as [Hb _]. by rewrite Hb in Ht. }
  apply frames_take in Hf. rewrite Ht in Hf. destruct Hf as (q' & Hq & Hf).
  destruct D as [|x D]; [done|]. injection HD as <- ->. injection Hq as -> <-.
  split; [done|]. apply (origin_ahead _ _ _ D); by rewrite ?Er, ?Eo.
Qed.

(** The replica writes a page. *)
Lemma lag_page w w' To n d T' :
  lag w To (PageWrite n d :: T') ->
  for_replica w' = for_replica w -> for_origin w' = for_origin w -> lag w' To T'.
Proof.
  intros Hl Er Eo. destruct Hl as [D HD Hd Hf Hn|D -> Hd Hf Hn].
  - destruct D as [|x D].
    + cbn in HD. subst To. apply frames_nil in Hf.
      apply (replica_ahead _ _ _ [PageWrite n d]); rewrite ?Er, ?Eo, ?Hn; try done. apply frames_empty.
    + injection HD as <- ->. apply (origin_ahead _ _ _ D); by rewrite ?Er, ?Eo.
  - apply (replica_ahead _ _ _ (D ++ [PageWrite n d])); rewrite ?Er, ?Eo; try done.
    + by rewrite <- app_assoc.
    + by rewrite sent_o_app, Hd.
    + by rewrite sent_r_app, app_nil_r.
Qed.

(** No side ever meets bytes it cannot decode. *)
Lemma lag_origin_bad w To Tr e buf' :
  lag w To Tr -> try_take_framed_message (origin_buf w) <> (Err e, buf').
Proof.
  intros [D _ _ _ Hn|D _ _ Hf _] Ht.
  - apply app_eq_nil in Hn as [Hb _]. by rewrite Hb in Ht.
  - apply frames_take in Hf. by rewrite Ht in Hf.
Qed.

Lemma lag_replica_bad w To Tr e buf' :
  lag w To Tr -> try_take_framed_message (replica_buf w) <> (Err e, buf').
Proof.
  intros [D _ _ Hf _|D _ _ _ Hn] Ht.
  - apply frames_take in Hf. by rewrite Ht in Hf.
  - apply app_eq_nil in Hn as [Hb _]. by rewrite Hb in Ht.
Qed.

Lemma take_none buf buf' : try_take_framed_message buf = (Ok None, buf') -> buf' = buf.
Proof. unfold try_take_framed_message. repeat case_match; by intros [=]. Qed.

(** The dialogue advances, or bytes move within it. *)
Definition progresses (w w' : wire A B) (To Tr To' Tr' : list event) : Prop :=
  (length To' + length Tr' < length To + length Tr)%nat \/
  (To' = To /\ Tr' = Tr /\ (pending_bytes w' < pending_bytes w)%nat).

Lemma bytes_progress w w' To Tr :
  wire_inv w To Tr ->
  running (w_origin w') = running (w_origin w) -> running (w_replica w') = running (w_replica w) ->
  w_conn w' = w_conn w -> for_replica w' = for_replica w -> for_origin w' = for_origin w ->
  (pending_bytes w' < pending_bytes w)%nat ->
  exists To' Tr', wire_inv w' To' Tr' /\ progresses w w' To Tr To' Tr'.
Proof.
  intros [] Eo Er Ec Efr Efo Hp. exists To, Tr. split; [|by right].
  constructor; rewrite ?Eo, ?Er, ?Ec; try done. by eapply lag_bytes.
Qed.

Lemma nonempty_length (c : bytes) : c <> [] -> (0 < length c)%nat.
Proof. destruct c; [done|cbn; lia]. Qed.

Lemma origin_step_inv o o' r oo oo' ro ro' ob ob' rb c To Tr :
  wire_inv (mk_wire o r oo ro ob rb c) To Tr ->
  end_step capacity o oo ro ob o' oo' ro' ob' ->
  exists To' Tr', wire_inv (mk_wire o' r oo' ro' ob' rb c) To' Tr' /\
    progresses (mk_wire o r oo ro ob rb c) (mk_wire o' r oo' ro' ob' rb c) To Tr To' Tr'.
Proof.
  intros Hi Hs. pose proof Hi as [Io Ir Ic Iso Isr Il]. cbn in Io, Ir, Ic.
  destruct Hs as [m k e out inp buf He|m k e out inp buf He|p rest k out inp buf Hp Hc|k out inp buf
    |m k out inp buf buf' Ht|e k out inp buf buf' Ht|p k out inp buf buf' Ht Hp Hc]; cbn in Io.
  - destruct (otrace_send_inv m k To Io) as (W & T' & HW & -> & HT).
    apply sendable_app in Iso as [_ Iso]. apply Forall_cons in Iso as [(e' & He' & Hs) Iso].
    rewrite He in He'. injection He' as <-.
    exists T', Tr. split; [constructor; try done|left; rewrite length_app; cbn; lia].
    eapply (lag_origin_sends (mk_wire (Running (Send m k)) r out inp buf rb c)); try done.
    unfold for_replica. cbn. by rewrite app_nil_r, !app_assoc.
  - destruct (otrace_send_inv m k To Io) as (W & T' & HW & -> & HT).
    apply sendable_app in Iso as [_ Iso]. apply Forall_cons in Iso as [(e' & He' & _) _]. congruence.
  - eapply bytes_progress; try done; cbn.
    + unfold for_replica. cbn. by rewrite <- !app_assoc.
    + unfold pending_bytes. cbn. rewrite !length_app. pose proof (nonempty_length p Hp). lia.
  - eapply bytes_progress; try done. unfold pending_bytes. cbn. lia.
  - destruct (otrace_recv_inv k To Io) as (W & m' & T' & HW & -> & HT).
    destruct (lag_origin_takes _ (mk_wire (Running (k (Ok m))) r out inp buf' rb c) _ _ W m' m T' buf'
                Il HW eq_refl Ht eq_refl eq_refl) as [-> Hl].
    apply sendable_app in Iso as [_ Iso]. apply Forall_cons in Iso as [_ Iso].
    exists T', Tr. split; [by constructor|left; rewrite length_app; cbn; lia].
  - by destruct (lag_origin_bad _ _ _ _ _ Il Ht).
  - apply take_none in Ht as ->. eapply bytes_progress; try done.
    + unfold for_origin. cbn. by rewrite <- !app_assoc.
    + unfold pending_bytes. cbn. rewrite !length_app. pose proof (nonempty_length p Hp). lia.
Qed.

Lemma replica_step_inv o r r' oo oo' ro ro' ob rb rb' c To Tr :
  wire_inv (mk_wire o r oo ro ob rb c) To Tr ->
  end_step capacity r ro oo rb r' ro' oo' rb' ->
  exists To' Tr', wire_inv (mk_wire o r' oo' ro' ob rb' c) To' Tr' /\
    progresses (mk_wire o r oo ro ob rb c) (mk_wire o r' oo' ro' ob rb' c) To Tr To' Tr'.
Proof.
  intros Hi Hs. pose proof Hi as [Io Ir Ic Iso Isr Il]. cbn in Io, Ir, Ic.
  destruct Hs as [m k e out inp buf He|m k e out inp buf He|p rest k out inp buf Hp Hc|k out inp buf
    |m k out inp buf buf' Ht|e k out inp buf buf' Ht|p k out inp buf buf' Ht Hp Hc]; cbn in Ir.
  - inversion Ir as [|? ? T' ? HT| |]; subst.
    apply Forall_cons in Isr as [(e' & He' & Hs) Isr]. rewrite He in He'. injection He' as <-.
    exists To, T'. split; [constructor; try done|left; cbn; lia].
    eapply (lag_replica_sends (mk_wire o (Running (Send m k)) inp out ob buf c)); try done.
    unfold for_origin. cbn. by rewrite app_nil_r, !app_assoc.
  - inversion Ir as [|? ? T' ? HT| |]; subst.
    apply Forall_cons in Isr as [(e' & He' & _) _]. congruence.
  - eapply bytes_progress; try done; cbn.
    + unfold for_origin. cbn. by rewrite <- !app_assoc.
    + unfold pending_bytes. cbn. rewrite !length_app. pose proof (nonempty_length p Hp). lia.
  - eapply bytes_progress; try done. unfold pending_bytes. cbn. lia.
  - inversion Ir as [| |m' ? T' ? HT|]; subst.
    destruct (lag_replica_takes _ (mk_wire o (Running (k (Ok m))) inp out ob buf' c) _ _ m' m T' buf'
                Il eq_refl Ht eq_refl eq_refl) as [-> Hl].
    apply Forall_cons in Isr as [_ Isr].
    exists To, T'. split; [by constructor|left; cbn; lia].
  - by destruct (lag_replica_bad _ _ _ _ _ Il Ht).
  - apply take_none in Ht as ->. eapply bytes_progress; try done.
    + unfold for_replica. cbn. by rewrite <- !app_assoc.
    + unfold pending_bytes. cbn. rewrite !length_app. pose proof (nonempty_length p Hp). lia.
Qed.

Lemma wire_step_inv w w' To Tr :
  wire_inv w To Tr -> wire_step capacity w w' ->
  exists To' Tr', wire_inv w' To' Tr' /\ progresses w w' To Tr To' Tr'.
Proof.
  intros Hi Hs. destruct Hs as [| |n d k o oo ro ob rb c];
    [by eapply origin_step_inv|by eapply replica_step_inv|].
  destruct Hi as [Io Ir Ic Iso Isr Il]. cbn in Io, Ir, Ic.
  inversion Ir as [| | |? ? ? T' ? HT]; subst. cbn in Ic.
  destruct (write_page c n d) as [[[]|e] c1] eqn:E; [|done].
  exists To, T'. split; [|left; cbn; lia]. constructor; try done.
  by eapply lag_page.
Qed.

(** Sessions end. *)
Lemma wire_inv_sn w To Tr : wire_inv w To Tr -> sn (wire_step capacity) w.
Proof.
  remember (length To + length Tr)%nat as n eqn:En. revert w To Tr En.
  induction (lt_wf n) as [n _ IHn]. intros w To Tr ->.
  remember (pending_bytes w) as p eqn:Ep. revert w Ep.
  induction (lt_wf p) as [p _ IHp]. intros w -> Hi.
  constructor. intros w' Hs. destruct (wire_step_inv w w' To Tr Hi Hs) as (To' & Tr' & Hi' & [Hl|(-> & -> & Hl)]).
  - by eapply IHn.
  - by eapply IHp.
Qed.

(** *** No deadlock *)

Lemma otrace_skip W T q : page_writes W -> otrace (A := A) q (W ++ T) (Ret a) -> otrace q T (Ret a).
Proof.
  induction 1 as [|x W Hx _ IH]; [done|]. cbn. intros H1.
  destruct x as [m|m|n d]; [done..|]. inversion H1; subst. by apply IH.
Qed.

Lemma no_messages D : sent_by_origin D = [] -> sent_by_replica D = [] -> page_writes D.
Proof. induction D as [|[] D IH]; cbn; intros; try done; constructor; auto; by apply IH. Qed.

Lemma first_message D m q :
  sent_by_origin D = [] -> sent_by_replica D = m :: q ->
  exists W D', D = W ++ ToOrigin m :: D' /\ page_writes W.
Proof.
  induction D as [|[x|x|n d] D IH]; cbn; intros Ho Hr; try done.
  - injection Hr as -> _. exists [], D. split; [done|constructor].
  - destruct IH as (W & D' & -> & HW); [done..|]. exists (PageWrite n d :: W), D'.
    split; [done|]. by constructor.
Qed.

(** Bytes for a receiver that waits are taken, read or pushed. *)
Definition can_move {X Y} (recv : wproc X) (send : wproc Y) (pipe buf : bytes) : Prop :=
  (exists r' buf' pipe', forall out, end_step capacity recv out pipe buf r' out pipe' buf') \/
  (exists s' pipe', forall inp b, end_step capacity send pipe inp b s' pipe' inp b).

Lemma frames_move {X Y} (k : SyncResult Message -> proc X) (s : wproc Y) q m pipe buf :
  frames (m :: q) (buf ++ pipe ++ unsent s) -> can_move (Running (Recv k)) s pipe buf.
Proof.
  intros Hf. apply frames_take in Hf.
  destruct (try_take_framed_message buf) as [[[m'|]|e] buf'] eqn:E; [| |done].
  - left. exists (Running (k (Ok m'))), buf', pipe. intros. by constructor.
  - destruct Hf as [-> Hne]. destruct pipe as [|x pipe].
    + right. destruct s as [p|[|x rest] k']; cbn in Hne; [by destruct Hne..|].
      exists (Writing rest k'), [x]. intros. apply (end_push capacity [x] rest k' []); [done|].
      unfold zlen. cbn. lia.
    + left. exists (Running (Recv k)), (buf ++ [x]), pipe. intros.
      apply (end_read capacity [x] k out pipe buf buf E); [done|unfold zlen, READ_SIZE; cbn; lia].
Qed.

Lemma sends_move {X} m k : sendable m ->
  exists s' : wproc X, forall out inp buf, end_step capacity (Running (Send m k)) out inp buf s' out inp buf.
Proof. intros (e & He & _). exists (Writing e k). intros. by constructor. Qed.

Section Stuck.
Variables (w : wire A B) (To Tr : list event).
Context (Hi : wire_inv w To Tr) (Hnf : nf (wire_step capacity) w).

Lemma origin_moves o' oo' ro' ob' :
  ~ end_step capacity (w_origin w) (origin_out w) (replica_out w) (origin_buf w) o' oo' ro' ob'.
Proof.
  clear Hi. intros Hs. apply Hnf. destruct w. eexists. by apply wire_origin.
Qed.
Lemma replica_moves r' ro' oo' rb' :
  ~ end_step capacity (w_replica w) (replica_out w) (origin_out w) (replica_buf w) r' ro' oo' rb'.
Proof.
  clear Hi. intros Hs. apply Hnf. destruct w. eexists. by apply wire_replica.
Qed.

Lemma origin_running : unsent (w_origin w) = [] -> w_origin w = Running (running (w_origin w)).
Proof.
  destruct (w_origin w) as [p|[|x rest] k] eqn:E; [done| |done]. intros _.
  exfalso. eapply origin_moves. rewrite E. apply end_sent.
Qed.
Lemma replica_running : unsent (w_replica w) = [] -> w_replica w = Running (running (w_replica w)).
Proof.
  destruct (w_replica w) as [p|[|x rest] k] eqn:E; [done| |done]. intros _.
  exfalso. eapply replica_moves. rewrite E. apply end_sent.
Qed.

Lemma replica_not_waiting k m q :
  w_replica w = Running (Recv k) -> ~ frames (m :: q) (for_replica w).
Proof.
  intros E Hf. destruct (frames_move k _ _ _ _ _ Hf) as [(r' & b' & p' & Hm)|(s' & p' & Hm)].
  - eapply replica_moves. rewrite E. apply Hm.
  - eapply origin_moves. apply Hm.
Qed.
Lemma origin_not_waiting k m q :
  w_origin w = Running (Recv k) -> ~ frames (m :: q) (for_origin w).
Proof.
  intros E Hf. destruct (frames_move k _ _ _ _ _ Hf) as [(r' & b' & p' & Hm)|(s' & p' & Hm)].
  - eapply origin_moves. rewrite E. apply Hm.
  - eapply replica_moves. apply Hm.
Qed.

(** An origin that runs and whose next message is to the replica sends it. *)
Lemma origin_sends_next W m T :
  w_origin w = Running (running (w_origin w)) -> page_writes W -> To <> W ++ ToReplica m :: T.
Proof.
  intros E HW ET. pose proof Hi as [Io _ _ Iso _ _]. rewrite ET in Io, Iso.
  apply otrace_skip in Io; [|done]. inversion Io as [|? k ? ? HT Ek| |]; subst.
  apply sendable_app in Iso as [_ Iso]. apply Forall_cons in Iso as [Hm _].
  destruct (sends_move (X := A) m k Hm) as (s' & Hs). eapply origin_moves.
  rewrite E, <- Ek. apply Hs.
Qed.

(** A replica that runs has come to its end or waits for a message. *)
Lemma replica_end_or_waits :
  w_replica w = Running (running (w_replica w)) ->
  (Tr = [] /\ w_replica w = Running (Ret b)) \/
  exists m k T, Tr = ToReplica m :: T /\ w_replica w = Running (Recv k).
Proof.
  intros E. pose proof Hi as [_ Ir _ _ Isr _].
  inversion Ir as [p Ep ET Er|m k T p HT Ek ET|m k T p HT Ek ET|n d k T p HT Ek ET].
  - left. split; [done|]. by rewrite E, Er.
  - exfalso. rewrite <- ET in Isr. apply Forall_cons in Isr as [Hm _].
    destruct (sends_move (X := B) m k Hm) as (s' & Hs). eapply replica_moves. rewrite E, <- Ek. apply Hs.
  - right. exists m, k, T. split; [done|]. by rewrite E, <- Ek.
  - exfalso. apply Hnf. clear Hi Ir. destruct w as [o r oo ro ob rb c]. cbn in E, Ek. rewrite E, <- Ek.
    eexists. apply wire_page.
Qed.
End Stuck.
(** A session that cannot move has ended well, with every byte consumed. *)
Lemma wire_stuck w To Tr :
  wire_inv w To Tr -> nf (wire_step capacity) w ->
  w_origin w = Running (Ret a) /\ w_replica w = Running (Ret b) /\ w_conn w = final /\
  for_origin w = [] /\ for_replica w = [].
Proof.
  intros Hi Hnf. pose proof Hi as [Io Ir Ic Iso Isr [D HD Hd Hf Hn|D HD Hd Hf Hn]].
  - assert (Er : w_replica w = Running (running (w_replica w))).
    { apply (replica_running w Hnf). by apply app_eq_nil in Hn as [_ [_ ?]%app_eq_nil]. }
    destruct (replica_end_or_waits w To Tr Hi Hnf Er) as [[-> Hr]|(m & k & T & HT & Hr)].
    + symmetry in HD. apply app_eq_nil in HD as [-> ->]. apply frames_nil in Hf.
      assert (Eo : w_origin w = Running (running (w_origin w))).
      { apply (origin_running w Hnf). by apply app_eq_nil in Hf as [_ [_ ?]%app_eq_nil]. }
      inversion Io as [p0 Ep0 ET0 Hx| | |]. injection Ic as Ic. split_and!; congruence.
    + exfalso. destruct D as [|x D].
      * cbn in HD. subst Tr. apply frames_nil in Hf.
        eapply (origin_sends_next w To To Hi Hnf []); [|constructor|exact HT].
        apply (origin_running w Hnf). by apply app_eq_nil in Hf as [_ [_ ?]%app_eq_nil].
      * rewrite HT in HD. injection HD as <- _.
        eapply (replica_not_waiting w Hnf); [exact Hr|exact Hf].
  - assert (Eo : w_origin w = Running (running (w_origin w))).
    { apply (origin_running w Hnf). by apply app_eq_nil in Hn as [_ [_ ?]%app_eq_nil]. }
    destruct (sent_by_replica D) as [|m q] eqn:Eq.
    + pose proof (no_messages D Hd Eq) as HW. apply frames_nil in Hf.
      assert (Er : w_replica w = Running (running (w_replica w))).
      { apply (replica_running w Hnf). by apply app_eq_nil in Hf as [_ [_ ?]%app_eq_nil]. }
      destruct (replica_end_or_waits w To Tr Hi Hnf Er) as [[-> Hr]|(m & k & T & -> & Hr)].
      * rewrite HD in Io. apply otrace_skip in Io; [|done].
        inversion Io as [p0 Ep0 ET0 Hx| | |]. injection Ic as Ic. split_and!; congruence.
      * by destruct (origin_sends_next w To (ToReplica m :: T) Hi Hnf D m T Eo HW).
    + exfalso. destruct (first_message D m q Hd Eq) as (W & D' & -> & HW).
      rewrite HD, <- app_assoc in Io. apply otrace_skip in Io; [|done].
      inversion Io as [| |? k ? ? _ Ek|]; subst.
      eapply (origin_not_waiting w Hnf); [by rewrite Eo, <- Ek|exact Hf].
Qed.
End Invariant.

(** ** Claims *)
Section Claims.
Context `{!Bincode, !BincodeLaws, !Digests, !Rayon, !HashSetDebug}.

(** A dialogue both handlers follow, over byte streams of any capacity. *)
Lemma wire_dialogue {A B} capacity (o : proc A) (r : proc B) a b T c final :
  1 <= capacity -> otrace o T (Ret a) -> rtrace r T (Ret b) ->
  apply_writes c (writes T) = Some final -> sendable_events T ->
  sn (wire_step capacity) (wire_start o r c) /\
  forall w, rtc (wire_step capacity) (wire_start o r c) w -> nf (wire_step capacity) w ->
    w_origin w = Running (Ret a) /\ w_replica w = Running (Ret b) /\ w_conn w = final /\
    for_origin w = [] /\ for_replica w = [].
Proof.
  intros Hc Ho Hr Hw Hs.
  assert (Hi : wire_inv a b final (wire_start o r c) T T).
  { constructor; try done. apply (origin_ahead _ _ _ []); try done. apply frames_empty. }
  split; [by eapply wire_inv_sn|].
  intros w Hrun Hnf.
  assert (exists To Tr, wire_inv a b final w To Tr) as (To & Tr & Hi').
  { clear Hnf. revert T Ho Hr Hw Hs Hi. 
    remember (wire_start o r c) as w0 eqn:E0. clear E0.
    enough (forall To Tr, wire_inv a b final w0 To Tr -> exists To Tr, wire_inv a b final w To Tr) by eauto.
    induction Hrun as [w0|w0 w1 w2 Hst _ IH]; [eauto|]. intros To Tr Hi.
    destruct (wire_step_inv _ _ _ _ _ _ _ _ Hi Hst) as (To' & Tr' & Hi' & _). eauto. }
  by eapply wire_stuck.
Qed.

(** A session over byte streams, whatever their capacity, however they cut the bytes, and
    whatever the schedule: no run blocks or goes on forever, and every run ends with [Ok]
    on both sides, the replica file equal to the snapshot and every byte consumed. *)
Theorem wire_session_ends capacity snap c ot rt rc :
  1 <= capacity ->
  snapshot_ok snap -> replica_ok (snap_page_size snap) rc c -> rc <= snap_page_count snap ->
  no_collision (snap_page_size snap) (snap_page_count snap) rc (snap_bytes snap) (file c) ->
  sendable_events (session_trace (snap_page_size snap) (snap_page_count snap) rc (snap_bytes snap) (file c)) ->
  let w0 := wire_start (Origin.run_with_tuning snap ot) (Replica.run_with_tuning c rt) c in
  sn (wire_step capacity) w0 /\
  forall w, rtc (wire_step capacity) w0 w -> nf (wire_step capacity) w ->
    w_origin w = Running (Ret (Ok tt)) /\ w_replica w = Running (Ret (Ok tt)) /\
    file (w_conn w) = snap_bytes snap /\ for_origin w = [] /\ for_replica w = [].
Proof.
  intros Hcap Hs Hr Hle NC Hm.
  destruct (session_writes snap c rc Hs Hr Hle NC) as (c' & Hf & Hw).
  pose proof Hs as (Hps & Hpc & Hob). pose proof Hr as (Es & Ec & Eb & Hrb & Hrc & Hwf & Hff).
  destruct (wire_dialogue capacity (Origin.run_with_tuning snap ot) (Replica.run_with_tuning c rt)
    (Ok tt) (Ok tt) (session_trace (snap_page_size snap) (snap_page_count snap) rc (snap_bytes snap)
       (file c)) c c' Hcap) as [Hsn Hend]; [by apply sync_otrace|by apply sync_rtrace|done|done|].
  split; [done|]. intros w Hrun Hnf. destruct (Hend w Hrun Hnf) as (? & ? & -> & ?). by rewrite Hf.
Qed.
End Claims.
