(* ===== verification/Limits.v ===== *)
(** * The frame limit and the size of databases (src/src/protocol/messages.rs)

    A frame over [MAX_MESSAGE_SIZE] is refused by its receiver, and the sender does not
    check.  The coarse pass sends one digest for every group of the replica in one
    message, so the limit bounds the databases that can be synchronised.  The bound is
    [MAX_PAGES], exactly: up to it every message of a session fits, and with the
    sessions of [Wire] this gives [byte_stream_sync]; a replica above it sends a message
    that the origin refuses, [coarse_pass_limit]. *)

From S2P Require Import Prelude RustStr Errors Hash Messages Proc Db Tuning Pages Instances.
From S2P Require Import Transport Origin Replica Session SyncLocal Faults Wire.

(** ** Sizes of bincode's standard configuration

    Variable-length integers take at most 5 bytes for a [u32] and 9 for a length; a byte
    takes one. *)
Definition sum (l : list Z) : Z := foldr Z.add 0 l.

Definition size_bound (m : Message) : Z :=
  5 + match m with
      | Hello _ _ _ | HelloAck _ _ _ => 15
      | GroupHashes _ hs => 5 + 9 + sum (map zlen hs)
      | GroupsNeedFine gs => 9 + 5 * zlen gs
      | PageHashes ps hs => 9 + 5 * zlen ps + (9 + sum (map zlen hs))
      | SendPages pages => 9 + sum (map (fun p => 5 + (9 + zlen (data p))) pages)
      | PagesAck ps => 9 + 5 * zlen ps
      | Done => 0
      | Error t => 9 + Z.of_nat (String.length t)
      end.

(** The fields that the types of the source bound. *)
Definition typed_message (m : Message) : Prop :=
  match m with
  | Hello v s c | HelloAck v s c => is_u32 v /\ is_u32 s /\ is_u32 c
  | GroupHashes g hs => is_u32 g /\ Forall (fun h => length h = 32%nat) hs
  | GroupsNeedFine gs => Forall is_u32 gs
  | PageHashes ps hs => Forall is_u32 ps /\ Forall (fun h => length h = 32%nat) hs
  | SendPages pages => Forall (fun p => is_u32 (page_no p)) pages
  | PagesAck ps => Forall is_u32 ps
  | Done | Error _ => True
  end.

(** The digests of a message, which the encoding copies after the variant's tag. *)
Definition digest_bytes (m : Message) : Z :=
  match m with
  | GroupHashes _ hs | PageHashes _ hs => sum (map zlen hs)
  | _ => 0
  end.

Class BincodeSize `{!Bincode} : Prop := {
  bincode_size : forall m, typed_message m ->
    exists b, bincode_encode m = Ok b /\ 1 + digest_bytes m <= zlen b <= size_bound m;
}.

Lemma sum_const {A} (f : A -> Z) c (l : list A) : (forall x, x ∈ l -> f x <= c) -> sum (map f l) <= c * zlen l.
Proof.
  induction l as [|x l IH]; intros Hl; [unfold zlen; cbn; lia|].
  assert (f x <= c) by (apply Hl; set_solver).
  assert (sum (map f l) <= c * zlen l) by (apply IH; set_solver).
  unfold zlen in *. cbn [map sum foldr length]. unfold sum in *. lia.
Qed.

Lemma digests_size (hs : list PageHash) : Forall (fun h => length h = 32%nat) hs -> sum (map zlen hs) = 32 * zlen hs.
Proof.
  induction 1 as [|h hs Hh _ IH]; [done|]. unfold sum, zlen in *. cbn [map foldr length]. lia.
Qed.

(** The largest number of pages whose group digests fit in a frame. *)
Definition MAX_PAGES : Z := 64 * 8388607.

Section Limits.
Context `{!Bincode, !BincodeSize, !Digests, !DigestLaws}.

Lemma small_sendable m : typed_message m -> size_bound m <= MAX_MESSAGE_SIZE -> sendable m.
Proof.
  intros Ht Hb. destruct (bincode_size m Ht) as (b & He & _ & Hl).
  exists (to_le_bytes (u32 (zlen b)) ++ b). unfold encode. rewrite He. split; [done|].
  unfold payload_size. rewrite zlen_app, zlen_to_le_bytes. lia.
Qed.

Variables (ps pc rc : Z) (ob rb : bytes).
Context (Hps : 0 < ps <= 65536) (Hpc : 0 <= pc <= MAX_PAGES) (Hle : 0 <= rc <= pc).
Context (Hob : zlen ob = pc * ps) (Hrb : zlen rb = rc * ps).

Lemma pc_fits : fits_u32 pc /\ fits_u32 rc.
Proof. unfold fits_u32, MAX_PAGES in *. lia. Qed.

Lemma group_counts : 0 <= num_groups rc <= 8388607 /\ 0 <= div_ceil pc 64 <= 8388607.
Proof.
  unfold num_groups, GROUP_SIZE, MAX_PAGES in *.
  pose proof (div_ceil_spec rc 64 ltac:(lia) ltac:(lia)).
  pose proof (div_ceil_spec pc 64 ltac:(lia) ltac:(lia)). lia.
Qed.

Lemma zlen_need_fine : zlen (need_fine ps pc rc ob rb) <= 8388607.
Proof.
  unfold need_fine, need_fine_spec. rewrite zlen_app, zlen_replica_digests by apply pc_fits.
  destruct group_counts as (Hr & Hp).
  assert (zlen (List.filter (group_differs ps pc ob Blake3V2 (replica_digests ps rc rb))
    (range 0 (num_groups rc))) <= num_groups rc) as Hf.
  { pose proof (filter_length_le (group_differs ps pc ob Blake3V2 (replica_digests ps rc rb))
                  (range 0 (num_groups rc))) as Hl.
    pose proof (zlen_range 0 (num_groups rc) ltac:(lia)) as Hz. unfold zlen in Hz |- *. lia. }
  destruct (decide (num_groups rc <= div_ceil pc 64)).
  - rewrite (zlen_range (num_groups rc)) by lia. lia.
  - rewrite (range_empty (num_groups rc)) by lia. change (zlen (@nil Z)) with 0. lia.
Qed.

Lemma offered_32 g : Forall (fun h => length h = 32%nat) (offered ps rc rb g).
Proof.
  apply Forall_forall. intros h (p & -> & _)%list_elem_of_fmap. apply hash_page_for_length.
Qed.

Lemma digests_32 : Forall (fun h => length h = 32%nat) (replica_digests ps rc rb).
Proof.
  apply Forall_forall. intros h (p & -> & _)%list_elem_of_fmap. apply hash_group_for_length.
Qed.

Lemma zlen_pages_sent g : 0 <= g -> zlen (pages_sent ps pc rc ob rb g) <= 64.
Proof.
  intros Hg. unfold pages_sent, changed_spec, zlen. rewrite length_map.
  pose proof (filter_length_le (page_changed ps ob Blake3V2 (64 * g + 1) (offered ps rc rb g))
                (group_range pc g)) as Hl.
  pose proof (zlen_group_range pc g Hg) as Hz. unfold zlen in Hz. lia.
Qed.

Lemma sendable_one e m : message_of e = Some m ->
  typed_message m -> size_bound m <= MAX_MESSAGE_SIZE -> sendable_events [e].
Proof.
  intros He Ht Hb. unfold sendable_events. cbn. rewrite He. constructor; [by apply small_sendable|constructor].
Qed.

Lemma sendable_writes pages : sendable_events (write_events pages).
Proof. unfold sendable_events. induction pages; cbn; [constructor|done]. Qed.

(** The messages of one group have the fields of their types. *)
Lemma group_messages_typed g : group_ok g ->
  typed_message (PageHashes (group_range rc g) (offered ps rc rb g)) /\
  typed_message (SendPages (pages_sent ps pc rc ob rb g)) /\
  typed_message (PagesAck (map page_no (pages_sent ps pc rc ob rb g))).
Proof.
  intros Hg. pose proof Hg as [Hg0 _].
  pose proof (pages_sent_wf ps pc rc ob rb ltac:(lia) Hob g Hg) as Hwf.
  assert (Hu : Forall is_u32 (map page_no (pages_sent ps pc rc ob rb g))).
  { apply Forall_map. eapply Forall_impl; [exact Hwf|]. intros p (Hp & _).
    unfold is_u32, MAX_PAGES in *. cbn. lia. }
  split_and!; [split; [|apply offered_32]|exact (proj1 (List.Forall_map _ _ _) Hu)|exact Hu].
  apply Forall_forall. intros p Hp%elem_of_group_range. unfold is_u32, MAX_PAGES in *. lia.
Qed.

(** Their sizes, by the pages sent. *)
Lemma group_messages_size g : group_ok g ->
  let k := zlen (pages_sent ps pc rc ob rb g) in
  size_bound (PageHashes (group_range rc g) (offered ps rc rb g)) <= 2391 /\
  size_bound (SendPages (pages_sent ps pc rc ob rb g)) <= 14 + (14 + ps) * k /\
  size_bound (PagesAck (map page_no (pages_sent ps pc rc ob rb g))) <= 14 + 5 * k.
Proof.
  intros Hg k. pose proof Hg as [Hg0 _].
  pose proof (pages_sent_wf ps pc rc ob rb ltac:(lia) Hob g Hg) as Hwf.
  pose proof (zlen_group_range rc g Hg0) as Hr. pose proof (zlen_offered ps rc rb g Hg0) as Ho.
  pose proof (digests_size _ (offered_32 g)) as Hh. rewrite Ho in Hh. unfold size_bound.
  split_and!; [lia| |unfold k, zlen; rewrite length_map; lia].
  pose proof (sum_const (fun p => 5 + (9 + zlen (data p))) (14 + ps) (pages_sent ps pc rc ob rb g)) as Hs.
  rewrite Forall_forall in Hwf. specialize (Hs ltac:(intros p (_ & _ & Hp)%Hwf; lia)). unfold k. lia.
Qed.

(** The messages of one group. *)
Lemma group_messages_sendable g : group_ok g -> sendable_events (group_trace ps pc rc ob rb g).
Proof.
  intros Hg. destruct (group_messages_typed g Hg) as (T1 & T2 & T3).
  destruct (group_messages_size g Hg) as (S1 & S2 & S3).
  pose proof (zlen_pages_sent g (proj1 Hg)) as Hn. pose proof (zlen_nonneg (pages_sent ps pc rc ob rb g)).
  change (group_trace ps pc rc ob rb g) with
    (([ToOrigin (PageHashes (group_range rc g) (offered ps rc rb g))] ++
      [ToReplica (SendPages (pages_sent ps pc rc ob rb g))]) ++
     write_events (pages_sent ps pc rc ob rb g) ++
     [ToOrigin (PagesAck (map page_no (pages_sent ps pc rc ob rb g)))]).
  rewrite !sendable_app. split_and!; [..|apply sendable_writes|];
    (eapply sendable_one; [reflexivity|done|unfold MAX_MESSAGE_SIZE; nia]).
Qed.

(** Up to [MAX_PAGES] pages (2 TiB with pages of 4 KiB) every message of a session encodes
    and fits in a frame. *)
Lemma session_sendable : sendable_events (session_trace ps pc rc ob rb).
Proof.
  destruct pc_fits as [Fp Fr]. destruct group_counts as [Gr Gp].
  pose proof (zlen_replica_digests ps rc rb) as Hd.
  pose proof (digests_size _ digests_32) as Hh. rewrite Hd in Hh. pose proof zlen_need_fine as Hn.
  change (session_trace ps pc rc ob rb) with
    ((([ToOrigin (Hello 2 ps rc)] ++ [ToReplica (HelloAck 2 ps pc)]) ++
      ([ToOrigin (GroupHashes 0 (replica_digests ps rc rb))] ++
       [ToReplica (GroupsNeedFine (need_fine ps pc rc ob rb))])) ++
     concat (map (group_trace ps pc rc ob rb) (need_fine ps pc rc ob rb)) ++ [ToReplica Done]).
  assert (Hg : forall gs, (forall g, g ∈ gs -> group_ok g) ->
    sendable_events (concat (map (group_trace ps pc rc ob rb) gs))).
  { induction gs as [|g gs IH]; intros Hgs; [constructor|]. cbn [map concat]. apply sendable_app.
    split; [apply group_messages_sendable|apply IH]; set_solver. }
  rewrite !sendable_app. split_and!;
    [..|apply Hg, need_fine_groups; done|];
    (eapply sendable_one; [reflexivity|cbn|unfold size_bound, MAX_MESSAGE_SIZE]);
    unfold is_u32, MAX_PAGES in *; try lia.
  - split; [lia|apply digests_32].
  - apply Forall_forall. intros g [Hg0 Hg1]%(need_fine_groups ps pc rc ob rb Fp Fr). lia.
Qed.
End Limits.

(** ** Claims *)
Section Claims.
Context `{!Bincode, !BincodeLaws, !BincodeSize, !Digests, !DigestLaws, !Rayon, !HashSetDebug}.

(** C18. A session over byte streams of any capacity, between databases of up to
    [MAX_PAGES] pages of at most 64 KiB: whatever the capacity of the pipes, however they
    cut the bytes and whatever the schedule, no run blocks or goes on forever, and every
    run ends with [Ok] on both sides, the replica file equal to the snapshot and every
    byte consumed. *)
Theorem byte_stream_sync capacity snap c ot rt rc :
  1 <= capacity ->
  snapshot_ok snap -> snap_page_size snap <= 65536 -> snap_page_count snap <= MAX_PAGES ->
  replica_ok (snap_page_size snap) rc c -> rc <= snap_page_count snap ->
  no_collision (snap_page_size snap) (snap_page_count snap) rc (snap_bytes snap) (file c) ->
  let w0 := wire_start (Origin.run_with_tuning snap ot) (Replica.run_with_tuning c rt) c in
  sn (wire_step capacity) w0 /\
  forall w, rtc (wire_step capacity) w0 w -> nf (wire_step capacity) w ->
    w_origin w = Running (Ret (Ok tt)) /\ w_replica w = Running (Ret (Ok tt)) /\
    file (w_conn w) = snap_bytes snap /\ for_origin w = [] /\ for_replica w = [].
Proof.
  intros Hcap Hs Hps Hpc Hr Hle NC. apply (wire_session_ends capacity snap c ot rt rc); try done.
  pose proof Hs as (Hps0 & Hpc0 & Hob). pose proof Hr as (_ & _ & _ & Hrb & Hrc & _).
  unfold fits_u32 in *. apply session_sendable; try done; lia.
Qed.

(** C29. The limit is exact: the coarse message of a replica with more than [MAX_PAGES] pages
    encodes, and the receiver refuses it from the four bytes of its length prefix, whatever
    has arrived after them. *)
Theorem coarse_pass_limit ps rc rb :
  fits_u32 rc -> MAX_PAGES < rc ->
  exists e, encode (GroupHashes 0 (replica_digests ps rc rb)) = Ok e /\ 4 <= zlen e /\
    forall received, exists text,
      try_take_framed_message (take 4 e ++ received) = (Err (Codec text), take 4 e ++ received).
Proof.
  intros Hrc Hbig. pose proof (digests_size _ (digests_32 ps rc rb)) as Hd.
  rewrite zlen_replica_digests in Hd.
  pose proof (num_groups_bound rc Hrc) as Hn.
  assert (8388608 <= num_groups rc).
  { unfold num_groups, GROUP_SIZE, MAX_PAGES, fits_u32 in *.
    pose proof (div_ceil_spec rc 64 ltac:(lia) ltac:(lia)). lia. }
  destruct (bincode_size (GroupHashes 0 (replica_digests ps rc rb))) as (b & He & Hl).
  { split; [unfold is_u32; lia|apply digests_32]. }
  unfold digest_bytes, size_bound in Hl. rewrite Hd in Hl.
  assert (Hu : is_u32 (zlen b)) by (unfold is_u32; lia).
  exists (to_le_bytes (u32 (zlen b)) ++ b). unfold encode. rewrite He. split; [done|].
  rewrite u32_id by done. split; [rewrite zlen_app, zlen_to_le_bytes; pose proof (zlen_nonneg b); lia|].
  intros received. rewrite take4_le.
  destruct (oversize_frame_refused (zlen b) received Hu) as (text & _ & Ht);
    [unfold MAX_MESSAGE_SIZE; lia|by exists text].
Qed.
End Claims.

(** ** A codec with these laws

    A tag, then integers as they are, lists behind their length and digests copied. *)
Module Raw.
Definition is_digest (h : PageHash) : bool := (length h =? 32)%nat.

Fixpoint take_digests (n : nat) (b : bytes) : list PageHash :=
  match n with O => [] | S n => take 32 b :: take_digests n (drop 32 b) end.

Fixpoint take_pages (n : nat) (b : bytes) : list PageData :=
  match n, b with
  | S n, p :: l :: b => mk_page p (take (Z.to_nat l) b) :: take_pages n (drop (Z.to_nat l) b)
  | _, _ => []
  end.

Definition raw_page (p : PageData) : bytes := page_no p :: zlen (data p) :: data p.

Definition raw_encode (m : Message) : Result string bytes :=
  match m with
  | Hello v s c => Ok [0; v; s; c]
  | HelloAck v s c => Ok [1; v; s; c]
  | GroupHashes g hs =>
      if forallb is_digest hs then Ok (2 :: g :: zlen hs :: concat hs) else Err "digest"
  | GroupsNeedFine gs => Ok (3 :: gs)
  | PageHashes ps hs =>
      if forallb is_digest hs then Ok (4 :: zlen ps :: zlen hs :: ps ++ concat hs) else Err "digest"
  | SendPages pages => Ok (5 :: zlen pages :: concat (map raw_page pages))
  | PagesAck ps => Ok (6 :: ps)
  | Done => Ok [7]
  | Error t => Ok (8 :: map (fun a => Z.of_nat (Ascii.nat_of_ascii a)) (String.list_ascii_of_string t))
  end.

Definition raw_decode (b : bytes) : Result string (Message * Z) :=
  match b with
  | [0; v; s; c] => Ok (Hello v s c, 4)
  | [1; v; s; c] => Ok (HelloAck v s c, 4)
  | 2 :: g :: n :: b' => Ok (GroupHashes g (take_digests (Z.to_nat n) b'), zlen b)
  | 3 :: gs => Ok (GroupsNeedFine gs, zlen b)
  | 4 :: np :: nh :: b' =>
      Ok (PageHashes (take (Z.to_nat np) b') (take_digests (Z.to_nat nh) (drop (Z.to_nat np) b')), zlen b)
  | 5 :: n :: b' => Ok (SendPages (take_pages (Z.to_nat n) b'), zlen b)
  | 6 :: ps => Ok (PagesAck ps, zlen b)
  | [7] => Ok (Done, 1)
  | 8 :: t =>
      Ok (Error (String.string_of_list_ascii (map (fun z => Ascii.ascii_of_nat (Z.to_nat z)) t)), zlen b)
  | _ => Err "UnexpectedVariant"
  end.

Definition raw_bincode : Bincode := {| bincode_encode := raw_encode; bincode_decode := raw_decode |}.

Lemma to_nat_zlen {A} (l : list A) : Z.to_nat (zlen l) = length l.
Proof. unfold zlen. lia. Qed.

Lemma take_digests_concat hs : forallb is_digest hs = true -> take_digests (length hs) (concat hs) = hs.
Proof.
  induction hs as [|h hs IH]; [done|]. cbn [forallb length take_digests concat].
  intros [Hh Hs]%andb_prop. apply Nat.eqb_eq in Hh.
  rewrite take_app_length', drop_app_length' by done. f_equal. by apply IH.
Qed.

Lemma take_pages_concat pages : take_pages (length pages) (concat (map raw_page pages)) = pages.
Proof.
  induction pages as [|[p d] pages IH]; [done|]. cbn.
  rewrite to_nat_zlen, take_app_length, drop_app_length. by f_equal.
Qed.

Lemma raw_text t : String.string_of_list_ascii (map (fun z => Ascii.ascii_of_nat (Z.to_nat z))
  (map (fun a => Z.of_nat (Ascii.nat_of_ascii a)) (String.list_ascii_of_string t))) = t.
Proof.
  rewrite map_map. erewrite map_ext; [rewrite map_id; apply String.string_of_list_ascii_of_string|].
  intros a. cbn. by rewrite Nat2Z.id, Ascii.ascii_nat_embedding.
Qed.

Lemma raw_laws : BincodeLaws (H := raw_bincode).
Proof.
  split. intros m b. destruct m as [| |g hs| |ps hs|pages| | |t]; cbn -[zlen Z.to_nat take drop];
    try (intros [= <-]; by eexists).
  - destruct (forallb is_digest hs) eqn:E; [|done]. intros [= <-].
    cbn -[zlen Z.to_nat take drop]. rewrite to_nat_zlen, take_digests_concat by done. by eexists.
  - destruct (forallb is_digest hs) eqn:E; [|done]. intros [= <-].
    cbn -[zlen Z.to_nat take drop]. rewrite !to_nat_zlen, take_app_length, drop_app_length, take_digests_concat by done. by eexists.
  - intros [= <-]. cbn -[zlen Z.to_nat take drop]. rewrite to_nat_zlen, take_pages_concat. by eexists.
  - intros [= <-]. cbn -[zlen]. rewrite raw_text. by eexists.
Qed.

Lemma all_digests hs : Forall (fun h => length h = 32%nat) hs -> forallb is_digest hs = true.
Proof. intros Hh. apply forallb_forall. intros h Hin. apply Nat.eqb_eq. rewrite List.Forall_forall in Hh. auto. Qed.

Lemma zlen_concat {A} (l : list (list A)) : zlen (concat l) = sum (map zlen l).
Proof. induction l as [|x l IH]; [done|]. cbn [concat map sum foldr]. rewrite zlen_app, IH. done. Qed.

Lemma zlen_cons' {A} (x : A) l : zlen (x :: l) = 1 + zlen l.
Proof. unfold zlen. cbn [length]. lia. Qed.

Lemma raw_size : BincodeSize (H := raw_bincode).
Proof.
  split. intros m Ht. destruct m as [| |g hs|gs|ps hs|pages|ps| |t]; cbn -[zlen sum] in *;
    try match type of Ht with _ /\ Forall _ ?hs => rewrite (all_digests hs (proj2 Ht)) end;
    (eexists; split; [reflexivity|]); rewrite ?zlen_cons', ?zlen_app, ?zlen_concat, ?map_map;
    change (zlen (@nil Z)) with 0; unfold size_bound; try lia.
  - pose proof (zlen_nonneg gs). lia.
  - pose proof (zlen_nonneg ps). lia.
  - assert (Hs : sum (map (fun p => zlen (raw_page p)) pages) <=
                 sum (map (fun p => 5 + (9 + zlen (data p))) pages)).
    { clear Ht. induction pages as [|p pages IH]; [done|]. unfold sum in *. cbn [map foldr].
      unfold raw_page at 1. rewrite !zlen_cons'. lia. }
    pose proof (zlen_nonneg (concat (map raw_page pages))) as Hn.
    rewrite zlen_concat, map_map in Hn. lia.
  - pose proof (zlen_nonneg ps). lia.
  - unfold zlen. rewrite length_map.
    assert (length (String.list_ascii_of_string t) = String.length t) as ->; [|lia].
    induction t as [|a t IH]; cbn; by rewrite ?IH.
Qed.
End Raw.

Lemma byte_stream_sync_witness :
  let w0 := wire_start (Origin.run_with_tuning Example.snap default_tuning)
              (Replica.run_with_tuning Example.stale default_tuning) Example.stale in
  sn (wire_step (H := Raw.raw_bincode) DUPLEX_SIZE) w0 /\
  forall w, rtc (wire_step (H := Raw.raw_bincode) DUPLEX_SIZE) w0 w ->
    nf (wire_step (H := Raw.raw_bincode) DUPLEX_SIZE) w ->
    w_origin w = Running (Ret (Ok tt)) /\ w_replica w = Running (Ret (Ok tt)) /\
    file (w_conn w) = [1; 2; 3; 4; 5; 6] /\ for_origin w = [] /\ for_replica w = [].
Proof.
  apply (byte_stream_sync (H := Raw.raw_bincode) (H0 := Raw.raw_laws) (H1 := Raw.raw_size)
           DUPLEX_SIZE Example.snap Example.stale default_tuning default_tuning 2);
    [unfold DUPLEX_SIZE; lia|exact snap_ok|cbn; lia|unfold MAX_PAGES; cbn; lia|exact stale_ok|cbn; lia
    |exact Example.stale_free].
Defined.

Lemma coarse_pass_limit_witness :
  exists e, encode (H := Raw.raw_bincode) (GroupHashes 0 (replica_digests 4096 4000000000 [])) = Ok e /\
    4 <= zlen e /\
    forall received, exists text,
      try_take_framed_message (H := Raw.raw_bincode) (take 4 e ++ received) = (Err (Codec text), take 4 e ++ received).
Proof.
  apply (coarse_pass_limit (H := Raw.raw_bincode) (H1 := Raw.raw_size) 4096 4000000000 []);
    unfold fits_u32, MAX_PAGES; lia.
Defined.
