(* ===== verification/Traffic.v ===== *)
(** * What a synchronisation costs on the wire (src/src/protocol/origin.rs, replica.rs, messages.rs)

    The program exists to send little.  The frames of a session carry one digest for every
    group of 64 pages of the replica, the digests of the pages of the groups that differ, and
    the pages that differ.  [session_traffic] bounds the bytes of all frames, in both
    directions, by the number of groups and of differing pages; it follows that a database
    that is already up to date costs 32 bytes per group and a constant. *)

From S2P Require Import Prelude RustStr Errors Hash Messages Proc Db Tuning Pages Instances.
From S2P Require Import Transport Origin Replica Session SyncLocal Faults Wire Limits.

(** The bytes of a frame, length prefix included. *)
Definition frame_bytes `{!Bincode} (m : Message) : Z :=
  match encode m with Ok e => zlen e | Err _ => 0 end.
Definition traffic `{!Bincode} (ms : list Message) : Z := sum (map frame_bytes ms).

(** Per differing page: the page itself, its number, twice, and its share of a group that had
    to be compared page by page. *)
Definition PER_PAGE : Z := 2455.
Definition PER_GROUP : Z := 32.
Definition PER_SESSION : Z := 98.

Lemma sum_app l1 l2 : sum (l1 ++ l2) = sum l1 + sum l2.
Proof. induction l1 as [|x l1 IH]; [done|]. unfold sum in *. cbn. lia. Qed.

Lemma zlen_concat_map {A B} (f : A -> list B) l : zlen (concat (map f l)) = sum (map (fun x => zlen (f x)) l).
Proof. induction l as [|x l IH]; [done|]. cbn [map concat]. rewrite zlen_app, IH. done. Qed.

Lemma sum_at_least {A} (f : A -> Z) l : (forall x, x ∈ l -> 1 <= f x) -> zlen l <= sum (map f l).
Proof.
  induction l as [|x l IH]; intros Hl; [done|]. assert (1 <= f x) by (apply Hl; set_solver).
  assert (zlen l <= sum (map f l)) by (apply IH; set_solver). unfold sum, zlen in *. cbn [map foldr length]. lia.
Qed.

Section Traffic.
Context `{!Bincode, !BincodeSize, !Digests, !DigestLaws}.

Lemma frame_bytes_le m : typed_message m -> frame_bytes m <= 4 + size_bound m.
Proof.
  intros Ht. destruct (bincode_size m Ht) as (b & He & _ & Hl). unfold frame_bytes, encode. rewrite He.
  rewrite zlen_app, zlen_to_le_bytes. lia.
Qed.

Lemma traffic_app l1 l2 : traffic (l1 ++ l2) = traffic l1 + traffic l2.
Proof. unfold traffic. by rewrite map_app, sum_app. Qed.

(** The frames of a dialogue, both directions. *)
Definition trace_traffic (T : list event) : Z := traffic (sent_by_origin T) + traffic (sent_by_replica T).

Lemma trace_traffic_app T1 T2 : trace_traffic (T1 ++ T2) = trace_traffic T1 + trace_traffic T2.
Proof. unfold trace_traffic, sent_by_origin, sent_by_replica. rewrite !omap_app, !traffic_app. lia. Qed.

Lemma trace_traffic_one e m : message_of e = Some m -> trace_traffic [e] = frame_bytes m.
Proof. destruct e; intros [= ->]; unfold trace_traffic, traffic, sum; cbn; lia. Qed.

Lemma trace_traffic_writes pages : trace_traffic (write_events pages) = 0.
Proof. induction pages as [|p pages IH]; [done|]. exact IH. Qed.

Lemma trace_traffic_concat {A} (f : A -> list event) l :
  trace_traffic (concat (map f l)) = sum (map (fun x => trace_traffic (f x)) l).
Proof. induction l as [|x l IH]; [done|]. cbn [map concat]. rewrite trace_traffic_app, IH. done. Qed.

Variables (ps pc rc : Z) (ob rb : bytes).
Context (Hps : 0 < ps <= 65536) (Hpos : 0 < pc <= MAX_PAGES) (Hle : 0 <= rc <= pc).
Let Hpc : 0 <= pc <= MAX_PAGES.
Proof. lia. Qed.
Context (Hob : zlen ob = pc * ps) (Hrb : zlen rb = rc * ps).

Definition differing : list Z := List.filter (differs ps rc ob rb) (range_incl 1 pc).

(** A flagged group holds a page that differs: equal pages have equal digests. *)
Lemma flagged_group_differs g : g ∈ need_fine ps pc rc ob rb ->
  exists p, p ∈ group_range pc g /\ differs ps rc ob rb p = true.
Proof.
  destruct (pc_fits pc rc Hpc Hle) as [Fp Fr]. unfold need_fine, need_fine_spec. rewrite zlen_replica_digests.
  pose proof (div_ceil_spec pc 64 ltac:(lia) ltac:(lia)). pose proof (div_ceil_spec rc 64 ltac:(lia) ltac:(lia)).
  unfold num_groups, GROUP_SIZE.
  intros [Hg|Hg%elem_of_range]%elem_of_app.
  - apply list_elem_of_In, filter_In in Hg as [Hg%list_elem_of_In%elem_of_range Hd].
    destruct (existsb (differs ps rc ob rb) (group_range pc g)) eqn:E.
    { apply existsb_exists in E as (p & Hp%list_elem_of_In & Hx). eauto. }
    assert (Hsame : forall p, p ∈ group_range pc g -> p <= rc /\ page_of ps ob p = page_of ps rb p).
    { intros p Hp%list_elem_of_In. destruct (differs ps rc ob rb p) eqn:Ep.
      - enough (existsb (differs ps rc ob rb) (group_range pc g) = true) by congruence.
        apply existsb_exists. eauto.
      - unfold differs in Ep. apply orb_false_iff in Ep as [Ep1 Ep2]. zbool.
        by apply bool_decide_eq_true in Ep2. }
    exfalso. unfold group_differs in Hd. apply orb_true_iff in Hd as [Hd|Hd]; zbool; [lia|].
    rewrite index_replica_digests in Hd by (unfold num_groups, GROUP_SIZE; lia).
    apply bool_decide_eq_false in Hd. apply Hd. unfold group_digest, group_page_hashes.
    assert (Hr : group_range rc g = group_range pc g).
    { unfold group_range. f_equal. destruct (decide (Z.min (64 * g + 64) pc <= rc)); [lia|].
      destruct (Hsame (Z.min (64 * g + 64) pc)) as [? _]; [apply elem_of_group_range; lia|lia]. }
    rewrite Hr. do 2 f_equal. apply map_ext_in. intros p Hp%list_elem_of_In. by destruct (Hsame p Hp) as [_ ->].
  - exists (64 * g + 1). split; [apply elem_of_group_range; lia|]. unfold differs. by zdec (rc <? 64 * g + 1) true.
Qed.

Lemma group_traffic g : group_ok g ->
  trace_traffic (group_trace ps pc rc ob rb g) <= 2431 + (ps + 19) * zlen (pages_sent ps pc rc ob rb g).
Proof.
  intros Hg. destruct (group_messages_typed ps pc rc ob rb Hps Hpc Hle Hob g Hg) as (T1 & T2 & T3).
  destruct (group_messages_size ps pc rc ob rb Hps Hob g Hg) as (S1 & S2 & S3).
  change (group_trace ps pc rc ob rb g) with
    (([ToOrigin (PageHashes (group_range rc g) (offered ps rc rb g))] ++
      [ToReplica (SendPages (pages_sent ps pc rc ob rb g))]) ++
     write_events (pages_sent ps pc rc ob rb g) ++
     [ToOrigin (PagesAck (map page_no (pages_sent ps pc rc ob rb g)))]).
  rewrite !trace_traffic_app, trace_traffic_writes.
  do 3 (erewrite trace_traffic_one by reflexivity).
  apply frame_bytes_le in T1, T2, T3. lia.
Qed.

Lemma dialogue_traffic :
  no_collision ps pc rc ob rb ->
  trace_traffic (session_trace ps pc rc ob rb) <=
    PER_SESSION + PER_GROUP * num_groups rc + (ps + PER_PAGE) * zlen differing.
Proof.
  intros NC. destruct (pc_fits pc rc Hpc Hle) as [Fp Fr].
  destruct (group_counts pc rc Hpc Hle) as [Gr Gp].
  set (gs := need_fine ps pc rc ob rb).
  assert (Hsent : sum (map (fun g => zlen (pages_sent ps pc rc ob rb g)) gs) = zlen differing).
  { rewrite <- zlen_concat_map. unfold gs. rewrite session_pages by (done || lia).
    unfold differing, zlen. by rewrite length_map. }
  assert (Hflag : zlen gs <= zlen differing).
  { rewrite <- Hsent. apply sum_at_least. intros g Hg. destruct (flagged_group_differs g Hg) as (p & Hp & Hd).
    rewrite pages_sent_differ by (done || lia || by destruct (need_fine_groups ps pc rc ob rb Fp Fr g Hg)).
    assert (Hin : p ∈ List.filter (differs ps rc ob rb) (group_range pc g))
      by (by apply list_elem_of_In, filter_In; split; [apply list_elem_of_In|]).
    unfold zlen. rewrite length_map. destruct (List.filter _ _); [set_solver|cbn; lia]. }
  assert (Hgroups : sum (map (fun g => trace_traffic (group_trace ps pc rc ob rb g)) gs) <=
                    2431 * zlen gs + (ps + 19) * zlen differing).
  { rewrite <- Hsent. assert (Hgs : forall g, g ∈ gs -> group_ok g) by (by apply need_fine_groups).
    clearbody gs. clear Hsent Hflag. induction gs as [|g gs' IH]; [unfold zlen, sum; cbn; lia|].
    pose proof (group_traffic g (Hgs g ltac:(set_solver))). specialize (IH ltac:(set_solver)).
    unfold sum, zlen in *. cbn [map foldr length]. lia. }
  change (session_trace ps pc rc ob rb) with
    ((([ToOrigin (Hello 2 ps rc)] ++ [ToReplica (HelloAck 2 ps pc)]) ++
      ([ToOrigin (GroupHashes 0 (replica_digests ps rc rb))] ++ [ToReplica (GroupsNeedFine gs)])) ++
     concat (map (group_trace ps pc rc ob rb) gs) ++ [ToReplica Done]).
  rewrite !trace_traffic_app, trace_traffic_concat. do 5 (erewrite trace_traffic_one by reflexivity).
  pose proof (digests_size _ (digests_32 ps rc rb)) as Hh. rewrite zlen_replica_digests in Hh.
  assert (frame_bytes (Hello 2 ps rc) <= 24) by (apply frame_bytes_le; unfold typed_message, is_u32, MAX_PAGES in *; lia).
  assert (frame_bytes (HelloAck 2 ps pc) <= 24) by (apply frame_bytes_le; unfold typed_message, is_u32, MAX_PAGES in *; lia).
  assert (frame_bytes (GroupHashes 0 (replica_digests ps rc rb)) <= 23 + 32 * num_groups rc).
  { rewrite <- Hh. etrans; [apply frame_bytes_le; split; [unfold is_u32; lia|apply digests_32]|]. unfold size_bound. lia. }
  assert (frame_bytes (GroupsNeedFine gs) <= 18 + 5 * zlen gs).
  { etrans; [apply frame_bytes_le|unfold size_bound; lia]. apply Forall_forall.
    intros g [Hg0 Hg1]%(need_fine_groups ps pc rc ob rb Fp Fr). unfold is_u32. lia. }
  assert (frame_bytes Done <= 9) by (by apply frame_bytes_le).
  unfold PER_SESSION, PER_GROUP, PER_PAGE. lia.
Qed.
End Traffic.

(** C10. What a synchronisation costs: the frames of a finished session, both directions together,
    are at most 98 bytes, 32 for every group of 64 pages of the replica, and for every page
    that differs its size and 2455. *)
Theorem session_traffic `{!Bincode, !BincodeSize, !Digests, !DigestLaws, !Rayon, !HashSetDebug} snap c ot rt rc final :
  snapshot_ok snap -> snap_page_size snap <= 65536 -> 0 < snap_page_count snap <= MAX_PAGES ->
  replica_ok (snap_page_size snap) rc c -> rc <= snap_page_count snap ->
  no_collision (snap_page_size snap) (snap_page_count snap) rc (snap_bytes snap) (file c) ->
  rtc step (start snap c ot rt) final -> nf step final ->
  traffic (origin_sent final) + traffic (replica_sent final) <=
    PER_SESSION + PER_GROUP * num_groups rc +
    (snap_page_size snap + PER_PAGE) *
      zlen (differing (snap_page_size snap) (snap_page_count snap) rc (snap_bytes snap) (file c)).
Proof.
  intros Hs Hps Hpc Hr Hle NC Hrun Hnf.
  destruct (session_run snap c ot rt rc Hs Hr Hle) as (c' & m' & _ & _ & Hend).
  rewrite (nf_unique _ _ _ Hend (ret_nf _ _ _ _ _ _ _) Hrun Hnf). cbn [origin_sent replica_sent].
  pose proof Hs as (Hps0 & Hpc0 & Hob). pose proof Hr as (_ & _ & _ & Hrb & Hrc & _). unfold fits_u32 in *.
  apply dialogue_traffic; done || lia.
Qed.

(** Two of three pages differ: at most 98 + 32 + 2 * 2457 bytes. *)
Lemma session_traffic_witness :
  exists final, rtc step (start Example.snap Example.stale default_tuning default_tuning) final /\ nf step final /\
    traffic (H := Raw.raw_bincode) (origin_sent final) + traffic (H := Raw.raw_bincode) (replica_sent final) <= 5044.
Proof.
  destruct (sync_end Example.snap Example.stale default_tuning default_tuning 2
              snap_ok stale_ok ltac:(vm_compute; congruence) Example.stale_free)
    as (n & final & Hn & Hnf & _).
  assert (Hrun := rtc_nsteps_2 _ _ _ Hn).
  exists final. split; [exact Hrun|]. split; [exact Hnf|].
  assert (Hmax : 0 < snap_page_count Example.snap <= MAX_PAGES) by (unfold MAX_PAGES; cbn; lia).
  pose proof (session_traffic (H := Raw.raw_bincode) (H0 := Raw.raw_size) Example.snap Example.stale
                default_tuning default_tuning 2 final snap_ok ltac:(vm_compute; congruence) Hmax stale_ok
                ltac:(vm_compute; congruence) Example.stale_free Hrun Hnf) as Ht.
  vm_compute (_ + _ * _ + _) in Ht. exact Ht.
Defined.
