(* ===== verification/ProtocolTests.v ===== *)
(** * The unit tests of the protocol on the model (src/src/protocol/, src/src/transport/mod.rs, src/src/hash.rs)

    Each definition is a unit test: the messages its mock transport delivers, and its
    assertions about the result and the messages sent.  [protocol_tests_hold] proves them all.

    A database of [n] pages is [n] pages of four bytes here; the digests are those of
    [Instances] and the codec is [Limits.Raw]. *)

From S2P Require Import Prelude RustStr Errors Hash Messages Proc Db Tuning Pages Instances.
From S2P Require Import Transport Origin Replica Session Limits.

Module ProtocolTests.
Definition all_hold (tests : list Prop) : Prop := Forall id tests.

(** ** [MockTransport]: once its queue is empty every [recv] fails *)
Definition EXHAUSTED : string := "mock transport exhausted input".
Definition mock (msgs : list Message) : list (SyncResult Message) :=
  map Ok msgs ++ [Err (Protocol EXHAUSTED)].

(** Digests that are cheap to evaluate. *)
Definition pad32 (b : bytes) : bytes := take 32 (b ++ replicate 32 0).
#[local] Instance test_digests : Digests := {| sha256 := pad32; blake3 b := pad32 (255 :: b) |}.

Definition test_page_size : Z := 4.
Definition page_bytes (p : Z) : bytes := [p; p / 7; 1; 2].
Definition database (pages : Z) : bytes := concat (map page_bytes (range_incl 1 pages)).
Definition snapshot (pages : Z) : Snapshot := mk_snap (database pages) test_page_size pages.

(** [run], with the default tuning, and [run_with_tuning]: the result and the messages sent. *)
Definition origin_with (t : SyncTuning) (pages : Z) (msgs : list Message)
  : option (SyncResult unit) * list Message :=
  let o := run_script (fun (w : unit) _ _ => (Ok tt, w))
             (Origin.run_with_tuning (snapshot pages) t) (mock msgs) tt in
  (out_result o, out_sent o).
Definition origin_run : Z -> list Message -> option (SyncResult unit) * list Message :=
  origin_with default_tuning.

Definition fails_with (part : string) (r : option (SyncResult unit)) : Prop :=
  match r with Some (Err (Protocol message)) => contains part message = true | _ => False end.
Definition sends_error (part : string) (m : option Message) : Prop :=
  match m with Some (Error message) => contains part message = true | _ => False end.

Definition hello (page_count : Z) : Message := Hello PROTOCOL_VERSION test_page_size page_count.
Definition fill (b : Z) : PageHash := replicate 32 b.
Definition hashes_of (pages : Z) (page_nos : list Z) : list PageHash :=
  map (fun p => hash_page (page_of test_page_size (database pages) p)) page_nos.
Definition group_hash (pages : Z) (page_nos : list Z) : PageHash :=
  default [] (origin_group_hash_for_pages (database pages) test_page_size page_nos Blake3V2).
Definition sent_page_nos (msgs : list Message) : list Z :=
  concat (map (fun m => match m with SendPages pages => map page_no pages | _ => [] end) msgs).

(** ** Origin *)

Definition fine_pass_sends_empty_batch_and_no_duplicate_suffix_pages : Prop :=
  let '(result, sent) :=
    origin_run 90
      [hello 70; GroupHashes 0 [fill 0; fill 1];
       PageHashes (range_incl 1 64) (hashes_of 90 (range_incl 1 64)); PagesAck [];
       PageHashes (range_incl 65 70) (hashes_of 90 (range_incl 65 70));
       PagesAck (range_incl 71 90)] in
  result = Some (Ok tt) /\ sent !! 2%nat = Some (SendPages []) /\ sent_page_nos sent = range_incl 71 90.

(** The messages of a replica of eight pages up to the fine pass. *)
Definition offer (msgs : list Message) : list Message := hello 8 :: GroupHashes 0 [fill 1] :: msgs.
Definition fine_pass_rejects_mismatched_pagehash_lengths : Prop :=
  fails_with "mismatched lengths" (fst (origin_run 8 (offer [PageHashes [1; 2] [fill 0]]))).
Definition fine_pass_rejects_page_zero : Prop :=
  fails_with "invalid page number 0" (fst (origin_run 8 (offer [PageHashes [0] [fill 0]]))).
Definition fine_pass_rejects_out_of_group_and_duplicate_pages : Prop :=
  fails_with "outside group" (fst (origin_run 8 (offer [PageHashes [65] [fill 0]]))) /\
  fails_with "duplicate page number" (fst (origin_run 8 (offer [PageHashes [1; 1] [fill 0; fill 0]]))) /\
  fails_with "strictly increasing" (fst (origin_run 8 (offer [PageHashes [2; 1] [fill 0; fill 0]]))) /\
  fails_with "contiguous prefix" (fst (origin_run 8 (offer [PageHashes [1; 3] [fill 0; fill 0]]))).

(** A replica without pages, up to the acknowledgement. *)
Definition empty_offer (msgs : list Message) : list Message :=
  hello 0 :: GroupHashes 0 [fill 1] :: PageHashes [] [] :: msgs.
Definition fine_pass_rejects_mismatched_pages_ack : Prop :=
  fails_with "PagesAck does not match sent pages" (fst (origin_run 8 (empty_offer [PagesAck []]))).
Definition fine_pass_rejects_duplicate_pages_ack : Prop :=
  fails_with "duplicate page numbers" (fst (origin_run 8 (empty_offer [PagesAck [1; 1]]))).
Definition coarse_pass_rejects_non_zero_first_group : Prop :=
  fails_with "first_group=0" (fst (origin_run 8 [hello 8; GroupHashes 1 [fill 1]])).
Definition fine_pass_rejects_early_done_before_all_groups : Prop :=
  fails_with "before all requested fine-pass groups" (fst (origin_run 8 (offer [Done]))).
Definition handshake_rejects_unexpected_first_message : Prop :=
  fails_with "expected Hello" (fst (origin_run 2 [Done])).

Definition coarse_pass_serial_path_flags_group_beyond_origin_page_count : Prop :=
  let '(result, sent) :=
    origin_run 8 [hello 8; GroupHashes 0 [group_hash 8 (range_incl 1 8); fill 3]; PageHashes [] [];
                  PagesAck []] in
  result = Some (Ok tt) /\ sent !! 1%nat = Some (GroupsNeedFine [1]).
Definition handshake_rejects_page_size_mismatch : Prop :=
  let '(result, sent) := origin_run 2 [Hello PROTOCOL_VERSION (test_page_size + 4096) 2] in
  result = Some (Err (PageSizeMismatch test_page_size (test_page_size + 4096))) /\
  sends_error "page size mismatch" (head sent).
Definition coarse_pass_rejects_unexpected_message : Prop :=
  fails_with "expected GroupHashes" (fst (origin_run 8 [hello 8; Done])).
Definition handshake_propagates_replica_error_message : Prop :=
  fst (origin_run 2 [Error "replica error during handshake"])
    = Some (Err (Protocol "replica error during handshake")).
Definition coarse_pass_propagates_replica_error_message : Prop :=
  fst (origin_run 8 [hello 8; Error "replica failed during coarse pass"])
    = Some (Err (Protocol "replica failed during coarse pass")).
Definition fine_pass_propagates_replica_error_message : Prop :=
  fst (origin_run 8 (offer [Error "replica gave up"])) = Some (Err (Protocol "replica gave up")).
Definition fine_pass_ack_propagates_replica_error_message : Prop :=
  fst (origin_run 8 (empty_offer [Error "replica failed writing page"]))
    = Some (Err (Protocol "replica failed writing page")).
Definition fine_pass_rejects_unexpected_message : Prop :=
  fails_with "expected PageHashes" (fst (origin_run 8 (offer [GroupsNeedFine [0]]))).
Definition fine_pass_rejects_unexpected_ack_message : Prop :=
  fails_with "expected PagesAck" (fst (origin_run 8 (empty_offer [Done]))).
Definition origin_transport_exhausted_returns_protocol_error : Prop :=
  fails_with EXHAUSTED (fst (origin_run 2 [hello 2])).
Definition coarse_pass_parallel_path_covers_diff_match_and_missing_groups : Prop :=
  let '(result, sent) :=
    origin_with (mk_tuning None 1 16) 70
      [hello 70; GroupHashes 0 [fill 9; group_hash 70 (range_incl 65 70); fill 7];
       PageHashes (range_incl 1 64) (hashes_of 70 (range_incl 1 64)); PagesAck [];
       PageHashes [] []; PagesAck []] in
  result = Some (Ok tt) /\ sent !! 1%nat = Some (GroupsNeedFine [0; 2]) /\ last sent = Some Done.
Definition coarse_pass_adds_origin_only_groups : Prop :=
  let '(result, sent) :=
    origin_run 70
      [hello 70; GroupHashes 0 [group_hash 70 (range_incl 1 64)];
       PageHashes (range_incl 65 70) (fill 171 :: hashes_of 70 (range_incl 66 70)); PagesAck [65]] in
  result = Some (Ok tt) /\
  existsb (fun m => match m with SendPages [p] => page_no p =? 65 | _ => false end) sent = true /\
  sent !! 1%nat = Some (GroupsNeedFine [1]).
Definition handshake_rejects_zero_protocol_version : Prop :=
  let '(result, sent) := origin_run 2 [Hello 0 test_page_size 2] in
  fails_with "unsupported protocol version 0" result /\
  sends_error "unsupported protocol version 0" (head sent).
(** ** Replica *)

(** A read-write connection to a database of [n] pages. *)
Definition open_rw (pages : Z) : Connection :=
  mk_conn test_page_size (Example.pages_row pages) (Some (database pages)) (database pages) true [].
Definition replica_with (t : SyncTuning) (pages : Z) (msgs : list Message)
  : option (SyncResult unit) * list Message :=
  let o := run_script write_page (Replica.run_with_tuning (open_rw pages) t) (mock msgs) (open_rw pages) in
  (out_result o, out_sent o).
Definition replica_run : Z -> list Message -> option (SyncResult unit) * list Message :=
  replica_with default_tuning.
Definition hello_ack (version page_count : Z) : Message := HelloAck version test_page_size page_count.

Definition handshake_rejects_zero_negotiated_version : Prop :=
  let '(result, sent) := replica_run 0 [hello_ack 0 0] in
  fails_with "invalid negotiated protocol version" result /\
  match head sent with Some (Hello version _ _) => version = PROTOCOL_VERSION | _ => False end.
Definition handshake_rejects_future_negotiated_version : Prop :=
  fails_with "invalid negotiated protocol version"
    (fst (replica_run 0 [hello_ack (PROTOCOL_VERSION + 1) 0])).
Definition handshake_propagates_origin_error_message : Prop :=
  fst (replica_run 0 [Error "origin exploded"]) = Some (Err (Protocol "origin exploded")).
Definition handshake_rejects_unexpected_ack_message : Prop :=
  let '(result, sent) := replica_run 0 [Done] in
  fails_with "expected HelloAck" result /\ sends_error "expected HelloAck" (last sent).
Definition coarse_pass_uses_parallel_hashing_when_tuned : Prop :=
  fst (replica_with (mk_tuning None 1 16) 2 [hello_ack PROTOCOL_VERSION 2; GroupsNeedFine []; Done])
    = Some (Ok tt).
Definition coarse_pass_rejects_unexpected_groups_need_fine_message : Prop :=
  fails_with "expected GroupsNeedFine" (fst (replica_run 0 [hello_ack PROTOCOL_VERSION 0; Done])).
Definition coarse_pass_rejects_missing_done_after_empty_need_fine : Prop :=
  fails_with "expected Done after empty GroupsNeedFine"
    (fst (replica_run 0 [hello_ack PROTOCOL_VERSION 0; GroupsNeedFine []; Error "no done for you"])).
Definition fine_pass_rejects_early_done_with_pending_groups : Prop :=
  let '(result, _) := replica_run 0 [hello_ack PROTOCOL_VERSION 0; GroupsNeedFine [0; 1]; Done] in
  fails_with "mid-fine-pass" result /\ fails_with "1 group(s) still pending" result.
Definition fine_pass_surfaces_peer_error_message : Prop :=
  fst (replica_run 0 [hello_ack PROTOCOL_VERSION 0; GroupsNeedFine [0]; Error "boom"])
    = Some (Err (Protocol "boom")).
Definition fine_pass_rejects_missing_final_done : Prop :=
  let '(result, sent) :=
    replica_run 2 [hello_ack PROTOCOL_VERSION 2; GroupsNeedFine [0]; SendPages [mk_page 1 [0; 0; 0; 0]];
                   Error "no final done"] in
  fails_with "expected Done after fine pass" result /\
  List.find (fun m => match m with PagesAck _ => true | _ => false end) sent = Some (PagesAck [1]).
Definition replica_transport_exhausted_returns_protocol_error : Prop :=
  fails_with EXHAUSTED (fst (replica_run 0 [])).

(** ** Messages and frames *)


Definition round_trip (msg : Message) : Prop :=
  match encode (H := Raw.raw_bincode) msg with
  | Ok encoded => decode (H := Raw.raw_bincode) encoded = Ok (msg, zlen encoded)
  | Err _ => False
  end.
Definition is_codec_error {A} (r : SyncResult A) : Prop :=
  match r with Err (Codec _) => True | _ => False end.
Definition encoded (m : Message) : bytes :=
  match encode (H := Raw.raw_bincode) m with Ok b => b | Err _ => [] end.
Definition take_frame : bytes -> SyncResult (option Message) * bytes :=
  try_take_framed_message (H := Raw.raw_bincode).

Definition hello_round_trip : Prop := round_trip (Hello PROTOCOL_VERSION 4096 100).
Definition hello_ack_round_trip : Prop := round_trip (HelloAck PROTOCOL_VERSION 4096 200).
Definition group_hashes_round_trip : Prop := round_trip (GroupHashes 0 [fill 0; fill 1]).
Definition send_pages_round_trip : Prop := round_trip (SendPages [mk_page 1 (replicate 4096 42)]).
Definition done_round_trip : Prop := round_trip Done.
Definition error_round_trip : Prop := round_trip (Error "something broke").
Definition decode_truncated_length_prefix_errors : Prop :=
  is_ok (decode (H := Raw.raw_bincode) [0; 0]) = false.
Definition decode_truncated_payload_errors : Prop :=
  is_ok (decode (H := Raw.raw_bincode) ([100; 0; 0; 0] ++ replicate 10 0)) = false.
Definition decode_oversized_payload_errors : Prop :=
  is_ok (decode (H := Raw.raw_bincode) (to_le_bytes (MAX_MESSAGE_SIZE + 1))) = false.
Definition decode_malformed_payload_errors : Prop :=
  is_codec_error (decode (H := Raw.raw_bincode) (to_le_bytes 16 ++ replicate 16 255)).

Definition framed_message_round_trip : Prop :=
  let msg := Hello PROTOCOL_VERSION 4096 1 in take_frame (encoded msg) = (Ok (Some msg), []).
Definition framed_message_waits_for_complete_payload : Prop :=
  let '(decoded, buf) := take_frame (removelast (encoded Done)) in
  decoded = Ok None /\ zlen buf = zlen (encoded Done) - 1.
Definition oversized_frame_is_rejected : Prop :=
  is_codec_error (fst (take_frame (to_le_bytes (MAX_MESSAGE_SIZE + 1)))).
Definition framed_message_handles_multiple_pipelined_frames : Prop :=
  let msg2 := Hello PROTOCOL_VERSION 4096 7 in
  let '(first, buf) := take_frame (encoded Done ++ encoded msg2) in
  first = Ok (Some Done) /\ zlen buf = zlen (encoded msg2) /\ take_frame buf = (Ok (Some msg2), []).

(** Both ends of [LocalTransport::pair]: what one sends is what the other reads. *)
Fixpoint recv_all (n : nat) (t : LocalTransport) : list (option (SyncResult Message)) :=
  match n with
  | O => []
  | S n => let '(r, t) := local_recv (H := Raw.raw_bincode) t in r :: recv_all n t
  end.
Definition through_pair (msgs : list Message) : list (option (SyncResult Message)) :=
  let sender :=
    fold_left (fun t m => snd (local_send (H := Raw.raw_bincode) (fun _ => None) m t)) msgs
      (mk_local [] [] []) in
  recv_all (length msgs) (mk_local [Got (local_out sender)] [] []).
Definition arrives (msgs : list Message) : Prop := through_pair msgs = map (fun m => Some (Ok m)) msgs.

Definition send_recv_single_message : Prop := arrives [Hello PROTOCOL_VERSION 4096 10].
Definition send_recv_multiple_messages : Prop := arrives [Hello 1 4096 1; Done; Error "oops"].

(** ** Hashing and tuning *)

Definition hash_group_empty_is_valid : Prop := length (hash_group []) = 32%nat.
Definition from_protocol_version_maps_known_versions : Prop :=
  from_protocol_version 1 = Some Sha256V1 /\ from_protocol_version 2 = Some Blake3V2.
Definition from_protocol_version_rejects_unknown_versions : Prop :=
  from_protocol_version 0 = None /\ from_protocol_version 3 = None /\
  from_protocol_version (2 ^ 32 - 1) = None.
Definition hash_page_for_sha256_v1_is_deterministic_and_differs_from_blake3 : Prop :=
  hash_page_for (replicate 128 7) Sha256V1 <> hash_page_for (replicate 128 7) Blake3V2.
Definition hash_group_for_sha256_v1_is_deterministic_and_differs_from_blake3 : Prop :=
  let h1 := hash_page_for (replicate 64 1) Sha256V1 in
  let h2 := hash_page_for (replicate 64 2) Sha256V1 in
  hash_group_for [h1; h2] Sha256V1 <> hash_group_for [h1; h2] Blake3V2.

Definition test_with_configured_pool_custom_threads : Prop :=
  with_configured_pool (mk_tuning (Some 2) 10 16) (fun _ => Some 42) = Some 42.
Definition test_with_configured_pool_fallback_when_none_or_zero : Prop :=
  with_configured_pool (mk_tuning None 10 16) (fun _ => Some 100) = Some 100 /\
  with_configured_pool (mk_tuning (Some 0) 10 16) (fun _ => Some 200) = Some 200.
Definition test_compute_with_parallelism_branches : Prop :=
  let tuning := mk_tuning (Some 2) 100 16 in
  let parallel_result (_ : unit) := Some [1; 2; 3] in
  let serial_result (_ : unit) := Some [9; 9; 9] in
  compute_with_parallelism tuning 150 parallel_result serial_result = Some [1; 2; 3] /\
  compute_with_parallelism tuning 50 parallel_result serial_result = Some [9; 9; 9].

Definition protocol_tests : list Prop :=
  [fine_pass_sends_empty_batch_and_no_duplicate_suffix_pages;
   fine_pass_rejects_mismatched_pagehash_lengths; fine_pass_rejects_page_zero;
   fine_pass_rejects_out_of_group_and_duplicate_pages; fine_pass_rejects_mismatched_pages_ack;
   fine_pass_rejects_duplicate_pages_ack; coarse_pass_rejects_non_zero_first_group;
   fine_pass_rejects_early_done_before_all_groups; handshake_rejects_unexpected_first_message;
   coarse_pass_serial_path_flags_group_beyond_origin_page_count;
   handshake_rejects_page_size_mismatch; coarse_pass_rejects_unexpected_message;
   handshake_propagates_replica_error_message; coarse_pass_propagates_replica_error_message;
   fine_pass_propagates_replica_error_message; fine_pass_ack_propagates_replica_error_message;
   fine_pass_rejects_unexpected_message; fine_pass_rejects_unexpected_ack_message;
   origin_transport_exhausted_returns_protocol_error;
   coarse_pass_parallel_path_covers_diff_match_and_missing_groups;
   coarse_pass_adds_origin_only_groups; handshake_rejects_zero_protocol_version;
   handshake_rejects_zero_negotiated_version; handshake_rejects_future_negotiated_version;
   handshake_propagates_origin_error_message; handshake_rejects_unexpected_ack_message;
   coarse_pass_uses_parallel_hashing_when_tuned;
   coarse_pass_rejects_unexpected_groups_need_fine_message;
   coarse_pass_rejects_missing_done_after_empty_need_fine;
   fine_pass_rejects_early_done_with_pending_groups; fine_pass_surfaces_peer_error_message;
   fine_pass_rejects_missing_final_done; replica_transport_exhausted_returns_protocol_error;
   hello_round_trip; hello_ack_round_trip; group_hashes_round_trip; send_pages_round_trip;
   done_round_trip; error_round_trip; decode_truncated_length_prefix_errors;
   decode_truncated_payload_errors; decode_oversized_payload_errors;
   decode_malformed_payload_errors; framed_message_round_trip;
   framed_message_waits_for_complete_payload; oversized_frame_is_rejected;
   framed_message_handles_multiple_pipelined_frames; send_recv_single_message;
   send_recv_multiple_messages; 
   hash_group_empty_is_valid;
   from_protocol_version_maps_known_versions; from_protocol_version_rejects_unknown_versions;
   hash_page_for_sha256_v1_is_deterministic_and_differs_from_blake3;
   hash_group_for_sha256_v1_is_deterministic_and_differs_from_blake3;
   test_with_configured_pool_custom_threads;
   test_with_configured_pool_fallback_when_none_or_zero; test_compute_with_parallelism_branches].
End ProtocolTests.

(** The unit tests of the handlers, of the codec, of the frames and of the hash scheduling hold
    of the model. *)
Theorem protocol_tests_hold : ProtocolTests.all_hold ProtocolTests.protocol_tests.
Proof.
  unfold ProtocolTests.all_hold, ProtocolTests.protocol_tests.
  repeat (apply Forall_cons; split; [vm_compute; split_and?; (done || congruence)|]). apply Forall_nil_2.
Qed.
