(* ===== verification/Ssh.v ===== *)
(** * Launching ssh (src/src/transport/ssh.rs)

    The command lines [SshTransport::connect] runs: an authentication check, then
    the remote [rsqlite-rsync --server-...] whose standard streams carry the frames
    of [Transport].  Starting a process and its exit status are parameters. *)

From S2P Require Import Prelude RustStr Errors Hash Messages Tuning Instances Transport.

Inductive SshAuthMode := NonInteractive | Interactive.

Record SshConnectOptions := mk_ssh_options {
  auth_mode : SshAuthMode;
  connect_timeout_secs : Z;
}.

Definition default_ssh_options : SshConnectOptions := mk_ssh_options NonInteractive 10.

Definition non_interactive (m : SshAuthMode) : bool :=
  match m with NonInteractive => true | Interactive => false end.

Definition is_ascii_alphanumeric (a : ascii) : bool :=
  let c := code a in
  ((48 <=? c) && (c <=? 57)) || ((65 <=? c) && (c <=? 90)) || ((97 <=? c) && (c <=? 122)).

Fixpoint sfilter (f : ascii -> bool) (s : string) : string :=
  match s with
  | EmptyString => ""
  | String a r => if f a then String a (sfilter f r) else sfilter f r
  end.

Fixpoint stake (n : nat) (s : string) : string :=
  match n, s with
  | S n, String a r => String a (stake n r)
  | _, _ => ""
  end.

(** [ts] is the clock in milliseconds, [pid] the process id. *)
Definition control_path_for (pid ts : Z) (user_host : string) : string :=
  let host_tag := stake 12 (sfilter is_ascii_alphanumeric user_host) in
  "/tmp/" +++ "rrs-" +++ show_Z pid +++ "-" +++ show_Z (ts mod 1000000) +++ "-" +++
  host_tag +++ ".ctl".

Definition opt_arg (name : string) (v : option string) : list string :=
  match v with Some v => ["-o"; name +++ "=" +++ v] | None => [] end.

Definition build_common_ssh_args (ssh_opts : list string) (connect_timeout_secs : Z)
    (batch_mode : bool) (control_path control_master control_persist : option string)
  : list string :=
  ssh_opts ++
  ["-o"; "ConnectTimeout=" +++ show_Z connect_timeout_secs] ++
  ["-o"; if batch_mode then "BatchMode=yes" else "BatchMode=no"] ++
  ["-o"; if batch_mode then "NumberOfPasswordPrompts=0" else "NumberOfPasswordPrompts=3"] ++
  opt_arg "ControlMaster" control_master ++
  opt_arg "ControlPersist" control_persist ++
  opt_arg "ControlPath" control_path.

(** The outcome of waiting for a command: it could not run, or it ended. *)
Record ExitStatus := mk_exit { success : bool; status_text : string }.

(** A launched child and the standard streams that were piped. *)
Record Child := mk_child { child_stdin : bool; child_stdout : option (list ReadEvent) }.

Section Connect.
Variable run_status : list string -> Result string ExitStatus.
Variable spawn : list string -> Result string Child.

Definition if_some {A B} (o : option A) (b : B) : option B :=
  match o with Some _ => Some b | None => None end.

Definition auth_args (user_host : string) (ssh_opts : list string) (options : SshConnectOptions)
    (control_path : option string) : list string :=
  build_common_ssh_args ssh_opts (connect_timeout_secs options)
    (non_interactive (auth_mode options)) control_path
    (if_some control_path "auto") (if_some control_path "60") ++ [user_host; "true"].

Definition authenticate (user_host : string) (ssh_opts : list string) (options : SshConnectOptions)
    (control_path : option string) : SyncResult unit :=
  let? status :=
    map_err (fun e => RemoteLaunch ("ssh authentication check failed: " +++ e))
      (run_status (auth_args user_host ssh_opts options control_path)) in
  if success status then Ok tt else
  let hint :=
    if non_interactive (auth_mode options) then
      "non-interactive SSH authentication failed; configure key-based auth or use --ssh-auth interactive"
    else "interactive SSH authentication failed" in
  Err (RemoteLaunch (hint +++ " (ssh exit status: " +++ status_text status +++ ")")).

Definition launch_args (user_host remote_path remote_exe server_flag : string)
    (ssh_opts : list string) (options : SshConnectOptions) (control_path : option string)
  : list string :=
  build_common_ssh_args ssh_opts (connect_timeout_secs options) true control_path
    (if_some control_path "no") None ++ [user_host; remote_exe; server_flag; remote_path].

Definition connect (pid ts : Z) (files : list string)
    (user_host remote_path remote_exe server_flag : string) (ssh_opts : list string)
    (options : SshConnectOptions) : SyncResult SshTransport :=
  let control_path :=
    match auth_mode options with
    | Interactive => Some (control_path_for pid ts user_host)
    | NonInteractive => None
    end in
  let? _ := authenticate user_host ssh_opts options control_path in
  let? child :=
    map_err (fun e => RemoteLaunch ("ssh spawn failed: " +++ e))
      (spawn (launch_args user_host remote_path remote_exe server_flag ssh_opts options control_path)) in
  if negb (child_stdin child) then Err (RemoteLaunch "no stdin") else
  let? stdout := ok_or (child_stdout child) (RemoteLaunch "no stdout") in
  Ok (mk_ssh (Some []) (Some stdout) [] control_path true files).
End Connect.

(** ** Properties *)

Lemma stake_length n s : (String.length (stake n s) <= n)%nat.
Proof. revert s. induction n as [|n IH]; intros [|a r]; cbn; [lia..|]. specialize (IH r). lia. Qed.

Lemma sapp_length a b : String.length (a +++ b) = (String.length a + String.length b)%nat.
Proof. induction a as [|c a IH]; cbn; [done|]. by rewrite IH. Qed.

Lemma show_go_length k : forall fuel n acc,
  0 <= n < 10 ^ Z.of_nat (S k) ->
  (String.length (show_go fuel n acc) <= S k + String.length acc)%nat.
Proof.
  induction k as [|k IH]; intros [|fuel] n acc Hn; cbn [show_go]; try lia.
  - zdec (n <? 10) true. cbn. lia.
  - destruct (n <? 10) eqn:E; zbool; [cbn; lia|].
    specialize (IH fuel (n / 10) (String (digit_char (n mod 10)) acc)).
    rewrite Nat2Z.inj_succ, Z.pow_succ_r in Hn by lia.
    assert (0 <= n / 10 < 10 ^ Z.of_nat (S k))
      by (split; [apply Z.div_pos; lia|apply Z.div_lt_upper_bound; lia]).
    cbn in *. lia.
Qed.

Lemma show_Z_length k n : 0 <= n < 10 ^ Z.of_nat (S k) -> (String.length (show_Z n) <= S k)%nat.
Proof. intros Hn. pose proof (show_go_length k (S (Z.to_nat (Z.log2 n))) n "" Hn). cbn in *. unfold show_Z. lia. Qed.

(** The control socket fits in a Unix domain socket address: its path has at most 43
    bytes for every process id, time and host (macOS allows 104). *)
Theorem control_path_short pid ts user_host :
  is_u32 pid -> (String.length (control_path_for pid ts user_host) <= 43)%nat.
Proof.
  unfold is_u32. intros Hp. unfold control_path_for. rewrite !sapp_length. cbn [String.length].
  pose proof (show_Z_length 9 pid ltac:(cbn; lia)).
  pose proof (show_Z_length 5 (ts mod 1000000) ltac:(apply Z.mod_pos_bound; lia)).
  pose proof (stake_length 12 (sfilter is_ascii_alphanumeric user_host)). lia.
Qed.

(** Nothing is launched unless the authentication check succeeded. *)
Theorem no_launch_without_auth run_status pid ts files uh path exe flag opts options :
  (forall args st, run_status args = Ok st -> success st = false) ->
  exists e, forall spawn,
    connect run_status spawn pid ts files uh path exe flag opts options = Err (RemoteLaunch e).
Proof.
  intros Hst. unfold connect, authenticate.
  destruct (run_status _) as [st|e] eqn:E; cbn; [|by eexists].
  rewrite (Hst _ _ E). by eexists.
Qed.

(** A prompt could block a non-interactive run: both of its commands forbid it. *)
Theorem non_interactive_never_prompts uh path exe flag opts secs :
  let options := mk_ssh_options NonInteractive secs in
  "BatchMode=yes" ∈ auth_args uh opts options None /\
  "NumberOfPasswordPrompts=0" ∈ auth_args uh opts options None /\
  "BatchMode=yes" ∈ launch_args uh path exe flag opts options None.
Proof.
  cbn. unfold auth_args, launch_args, build_common_ssh_args. cbn.
  repeat split; apply elem_of_app; left; apply elem_of_app; right; set_solver.
Qed.

Lemma control_path_short_witness :
  (String.length (control_path_for 4294967295 1712345678999 "deploy@db-replica.example.org") <= 43)%nat.
Proof. apply control_path_short. unfold is_u32. lia. Defined.

Example control_path_example :
  control_path_for 42 1712345678999 "deploy@db-1.example.org" = "/tmp/rrs-42-678999-deploydb1exa.ctl".
Proof. vm_compute. done. Qed.
