(* ===== verification/Grpc.v ===== *)
(** * gRPC transport (src/src/transport/grpc.rs)

    Protocol messages as the payloads of [SyncMessage]: digests are packed into one
    byte string and cut again on receipt.  The stub types mirror the generated
    protobuf structs the conversions construct. *)

From S2P Require Import Prelude RustStr Errors Hash Messages Tuning Instances.

Inductive Payload :=
| PInit
| PHello (version page_size page_count : Z)
| PHelloAck (version page_size page_count : Z)
| PGroupHashes (first_group : Z) (hashes : bytes)
| PGroupsNeedFine (group_indices : list Z)
| PPageHashes (page_nos : list Z) (hashes : bytes)
| PSendPages (pages : list (Z * bytes))
| PPagesAck (page_nos : list Z)
| PDone
| PError (message : string).

(** [SyncMessage { payload: Option<Payload> }]. *)
Abbreviation SyncMessage := (option Payload).

(** [impl From<&Message> for SyncMessage]. *)
Definition sync_message_from (msg : Message) : SyncMessage :=
  Some match msg with
  | Hello v s c => PHello v s c
  | HelloAck v s c => PHelloAck v s c
  | GroupHashes first_group hashes => PGroupHashes first_group (concat hashes)
  | GroupsNeedFine group_indices => PGroupsNeedFine group_indices
  | PageHashes page_nos hashes => PPageHashes page_nos (concat hashes)
  | SendPages pages => PSendPages (map (fun p => (page_no p, data p)) pages)
  | PagesAck page_nos => PPagesAck page_nos
  | Done => PDone
  | Error message => PError message
  end.

(** [as_chunks::<32>().0]: the whole chunks of 32 bytes. *)
Definition as_chunks (b : bytes) : list PageHash :=
  map (fun i => take 32 (drop (32 * i) b)) (seq 0 (length b / 32)).

(** [impl TryFrom<SyncMessage> for Message]. *)
Definition message_try_from (proto_msg : SyncMessage) : SyncResult Message :=
  let? payload := ok_or proto_msg (Protocol "received SyncMessage with empty payload") in
  match payload with
  | PInit => Err (Protocol "unexpected SyncInit message during active sync stream")
  | PHello v s c => Ok (Hello v s c)
  | PHelloAck v s c => Ok (HelloAck v s c)
  | PGroupHashes first_group hashes =>
      if negb (zlen hashes mod 32 =? 0) then
        Err (Codec ("invalid group hashes length: " +++ show_Z (zlen hashes) +++
                    " is not a multiple of 32"))
      else Ok (GroupHashes first_group (as_chunks hashes))
  | PGroupsNeedFine group_indices => Ok (GroupsNeedFine group_indices)
  | PPageHashes page_nos hashes =>
      if negb (zlen hashes mod 32 =? 0) then
        Err (Codec ("invalid page hashes length: " +++ show_Z (zlen hashes) +++
                    " is not a multiple of 32"))
      else
        let count := zlen hashes / 32 in
        if negb (count =? zlen page_nos) then
          Err (Codec ("page count mismatch: " +++ show_Z count +++ " hashes for " +++
                      show_Z (zlen page_nos) +++ " page numbers"))
        else Ok (PageHashes page_nos (as_chunks hashes))
  | PSendPages pages => Ok (SendPages (map (fun '(n, d) => mk_page n d) pages))
  | PPagesAck page_nos => Ok (PagesAck page_nos)
  | PDone => Ok Done
  | PError message => Ok (Error message)
  end.

(** The outbound channel (closed when the receiver is gone) and the inbound stream
    of results, [Err] carrying the status text. *)
Record GrpcTransport := mk_grpc {
  tx : option (list SyncMessage);
  rx : list (Result string (option SyncMessage));
}.

Definition grpc_send (closed_text : string) (msg : Message) (t : GrpcTransport)
  : SyncResult unit * GrpcTransport :=
  match tx t with
  | Some sent => (Ok tt, mk_grpc (Some (sent ++ [sync_message_from msg])) (rx t))
  | None => (Err (Network ("failed to send gRPC message: " +++ closed_text)), t)
  end.

(** [rx.message().await]: [None] while nothing has arrived. *)
Definition grpc_recv (t : GrpcTransport) : option (SyncResult Message) * GrpcTransport :=
  match rx t with
  | [] => (None, t)
  | item :: rest =>
      (Some (match item with
             | Err status => Err (Network ("gRPC streaming error: " +++ status))
             | Ok (Some proto_msg) => message_try_from proto_msg
             | Ok None => Err (Protocol "gRPC stream closed unexpectedly by remote peer")
             end), mk_grpc (tx t) rest)
  end.

Definition grpc_close (t : GrpcTransport) : SyncResult unit * GrpcTransport := (Ok tt, t).

(** ** Packing digests *)

Lemma drop_concat32 (hs : list bytes) : Forall (fun h => length h = 32%nat) hs ->
  forall i, drop (32 * i) (concat hs) = concat (drop i hs).
Proof.
  induction 1 as [|h hs Hh _ IH]; intros i; cbn [concat]; [by rewrite !drop_nil|].
  destruct i as [|i]; [done|]. cbn [drop].
  replace (32 * S i)%nat with (length h + 32 * i)%nat by lia.
  rewrite <- drop_drop, drop_app_length. apply IH.
Qed.

Lemma length_concat32 (hs : list bytes) : Forall (fun h => length h = 32%nat) hs ->
  length (concat hs) = (32 * length hs)%nat.
Proof. induction 1; cbn; [done|]. rewrite length_app. lia. Qed.

Lemma as_chunks_concat (hs : list bytes) : Forall (fun h => length h = 32%nat) hs ->
  as_chunks (concat hs) = hs.
Proof.
  intros Hhs. unfold as_chunks. rewrite length_concat32 by done.
  replace (32 * length hs / 32)%nat with (length hs) by (rewrite Nat.mul_comm, Nat.div_mul; lia).
  apply list_eq. intros i. rewrite list_lookup_fmap.
  destruct (decide (i < length hs)%nat) as [Hi|Hi].
  - rewrite lookup_seq_lt by done. cbn -[Nat.mul].
    rewrite drop_concat32 by done.
    destruct (lookup_lt_is_Some_2 hs i Hi) as [h Hh].
    rewrite Hh, (drop_S hs h i Hh). cbn [concat].
    apply Forall_lookup_1 with (i := i) (x := h) in Hhs; [|done].
    rewrite <- Hhs. by rewrite take_app_length.
  - rewrite lookup_seq_ge by lia. by rewrite lookup_ge_None_2 by lia.
Qed.

(** Messages the handlers build: 32-byte digests, one per page number. *)
Definition well_formed (m : Message) : Prop :=
  match m with
  | GroupHashes _ hashes => Forall (fun h => length h = 32%nat) hashes
  | PageHashes page_nos hashes =>
      Forall (fun h => length h = 32%nat) hashes /\ length page_nos = length hashes
  | _ => True
  end.

(** A message converted for gRPC and back is the same message. *)
Theorem grpc_round_trip m : well_formed m -> message_try_from (sync_message_from m) = Ok m.
Proof.
  destruct m as [| |g hs| |ps hs|pages| | |];
    cbn [message_try_from sync_message_from ok_or well_formed]; try done.
  - intros Hhs. unfold zlen. rewrite length_concat32, as_chunks_concat by done.
    replace (Z.of_nat (32 * length hs)) with (Z.of_nat (length hs) * 32) by lia.
    by rewrite Z.mod_mul by lia.
  - intros [Hhs Hl]. unfold zlen. rewrite length_concat32, as_chunks_concat by done.
    replace (Z.of_nat (32 * length hs)) with (Z.of_nat (length hs) * 32) by lia.
    rewrite Z.mod_mul, Z.div_mul, Hl by lia. cbn. by rewrite Z.eqb_refl.
  - intros _. do 2 f_equal. rewrite map_map. rewrite <- (map_id pages) at 2.
    apply map_ext. by intros [].
Qed.

Lemma grpc_round_trip_witness :
  message_try_from (sync_message_from (PageHashes [1] [toy_digest [1; 2]])) =
  Ok (PageHashes [1] [toy_digest [1; 2]]).
Proof.
  apply (grpc_round_trip (PageHashes [1] [toy_digest [1; 2]])).
  split; [constructor; [reflexivity|constructor]|reflexivity].
Defined.

(** C39. What the gRPC conversion accepts is well formed: 32-byte digests, as many as page
    numbers, whatever the peer put on the wire. *)
Theorem grpc_accepts_well_formed p m : message_try_from p = Ok m -> well_formed m.
Proof.
  assert (Hch : forall b, zlen b mod 32 = 0 ->
    Forall (fun h => length h = 32%nat) (as_chunks b) /\ zlen (as_chunks b) = zlen b / 32).
  { intros b Hb. unfold as_chunks, zlen in *. split.
    - apply Forall_map, Forall_forall. intros i Hi%elem_of_seq.
      rewrite length_take, length_drop.
      pose proof (Nat.Div0.mul_div_le (length b) 32). lia.
    - rewrite length_map, length_seq, Nat2Z.inj_div. done. }
  destruct p as [[]|]; cbn -[as_chunks Z.modulo Z.div]; try (intros [= <-]; done); try done.
  - case_test; [done|]. intros [= <-]. by apply Hch.
  - case_test; [done|]. case_test; [done|]. intros [= <-].
    destruct (Hch hashes) as [H1 H2]; [done|]. split; [done|]. unfold zlen in *. lia.
Qed.

Lemma grpc_accepts_well_formed_witness :
  well_formed (GroupHashes 0 [toy_digest []]).
Proof.
  apply (grpc_accepts_well_formed (Some (PGroupHashes 0 (toy_digest [])))). reflexivity.
Defined.
