(* ===== verification/KvText.v ===== *)
(** * Key-value text records (src/src/kv_text.rs)

    The [key=value] format of the lease file and the freshness ledger.  The ordered
    map of the source is a finite map: nothing depends on its order. *)

From S2P Require Import Prelude RustStr Errors.

Abbreviation kv_map := (gmap string string).

(** The loop over the lines. *)
Fixpoint parse_kv_go (subject : string) (allowed_keys : list string) (ls : list string)
    (map : kv_map) : Result string kv_map :=
  match ls with
  | [] => Ok map
  | raw_line :: rest =>
      let line := trim raw_line in
      if is_empty line then parse_kv_go subject allowed_keys rest map else
      match split_once "=" line with
      | None => Err ("invalid " +++ subject +++ " line (expected key=value): " +++ line)
      | Some (key, value) =>
          let key := trim key in
          if negb (bool_decide (key ∈ allowed_keys)) then
            Err ("unknown " +++ subject +++ " key: " +++ key)
          else parse_kv_go subject allowed_keys rest (<[key := trim value]> map)
      end
  end.

Definition parse_kv_lines (subject input : string) (allowed_keys : list string)
  : Result string kv_map :=
  parse_kv_go subject allowed_keys (lines input) ∅.

Definition require_u64 (map : kv_map) (key : string) : Result string Z :=
  let? raw := ok_or (map !! key) ("missing " +++ key) in
  ok_or (parse_u64 raw) ("invalid " +++ key +++ ": " +++ raw).

Definition require_non_empty (map : kv_map) (key : string) : Result string string :=
  let? raw := ok_or (map !! key) ("missing " +++ key) in
  if is_empty raw then Err (key +++ " must not be empty") else Ok raw.

(** [read_to_string] is the argument. *)
Definition read_optional_kv_text (read : Result IoError string) : Result IoError (option string) :=
  match read with
  | Err error =>
      if bool_decide (io_kind error = NotFound) then Ok None else Err error
  | Ok text =>
      let trimmed := trim text in
      if is_empty trimmed || eq_ignore_ascii_case trimmed "none" then Ok None
      else Ok (Some trimmed)
  end.

(** ** Reading back a printed record *)

Definition no_char (c : ascii) (s : string) : bool := all_chars (fun a => negb (Ascii.eqb a c)) s.

(** A value that survives the line format: not empty, no line break, and no white
    space at either end. *)
Definition value_ok (v : string) : Prop :=
  v <> "" /\ trim_start v = v /\ trim_end v = v /\ no_char NL v = true /\ no_char CR v = true.

(** A key: ASCII without white space, [=] or a line break. *)
Definition key_ok (k : string) : bool :=
  negb (is_empty k) &&
  all_chars (fun a => ascii_solid a && negb (Ascii.eqb a "=")) k.

Definition kv_line (k v : string) : string := k +++ String "=" v.

Lemma ascii_solid_not_break a : ascii_solid a = true ->
  negb (Ascii.eqb a NL) = true /\ negb (Ascii.eqb a CR) = true.
Proof.
  intros H. split; apply negb_true_iff, Ascii.eqb_neq; intros ->; vm_compute in H; congruence.
Qed.

Lemma key_chars k : key_ok k = true ->
  all_chars ascii_solid k = true /\ no_char "=" k = true /\ no_char NL k = true /\ no_char CR k = true.
Proof.
  unfold key_ok, no_char. intros [_ H]%andb_true_iff.
  repeat split; revert H; apply all_chars_impl; intros a [Ha He]%andb_true_iff; try done;
    by apply ascii_solid_not_break in Ha as [? ?].
Qed.

Lemma srev_nonempty s : s <> "" -> srev s <> "".
Proof. intros H E. apply (f_equal srev) in E. rewrite srev_srev in E. done. Qed.

Lemma key_trim k : key_ok k = true -> trim k = k.
Proof.
  intros Hk. destruct (key_chars k Hk) as [Hs _]. unfold trim.
  destruct k as [|a k]; [done|].
  rewrite trim_start_solid by (cbn in Hs; by apply andb_true_iff in Hs as [? _]).
  rewrite <- (srev_srev (String a k)) in Hs |- *.
  destruct (srev (String a k)) as [|b r] eqn:E; [by apply srev_nonempty in E|].
  cbn [srev] in *. rewrite all_chars_app in Hs. apply andb_true_iff in Hs as [_ Hb].
  cbn in Hb. rewrite andb_true_r in Hb. by apply trim_end_solid.
Qed.

Lemma kv_line_trim k v : key_ok k = true -> value_ok v -> trim (kv_line k v) = kv_line k v.
Proof.
  intros Hk (Hv & _ & He & _). unfold trim, kv_line.
  destruct (key_chars k Hk) as [Hs _]. destruct k as [|a k]; [done|].
  cbn [String.append]. cbn in Hs. apply andb_true_iff in Hs as [Ha _].
  rewrite trim_start_solid by done.
  change (String a (k +++ String "=" v)) with (String a k +++ String "=" v).
  by apply trim_end_sep.
Qed.

Lemma parse_kv_line subject allowed k v ls m :
  key_ok k = true -> value_ok v -> k ∈ allowed ->
  parse_kv_go subject allowed (kv_line k v :: ls) m =
  parse_kv_go subject allowed ls (<[k := v]> m).
Proof.
  intros Hk Hv Hin. cbn [parse_kv_go]. rewrite kv_line_trim by done.
  assert (is_empty (kv_line k v) = false) as -> by (by destruct k).
  destruct (key_chars k Hk) as (_ & He & _). unfold kv_line. rewrite split_once_app by done.
  rewrite key_trim by done. rewrite bool_decide_eq_true_2 by done. cbn [negb].
  destruct Hv as (_ & Hs & Ht & _). unfold trim. by rewrite Hs, Ht.
Qed.

Lemma lines_kv k v rest :
  key_ok k = true -> value_ok v ->
  lines (kv_line k v +++ String NL rest) = kv_line k v :: lines rest.
Proof.
  intros Hk (Hv & _ & _ & Hn & Hc). destruct (key_chars k Hk) as (_ & _ & Hkn & Hkc).
  unfold lines. unfold no_char in *. rewrite lines_go_line.
  - cbn [String.append]. f_equal. apply strip_cr_id. unfold kv_line.
    rewrite all_chars_app, Hkc. cbn. by rewrite Hc.
  - unfold kv_line. rewrite all_chars_app, Hkn. cbn. by rewrite Hn.
Qed.

Lemma u64_value_ok n : 0 <= n -> value_ok (show_Z n).
Proof.
  intros Hn. pose proof (show_Z_digits n Hn) as Hd. pose proof (show_Z_nonempty n) as He.
  split; [done|]. split; [|split; [by apply trim_end_digits|]].
  - destruct (show_Z n) as [|a r] eqn:E; [done|]. apply trim_start_solid, digit_solid.
    cbn in Hd. by apply andb_true_iff in Hd as [? _].
  - unfold no_char. split; revert Hd; apply all_chars_impl; intros a Ha; by apply digit_neq.
Qed.

Lemma require_u64_insert m k n : is_u64 n -> m !! k = Some (show_Z n) -> require_u64 m k = Ok n.
Proof.
  intros Hn Hm. unfold require_u64. rewrite Hm. cbn [ok_or]. unfold parse_u64.
  rewrite parse_show_Z; [done|]. unfold_ints. lia.
Qed.

Lemma require_non_empty_Some m k v : v <> "" -> m !! k = Some v -> require_non_empty m k = Ok v.
Proof. intros Hv Hm. unfold require_non_empty. rewrite Hm. cbn. by destruct v. Qed.

(** ** Claims *)

(** A second [=] on a line is accepted: it belongs to the value.  (The doc comment of the
    function requires exactly one.) *)
Theorem kv_line_may_hold_several_separators subject allowed k v1 v2 :
  key_ok k = true -> value_ok (v1 +++ String "=" v2) -> k ∈ allowed ->
  parse_kv_lines subject (kv_line k (v1 +++ String "=" v2) +++ nl) allowed =
  Ok {[ k := v1 +++ String "=" v2 ]}.
Proof.
  intros Hk Hv Hin. unfold parse_kv_lines, nl. rewrite lines_kv by done.
  by rewrite parse_kv_line.
Qed.

Lemma kv_line_may_hold_several_separators_witness :
  parse_kv_lines "lease" (kv_line "generation" ("a" +++ String "=" "b") +++ nl) ["generation"] =
  Ok {[ "generation" := "a=b" ]}.
Proof.
  apply (kv_line_may_hold_several_separators "lease" ["generation"] "generation" "a" "b");
    [reflexivity|repeat split; vm_compute; congruence|by apply list_elem_of_singleton].
Defined.
