(* ===== verification/Ha.v ===== *)
(** * High-availability policy (src/src/ha.rs)

    Lease and freshness records, the write fence, the promotion policy, the runtime
    state machine, controller plans and their execution.  The traits of the source
    are type classes: [LeaseReader] and [HaActionExecutor]; a [TracingExecutor]
    decorates any executor.

    The main theorem is the invariant of [reconcile]: a node is a writer only under
    a lease that is unexpired, held by the node and of the node's generation. *)

From S2P Require Import Prelude RustStr Errors KvText.

(** ** Records *)

Record LeaseRecord := mk_lease {
  holder_node_id : string;
  generation : Z;
  renewed_at_secs : Z;
  ttl_secs : Z;
}.

Definition is_expired (l : LeaseRecord) (now_secs : Z) : bool :=
  sat_add64 (renewed_at_secs l) (ttl_secs l) <? now_secs.

Record FreshnessLedger := mk_freshness {
  source_node_id : string;
  source_generation : Z;
  synced_at_secs : Z;
}.

Record PromotionConfig := mk_promotion_config {
  max_freshness_age_secs : Z;
  max_future_skew_secs : Z;
}.
Definition default_promotion_config : PromotionConfig := mk_promotion_config 10 2.

Record PromotionRequest := mk_promotion_request {
  candidate_node_id : string;
  target_generation : Z;
  min_source_generation : Z;
}.

Inductive WriteFenceViolation :=
| FenceLeaseExpired
| FenceNotLeaseHolder (holder : string)
| GenerationMismatch (local lease : Z).

Inductive PromotionViolation :=
| LeaseExpired
| NotLeaseHolder (holder : string)
| TargetGenerationMismatch (target lease : Z)
| MissingFreshness
| FreshnessFromFuture (synced_at now max_future_skew : Z)
| StaleFreshness (age max_freshness_age : Z)
| LineageTooOld (observed min_required : Z).

Inductive NodeRole := Writer | Replica.

Inductive DemotionReason :=
| LeaseMissing
| FenceViolation (v : WriteFenceViolation).

Inductive ReconcileDecision :=
| KeepReplica
| PromoteToWriter (generation : Z)
| DecideKeepWriter
| DemoteToReplica (reason : DemotionReason).

Inductive LeaseObservation :=
| Missing
| Acquired (l : LeaseRecord)
| Renewed (l : LeaseRecord)
| Transferred (previous current : LeaseRecord)
| Replaced (l : LeaseRecord)
| Unchanged (l : LeaseRecord).

Record ReconcileOutcome := mk_outcome_ha {
  decision : ReconcileDecision;
  lease_observation : LeaseObservation;
  promotion_violation : option PromotionViolation;
}.

Inductive HaAction :=
| EnsureReplica
| EnableWriter (generation : Z)
| DisableWriter (reason : DemotionReason)
| KeepWriter
| RecordPromotionDenied (violation : PromotionViolation).

Record ControllerPlan := mk_plan {
  outcome : ReconcileOutcome;
  actions : list HaAction;
}.

#[export] Instance LeaseRecord_eq_dec : EqDecision LeaseRecord.
Proof. solve_decision. Defined.
#[export] Instance NodeRole_eq_dec : EqDecision NodeRole.
Proof. solve_decision. Defined.
#[export] Instance WriteFenceViolation_eq_dec : EqDecision WriteFenceViolation.
Proof. solve_decision. Defined.
#[export] Instance PromotionViolation_eq_dec : EqDecision PromotionViolation.
Proof. solve_decision. Defined.
#[export] Instance DemotionReason_eq_dec : EqDecision DemotionReason.
Proof. solve_decision. Defined.
#[export] Instance HaAction_eq_dec : EqDecision HaAction.
Proof. solve_decision. Defined.

(** ** The lease and freshness files *)

Definition serialize_lease_record (l : LeaseRecord) : string :=
  "holder_node_id=" +++ holder_node_id l +++ nl +++
  "generation=" +++ show_Z (generation l) +++ nl +++
  "renewed_at_secs=" +++ show_Z (renewed_at_secs l) +++ nl +++
  "ttl_secs=" +++ show_Z (ttl_secs l) +++ nl.

Definition LEASE_KEYS : list string :=
  ["holder_node_id"; "generation"; "renewed_at_secs"; "ttl_secs"].

Definition parse_lease_record (input : string) : Result string LeaseRecord :=
  let? map := parse_kv_lines "lease" input LEASE_KEYS in
  let? holder := require_non_empty map "holder_node_id" in
  let? gen := require_u64 map "generation" in
  let? renewed := require_u64 map "renewed_at_secs" in
  let? ttl := require_u64 map "ttl_secs" in
  Ok (mk_lease holder gen renewed ttl).

Definition parse_freshness_ledger (input : string) : Result string FreshnessLedger :=
  let? map := parse_kv_lines "freshness" input
                ["source_node_id"; "source_generation"; "synced_at_secs"] in
  let? source := require_non_empty map "source_node_id" in
  let? gen := require_u64 map "source_generation" in
  let? synced := require_u64 map "synced_at_secs" in
  Ok (mk_freshness source gen synced).

(** ** Lease readers *)

Class LeaseReader (R E : Type) := { read_lease : R -> Result E (option LeaseRecord) }.

(** [FileLeaseReader]: the content of the lease file, as [read_to_string] gives it. *)
Record FileLeaseReader := mk_file_lease_reader { lease_file : Result IoError string }.

#[export] Instance file_lease_reader : LeaseReader FileLeaseReader string := {|
  read_lease r :=
    match read_optional_kv_text (lease_file r) with
    | Err error => Err ("failed reading lease file: " +++ io_text error)
    | Ok (Some text) =>
        match parse_lease_record text with Ok l => Ok (Some l) | Err e => Err e end
    | Ok None => Ok None
    end
|}.

(** [serde_json::Value]: objects keep the entry of each key. *)
Inductive Value :=
| Null
| VBool (b : bool)
| Number (n : Z)
| VFloat (text : string)
| VString (s : string)
| VArray (l : list Value)
| VObject (fields : list (string * Value)).

Fixpoint assoc (k : string) (fields : list (string * Value)) : option Value :=
  match fields with
  | [] => None
  | (k', v) :: rest => if bool_decide (k = k') then Some v else assoc k rest
  end.

Definition get (v : Value) (k : string) : option Value :=
  match v with VObject fields => assoc k fields | _ => None end.
Definition as_str (v : Value) : option string :=
  match v with VString s => Some s | _ => None end.
Definition as_u64 (v : Value) : option Z :=
  match v with
  | Number n => if (0 <=? n) && (n <=? U64_MAX) then Some n else None
  | _ => None
  end.

Definition and_then {A B} (o : option A) (f : A -> option B) : option B :=
  match o with Some a => f a | None => None end.

Definition K8S_GENERATION_ANNOTATION_KEY : string := "rsqlite-rsync.dev/generation".

Section Kubernetes.
(** [serde_json::from_str] and [DateTime::parse_from_rfc3339(..).timestamp()]. *)
Context (from_str : string -> Result string Value).
Context (parse_from_rfc3339 : string -> Result string Z).

Definition parse_kubernetes_lease_json (input : string) : Result string (option LeaseRecord) :=
  let? value := map_err (fun e => "invalid lease json: " +++ e) (from_str input) in
  let? spec := ok_or (get value "spec") "lease json missing spec" in
  match and_then (and_then (get spec "holderIdentity") as_str)
          (fun h => let h := trim h in if is_empty h then None else Some h) with
  | None => Ok None
  | Some holder =>
      let? ttl := ok_or (and_then (get spec "leaseDurationSeconds") as_u64)
                    "lease json missing spec.leaseDurationSeconds" in
      let? renewed_at_raw := ok_or (and_then (get spec "renewTime") as_str)
                               "lease json missing spec.renewTime" in
      let? renewed_at := map_err (fun e => "invalid spec.renewTime: " +++ e)
                           (parse_from_rfc3339 renewed_at_raw) in
      let? renewed := ok_or (if 0 <=? renewed_at then Some renewed_at else None)
                        "spec.renewTime resolved to a negative unix timestamp" in
      let? generation_str :=
        ok_or (and_then (and_then (and_then (get value "metadata") (fun m => get m "annotations"))
                           (fun a => get a K8S_GENERATION_ANNOTATION_KEY)) as_str)
          ("lease json missing metadata.annotations[" +++ K8S_GENERATION_ANNOTATION_KEY +++ "]") in
      let? gen :=
        ok_or (parse_u64 generation_str)
          ("invalid metadata.annotations[" +++ K8S_GENERATION_ANNOTATION_KEY +++ "]: " +++
           generation_str) in
      Ok (Some (mk_lease holder gen renewed ttl))
  end.

Record KubectlLeaseReader := mk_kubectl {
  kubectl_path : string;
  namespace : string;
  lease_name : string;
  kube_context : option string;
  kubeconfig : option string;
}.

Definition kubectl_new (path ns lease : string) : KubectlLeaseReader :=
  mk_kubectl path ns lease None None.
Definition set_kube_context (context : option string) (r : KubectlLeaseReader) : KubectlLeaseReader :=
  mk_kubectl (kubectl_path r) (namespace r) (lease_name r) context (kubeconfig r).
Definition set_kubeconfig (config : option string) (r : KubectlLeaseReader) : KubectlLeaseReader :=
  mk_kubectl (kubectl_path r) (namespace r) (lease_name r) (kube_context r) config.

Record Output := mk_output {
  status_success : bool;
  stdout_utf8 : Result string string;   (* [String::from_utf8] of the output *)
  stderr_lossy : string;
}.

Definition kubectl_args (r : KubectlLeaseReader) : list string :=
  (match kube_context r with Some c => ["--context"; c] | None => [] end) ++
  (match kubeconfig r with Some c => ["--kubeconfig"; c] | None => [] end) ++
  ["-n"; namespace r; "get"; "lease"; lease_name r; "-o"; "json"].

(** [run path args] is [Command::output]. *)
Definition kubectl_read_lease (run : string -> list string -> Result string Output)
    (r : KubectlLeaseReader) : Result string (option LeaseRecord) :=
  let? output := map_err (fun e => "failed executing kubectl: " +++ e)
                   (run (kubectl_path r) (kubectl_args r)) in
  if negb (status_success output) then
    let stderr := trim (stderr_lossy output) in
    if contains "(NotFound)" stderr || contains " not found" stderr then Ok None
    else Err ("kubectl get lease failed (namespace=" +++ namespace r +++ ", lease=" +++
              lease_name r +++ "): " +++ stderr)
  else
    let? stdout := map_err (fun e => "kubectl output was not utf-8: " +++ e)
                     (stdout_utf8 output) in
    parse_kubernetes_lease_json stdout.
End Kubernetes.

(** ** Fence and promotion policy *)

Definition enforce_write_fence (now_secs : Z) (local_node_id : string) (local_generation : Z)
    (l : LeaseRecord) : Result WriteFenceViolation unit :=
  if is_expired l now_secs then Err FenceLeaseExpired else
  if negb (String.eqb (holder_node_id l) local_node_id) then
    Err (FenceNotLeaseHolder (holder_node_id l)) else
  if negb (generation l =? local_generation) then
    Err (GenerationMismatch local_generation (generation l)) else
  Ok tt.

Definition validate_promotion (now_secs : Z) (l : LeaseRecord) (request : PromotionRequest)
    (freshness : option FreshnessLedger) (config : PromotionConfig)
  : Result PromotionViolation unit :=
  if is_expired l now_secs then Err LeaseExpired else
  if negb (String.eqb (holder_node_id l) (candidate_node_id request)) then
    Err (NotLeaseHolder (holder_node_id l)) else
  if negb (generation l =? target_generation request) then
    Err (TargetGenerationMismatch (target_generation request) (generation l)) else
  let? f := ok_or freshness MissingFreshness in
  let allowed_future := sat_add64 now_secs (max_future_skew_secs config) in
  if allowed_future <? synced_at_secs f then
    Err (FreshnessFromFuture (synced_at_secs f) now_secs (max_future_skew_secs config)) else
  let age_secs := sat_sub64 now_secs (synced_at_secs f) in
  if max_freshness_age_secs config <? age_secs then
    Err (StaleFreshness age_secs (max_freshness_age_secs config)) else
  if source_generation f <? min_source_generation request then
    Err (LineageTooOld (source_generation f) (min_source_generation request)) else
  Ok tt.

(** ** Runtime *)

Record HaRuntime := mk_runtime {
  node_id : string;
  role : NodeRole;
  local_generation : Z;
  lease : option LeaseRecord;
  freshness : option FreshnessLedger;
}.

Definition runtime_new (id : string) : HaRuntime := mk_runtime id Replica 0 None None.

Definition update_freshness (f : FreshnessLedger) (r : HaRuntime) : HaRuntime :=
  mk_runtime (node_id r) (role r) (local_generation r) (lease r) (Some f).
Definition clear_freshness (r : HaRuntime) : HaRuntime :=
  mk_runtime (node_id r) (role r) (local_generation r) (lease r) None.

Definition observe_lease_change (previous current : option LeaseRecord) : LeaseObservation :=
  match previous, current with
  | None, None => Missing
  | None, Some cur => Acquired cur
  | Some _, None => Missing
  | Some prev, Some cur =>
      if bool_decide (prev = cur) then Unchanged cur else
      if negb (String.eqb (holder_node_id prev) (holder_node_id cur)) then Transferred prev cur else
      if generation prev =? generation cur then Renewed cur else
      Replaced cur
  end.

Definition set_role (ro : NodeRole) (gen : Z) (r : HaRuntime) : HaRuntime :=
  mk_runtime (node_id r) ro gen (lease r) (freshness r).

Definition reconcile_with_outcome (now_secs : Z) (new_lease : option LeaseRecord)
    (min_source_gen : Z) (config : PromotionConfig) (r : HaRuntime)
  : ReconcileOutcome * HaRuntime :=
  let obs := observe_lease_change (lease r) new_lease in
  let r := mk_runtime (node_id r) (role r) (local_generation r) new_lease (freshness r) in
  if bool_decide (role r = Writer) then
    match lease r with
    | None =>
        (mk_outcome_ha (DemoteToReplica LeaseMissing) obs None,
         set_role Replica (local_generation r) r)
    | Some current_lease =>
        match enforce_write_fence now_secs (node_id r) (local_generation r) current_lease with
        | Ok _ => (mk_outcome_ha DecideKeepWriter obs None, r)
        | Err violation =>
            (mk_outcome_ha (DemoteToReplica (FenceViolation violation)) obs None,
             set_role Replica (local_generation r) r)
        end
    end
  else
    match lease r with
    | None => (mk_outcome_ha KeepReplica obs None, r)
    | Some current_lease =>
        let request := mk_promotion_request (node_id r) (generation current_lease) min_source_gen in
        match validate_promotion now_secs current_lease request (freshness r) config with
        | Ok _ =>
            (mk_outcome_ha (PromoteToWriter (generation current_lease)) obs None,
             set_role Writer (generation current_lease) r)
        | Err violation => (mk_outcome_ha KeepReplica obs (Some violation), r)
        end
    end.

Definition reconcile (now_secs : Z) (new_lease : option LeaseRecord) (min_source_gen : Z)
    (config : PromotionConfig) (r : HaRuntime) : ReconcileDecision * HaRuntime :=
  let '(o, r) := reconcile_with_outcome now_secs new_lease min_source_gen config r in
  (decision o, r).

Definition actions_for (o : ReconcileOutcome) : list HaAction :=
  match decision o with
  | KeepReplica =>
      EnsureReplica :: match promotion_violation o with
                       | Some violation => [RecordPromotionDenied violation]
                       | None => []
                       end
  | PromoteToWriter gen => [EnableWriter gen]
  | DecideKeepWriter => [KeepWriter]
  | DemoteToReplica reason => [DisableWriter reason; EnsureReplica]
  end.

Definition plan_actions (now_secs : Z) (new_lease : option LeaseRecord) (min_source_gen : Z)
    (config : PromotionConfig) (r : HaRuntime) : ControllerPlan * HaRuntime :=
  let '(o, r) := reconcile_with_outcome now_secs new_lease min_source_gen config r in
  (mk_plan o (actions_for o), r).

(** ** Executing a plan *)

Class HaActionExecutor (X E : Type) := {
  ensure_replica : X -> Result E unit * X;
  enable_writer : Z -> X -> Result E unit * X;
  disable_writer : DemotionReason -> X -> Result E unit * X;
  keep_writer : X -> Result E unit * X;
  record_promotion_denied : PromotionViolation -> X -> Result E unit * X;
}.

Record ActionExecutionReport (E : Type) := mk_report {
  report_plan : ControllerPlan;
  failures : list (HaAction * E);
}.
Arguments mk_report {E}.
Arguments report_plan {E}.
Arguments failures {E}.

Definition is_success {E} (r : ActionExecutionReport E) : bool :=
  match failures r with [] => true | _ => false end.

Section Execute.
Context {X E : Type} `{!HaActionExecutor X E}.

Definition execute_action (a : HaAction) (x : X) : Result E unit * X :=
  match a with
  | EnsureReplica => ensure_replica x
  | EnableWriter gen => enable_writer gen x
  | DisableWriter reason => disable_writer reason x
  | KeepWriter => keep_writer x
  | RecordPromotionDenied violation => record_promotion_denied violation x
  end.

Fixpoint execute_actions (stop_on_error : bool) (acts : list HaAction) (x : X)
  : list (HaAction * E) * X :=
  match acts with
  | [] => ([], x)
  | a :: rest =>
      match execute_action a x with
      | (Ok _, x) => execute_actions stop_on_error rest x
      | (Err error, x) =>
          if stop_on_error then ([(a, error)], x)
          else let '(fs, x) := execute_actions stop_on_error rest x in ((a, error) :: fs, x)
      end
  end.

Definition execute_controller_plan (plan : ControllerPlan) (stop_on_error : bool) (x : X)
  : ActionExecutionReport E * X :=
  let '(fs, x) := execute_actions stop_on_error (actions plan) x in (mk_report plan fs, x).

Definition plan_and_execute (now_secs : Z) (new_lease : option LeaseRecord)
    (min_source_gen : Z) (config : PromotionConfig) (stop_on_error : bool)
    (r : HaRuntime) (x : X) : ActionExecutionReport E * HaRuntime * X :=
  let '(plan, r) := plan_actions now_secs new_lease min_source_gen config r in
  let '(report, x) := execute_controller_plan plan stop_on_error x in
  (report, r, x).

(** *** HaController *)

Record HaController := mk_controller {
  runtime : HaRuntime;
  promotion_config : PromotionConfig;
  controller_min_source_generation : Z;
  controller_stop_on_error : bool;
}.

Definition controller_new (id : string) : HaController :=
  mk_controller (runtime_new id) default_promotion_config 0 true.

Definition with_runtime (c : HaController) (r : HaRuntime) : HaController :=
  mk_controller r (promotion_config c) (controller_min_source_generation c)
    (controller_stop_on_error c).

Definition controller_update_freshness (f : FreshnessLedger) (c : HaController) : HaController :=
  with_runtime c (update_freshness f (runtime c)).
Definition set_min_source_generation (g : Z) (c : HaController) : HaController :=
  mk_controller (runtime c) (promotion_config c) g (controller_stop_on_error c).
Definition set_promotion_config (cfg : PromotionConfig) (c : HaController) : HaController :=
  mk_controller (runtime c) cfg (controller_min_source_generation c) (controller_stop_on_error c).
Definition set_stop_on_error (stop : bool) (c : HaController) : HaController :=
  mk_controller (runtime c) (promotion_config c) (controller_min_source_generation c) stop.

Definition plan_tick (now_secs : Z) (new_lease : option LeaseRecord) (c : HaController)
  : ControllerPlan * HaController :=
  let '(plan, r) := plan_actions now_secs new_lease (controller_min_source_generation c)
                      (promotion_config c) (runtime c) in
  (plan, with_runtime c r).

Definition tick (now_secs : Z) (new_lease : option LeaseRecord) (c : HaController) (x : X)
  : ActionExecutionReport E * HaController * X :=
  let '(plan, c) := plan_tick now_secs new_lease c in
  let '(report, x) := execute_controller_plan plan (controller_stop_on_error c) x in
  (report, c, x).

Inductive ControllerTickOutcome (LeaseErr : Type) :=
| Executed (report : ActionExecutionReport E)
| LeaseReadFailed (error : LeaseErr) (fallback_report : ActionExecutionReport E).
Global Arguments Executed {LeaseErr}.
Global Arguments LeaseReadFailed {LeaseErr}.

Definition outcome_report {LE} (o : ControllerTickOutcome LE) : ActionExecutionReport E :=
  match o with Executed report | LeaseReadFailed _ report => report end.

Definition tick_with_reader {R LE} `{!LeaseReader R LE} (now_secs : Z) (reader : R)
    (c : HaController) (x : X) : ControllerTickOutcome LE * HaController * X :=
  match read_lease reader with
  | Ok new_lease =>
      let '(report, c, x) := tick now_secs new_lease c x in (Executed report, c, x)
  | Err error =>
      let '(report, c, x) := tick now_secs None c x in (LeaseReadFailed error report, c, x)
  end.
End Execute.

(** ** Shared state read by the gateway *)

Record HaSharedState := mk_shared {
  sh_node_id : string;
  sh_role : NodeRole;
  sh_generation : Z;
  active_leader_id : option string;
  active_leader_endpoint : option string;
  lease_record : option LeaseRecord;
  allow_replica_reads : bool;
}.

Definition shared_new (id : string) (allow_reads : bool) : HaSharedState :=
  mk_shared id Replica 0 None None None allow_reads.

Definition is_writer (st : HaSharedState) (now_secs : Z) : bool :=
  if negb (bool_decide (sh_role st = Writer)) then false else
  match lease_record st with
  | Some l => is_ok (enforce_write_fence now_secs (sh_node_id st) (sh_generation st) l)
  | None => false
  end.

(** ** Lemmas *)

Lemma fence_Ok now id gen l :
  enforce_write_fence now id gen l = Ok tt <->
  is_expired l now = false /\ holder_node_id l = id /\ generation l = gen.
Proof.
  unfold enforce_write_fence. destruct (is_expired l now); [naive_solver|].
  destruct (String.eqb (holder_node_id l) id) eqn:E1; cbn [negb].
  - apply String.eqb_eq in E1. destruct (generation l =? gen) eqn:E2; cbn [negb]; zbool; naive_solver.
  - apply String.eqb_neq in E1. naive_solver.
Qed.

Lemma is_writer_true st now :
  is_writer st now = true <->
  sh_role st = Writer /\ exists l, lease_record st = Some l /\ is_expired l now = false /\
    holder_node_id l = sh_node_id st /\ generation l = sh_generation st.
Proof.
  unfold is_writer. case_bool_decide as Hr; cbn [negb]; [|naive_solver].
  destruct (lease_record st) as [l|]; [|naive_solver].
  destruct (enforce_write_fence now (sh_node_id st) (sh_generation st) l) as [[]|v] eqn:E; cbn.
  - apply fence_Ok in E. naive_solver.
  - split; [done|]. intros (_ & l' & [= <-] & Hf). apply fence_Ok in Hf. congruence.
Qed.

(** Promotion is granted exactly under these conditions. *)
Definition promotable (now : Z) (l : LeaseRecord) (req : PromotionRequest)
    (fresh : option FreshnessLedger) (cfg : PromotionConfig) : Prop :=
  is_expired l now = false /\ holder_node_id l = candidate_node_id req /\
  generation l = target_generation req /\
  exists f, fresh = Some f /\
    synced_at_secs f <= sat_add64 now (max_future_skew_secs cfg) /\
    sat_sub64 now (synced_at_secs f) <= max_freshness_age_secs cfg /\
    min_source_generation req <= source_generation f.

Lemma promotion_Ok now l req fresh cfg :
  validate_promotion now l req fresh cfg = Ok tt <-> promotable now l req fresh cfg.
Proof.
  unfold validate_promotion, promotable.
  destruct (is_expired l now); [naive_solver|].
  destruct (String.eqb _ _) eqn:E1; cbn [negb];
    [apply String.eqb_eq in E1|apply String.eqb_neq in E1; naive_solver].
  destruct (_ =? target_generation req) eqn:E2; cbn [negb]; zbool; [|naive_solver].
  destruct fresh as [f|]; cbn [ok_or]; [|naive_solver].
  destruct (_ <? synced_at_secs f) eqn:E3; zbool; [naive_solver lia|].
  destruct (_ <? sat_sub64 _ _) eqn:E4; zbool; [naive_solver lia|].
  destruct (source_generation f <? _) eqn:E5; zbool; [naive_solver lia|].
  split; [|done]. intros _. repeat split; try done. by exists f.
Qed.

(** A writer holds an unexpired lease of its own generation. *)
Definition writer_ok (now : Z) (r : HaRuntime) : Prop :=
  role r = Writer ->
  exists l, lease r = Some l /\ is_expired l now = false /\
    holder_node_id l = node_id r /\ generation l = local_generation r.

Lemma reconcile_writer_ok now nl mg cfg r :
  writer_ok now (snd (reconcile_with_outcome now nl mg cfg r)).
Proof.
  unfold reconcile_with_outcome, writer_ok. cbn [role lease node_id local_generation freshness].
  case_bool_decide as Hr.
  - destruct nl as [l|]; [|done].
    destruct (enforce_write_fence _ _ _ _) as [[]|] eqn:E; [|done].
    apply fence_Ok in E. intros _. by exists l.
  - destruct nl as [l|]; [|done].
    destruct (validate_promotion _ _ _ _ _) as [[]|] eqn:E; [|done].
    apply promotion_Ok in E as (He & Hh & _). intros _. by exists l.
Qed.

(** ** Claims *)

Section RoundTrip.
Variable l : LeaseRecord.

Definition lease_storable : Prop :=
  value_ok (holder_node_id l) /\ is_u64 (generation l) /\ is_u64 (renewed_at_secs l) /\
  is_u64 (ttl_secs l).

Lemma serialize_lines :
  lease_storable ->
  lines (serialize_lease_record l) =
  [kv_line "holder_node_id" (holder_node_id l); kv_line "generation" (show_Z (generation l));
   kv_line "renewed_at_secs" (show_Z (renewed_at_secs l)); kv_line "ttl_secs" (show_Z (ttl_secs l))].
Proof.
  intros (Hh & Hg & Hr & Ht). unfold is_u64 in *.
  transitivity (lines (kv_line "holder_node_id" (holder_node_id l) +++ String NL
    (kv_line "generation" (show_Z (generation l)) +++ String NL
    (kv_line "renewed_at_secs" (show_Z (renewed_at_secs l)) +++ String NL
    (kv_line "ttl_secs" (show_Z (ttl_secs l)) +++ String NL ""))))).
  { unfold serialize_lease_record, kv_line, nl. cbn. by rewrite ?sapp_assoc. }
  rewrite !lines_kv; try done; apply u64_value_ok; lia.
Qed.
End RoundTrip.

(** C38. A lease record written to the lease file reads back as the same record, when its
    numbers are 64-bit and its holder is non-empty, without surrounding blanks and on one
    line.  The writer checks none of this: [padded_holder_is_trimmed] and
    [two_line_holder_is_lost] are records that do not come back. *)
Theorem lease_round_trip l :
  lease_storable l -> parse_lease_record (serialize_lease_record l) = Ok l.
Proof.
  intros Hl. unfold parse_lease_record, parse_kv_lines. rewrite serialize_lines by done.
  destruct Hl as (Hh & Hg & Hr & Ht).
  assert (Hd : forall n, is_u64 n -> value_ok (show_Z n))
    by (intros n Hn; apply u64_value_ok; unfold is_u64 in Hn; lia).
  rewrite !parse_kv_line; auto; try (unfold LEASE_KEYS; set_solver).
  cbn [parse_kv_go].
  rewrite (require_non_empty_Some _ _ (holder_node_id l)); [|by destruct Hh|by vm_compute].
  rewrite (require_u64_insert _ _ (generation l)) by (done || by vm_compute).
  rewrite (require_u64_insert _ _ (renewed_at_secs l)) by (done || by vm_compute).
  rewrite (require_u64_insert _ _ (ttl_secs l)) by (done || by vm_compute).
  by destruct l.
Qed.

Lemma lease_round_trip_witness :
  parse_lease_record (serialize_lease_record (mk_lease "node-a" 7 1700000000 15)) =
  Ok (mk_lease "node-a" 7 1700000000 15).
Proof.
  apply (lease_round_trip (mk_lease "node-a" 7 1700000000 15)).
  repeat split; vm_compute; congruence.
Defined.

Example padded_holder_is_trimmed :
  parse_lease_record (serialize_lease_record (mk_lease " a " 7 1700000000 15)) =
  Ok (mk_lease "a" 7 1700000000 15).
Proof. vm_compute. reflexivity. Qed.

Example two_line_holder_is_lost :
  parse_lease_record (serialize_lease_record (mk_lease ("a" +++ nl +++ "b") 7 1700000000 15)) =
  Err "invalid lease line (expected key=value): b".
Proof. vm_compute. reflexivity. Qed.

(** The write fence opens exactly for the holder of an unexpired lease at the holder's own
    generation. *)
Theorem fence_opens_exactly now id gen l :
  enforce_write_fence now id gen l = Ok tt <->
  now <= sat_add64 (renewed_at_secs l) (ttl_secs l) /\ holder_node_id l = id /\ generation l = gen.
Proof.
  rewrite fence_Ok. unfold is_expired. by rewrite Z.ltb_ge.
Qed.

(** A candidate is promoted exactly when it holds the unexpired lease of the target
    generation and its last synchronisation is neither in the future (beyond the
    allowed skew), nor too old, nor from too old a source generation. *)
Theorem promotion_granted_exactly now l req fresh cfg :
  validate_promotion now l req fresh cfg = Ok tt <-> promotable now l req fresh cfg.
Proof. apply promotion_Ok. Qed.

(** Runs of the runtime: ticks at arbitrary times with arbitrary leases, interleaved with
    freshness updates. *)
Inductive ha_step : HaRuntime -> HaRuntime -> Prop :=
| step_reconcile now nl mg cfg r :
    ha_step r (snd (reconcile_with_outcome now nl mg cfg r))
| step_update f r : ha_step r (update_freshness f r)
| step_clear r : ha_step r (clear_freshness r).

Definition reachable (id : string) (r : HaRuntime) : Prop := rtc ha_step (runtime_new id) r.

(** What every reachable state satisfies. *)
Definition lease_inv (id : string) (r : HaRuntime) : Prop :=
  node_id r = id /\
  (role r = Writer -> exists l, lease r = Some l /\ holder_node_id l = id /\
     generation l = local_generation r).

Lemma reconcile_node_id now nl mg cfg r :
  node_id (snd (reconcile_with_outcome now nl mg cfg r)) = node_id r.
Proof. unfold reconcile_with_outcome. repeat case_match; done. Qed.

Lemma lease_inv_step id r1 r2 : ha_step r1 r2 -> lease_inv id r1 -> lease_inv id r2.
Proof.
  intros Hs [Hid Hw]. destruct Hs as [now nl mg cfg r| |]; try done.
  split; [by rewrite reconcile_node_id|].
  intros Hrole. destruct (reconcile_writer_ok now nl mg cfg r Hrole) as (l & Hl & _ & Hh & Hg).
  exists l. rewrite reconcile_node_id, Hid in Hh. done.
Qed.

Lemma reachable_inv id r : reachable id r -> lease_inv id r.
Proof.
  intros Hr. assert (H : lease_inv id (runtime_new id)) by done. revert H.
  induction Hr as [|r1 r2 r3 Hs _ IH]; [done|]. intros H. apply IH. by apply (lease_inv_step id r1).
Qed.

(** C13. In every reachable state a writer has a recorded lease that names the node and the
    node's generation, and right after a tick that lease is unexpired: a node is
    never a writer without holding the lease. *)
Theorem writer_holds_lease id r :
  reachable id r ->
  node_id r = id /\
  (role r = Writer -> exists l, lease r = Some l /\ holder_node_id l = id /\
     generation l = local_generation r) /\
  forall now nl mg cfg, writer_ok now (snd (reconcile_with_outcome now nl mg cfg r)).
Proof.
  intros [Hid Hw]%reachable_inv. split; [done|]. split; [done|].
  intros. apply reconcile_writer_ok.
Qed.

Definition example_lease : LeaseRecord := mk_lease "a" 3 100 10.
Definition example_writer : HaRuntime :=
  snd (reconcile_with_outcome 105 (Some example_lease) 0 default_promotion_config
         (update_freshness (mk_freshness "b" 2 104) (runtime_new "a"))).

Lemma writer_holds_lease_witness :
  role example_writer = Writer /\
  exists l, lease example_writer = Some l /\ holder_node_id l = "a" /\
    generation l = local_generation example_writer.
Proof.
  split; [reflexivity|].
  apply (writer_holds_lease "a" example_writer); [|reflexivity].
  eapply rtc_l; [apply (step_update (mk_freshness "b" 2 104))|].
  eapply rtc_l; [apply (step_reconcile 105 (Some example_lease) 0 default_promotion_config)|].
  apply rtc_refl.
Defined.

(** The decision of a tick matches the transition it made: promotion happens from replica
    under the promotion policy, demotion from writer, and the two keep decisions
    leave the role alone. *)
Theorem reconcile_transitions now nl mg cfg r :
  let '(o, r') := reconcile_with_outcome now nl mg cfg r in
  match decision o with
  | PromoteToWriter g =>
      role r = Replica /\ role r' = Writer /\ local_generation r' = g /\
      exists l, nl = Some l /\ generation l = g /\
        promotable now l (mk_promotion_request (node_id r) g mg) (freshness r) cfg
  | DecideKeepWriter => role r = Writer /\ role r' = Writer /\
      local_generation r' = local_generation r
  | DemoteToReplica _ => role r = Writer /\ role r' = Replica
  | KeepReplica => role r = Replica /\ role r' = Replica
  end.
Proof.
  unfold reconcile_with_outcome. cbn [role lease node_id local_generation freshness].
  assert (Hn : role r <> Writer -> role r = Replica) by (by destruct (role r)).
  case_bool_decide as Hr; destruct nl as [l|]; cbn; auto.
  - destruct (enforce_write_fence _ _ _ _) as [[]|]; cbn; auto.
  - destruct (validate_promotion _ _ _ _ _) as [[]|] eqn:E; cbn; auto.
    apply promotion_Ok in E. repeat split; auto. by exists l.
Qed.

(** ** One writer at a time *)

(** A lease service: at any time, the leases it has issued and that are not expired
    name one holder. *)
Definition exclusive (issued : LeaseRecord -> Prop) (now : Z) : Prop :=
  forall l1 l2, issued l1 -> issued l2 ->
    is_expired l1 now = false -> is_expired l2 now = false ->
    holder_node_id l1 = holder_node_id l2.

(** Two gateways whose recorded leases come from an exclusive lease service never both
    accept writes at the same time, however stale their shared states are. *)
Theorem at_most_one_writer issued now s1 s2 :
  exclusive issued now ->
  (forall l, lease_record s1 = Some l -> issued l) ->
  (forall l, lease_record s2 = Some l -> issued l) ->
  is_writer s1 now = true -> is_writer s2 now = true -> sh_node_id s1 = sh_node_id s2.
Proof.
  intros Hex H1 H2 Hw1 Hw2.
  apply is_writer_true in Hw1 as (_ & l1 & E1 & Hx1 & Hh1 & _).
  apply is_writer_true in Hw2 as (_ & l2 & E2 & Hx2 & Hh2 & _).
  rewrite <- Hh1, <- Hh2. apply Hex; auto.
Qed.

Lemma at_most_one_writer_witness :
  let s id gen := mk_shared id Writer gen None None (Some example_lease) false in
  is_writer (s "a" 3) 105 = true /\ sh_node_id (s "a" 3) = sh_node_id (s "a" 3).
Proof.
  split; [reflexivity|].
  apply (at_most_one_writer (fun l => l = example_lease) 105
           (mk_shared "a" Writer 3 None None (Some example_lease) false)
           (mk_shared "a" Writer 3 None None (Some example_lease) false));
    [intros l1 l2 -> -> _ _; reflexivity|by intros l [= <-]|by intros l [= <-]
    |reflexivity|reflexivity].
Defined.

(** ** Executing plans *)
Section ExecuteClaims.
Context {X E : Type} `{!HaActionExecutor X E}.

(** The executor after a list of actions, whatever their results. *)
Definition run_actions (acts : list HaAction) (x : X) : X :=
  fold_left (fun x a => snd (execute_action a x)) acts x.

(** With [stop_on_error] a plan is executed up to its first failing action: either all
    actions succeeded, or exactly one failure is reported, everything before it
    succeeded and nothing after it ran. *)
Theorem execution_stops_at_failure plan x report x' :
  execute_controller_plan plan true x = (report, x') ->
  report_plan report = plan /\
  ((failures report = [] /\ x' = run_actions (actions plan) x) \/
   exists pre a e post,
     actions plan = pre ++ a :: post /\ failures report = [(a, e)] /\
     x' = run_actions (pre ++ [a]) x /\ fst (execute_action a (run_actions pre x)) = Err e).
Proof.
  unfold execute_controller_plan.
  destruct (execute_actions true (actions plan) x) as [fs y] eqn:Ex.
  intros [= <- <-]. split; [done|]. cbn [failures].
  revert x fs y Ex. induction (actions plan) as [|a acts IH]; intros x fs y Ex; cbn in Ex.
  - injection Ex as <- <-. by left.
  - destruct (execute_action a x) as [[u|e] x1] eqn:Ea.
    + destruct (IH x1 fs y Ex) as [[-> ->]|(pre & b & e & post & -> & -> & -> & Hb)].
      * left. split; [done|]. unfold run_actions. cbn. by rewrite Ea.
      * right. exists (a :: pre), b, e, post. unfold run_actions in *. cbn. rewrite Ea. done.
    + injection Ex as <- <-. right. exists [], a, e, acts.
      unfold run_actions. cbn. rewrite Ea. done.
Qed.

(** When the lease cannot be read, the tick is fail-safe: the runtime leaves the writer
    role and the plan contains no action that enables or keeps the writer. *)
Theorem lease_read_failure_demotes {R LE} `{!LeaseReader R LE} now reader err c (x : X) :
  read_lease reader = Err err ->
  let '(o, c', _) := tick_with_reader now reader c x in
  role (runtime c') = Replica /\
  exists report, o = LeaseReadFailed err report /\
    forall a, a ∈ actions (report_plan report) ->
      match a with EnableWriter _ | KeepWriter => False | _ => True end.
Proof.
  intros Hr. unfold tick_with_reader, tick, plan_tick, plan_actions. rewrite Hr.
  unfold reconcile_with_outcome. cbn [role lease].
  assert (Hn : role (runtime c) <> Writer -> role (runtime c) = Replica) by (by destruct (role _)).
  case_bool_decide as Hw; unfold execute_controller_plan;
    (destruct (execute_actions _ _ _) as [fs y] eqn:Ex); cbn; (split; [auto|]);
    eexists; (split; [done|]); cbn; intros a Ha; set_solver.
Qed.
End ExecuteClaims.
