(* ===== verification/HaLoop.v ===== *)
(** * HA control loop (src/src/ha.rs executors, src/src/main.rs HA mode)

    The executors behind the controller (files, tracing, readiness and the state
    shared with the gateway), the turns of the control loop, the startup fence and
    the readiness endpoint.

    Files are their content plus a script of I/O failures, so that the theorems
    speak of executors that fail. *)

From S2P Require Import Prelude RustStr Errors KvText Ha.

(** ** Debug texts of the audit log *)

(** [{:?}] of a string: the escapes of ASCII characters; other UTF-8 is copied. *)
Definition hex_digit (d : Z) : ascii :=
  if d <? 10 then digit_char d else ascii_of_N (Z.to_N (97 + d - 10)).

Definition escape_char (a : ascii) : string :=
  let c := code a in
  if c =? 34 then String "\" (String DQUOTE "") else
  if c =? 92 then "\\" else
  if c =? 10 then "\n" else
  if c =? 13 then "\r" else
  if c =? 9 then "\t" else
  if c =? 0 then "\0" else
  if (c <? 32) || (c =? 127) then
    "\u{" +++ (if c <? 16 then String (hex_digit c) ""
               else String (hex_digit (c / 16)) (String (hex_digit (c mod 16)) "")) +++ "}"
  else String a "".

Fixpoint escape (s : string) : string :=
  match s with "" => "" | String a r => escape_char a +++ escape r end.

Definition debug_str (s : string) : string := String DQUOTE (escape s +++ String DQUOTE "").

Definition debug_fence (v : WriteFenceViolation) : string :=
  match v with
  | FenceLeaseExpired => "LeaseExpired"
  | FenceNotLeaseHolder h => "NotLeaseHolder { holder_node_id: " +++ debug_str h +++ " }"
  | GenerationMismatch local l =>
      "GenerationMismatch { local: " +++ show_Z local +++ ", lease: " +++ show_Z l +++ " }"
  end.

Definition debug_reason (r : DemotionReason) : string :=
  match r with
  | LeaseMissing => "LeaseMissing"
  | FenceViolation v => "FenceViolation(" +++ debug_fence v +++ ")"
  end.

Definition debug_violation (v : PromotionViolation) : string :=
  match v with
  | LeaseExpired => "LeaseExpired"
  | NotLeaseHolder h => "NotLeaseHolder { holder_node_id: " +++ debug_str h +++ " }"
  | TargetGenerationMismatch t l =>
      "TargetGenerationMismatch { target: " +++ show_Z t +++ ", lease: " +++ show_Z l +++ " }"
  | MissingFreshness => "MissingFreshness"
  | FreshnessFromFuture s n k =>
      "FreshnessFromFuture { synced_at_secs: " +++ show_Z s +++ ", now_secs: " +++ show_Z n +++
      ", max_future_skew_secs: " +++ show_Z k +++ " }"
  | StaleFreshness a m =>
      "StaleFreshness { age_secs: " +++ show_Z a +++ ", max_freshness_age_secs: " +++ show_Z m +++ " }"
  | LineageTooOld o m =>
      "LineageTooOld { observed: " +++ show_Z o +++ ", min_required: " +++ show_Z m +++ " }"
  end.

(** ** FileActionExecutor *)

Record FileActionExecutor := mk_file_exec {
  role_state : option string;         (* content of the role file *)
  audit_log : string;
  io_script : list (option IoError);  (* outcome of each file operation, in order *)
}.

(** The outcome of the next file operation; past the script they succeed. *)
Definition next_io (script : list (option IoError)) : option IoError * list (option IoError) :=
  match script with [] => (None, []) | o :: rest => (o, rest) end.

Definition write_role_state (state : string) (x : FileActionExecutor)
  : Result IoError unit * FileActionExecutor :=
  match next_io (io_script x) with
  | (Some e, rest) => (Err e, mk_file_exec (role_state x) (audit_log x) rest)
  | (None, rest) => (Ok tt, mk_file_exec (Some (state +++ nl)) (audit_log x) rest)
  end.

Definition append_audit (line : string) (x : FileActionExecutor)
  : Result IoError unit * FileActionExecutor :=
  match next_io (io_script x) with
  | (Some e, rest) => (Err e, mk_file_exec (role_state x) (audit_log x) rest)
  | (None, rest) => (Ok tt, mk_file_exec (role_state x) (audit_log x +++ line +++ nl) rest)
  end.

(** [a?; b] on an executor. *)
Definition andThen {X E} (a b : X -> Result E unit * X) (x : X) : Result E unit * X :=
  match a x with
  | (Ok _, x) => b x
  | (Err e, x) => (Err e, x)
  end.

#[export] Instance file_action_executor : HaActionExecutor FileActionExecutor IoError := {|
  ensure_replica :=
    andThen (write_role_state "replica") (append_audit "action=ensure_replica result=ok");
  enable_writer gen :=
    andThen (write_role_state ("writer:" +++ show_Z gen))
      (append_audit ("action=enable_writer generation=" +++ show_Z gen +++ " result=ok"));
  disable_writer reason :=
    andThen (write_role_state "replica")
      (append_audit ("action=disable_writer reason=" +++ debug_reason reason +++ " result=ok"));
  keep_writer := append_audit "action=keep_writer result=ok";
  record_promotion_denied violation :=
    append_audit ("action=record_promotion_denied violation=" +++ debug_violation violation +++
                  " result=ok");
|}.

(** ** TracingExecutor: the trace is the action and whether it succeeded *)

Record TracingExecutor (X : Type) := mk_tracing {
  inner : X;
  component : string;
  events : list (string * bool);
}.
Arguments mk_tracing {X}.
Arguments inner {X}.
Arguments component {X}.
Arguments events {X}.

Definition traced_action {X E} (action : string) (body : X -> Result E unit * X)
    (t : TracingExecutor X) : Result E unit * TracingExecutor X :=
  let '(r, x) := body (inner t) in
  (r, mk_tracing x (component t) (events t ++ [(action, is_ok r)])).

#[export] Instance tracing_executor {X E} `{!HaActionExecutor X E}
  : HaActionExecutor (TracingExecutor X) E := {|
  ensure_replica := traced_action "ensure_replica" ensure_replica;
  enable_writer gen := traced_action "enable_writer" (enable_writer gen);
  disable_writer reason := traced_action "disable_writer" (disable_writer reason);
  keep_writer := traced_action "keep_writer" keep_writer;
  record_promotion_denied v := traced_action "record_promotion_denied" (record_promotion_denied v);
|}.

(** ** ReadinessAwareExecutor (main.rs) *)

Record ReadinessAwareExecutor := mk_readiness {
  ra_inner : TracingExecutor FileActionExecutor;
  readiness_path : bool;                        (* a readiness file is configured *)
  readiness_file : option string;
  readiness_script : list (option IoError);
  readiness_state : bool;
  ha_state : HaSharedState;
}.

Definition with_inner (x : ReadinessAwareExecutor) (i : TracingExecutor FileActionExecutor) :=
  mk_readiness i (readiness_path x) (readiness_file x) (readiness_script x)
    (readiness_state x) (ha_state x).

(** The flag is stored before the file is written. *)
Definition write_readiness (ready : bool) (x : ReadinessAwareExecutor)
  : Result IoError unit * ReadinessAwareExecutor :=
  if readiness_path x then
    match next_io (readiness_script x) with
    | (Some e, rest) =>
        (Err e, mk_readiness (ra_inner x) true (readiness_file x) rest ready (ha_state x))
    | (None, rest) =>
        (Ok tt, mk_readiness (ra_inner x) true
                  (Some (if ready then "ready" +++ nl else "not-ready" +++ nl)) rest ready (ha_state x))
    end
  else (Ok tt, mk_readiness (ra_inner x) false (readiness_file x) (readiness_script x) ready (ha_state x)).

Definition initialize_not_ready (x : ReadinessAwareExecutor)
  : Result IoError unit * ReadinessAwareExecutor := write_readiness false x.

Definition set_shared (f : HaSharedState -> HaSharedState) (x : ReadinessAwareExecutor)
  : Result IoError unit * ReadinessAwareExecutor :=
  (Ok tt, mk_readiness (ra_inner x) (readiness_path x) (readiness_file x) (readiness_script x)
            (readiness_state x) (f (ha_state x))).

Definition shared_role (ro : NodeRole) (s : HaSharedState) : HaSharedState :=
  mk_shared (sh_node_id s) ro (sh_generation s) (active_leader_id s) (active_leader_endpoint s)
    (lease_record s) (allow_replica_reads s).
Definition shared_generation (g : Z) (s : HaSharedState) : HaSharedState :=
  mk_shared (sh_node_id s) (sh_role s) g (active_leader_id s) (active_leader_endpoint s)
    (lease_record s) (allow_replica_reads s).

Definition on_inner (f : TracingExecutor FileActionExecutor ->
    Result IoError unit * TracingExecutor FileActionExecutor) (x : ReadinessAwareExecutor)
  : Result IoError unit * ReadinessAwareExecutor :=
  let '(r, i) := f (ra_inner x) in (r, with_inner x i).

#[export] Instance readiness_aware_executor : HaActionExecutor ReadinessAwareExecutor IoError := {|
  ensure_replica :=
    andThen (on_inner ensure_replica)
      (andThen (write_readiness false) (set_shared (shared_role Replica)));
  enable_writer gen :=
    andThen (on_inner (enable_writer gen))
      (andThen (write_readiness true)
         (set_shared (fun s => shared_generation gen (shared_role Writer s))));
  disable_writer reason :=
    andThen (on_inner (disable_writer reason))
      (andThen (write_readiness false) (set_shared (shared_role Replica)));
  keep_writer :=
    andThen (on_inner keep_writer)
      (andThen (write_readiness true) (set_shared (shared_role Writer)));
  record_promotion_denied violation :=
    andThen (on_inner (record_promotion_denied violation))
      (andThen (write_readiness false) (set_shared (shared_role Replica)));
|}.

(** ** One turn of the control loop *)

Definition read_freshness_ledger (path : string) (read : Result IoError string)
  : SyncResult (option FreshnessLedger) :=
  match read_optional_kv_text read with
  | Err error => Err (Protocol ("failed reading freshness file " +++ path +++ ": " +++ io_text error))
  | Ok None => Ok None
  | Ok (Some text) =>
      match parse_freshness_ledger text with
      | Ok f => Ok (Some f)
      | Err error => Err (Protocol ("invalid freshness file " +++ path +++ ": " +++ error))
      end
  end.

Definition lease_from_observation (o : LeaseObservation) : option LeaseRecord :=
  match o with
  | Missing => None
  | Acquired l | Renewed l | Replaced l | Unchanged l => Some l
  | Transferred _ current => Some current
  end.

(** [AnyLeaseReader]: both readers, already applied to what they read. *)
Inductive AnyLeaseReader :=
| FileReader (r : FileLeaseReader)
| KubernetesReader (r : unit -> Result string (option LeaseRecord)).

#[export] Instance any_lease_reader : LeaseReader AnyLeaseReader string := {|
  read_lease r :=
    match r with FileReader r => read_lease r | KubernetesReader r => r tt end
|}.

Record LoopState := mk_loop {
  controller : HaController;
  executor : ReadinessAwareExecutor;
  last_tick_secs : Z;
}.

(** The lease and leader fields of the shared state, from the lease of the tick. *)
Definition publish_lease (service_name : string) (grpc_port : Z) (current : option LeaseRecord)
    (s : HaSharedState) : HaSharedState :=
  match current with
  | Some l =>
      let endpoint :=
        if negb (is_empty service_name)
        then "http://" +++ holder_node_id l +++ "." +++ service_name +++ ":" +++ show_Z grpc_port
        else "http://" +++ holder_node_id l +++ ":" +++ show_Z grpc_port in
      mk_shared (sh_node_id s) (sh_role s) (sh_generation s) (Some (holder_node_id l))
        (Some endpoint) (Some l) (allow_replica_reads s)
  | None =>
      mk_shared (sh_node_id s) (sh_role s) (sh_generation s) None None None (allow_replica_reads s)
  end.

(** The freshness part of a turn; [None] when no freshness file is configured. *)
Definition load_freshness (fresh : option (SyncResult (option FreshnessLedger))) (c : HaController)
  : SyncResult HaController :=
  match fresh with
  | None => Ok c
  | Some (Err e) => Err e
  | Some (Ok (Some f)) => Ok (controller_update_freshness f c)
  | Some (Ok None) => Ok (with_runtime c (clear_freshness (runtime c)))
  end.

Definition set_ha_state (x : ReadinessAwareExecutor) (s : HaSharedState) : ReadinessAwareExecutor :=
  mk_readiness (ra_inner x) (readiness_path x) (readiness_file x) (readiness_script x)
    (readiness_state x) s.

(** One turn of [loop { ... }]: an error leaves the loop. *)
Definition ha_loop_turn (service_name : string) (grpc_port : Z)
    (fresh : option (SyncResult (option FreshnessLedger))) (now : SyncResult Z)
    (reader : AnyLeaseReader) (st : LoopState) : SyncResult LoopState :=
  let? c := load_freshness fresh (controller st) in
  let? now_secs := now in
  let '(tick_outcome, c, x) := tick_with_reader now_secs reader c (executor st) in
  let current_lease :=
    match tick_outcome with
    | Executed report => lease_from_observation (lease_observation (outcome (report_plan report)))
    | LeaseReadFailed _ _ => None
    end in
  Ok (mk_loop c (set_ha_state x (publish_lease service_name grpc_port current_lease (ha_state x)))
        now_secs).

(** The startup fence of [--ha-startup-fence-mode=require-writer]; the error texts print
    the decision, which is [debug] here. *)
Definition startup_fence (debug : ReconcileDecision -> string)
    (fresh : option (SyncResult (option FreshnessLedger))) (now : SyncResult Z)
    (reader : AnyLeaseReader) (st : LoopState) : SyncResult LoopState :=
  let? c := load_freshness fresh (controller st) in
  let? now_secs := now in
  match tick_with_reader now_secs reader c (executor st) with
  | (Executed report, c, x) =>
      let d := decision (outcome (report_plan report)) in
      match d with
      | PromoteToWriter _ | DecideKeepWriter =>
          if negb (is_success report) then
            Err (Protocol ("startup fence writer actions failed: " +++
                           show_Z (zlen (failures report)) +++ " failures"))
          else Ok (mk_loop c x (last_tick_secs st))
      | _ => Err (Protocol ("startup fence blocked writer startup: decision=" +++ debug d))
      end
  | (LeaseReadFailed error _, _, _) =>
      Err (Protocol ("startup fence lease read failed: " +++ error))
  end.

(** ** Readiness endpoint *)

(** [split_whitespace]. *)
Definition flush (cur : string) (l : list string) : list string :=
  if is_empty cur then l else cur :: l.

Fixpoint split_whitespace_go (cur s : string) : list string :=
  match s with
  | "" => flush cur []
  | String a r1 =>
      if ascii_ws a then flush cur (split_whitespace_go "" r1) else
      match r1 with
      | "" => split_whitespace_go (cur +++ String a "") r1
      | String b r2 =>
          if ws2 a b then flush cur (split_whitespace_go "" r2) else
          match r2 with
          | "" => split_whitespace_go (cur +++ String a "") r1
          | String c r3 =>
              if ws3 a b c then flush cur (split_whitespace_go "" r3)
              else split_whitespace_go (cur +++ String a "") r1
          end
      end
  end.
Definition split_whitespace (s : string) : list string := split_whitespace_go "" s.

Definition request_path (request : string) : string :=
  let request_line := default "" (head (lines request)) in
  default "/" (split_whitespace request_line !! 1%nat).

Definition OK_LINE : string := "HTTP/1.1 200 OK".
Definition UNAVAILABLE_LINE : string := "HTTP/1.1 503 Service Unavailable".

(** [now] is [u64::MAX] when the clock is before the epoch. *)
Definition readiness_reply (path : string) (ready : bool) (last_tick now stale_after_secs : Z)
  : string * string :=
  if String.eqb path "/ready" then
    if ready then (OK_LINE, "ready" +++ nl) else (UNAVAILABLE_LINE, "not-ready" +++ nl)
  else if String.eqb path "/live" then (OK_LINE, "live" +++ nl)
  else if String.eqb path "/healthz" then
    if last_tick =? 0 then (UNAVAILABLE_LINE, "initializing" +++ nl)
    else if stale_after_secs <? sat_sub64 now last_tick then (UNAVAILABLE_LINE, "stale" +++ nl)
    else (OK_LINE, "healthy" +++ nl)
  else ("HTTP/1.1 404 Not Found", "not-found" +++ nl).

Definition crlf : string := String CR nl.

Definition readiness_response (request : string) (ready : bool) (last_tick now stale_after_secs : Z)
  : string :=
  let '(status_line, body) :=
    readiness_reply (request_path request) ready last_tick now stale_after_secs in
  status_line +++ crlf +++ "content-type: text/plain; charset=utf-8" +++ crlf +++
  "content-length: " +++ show_Z (Z.of_nat (String.length body)) +++ crlf +++
  "connection: close" +++ crlf +++ crlf +++ body.

(** [tick_interval.saturating_mul(5).max(10 s)], in whole seconds, from milliseconds. *)
Definition tick_interval_ms (arg : Z) : Z := Z.max arg 50.
Definition healthz_stale_after_secs (arg : Z) : Z :=
  Z.max (5 * tick_interval_ms arg) 10000 / 1000.

(** ** Lemmas *)

Lemma lease_from_observe prev cur : lease_from_observation (observe_lease_change prev cur) = cur.
Proof.
  destruct prev, cur; cbn; try done.
  case_bool_decide; cbn; [done|]. destruct (negb _); cbn; [done|]. by destruct (_ =? _).
Qed.

Lemma outcome_observation now nl mg cfg r :
  lease_observation (fst (reconcile_with_outcome now nl mg cfg r)) = observe_lease_change (lease r) nl.
Proof. unfold reconcile_with_outcome. repeat case_match; done. Qed.

(** The tick, with its plan made explicit. *)
Lemma tick_plan {X E} `{!HaActionExecutor X E} now nl c (x : X) :
  exists fs x',
    tick now nl c x =
    (mk_report (fst (plan_tick now nl c)) fs, snd (plan_tick now nl c), x') /\
    execute_actions (controller_stop_on_error c) (actions (fst (plan_tick now nl c))) x = (fs, x').
Proof.
  unfold tick, execute_controller_plan.
  assert (Hs : controller_stop_on_error (snd (plan_tick now nl c)) = controller_stop_on_error c).
  { unfold plan_tick, plan_actions. by destruct (reconcile_with_outcome _ _ _ _ _). }
  destruct (plan_tick now nl c) as [plan c'] eqn:Ep. cbn [fst snd] in *. rewrite Hs.
  destruct (execute_actions _ _ _) as [fs x'] eqn:Ex. by exists fs, x'.
Qed.

Lemma plan_tick_eq now nl c :
  plan_tick now nl c =
  (let o := fst (reconcile_with_outcome now nl (controller_min_source_generation c)
                   (promotion_config c) (runtime c)) in
   mk_plan o (actions_for o),
   with_runtime c (snd (reconcile_with_outcome now nl (controller_min_source_generation c)
                          (promotion_config c) (runtime c)))).
Proof. unfold plan_tick, plan_actions. by destruct (reconcile_with_outcome _ _ _ _ _). Qed.

Definition lease_read (reader : AnyLeaseReader) : option LeaseRecord :=
  match read_lease reader with Ok l => l | Err _ => None end.

(** A turn is one tick with the lease that was read (none on a read error), then the
    publication of that lease. *)
Lemma turn_spec service port fresh now reader st st' :
  ha_loop_turn service port fresh now reader st = Ok st' ->
  exists c now_secs fs x,
    load_freshness fresh (controller st) = Ok c /\ now = Ok now_secs /\
    execute_actions (controller_stop_on_error c)
      (actions (fst (plan_tick now_secs (lease_read reader) c))) (executor st) = (fs, x) /\
    st' = mk_loop (snd (plan_tick now_secs (lease_read reader) c))
            (set_ha_state x (publish_lease service port (lease_read reader) (ha_state x))) now_secs.
Proof.
  unfold ha_loop_turn, lease_read, tick_with_reader.
  destruct (load_freshness fresh (controller st)) as [c|]; [|done].
  destruct now as [now_secs|]; [|done].
  destruct (read_lease reader) as [nl|e].
  - destruct (tick_plan now_secs nl c (executor st)) as (fs & x & -> & Hx).
    intros [= <-]. exists c, now_secs, fs, x. rewrite plan_tick_eq in *. cbn [fst snd report_plan outcome].
    rewrite outcome_observation, lease_from_observe. done.
  - destruct (tick_plan now_secs None c (executor st)) as (fs & x & -> & Hx).
    intros [= <-]. by exists c, now_secs, fs, x.
Qed.

(** ** The executor without I/O failures *)

Definition faultless (x : ReadinessAwareExecutor) : Prop :=
  io_script (inner (ra_inner x)) = [] /\ readiness_script x = [].

Definition shared_effect (a : HaAction) (s : HaSharedState) : HaSharedState :=
  match a with
  | EnableWriter g => shared_generation g (shared_role Writer s)
  | KeepWriter => shared_role Writer s
  | _ => shared_role Replica s
  end.

Definition ready_effect (a : HaAction) : bool :=
  match a with EnableWriter _ | KeepWriter => true | _ => false end.

Lemma execute_faultless a x : faultless x ->
  exists x', execute_action a x = (Ok tt, x') /\ faultless x' /\
    ha_state x' = shared_effect a (ha_state x) /\ readiness_state x' = ready_effect a.
Proof.
  destruct x as [[[rs al io] comp ev] path rf rscript ready s]. intros [Hi Hr]. cbn in Hi, Hr. subst.
  destruct a; cbn; unfold andThen, on_inner, traced_action; cbn; unfold andThen; cbn;
    unfold write_readiness; cbn; destruct path; cbn; eexists; (split; [reflexivity|]); done.
Qed.

Lemma execute_all_faultless stop acts x : faultless x ->
  exists x', execute_actions stop acts x = ([], x') /\ faultless x' /\
    ha_state x' = fold_left (fun s a => shared_effect a s) acts (ha_state x) /\
    readiness_state x' = fold_left (fun _ a => ready_effect a) acts (readiness_state x).
Proof.
  revert x. induction acts as [|a acts IH]; intros x Hx; cbn; [by exists x|].
  destruct (execute_faultless a x Hx) as (x1 & -> & Hx1 & Hs & Hrd).
  destruct (IH x1 Hx1) as (x' & -> & ? & ? & ?). exists x'. by rewrite <- Hs, <- Hrd.
Qed.

(** The gateway's view agrees with the runtime. *)
Record coherent (st : LoopState) : Prop := {
  co_faultless : faultless (executor st);
  co_node : sh_node_id (ha_state (executor st)) = node_id (runtime (controller st));
  co_role : sh_role (ha_state (executor st)) = role (runtime (controller st));
  co_ready : readiness_state (executor st) = bool_decide (role (runtime (controller st)) = Writer);
  co_generation : role (runtime (controller st)) = Writer ->
    sh_generation (ha_state (executor st)) = local_generation (runtime (controller st));
}.

Definition loop_start (id : string) (cfg : PromotionConfig) (min_gen : Z) (stop allow_reads path : bool)
    (role_file_script ready_script : list (option IoError)) : LoopState :=
  mk_loop (set_stop_on_error stop
             (set_promotion_config cfg (set_min_source_generation min_gen (controller_new id))))
    (mk_readiness (mk_tracing (mk_file_exec None "" role_file_script) "ha-controller" [])
       path None ready_script false (shared_new id allow_reads)) 0.

(** The shared fields after the actions of a decision. *)
Lemma decision_effect r r' (o : ReconcileOutcome) s rd :
  role r = sh_role s -> (role r = Writer -> sh_generation s = local_generation r) ->
  match decision o with
  | PromoteToWriter g => role r' = Writer /\ local_generation r' = g
  | DecideKeepWriter =>
      role r = Writer /\ role r' = Writer /\ local_generation r' = local_generation r
  | DemoteToReplica _ | KeepReplica => role r' = Replica
  end ->
  let s' := fold_left (fun s a => shared_effect a s) (actions_for o) s in
  sh_node_id s' = sh_node_id s /\ sh_role s' = role r' /\
  fold_left (fun _ a => ready_effect a) (actions_for o) rd = bool_decide (role r' = Writer) /\
  (role r' = Writer -> sh_generation s' = local_generation r').
Proof.
  intros Hr Hg Hd. unfold actions_for. destruct (decision o).
  - rewrite Hd. destruct (promotion_violation o); cbn; done.
  - destruct Hd as [-> ->]. cbn. done.
  - destruct Hd as (Hw & -> & ->). cbn. split; [done|]. split; [done|]. split; [done|]. by rewrite Hg.
  - rewrite Hd. cbn. done.
Qed.

Lemma reconcile_lease now nl mg cfg r : lease (snd (reconcile_with_outcome now nl mg cfg r)) = nl.
Proof. unfold reconcile_with_outcome. repeat case_match; done. Qed.

(** What a tick does to a shared state in step with the runtime. *)
Lemma turn_effect now nl c s rd :
  sh_node_id s = node_id (runtime c) -> sh_role s = role (runtime c) ->
  (role (runtime c) = Writer -> sh_generation s = local_generation (runtime c)) ->
  let o := reconcile_with_outcome now nl (controller_min_source_generation c)
             (promotion_config c) (runtime c) in
  let s' := fold_left (fun s a => shared_effect a s) (actions_for (fst o)) s in
  sh_node_id s' = node_id (snd o) /\ sh_role s' = role (snd o) /\
  fold_left (fun _ a => ready_effect a) (actions_for (fst o)) rd = bool_decide (role (snd o) = Writer) /\
  (role (snd o) = Writer -> sh_generation s' = local_generation (snd o)) /\
  (role (snd o) = Writer -> exists l, nl = Some l /\ is_expired l now = false /\
     holder_node_id l = node_id (snd o) /\ generation l = local_generation (snd o)).
Proof.
  intros N Ro G o.
  pose proof (reconcile_transitions now nl (controller_min_source_generation c)
                (promotion_config c) (runtime c)) as Htr.
  pose proof (reconcile_writer_ok now nl (controller_min_source_generation c)
                (promotion_config c) (runtime c)) as Hwo.
  pose proof (reconcile_node_id now nl (controller_min_source_generation c)
                (promotion_config c) (runtime c)) as Hid.
  pose proof (reconcile_lease now nl (controller_min_source_generation c)
                (promotion_config c) (runtime c)) as Hle.
  fold o in Htr, Hwo, Hid, Hle. destruct o as [out r']. cbn [fst snd] in *.
  destruct (decision_effect (runtime c) r' out s rd) as (A & B & C & D); [done|done| |].
  { destruct (decision out); naive_solver. }
  split; [congruence|]. split; [done|]. split; [done|]. split; [done|].
  intros Hw. destruct (Hwo Hw) as (l & Hl & ?). exists l. split; [congruence|done].
Qed.

Lemma publish_fields service port cur s :
  let s' := publish_lease service port cur s in
  sh_node_id s' = sh_node_id s /\ sh_role s' = sh_role s /\ sh_generation s' = sh_generation s /\
  lease_record s' = cur.
Proof. destruct cur; done. Qed.

(** Without I/O failures the gateway and the readiness flag stay in step with the runtime. *)
Lemma turn_coherent service port fresh now_secs reader st st' :
  coherent st ->
  ha_loop_turn service port fresh (Ok now_secs) reader st = Ok st' ->
  coherent st' /\
  (is_writer (ha_state (executor st')) now_secs = true <->
   role (runtime (controller st')) = Writer).
Proof.
  intros Hc (c & n & fs & x & Hf & [= <-] & Hx & ->)%turn_spec.
  assert (Hc' : coherent (mk_loop c (executor st) (last_tick_secs st))).
  { destruct Hc. unfold load_freshness in Hf.
    destruct fresh as [[[f|]|]|]; try done; injection Hf as <-; by constructor. }
  clear Hf Hc. destruct Hc' as [F N Ro Rd G]. cbn in *.
  rewrite plan_tick_eq in Hx |- *. cbn [fst snd actions] in *.
  destruct (execute_all_faultless (controller_stop_on_error c) (actions_for (fst
    (reconcile_with_outcome now_secs (lease_read reader) (controller_min_source_generation c)
       (promotion_config c) (runtime c)))) (executor st) F) as (x' & Hx' & F' & Hs & Hr).
  rewrite Hx' in Hx. injection Hx as _ <-.
  set (o := reconcile_with_outcome _ _ _ _ _) in *.
  destruct (turn_effect now_secs (lease_read reader) c (ha_state (executor st))
              (readiness_state (executor st)) N Ro G) as (E1 & E2 & E3 & E4 & E5).
  fold o in E1, E2, E3, E4, E5. rewrite <- Hs in E1, E2, E4. rewrite <- Hr in E3.
  destruct (publish_fields service port (lease_read reader) (ha_state x')) as (P1 & P2 & P3 & P4).
  split; [by constructor; cbn; rewrite ?P1, ?P2, ?P3|].
  cbn [executor set_ha_state ha_state]. rewrite is_writer_true, P1, P2, P3, P4, E2.
  split; [by intros [? _]|]. intros Hw. split; [done|].
  destruct (E5 Hw) as (l & ? & ? & ? & ?). exists l. rewrite E1, (E4 Hw). done.
Qed.

(** ** Several turns *)

(** What one turn reads: the freshness file, the clock and the lease. *)
Record TurnInput := mk_turn {
  in_fresh : option (SyncResult (option FreshnessLedger));
  in_now : SyncResult Z;
  in_reader : AnyLeaseReader;
}.

(** [loop { ... }] over the inputs of its turns; an error leaves the loop. *)
Fixpoint run_turns (service : string) (port : Z) (ins : list TurnInput) (st : LoopState)
  : SyncResult LoopState :=
  match ins with
  | [] => Ok st
  | i :: ins =>
      let? st := ha_loop_turn service port (in_fresh i) (in_now i) (in_reader i) st in
      run_turns service port ins st
  end.

(** A turn in which the node [id] holds the lease of generation [g] and its data is fresh
    enough for the promotion policy. *)
Definition leading_turn (id : string) (g mg : Z) (cfg : PromotionConfig) (i : TurnInput) : Prop :=
  exists f l now, in_fresh i = Some (Ok (Some f)) /\ in_now i = Ok now /\
    read_lease (in_reader i) = Ok (Some l) /\
    promotable now l (mk_promotion_request id g mg) (Some f) cfg.

(** What the turns of a run share: the identity and the policy of the controller. *)
Definition policy (st : LoopState) : string * Z * PromotionConfig :=
  (node_id (runtime (controller st)), controller_min_source_generation (controller st),
   promotion_config (controller st)).

(** Not the writer of another generation. *)
Definition settled (g : Z) (r : HaRuntime) : Prop := role r = Writer -> local_generation r = g.

(** A leading reconciliation settles the runtime, and makes a settled one the writer. *)
Lemma reconcile_leads now l mg cfg r g :
  promotable now l (mk_promotion_request (node_id r) g mg) (freshness r) cfg ->
  let r' := snd (reconcile_with_outcome now (Some l) mg cfg r) in
  settled g r' /\ (settled g r -> role r' = Writer).
Proof.
  intros Hp. pose proof Hp as (He & Hh & Hg & _). cbn in Hh, Hg. cbn zeta. split.
  - intros Hw. destruct (reconcile_writer_ok _ _ _ _ _ Hw) as (l' & Hl & _ & _ & <-).
    rewrite reconcile_lease in Hl. congruence.
  - intros Hs. unfold reconcile_with_outcome. cbn [role lease node_id local_generation freshness].
    case_bool_decide as Hr.
    + assert (Hf : enforce_write_fence now (node_id r) (local_generation r) l = Ok tt)
        by (apply fence_Ok; rewrite (Hs Hr); done).
      by rewrite Hf.
    + rewrite Hg. apply promotion_Ok in Hp. by rewrite Hp.
Qed.

(** A leading turn, from a coherent state. *)
Lemma leading_turn_leads service port i st id g mg cfg :
  coherent st -> policy st = (id, mg, cfg) -> leading_turn id g mg cfg i ->
  exists st', ha_loop_turn service port (in_fresh i) (in_now i) (in_reader i) st = Ok st' /\
    coherent st' /\ policy st' = (id, mg, cfg) /\ settled g (runtime (controller st')) /\
    (settled g (runtime (controller st)) ->
     in_now i = Ok (last_tick_secs st') /\
     is_writer (ha_state (executor st')) (last_tick_secs st') = true).
Proof.
  intros Hc Hp (f & l & now & Ef & En & El & Hpr). rewrite Ef, En.
  destruct (ha_loop_turn service port (Some (Ok (Some f))) (Ok now) (in_reader i) st)
    as [st'|e] eqn:Et;
    [|exfalso; revert Et; unfold ha_loop_turn; cbn; by destruct (tick_with_reader _ _ _ _) as [[? ?] ?]].
  exists st'. split; [done|]. destruct (turn_coherent _ _ _ _ _ _ _ Hc Et) as [Hc' Hw].
  apply turn_spec in Et as (c & n & fs & x & [= <-] & [= <-] & _ & ->).
  rewrite plan_tick_eq in Hc', Hw |- *. unfold lease_read in *. rewrite El in *.
  cbn [snd controller last_tick_secs executor runtime with_runtime] in *.
  injection Hp as <- <- <-.
  destruct (reconcile_leads now l (controller_min_source_generation (controller st))
              (promotion_config (controller st))
              (update_freshness f (runtime (controller st))) g Hpr) as [Hs Hr].
  split; [done|]. split; [|split; [done|]].
  - unfold policy. cbn. by rewrite reconcile_node_id.
  - intros Hs0. split; [done|]. apply Hw. by apply Hr.
Qed.

Lemma settled_run_leads service port i ins st id g mg cfg :
  coherent st -> policy st = (id, mg, cfg) -> settled g (runtime (controller st)) ->
  Forall (leading_turn id g mg cfg) (i :: ins) ->
  exists st', run_turns service port (i :: ins) st = Ok st' /\ coherent st' /\
    is_writer (ha_state (executor st')) (last_tick_secs st') = true.
Proof.
  revert i st. induction ins as [|j ins IH]; intros i st Hc Hp Hs [Hi Hins]%Forall_cons.
  - destruct (leading_turn_leads service port i st id g mg cfg Hc Hp Hi)
      as (st' & E & Hc' & _ & _ & Hw). exists st'. cbn. rewrite E. cbn. by destruct (Hw Hs).
  - destruct (leading_turn_leads service port i st id g mg cfg Hc Hp Hi)
      as (st1 & E & Hc1 & Hp1 & Hs1 & _).
    destruct (IH j st1 Hc1 Hp1 Hs1 Hins) as (st' & E' & H'). exists st'.
    cbn [run_turns] in *. rewrite E. done.
Qed.

(** ** Claims *)

(** After a turn of the loop the gateway accepts writes at any later instant only under the
    lease read in that turn, which names this node and is unexpired then. This
    holds whatever failed: the lease read, the role file, the readiness file. *)
Theorem gateway_writes_need_lease service port fresh now reader st st' t :
  ha_loop_turn service port fresh now reader st = Ok st' ->
  is_writer (ha_state (executor st')) t = true ->
  exists l, read_lease reader = Ok (Some l) /\
    holder_node_id l = sh_node_id (ha_state (executor st')) /\ is_expired l t = false.
Proof.
  intros (c & now_secs & fs & x & _ & _ & _ & ->)%turn_spec Hw.
  cbn [executor ha_state set_ha_state] in *.
  apply is_writer_true in Hw as (_ & l & Hl & He & Hh & _).
  destruct (publish_fields service port (lease_read reader) (ha_state x)) as (_ & _ & _ & Hrec).
  rewrite Hrec in Hl. exists l. split; [|done].
  unfold lease_read in Hl. destruct (read_lease reader) as [o|]; [by rewrite Hl|done].
Qed.

Definition example_reader (l : LeaseRecord) : AnyLeaseReader :=
  FileReader (mk_file_lease_reader (Ok (serialize_lease_record l))).
Definition example_start : LoopState :=
  loop_start "a" default_promotion_config 0 true false true [] [].
Definition fresh_at (t : Z) : option (SyncResult (option FreshnessLedger)) :=
  Some (Ok (Some (mk_freshness "b" 2 t))).

Definition turn_at (t : Z) (fresh : Z) (l : LeaseRecord) (st : LoopState) : LoopState :=
  match ha_loop_turn "svc" 50051 (fresh_at fresh) (Ok t) (example_reader l) st with
  | Ok st => st
  | Err _ => st
  end.

Lemma gateway_writes_need_lease_witness :
  exists l, read_lease (example_reader example_lease) = Ok (Some l) /\
    holder_node_id l = sh_node_id (ha_state (executor (turn_at 105 104 example_lease example_start))) /\
    is_expired l 108 = false.
Proof.
  apply (gateway_writes_need_lease "svc" 50051 (fresh_at 104) (Ok 105)
           (example_reader example_lease) example_start
           (turn_at 105 104 example_lease example_start) 108); vm_compute; reflexivity.
Defined.

(** C15. Without I/O failures every turn keeps the gateway and the readiness flag in step with
    the runtime: the node is ready, and the gateway open for writes at the time of
    the tick, exactly when the runtime is the writer. *)
Theorem turn_keeps_coherence service port fresh now_secs reader st st' :
  coherent st ->
  ha_loop_turn service port fresh (Ok now_secs) reader st = Ok st' ->
  coherent st' /\
  (is_writer (ha_state (executor st')) now_secs = true <->
   role (runtime (controller st')) = Writer).
Proof. apply turn_coherent. Qed.

Lemma turn_keeps_coherence_witness :
  coherent (turn_at 105 104 example_lease example_start) /\
  (is_writer (ha_state (executor (turn_at 105 104 example_lease example_start))) 105 = true <->
   role (runtime (controller (turn_at 105 104 example_lease example_start))) = Writer).
Proof.
  apply (turn_keeps_coherence "svc" 50051 (fresh_at 104) 105 (example_reader example_lease)
           example_start); [|vm_compute; reflexivity].
  constructor; cbn; done.
Defined.

(** C11. Takeover: however the loop got where it is, once the node is the holder of one lease
    generation with fresh data for two turns (and for as long as that lasts), the loop
    keeps running and the node is ready and its gateway accepts writes. One turn is not
    enough: a writer of an older generation is demoted first. *)
Theorem lease_holder_becomes_writer service port ins st id g mg cfg :
  coherent st -> policy st = (id, mg, cfg) ->
  Forall (leading_turn id g mg cfg) ins -> (2 <= length ins)%nat ->
  exists st', run_turns service port ins st = Ok st' /\
    is_writer (ha_state (executor st')) (last_tick_secs st') = true /\
    readiness_state (executor st') = true.
Proof.
  intros Hc Hp Hins Hn. destruct ins as [|i [|j ins]]; cbn in Hn; [lia|lia|].
  apply Forall_cons in Hins as [Hi Hins].
  destruct (leading_turn_leads service port i st id g mg cfg Hc Hp Hi)
    as (st1 & E & Hc1 & Hp1 & Hs1 & _).
  destruct (settled_run_leads service port j ins st1 id g mg cfg Hc1 Hp1 Hs1 Hins)
    as (st' & E' & Hc' & Hw).
  exists st'. cbn [run_turns] in *. rewrite E. split; [done|]. split; [done|].
  rewrite (co_ready _ Hc'). apply is_writer_true in Hw as [Hr _].
  rewrite (co_role _ Hc') in Hr. by rewrite Hr.
Qed.

(** The writer of generation 3 finds itself holding generation 4. *)
Definition example_handover : list TurnInput :=
  let l := mk_lease "a" 4 110 10 in
  [mk_turn (fresh_at 104) (Ok 111) (example_reader l);
   mk_turn (fresh_at 104) (Ok 112) (example_reader l)].

Lemma lease_holder_becomes_writer_witness :
  exists st', run_turns "svc" 50051 example_handover
                (turn_at 105 104 example_lease example_start) = Ok st' /\
    is_writer (ha_state (executor st')) (last_tick_secs st') = true /\
    readiness_state (executor st') = true.
Proof.
  apply (lease_holder_becomes_writer "svc" 50051 example_handover
           (turn_at 105 104 example_lease example_start) "a" 4 0 default_promotion_config).
  - constructor; vm_compute; done.
  - reflexivity.
  - repeat constructor; eexists _, _, _; do 3 (split; [reflexivity|]);
      (split; [reflexivity|]); (split; [reflexivity|]); (split; [reflexivity|]);
      eexists; (split; [reflexivity|]); vm_compute; done.
  - cbn. lia.
Defined.

(** A failed role-file write while enabling the writer is not repaired by later ticks: from
    the next tick on the node reports ready and keeps the writer role, but the
    generation it shares with the gateway is the initial one, so every write is
    still refused under a valid lease (here of generation 3). *)
Theorem failed_enable_strands_writer e :
  let st0 := loop_start "a" default_promotion_config 0 true false true [Some e] [] in
  let st1 := turn_at 105 104 example_lease st0 in
  let st2 := turn_at 106 104 example_lease st1 in
  role (runtime (controller st2)) = Writer /\ readiness_state (executor st2) = true /\
  enforce_write_fence 106 "a" (local_generation (runtime (controller st2))) example_lease = Ok tt /\
  is_writer (ha_state (executor st2)) 106 = false.
Proof. vm_compute. done. Qed.

(** A failed role-file write while disabling the writer leaves the gateway open: once the
    node is again the lease holder of the same generation, the gateway accepts
    writes although the promotion policy denies the node (its data is stale). *)
Theorem failed_disable_leaves_gateway_open e :
  let st0 := loop_start "a" default_promotion_config 0 true false true
               [None; None; Some e; Some e] [] in
  let st1 := turn_at 105 104 example_lease st0 in
  let other := mk_lease "b" 3 110 10 in
  let st2 := turn_at 115 104 other st1 in
  let again := mk_lease "a" 3 130 10 in
  let st3 := turn_at 131 104 again st2 in
  role (runtime (controller st1)) = Writer /\ role (runtime (controller st2)) = Replica /\
  role (runtime (controller st3)) = Replica /\
  validate_promotion 131 again (mk_promotion_request "a" 3 0) (Some (mk_freshness "b" 2 104))
    default_promotion_config = Err (StaleFreshness 27 10) /\
  is_writer (ha_state (executor st3)) 131 = true.
Proof. vm_compute. done. Qed.

(** The health endpoint reports healthy exactly when a tick completed within the tolerated
    delay; before the first tick, or when the loop stalls, it is unavailable. *)
Theorem healthz_tracks_heartbeat ready last_tick now stale :
  fst (readiness_reply "/healthz" ready last_tick now stale) = OK_LINE <->
  last_tick <> 0 /\ sat_sub64 now last_tick <= stale.
Proof.
  unfold readiness_reply. cbn [String.eqb Ascii.eqb eqb].
  destruct (last_tick =? 0) eqn:E; zbool; [naive_solver|].
  destruct (stale <? sat_sub64 now last_tick) eqn:E2; zbool; naive_solver lia.
Qed.

Definition disk_full : IoError := mk_io_error OtherKind "No space left on device".
Definition demote_plan : ControllerPlan :=
  mk_plan (mk_outcome_ha (DemoteToReplica LeaseMissing) Missing None)
    [DisableWriter LeaseMissing; EnsureReplica].

Lemma execution_stops_at_failure_witness :
  let x := mk_file_exec None "" [Some disk_full] in
  let x' := mk_file_exec None "" [] in
  report_plan (mk_report demote_plan [(DisableWriter LeaseMissing, disk_full)]) = demote_plan /\
  ((failures (mk_report demote_plan [(DisableWriter LeaseMissing, disk_full)]) = [] /\
    x' = run_actions (actions demote_plan) x) \/
   exists pre a e post,
     actions demote_plan = pre ++ a :: post /\
     failures (mk_report demote_plan [(DisableWriter LeaseMissing, disk_full)]) = [(a, e)] /\
     x' = run_actions (pre ++ [a]) x /\ fst (execute_action a (run_actions pre x)) = Err e).
Proof.
  apply (execution_stops_at_failure demote_plan (mk_file_exec None "" [Some disk_full])
           (mk_report demote_plan [(DisableWriter LeaseMissing, disk_full)])
           (mk_file_exec None "" [])).
  vm_compute. reflexivity.
Defined.

Lemma lease_read_failure_demotes_witness :
  let '(o, c', _) := tick_with_reader 106 (FileReader (mk_file_lease_reader (Err disk_full)))
                       (controller (turn_at 105 104 example_lease example_start))
                       (mk_file_exec None "" []) in
  role (runtime c') = Replica /\
  exists report, o = LeaseReadFailed "failed reading lease file: No space left on device" report /\
    forall a, a ∈ actions (report_plan report) ->
      match a with EnableWriter _ | KeepWriter => False | _ => True end.
Proof.
  apply (lease_read_failure_demotes 106 (FileReader (mk_file_lease_reader (Err disk_full)))
           "failed reading lease file: No space left on device"
           (controller (turn_at 105 104 example_lease example_start)) (mk_file_exec None "" [])).
  reflexivity.
Defined.
