(* ===== verification/HaTests.v ===== *)
(** * The unit tests of the HA module on the model (src/src/ha.rs)

    Each definition is a test of [mod tests]: its calls, and its assertions as a
    proposition about the definitions of [Ha] and [HaLoop].  [ha_tests_hold] proves them
    all: the model gives the results that the authors expect of the code.

    Files of a test are values; the JSON texts stand for the values they denote, so
    [serde_json] and the timestamp parser are given by what they return on them. *)

From S2P Require Import Prelude RustStr Errors KvText Ha HaLoop.

Module HaTests.

(** [MockExecutor]: the calls it recorded, and the call that fails. *)
Record MockExecutor := mk_mock { calls : list string; fail_on_call : option nat }.
Definition mock_default : MockExecutor := mk_mock [] None.
Definition with_fail_on_call (n : nat) : MockExecutor := mk_mock [] (Some n).
Definition should_fail (x : MockExecutor) : bool :=
  match fail_on_call x with Some target => (length (calls x) =? target)%nat | None => false end.
Definition mock_call (failed call : string) (x : MockExecutor) : Result string unit * MockExecutor :=
  if should_fail x then (Err failed, x) else (Ok tt, mk_mock (calls x ++ [call]) (fail_on_call x)).

#[export] Instance mock_executor : HaActionExecutor MockExecutor string := {|
  ensure_replica := mock_call "ensure failed" "ensure_replica";
  enable_writer gen := mock_call "enable failed" ("enable_writer:" +++ show_Z gen);
  disable_writer reason := mock_call "disable failed" ("disable_writer:" +++ debug_reason reason);
  keep_writer := mock_call "keep failed" "keep_writer";
  record_promotion_denied v := mock_call "record denied failed" ("record_denied:" +++ debug_violation v);
|}.

(** [MockLeaseReader], by its next reply. *)
Record MockLeaseReader := mk_mock_reader { reply : Result string (option LeaseRecord) }.
#[export] Instance mock_lease_reader : LeaseReader MockLeaseReader string := {| read_lease := reply |}.

Definition freshness (source_generation synced_at_secs : Z) : FreshnessLedger :=
  mk_freshness "node-a" source_generation synced_at_secs.
Definition request (candidate : string) (target min : Z) : PromotionRequest :=
  mk_promotion_request candidate target min.
Definition cfg : PromotionConfig := mk_promotion_config 10 2.
Definition err_contains {A} (part : string) (r : Result string A) : Prop :=
  match r with Err e => contains part e = true | Ok _ => False end.

(** ** Leases, fence and promotion *)

Definition lease_is_not_expired_at_exact_boundary : Prop :=
  is_expired (mk_lease "node-a" 7 100 10) 110 = false.
Definition lease_expires_after_boundary : Prop := is_expired (mk_lease "node-a" 7 100 10) 111 = true.

Definition write_fence_allows_valid_owner_and_generation : Prop :=
  enforce_write_fence 108 "node-a" 9 (mk_lease "node-a" 9 100 10) = Ok tt.
Definition write_fence_rejects_expired_lease : Prop :=
  enforce_write_fence 200 "node-a" 9 (mk_lease "node-a" 9 100 10) = Err FenceLeaseExpired.
Definition write_fence_rejects_wrong_holder : Prop :=
  enforce_write_fence 108 "node-b" 9 (mk_lease "node-a" 9 100 10) = Err (FenceNotLeaseHolder "node-a").
Definition write_fence_rejects_generation_mismatch : Prop :=
  enforce_write_fence 108 "node-a" 9 (mk_lease "node-a" 10 100 10) = Err (GenerationMismatch 9 10).

Definition promotion_allows_when_all_constraints_hold : Prop :=
  validate_promotion 220 (mk_lease "node-b" 12 200 20) (request "node-b" 12 11)
    (Some (freshness 12 215)) cfg = Ok tt.
Definition promotion_rejects_without_freshness : Prop :=
  validate_promotion 220 (mk_lease "node-b" 12 200 20) (request "node-b" 12 11) None
    default_promotion_config = Err MissingFreshness.
Definition promotion_rejects_non_holder : Prop :=
  validate_promotion 220 (mk_lease "node-a" 12 200 20) (request "node-b" 12 11)
    (Some (freshness 12 218)) default_promotion_config = Err (NotLeaseHolder "node-a").
Definition promotion_rejects_target_generation_mismatch : Prop :=
  validate_promotion 220 (mk_lease "node-b" 12 200 20) (request "node-b" 13 11)
    (Some (freshness 12 218)) default_promotion_config = Err (TargetGenerationMismatch 13 12).
Definition promotion_rejects_expired_lease : Prop :=
  validate_promotion 300 (mk_lease "node-b" 12 200 5) (request "node-b" 12 11)
    (Some (freshness 12 203)) default_promotion_config = Err LeaseExpired.
Definition promotion_rejects_future_freshness_beyond_skew : Prop :=
  validate_promotion 220 (mk_lease "node-b" 12 200 20) (request "node-b" 12 11)
    (Some (freshness 12 230)) cfg = Err (FreshnessFromFuture 230 220 2).
Definition promotion_rejects_stale_freshness : Prop :=
  validate_promotion 220 (mk_lease "node-b" 12 200 20) (request "node-b" 12 11)
    (Some (freshness 12 190)) cfg = Err (StaleFreshness 30 10).
Definition promotion_rejects_lineage_too_old : Prop :=
  validate_promotion 220 (mk_lease "node-b" 12 200 20) (request "node-b" 12 15)
    (Some (freshness 14 219)) default_promotion_config = Err (LineageTooOld 14 15).

(** ** Files *)

Definition parse_freshness_ledger_accepts_valid_input : Prop :=
  parse_freshness_ledger ("source_node_id=node-a" +++ nl +++ "source_generation=9" +++ nl +++
                          "synced_at_secs=123" +++ nl) = Ok (mk_freshness "node-a" 9 123).
Definition parse_freshness_ledger_rejects_missing_fields : Prop :=
  err_contains "missing source_generation"
    (parse_freshness_ledger ("source_node_id=node-a" +++ nl +++ "synced_at_secs=123" +++ nl)).
Definition parse_freshness_ledger_rejects_unknown_key : Prop :=
  err_contains "unknown freshness key: bogus" (parse_freshness_ledger ("bogus=1" +++ nl)).

Definition lease_record_round_trip_serialization : Prop :=
  let lease := mk_lease "node-z" 42 1000 15 in
  parse_lease_record (serialize_lease_record lease) = Ok lease.
Definition parse_lease_record_rejects_missing_field : Prop :=
  err_contains "renewed_at_secs"
    (parse_lease_record ("holder_node_id=node-a" +++ nl +++ "generation=1" +++ nl +++ "ttl_secs=10" +++ nl)).

Definition read_file (content : Result IoError string) : Result string (option LeaseRecord) :=
  read_lease (mk_file_lease_reader content).
Definition file_lease_reader_returns_none_for_missing_or_empty_file : Prop :=
  read_file (Err (mk_io_error NotFound "No such file or directory (os error 2)")) = Ok None /\
  read_file (Ok nl) = Ok None /\ read_file (Ok ("none" +++ nl)) = Ok None.
Definition file_lease_reader_reads_valid_lease : Prop :=
  let lease := mk_lease "node-a" 7 111 10 in
  read_file (Ok (serialize_lease_record lease)) = Ok (Some lease).
Definition file_lease_reader_rejects_invalid_lease_content : Prop :=
  err_contains "invalid generation"
    (read_file (Ok ("holder_node_id=node-a" +++ nl +++ "generation=abc" +++ nl))).

(** ** The Kubernetes lease *)

Definition no_json (v : Value) (_ : string) : Result string Value := Ok v.
Definition rfc3339 (s : string) : Result string Z :=
  if String.eqb s "2026-01-01T00:00:30Z" then Ok 1767225630 else Err "input contains invalid characters".
Definition lease_object (annotations : list (string * Value)) (spec : list (string * Value)) : Value :=
  VObject [("metadata", VObject [("annotations", VObject annotations)]); ("spec", VObject spec)].
Definition generation_annotation (g : string) : list (string * Value) :=
  [("rsqlite-rsync.dev/generation", VString g)].
Definition held (renew_time : string) : list (string * Value) :=
  [("holderIdentity", VString "node-a"); ("leaseDurationSeconds", Number 15);
   ("renewTime", VString renew_time)].
Definition parse_json (v : Value) : Result string (option LeaseRecord) :=
  parse_kubernetes_lease_json (no_json v) rfc3339 "".

Definition parse_kubernetes_lease_json_accepts_valid_payload : Prop :=
  parse_json (lease_object (generation_annotation "42") (held "2026-01-01T00:00:30Z"))
    = Ok (Some (mk_lease "node-a" 42 1767225630 15)).
Definition parse_kubernetes_lease_json_returns_none_when_unheld : Prop :=
  parse_json (lease_object (generation_annotation "1")
    [("leaseDurationSeconds", Number 5); ("renewTime", VString "2026-01-01T00:00:30Z")]) = Ok None.
Definition parse_kubernetes_lease_json_rejects_missing_generation_annotation : Prop :=
  err_contains "metadata.annotations[rsqlite-rsync.dev/generation]"
    (parse_json (lease_object [] (held "2026-01-01T00:00:30Z"))).
Definition parse_kubernetes_lease_json_rejects_invalid_renew_time : Prop :=
  err_contains "invalid spec.renewTime"
    (parse_json (lease_object (generation_annotation "42") (held "not-a-time"))).
Definition parse_kubernetes_lease_json_rejects_missing_spec : Prop :=
  err_contains "missing spec"
    (parse_json (VObject [("metadata", VObject [("annotations", VObject [])])])).
Definition parse_kubernetes_lease_json_rejects_invalid_generation_value : Prop :=
  err_contains "invalid metadata.annotations[rsqlite-rsync.dev/generation]"
    (parse_json (lease_object (generation_annotation "not-a-number") (held "2026-01-01T00:00:30Z"))).

Definition kubectl_lease_reader_exposes_namespace_and_lease_name : Prop :=
  let reader := kubectl_new "kubectl" "prod" "sqlite-writer-lease" in
  namespace reader = "prod" /\ lease_name reader = "sqlite-writer-lease".

(** The script prints the lease; what it captures is its command line. *)
Definition kubectl_lease_reader_passes_context_and_kubeconfig_and_parses_output : Prop :=
  let reader := set_kubeconfig (Some "/etc/kube/config")
                  (set_kube_context (Some "my-context")
                     (kubectl_new "fake-kubectl.sh" "prod" "sqlite-writer-lease")) in
  let json := lease_object (generation_annotation "7") (held "2026-01-01T00:00:30Z") in
  let captured_args := String.concat " " (kubectl_args reader) in
  kubectl_read_lease (no_json json) rfc3339 (fun _ _ => Ok (mk_output true (Ok "") "")) reader
    = Ok (Some (mk_lease "node-a" 7 1767225630 15)) /\
  contains "--context my-context" captured_args = true /\
  contains "--kubeconfig /etc/kube/config" captured_args = true.

(** ** Runtime *)

Definition runtime_with (f : FreshnessLedger) : HaRuntime := update_freshness f (runtime_new "node-a").

Definition runtime_stays_replica_without_lease : Prop :=
  let '(decision, runtime) := reconcile 100 None 0 default_promotion_config (runtime_new "node-a") in
  decision = KeepReplica /\ role runtime = Replica.
Definition runtime_promotes_with_valid_lease_and_freshness : Prop :=
  let '(decision, runtime) :=
    reconcile 100 (Some (mk_lease "node-a" 7 98 10)) 7 cfg (runtime_with (freshness 7 95)) in
  decision = PromoteToWriter 7 /\ role runtime = Writer /\ local_generation runtime = 7.
Definition runtime_rejects_promotion_when_freshness_is_stale : Prop :=
  let '(decision, runtime) :=
    reconcile 100 (Some (mk_lease "node-a" 7 98 10)) 7 cfg (runtime_with (freshness 7 70)) in
  decision = KeepReplica /\ role runtime = Replica.
Definition runtime_demotes_writer_on_lease_loss : Prop :=
  let '(promoted, runtime) :=
    reconcile 100 (Some (mk_lease "node-a" 7 99 10)) 7 default_promotion_config
      (runtime_with (freshness 7 95)) in
  let '(demoted, runtime) := reconcile 101 None 7 default_promotion_config runtime in
  promoted = PromoteToWriter 7 /\ demoted = DemoteToReplica LeaseMissing /\ role runtime = Replica.
Definition runtime_demotes_writer_when_lease_stolen : Prop :=
  let '(promoted, runtime) :=
    reconcile 100 (Some (mk_lease "node-a" 8 99 10)) 8 default_promotion_config
      (runtime_with (freshness 8 95)) in
  let '(demoted, runtime) :=
    reconcile 101 (Some (mk_lease "node-b" 8 100 10)) 8 default_promotion_config runtime in
  promoted = PromoteToWriter 8 /\
  demoted = DemoteToReplica (FenceViolation (FenceNotLeaseHolder "node-b")) /\ role runtime = Replica.
Definition runtime_keeps_writer_when_fence_still_valid : Prop :=
  let '(promoted, runtime) :=
    reconcile 100 (Some (mk_lease "node-a" 9 99 10)) 9 default_promotion_config
      (runtime_with (freshness 9 95)) in
  let '(keep, runtime) :=
    reconcile 104 (Some (mk_lease "node-a" 9 103 10)) 9 default_promotion_config runtime in
  promoted = PromoteToWriter 9 /\ keep = DecideKeepWriter /\ role runtime = Writer.

Definition outcome_reports_promotion_violation : Prop :=
  let '(outcome, _) :=
    reconcile_with_outcome 100 (Some (mk_lease "node-a" 7 98 10)) 7 cfg (runtime_with (freshness 7 70)) in
  decision outcome = KeepReplica /\ promotion_violation outcome = Some (StaleFreshness 30 10).

(** The observation of a second lease after [node-a] has taken the first. *)
Definition second_observation (l : LeaseRecord) : LeaseObservation :=
  let '(_, runtime) :=
    reconcile_with_outcome 100 (Some (mk_lease "node-a" 4 99 10)) 4 default_promotion_config
      (runtime_with (freshness 4 99)) in
  lease_observation (fst (reconcile_with_outcome 101 (Some l) 4 default_promotion_config runtime)).
Definition outcome_marks_lease_as_acquired : Prop :=
  match lease_observation (fst (reconcile_with_outcome 100 (Some (mk_lease "node-a" 4 99 10)) 4
          default_promotion_config (runtime_with (freshness 4 99)))) with
  | Acquired _ => True | _ => False
  end.
Definition outcome_marks_lease_as_renewed : Prop :=
  match second_observation (mk_lease "node-a" 4 100 10) with Renewed _ => True | _ => False end.
Definition outcome_marks_lease_as_transferred : Prop :=
  match second_observation (mk_lease "node-b" 4 100 10) with Transferred _ _ => True | _ => False end.
Definition outcome_marks_lease_as_replaced_on_generation_bump : Prop :=
  match second_observation (mk_lease "node-a" 5 100 10) with Replaced _ => True | _ => False end.

Definition observe_lease_change_reports_unchanged_for_identical_lease : Prop :=
  let same_lease := mk_lease "node-a" 1 99 10 in
  let '(first, runtime) :=
    reconcile_with_outcome 100 (Some same_lease) 1 default_promotion_config (runtime_with (freshness 1 99)) in
  let '(second, _) := reconcile_with_outcome 101 (Some same_lease) 1 default_promotion_config runtime in
  decision first = PromoteToWriter 1 /\ decision second = DecideKeepWriter /\
  lease_observation second = Unchanged same_lease.

Definition ha_shared_state_is_writer_false_when_role_writer_but_no_lease_record : Prop :=
  is_writer (shared_role Writer (shared_new "node-a" false)) 100 = false.

Definition ha_runtime_accessors_expose_identity_lease_and_freshness : Prop :=
  let runtime := runtime_new "node-a" in
  let updated := update_freshness (freshness 1 42) runtime in
  let '(_, after) :=
    reconcile_with_outcome 100 (Some (mk_lease "node-a" 1 42 10)) 1 default_promotion_config updated in
  node_id runtime = "node-a" /\ lease runtime = None /\ Ha.freshness runtime = None /\
  Ha.freshness updated = Some (freshness 1 42) /\ lease after = Some (mk_lease "node-a" 1 42 10).

(** ** Plans *)

Definition plan_actions_for_successful_promotion_enables_writer : Prop :=
  let '(plan, _) := plan_actions 101 (Some (mk_lease "node-a" 6 100 10)) 6 default_promotion_config
                      (runtime_with (freshness 6 100)) in
  decision (outcome plan) = PromoteToWriter 6 /\ actions plan = [EnableWriter 6].
Definition plan_actions_for_demotion_disables_writer_and_ensures_replica : Prop :=
  let '(_, runtime) := plan_actions 101 (Some (mk_lease "node-a" 6 100 10)) 6 default_promotion_config
                         (runtime_with (freshness 6 100)) in
  let '(plan, _) := plan_actions 200 None 6 default_promotion_config runtime in
  decision (outcome plan) = DemoteToReplica LeaseMissing /\
  actions plan = [DisableWriter LeaseMissing; EnsureReplica].
Definition plan_actions_for_denied_promotion_records_violation : Prop :=
  let '(plan, _) := plan_actions 100 (Some (mk_lease "node-a" 6 99 10)) 6 cfg
                      (runtime_with (freshness 6 10)) in
  decision (outcome plan) = KeepReplica /\
  actions plan = [EnsureReplica; RecordPromotionDenied (StaleFreshness 90 10)].
Definition plan_actions_keep_writer_after_promotion_when_lease_still_valid : Prop :=
  let current_lease := mk_lease "node-a" 4 99 10 in
  let '(promote_plan, runtime) := plan_actions 100 (Some current_lease) 4 default_promotion_config
                                    (runtime_with (freshness 4 99)) in
  let '(keep_plan, _) := plan_actions 101 (Some current_lease) 4 default_promotion_config runtime in
  decision (outcome promote_plan) = PromoteToWriter 4 /\
  decision (outcome keep_plan) = DecideKeepWriter /\ actions keep_plan = [KeepWriter].

Definition plan_of (d : ReconcileDecision) (v : option PromotionViolation) (acts : list HaAction)
  : ControllerPlan := mk_plan (mk_outcome_ha d Missing v) acts.

Definition execute_controller_plan_runs_actions_in_order : Prop :=
  let '(report, exec) :=
    execute_controller_plan
      (plan_of (PromoteToWriter 4) None [EnsureReplica; EnableWriter 4; KeepWriter]) true mock_default in
  is_success report = true /\ calls exec = ["ensure_replica"; "enable_writer:4"; "keep_writer"].
Definition execute_controller_plan_stops_on_error_when_requested : Prop :=
  let '(report, exec) :=
    execute_controller_plan
      (plan_of KeepReplica (Some MissingFreshness)
         [EnsureReplica; RecordPromotionDenied MissingFreshness; KeepWriter])
      true (with_fail_on_call 1) in
  is_success report = false /\
  map fst (failures report) = [RecordPromotionDenied MissingFreshness] /\
  calls exec = ["ensure_replica"].
Definition execute_controller_plan_reports_failure_for_every_action_kind : Prop :=
  Forall (fun action =>
      let '(report, _) :=
        execute_controller_plan (plan_of DecideKeepWriter None [action]) true (with_fail_on_call 0) in
      is_success report = false /\ head (map fst (failures report)) = Some action)
    [EnableWriter 1; DisableWriter LeaseMissing; KeepWriter; RecordPromotionDenied MissingFreshness].
Definition plan_and_execute_uses_runtime_planning_path : Prop :=
  let '(report, _, exec) :=
    plan_and_execute 100 (Some (mk_lease "node-a" 5 99 10)) 5 default_promotion_config true
      (runtime_with (freshness 5 99)) mock_default in
  is_success report = true /\ decision (outcome (report_plan report)) = PromoteToWriter 5 /\
  calls exec = ["enable_writer:5"].

(** ** Controller *)

Definition controller_with (generation synced_at : Z) : HaController :=
  set_min_source_generation generation
    (controller_update_freshness (freshness generation synced_at) (controller_new "node-a")).

Definition controller_plan_tick_uses_internal_policy : Prop :=
  let '(plan, _) := plan_tick 100 (Some (mk_lease "node-a" 5 99 10)) (controller_with 5 99) in
  decision (outcome plan) = PromoteToWriter 5 /\ actions plan = [EnableWriter 5].
Definition controller_tick_executes_actions : Prop :=
  let '(report, _, exec) :=
    tick 50 (Some (mk_lease "node-a" 2 49 10)) (controller_with 2 49) mock_default in
  is_success report = true /\ calls exec = ["enable_writer:2"].
Definition controller_tick_continues_when_stop_on_error_disabled : Prop :=
  let controller :=
    set_min_source_generation 3
      (controller_update_freshness (freshness 3 0)
         (set_promotion_config cfg (set_stop_on_error false (controller_new "node-a")))) in
  let '(report, _, exec) :=
    tick 100 (Some (mk_lease "node-a" 3 99 10)) controller (with_fail_on_call 0) in
  is_success report = false /\ length (failures report) = 2%nat /\ calls exec = [].

Definition tick_with_reader_executes_using_read_lease : Prop :=
  let '(outcome_, _, exec) :=
    tick_with_reader 100 (mk_mock_reader (Ok (Some (mk_lease "node-a" 3 99 10)))) (controller_with 3 99)
      mock_default in
  match outcome_ with
  | Executed report =>
      is_success report = true /\ decision (outcome (report_plan report)) = PromoteToWriter 3
  | LeaseReadFailed _ _ => False
  end /\ calls exec = ["enable_writer:3"].
Definition tick_with_reader_lease_error_runs_fail_safe_fallback : Prop :=
  let '(promote, controller, exec) :=
    tick 100 (Some (mk_lease "node-a" 4 99 10)) (controller_with 4 99) mock_default in
  let '(outcome_, controller', exec) :=
    tick_with_reader 101 (mk_mock_reader (Err "lease api unavailable")) controller exec in
  is_success promote = true /\ role (runtime controller) = Writer /\
  match outcome_ with
  | LeaseReadFailed error fallback_report =>
      error = "lease api unavailable" /\
      decision (outcome (report_plan fallback_report)) = DemoteToReplica LeaseMissing /\
      is_success fallback_report = true
  | Executed _ => False
  end /\
  role (runtime controller') = Replica /\
  calls exec = ["enable_writer:4"; "disable_writer:LeaseMissing"; "ensure_replica"].
Definition controller_tick_outcome_report_returns_inner_report_for_both_variants : Prop :=
  let '(executed, controller, exec) :=
    tick_with_reader 100 (mk_mock_reader (Ok (Some (mk_lease "node-a" 3 99 10)))) (controller_with 3 99)
      mock_default in
  let '(lease_read_failed, _, _) :=
    tick_with_reader 101 (mk_mock_reader (Err "lease api unavailable")) controller exec in
  is_success (outcome_report executed) = true /\ is_success (outcome_report lease_read_failed) = true.

(** ** Executors *)

Definition traced (x : MockExecutor) : TracingExecutor MockExecutor := mk_tracing x "test-ha" [].

Definition tracing_executor_delegates_successfully : Prop :=
  let '(report, exec) :=
    execute_controller_plan (plan_of DecideKeepWriter None [EnsureReplica; KeepWriter]) true
      (traced mock_default) in
  is_success report = true /\ calls (inner exec) = ["ensure_replica"; "keep_writer"].
Definition tracing_executor_preserves_failures : Prop :=
  let '(report, exec) :=
    execute_controller_plan
      (plan_of KeepReplica (Some MissingFreshness) [EnsureReplica; RecordPromotionDenied MissingFreshness])
      true (traced (with_fail_on_call 1)) in
  is_success report = false /\ length (failures report) = 1%nat /\ calls (inner exec) = ["ensure_replica"].
Definition tracing_executor_delegates_every_action_success_and_failure : Prop :=
  let '(r1, x) := enable_writer 3 (traced mock_default) in
  let '(r2, x) := disable_writer LeaseMissing x in
  let '(r3, x) := keep_writer x in
  let '(r4, x) := record_promotion_denied MissingFreshness x in
  [r1; r2; r3; r4] = [Ok tt; Ok tt; Ok tt; Ok tt] /\
  calls (inner x) = ["enable_writer:3"; "disable_writer:LeaseMissing"; "keep_writer";
                     "record_denied:MissingFreshness"] /\
  fst (enable_writer 1 (traced (with_fail_on_call 0))) = Err "enable failed" /\
  fst (disable_writer LeaseMissing (traced (with_fail_on_call 0))) = Err "disable failed" /\
  fst (keep_writer (traced (with_fail_on_call 0))) = Err "keep failed" /\
  fst (record_promotion_denied MissingFreshness (traced (with_fail_on_call 0))) = Err "record denied failed".

Definition file_exec : FileActionExecutor := mk_file_exec None "" [].

Definition file_action_executor_writes_expected_state_and_audit : Prop :=
  let '(r1, x) := enable_writer 11 file_exec in
  let '(r2, x) := keep_writer x in
  let '(r3, x) := disable_writer LeaseMissing x in
  let '(r4, x) := ensure_replica x in
  let '(r5, x) := record_promotion_denied MissingFreshness x in
  [r1; r2; r3; r4; r5] = [Ok tt; Ok tt; Ok tt; Ok tt; Ok tt] /\
  role_state x = Some ("replica" +++ nl) /\
  Forall (fun line => contains line (audit_log x) = true)
    ["action=enable_writer generation=11 result=ok"; "action=keep_writer result=ok";
     "action=disable_writer reason=LeaseMissing result=ok"; "action=ensure_replica result=ok";
     "action=record_promotion_denied violation=MissingFreshness result=ok"].
Definition controller_tick_with_file_executor_updates_files : Prop :=
  let '(report, _, exec) := tick 100 (Some (mk_lease "node-a" 9 99 10)) (controller_with 9 99) file_exec in
  is_success report = true /\ decision (outcome (report_plan report)) = PromoteToWriter 9 /\
  role_state exec = Some ("writer:9" +++ nl) /\
  contains "action=enable_writer generation=9 result=ok" (audit_log exec) = true.

(** ** All of them *)
Definition all_hold (tests : list Prop) : Prop := Forall id tests.

Definition ha_tests : list Prop :=
  [lease_is_not_expired_at_exact_boundary; lease_expires_after_boundary;
   write_fence_allows_valid_owner_and_generation; write_fence_rejects_expired_lease;
   write_fence_rejects_wrong_holder; write_fence_rejects_generation_mismatch;
   promotion_allows_when_all_constraints_hold; promotion_rejects_without_freshness;
   promotion_rejects_non_holder; promotion_rejects_target_generation_mismatch;
   promotion_rejects_expired_lease; promotion_rejects_future_freshness_beyond_skew;
   promotion_rejects_stale_freshness; promotion_rejects_lineage_too_old;
   parse_freshness_ledger_accepts_valid_input; parse_freshness_ledger_rejects_missing_fields;
   parse_freshness_ledger_rejects_unknown_key; lease_record_round_trip_serialization;
   parse_lease_record_rejects_missing_field;
   file_lease_reader_returns_none_for_missing_or_empty_file;
   file_lease_reader_reads_valid_lease; file_lease_reader_rejects_invalid_lease_content;
   parse_kubernetes_lease_json_accepts_valid_payload;
   parse_kubernetes_lease_json_returns_none_when_unheld;
   parse_kubernetes_lease_json_rejects_missing_generation_annotation;
   parse_kubernetes_lease_json_rejects_invalid_renew_time;
   parse_kubernetes_lease_json_rejects_missing_spec;
   parse_kubernetes_lease_json_rejects_invalid_generation_value;
   kubectl_lease_reader_exposes_namespace_and_lease_name;
   kubectl_lease_reader_passes_context_and_kubeconfig_and_parses_output;
   runtime_stays_replica_without_lease; runtime_promotes_with_valid_lease_and_freshness;
   runtime_rejects_promotion_when_freshness_is_stale; runtime_demotes_writer_on_lease_loss;
   runtime_demotes_writer_when_lease_stolen; runtime_keeps_writer_when_fence_still_valid;
   outcome_reports_promotion_violation; outcome_marks_lease_as_acquired;
   outcome_marks_lease_as_renewed; outcome_marks_lease_as_transferred;
   outcome_marks_lease_as_replaced_on_generation_bump;
   observe_lease_change_reports_unchanged_for_identical_lease;
   ha_shared_state_is_writer_false_when_role_writer_but_no_lease_record;
   ha_runtime_accessors_expose_identity_lease_and_freshness;
   plan_actions_for_successful_promotion_enables_writer;
   plan_actions_for_demotion_disables_writer_and_ensures_replica;
   plan_actions_for_denied_promotion_records_violation;
   plan_actions_keep_writer_after_promotion_when_lease_still_valid;
   execute_controller_plan_runs_actions_in_order;
   execute_controller_plan_stops_on_error_when_requested;
   execute_controller_plan_reports_failure_for_every_action_kind;
   plan_and_execute_uses_runtime_planning_path; controller_plan_tick_uses_internal_policy;
   controller_tick_executes_actions; controller_tick_continues_when_stop_on_error_disabled;
   tick_with_reader_executes_using_read_lease;
   tick_with_reader_lease_error_runs_fail_safe_fallback;
   controller_tick_outcome_report_returns_inner_report_for_both_variants;
   tracing_executor_delegates_successfully; tracing_executor_preserves_failures;
   tracing_executor_delegates_every_action_success_and_failure;
   file_action_executor_writes_expected_state_and_audit;
   controller_tick_with_file_executor_updates_files].
End HaTests.

(** Every unit test of the HA module holds of the model. *)
Theorem ha_tests_hold : HaTests.all_hold HaTests.ha_tests.
Proof. unfold HaTests.all_hold, HaTests.ha_tests. repeat constructor. Qed.
