(* ===== verification/Auth.v ===== *)
(** * Gateway authentication (src/src/gateway/auth.rs, the policy of src/src/main.rs)

    Bearer tokens compared without a data-dependent exit; [check_accepts_exactly]
    shows that the comparison is equality and that no other header is accepted. *)

From S2P Require Import Prelude RustStr Errors.

(** ** Status *)

Inductive Code :=
| Unauthenticated | FailedPrecondition | InvalidArgument | Internal | Unavailable
| DeadlineExceeded | PermissionDenied | StatusNotFound | Unknown | StatusOk | Cancelled
| AlreadyExists | ResourceExhausted | Aborted | OutOfRange | Unimplemented | DataLoss.

Record Status := mk_status {
  code : Code;
  message : string;
  metadata : list (string * string);
}.

#[export] Instance Code_eq_dec : EqDecision Code.
Proof. solve_decision. Defined.

Definition status (c : Code) (m : string) : Status := mk_status c m [].
Definition unauthenticated : string -> Status := status Unauthenticated.

(** ** Comparison *)

Fixpoint as_bytes (s : string) : bytes :=
  match s with "" => [] | String a r => RustStr.code a :: as_bytes r end.

Definition constant_time_eq (a b : bytes) : bool :=
  if negb (zlen a =? zlen b) then false
  else fold_left (fun acc '(x, y) => Z.lor acc (Z.lxor x y)) (zip a b) 0 =? 0.

(** ** AuthConfig *)

Record AuthConfig := mk_auth { token : option string }.

Definition required (t : string) : AuthConfig := mk_auth (Some t).
Definition disabled : AuthConfig := mk_auth None.
Definition is_disabled (c : AuthConfig) : bool :=
  match token c with None => true | Some _ => false end.

(** [MetadataValue::to_str]: visible ASCII and tab. *)
Definition header_char (a : ascii) : bool :=
  let c := RustStr.code a in ((32 <=? c) && (c <? 127)) || (c =? 9).
Definition to_str (header : string) : option string :=
  if all_chars header_char header then Some header else None.

(** [check]: the [authorization] header of a request, if any. *)
Definition check (c : AuthConfig) (authorization : option string) : Result Status unit :=
  match token c with
  | None => Ok tt
  | Some expected =>
      let? header := ok_or authorization (unauthenticated "missing authorization header") in
      let? value := ok_or (to_str header)
                      (unauthenticated "authorization header is not valid UTF-8") in
      let? provided := ok_or (strip_prefix "Bearer " value)
                         (unauthenticated "authorization header must use the Bearer scheme") in
      if constant_time_eq (as_bytes provided) (as_bytes expected) then Ok tt
      else Err (unauthenticated "invalid bearer token")
  end.

Definition check_token (c : AuthConfig) (t : string) : Result Status unit :=
  match token c with
  | None => Ok tt
  | Some expected =>
      if constant_time_eq (as_bytes t) (as_bytes expected) then Ok tt
      else Err (unauthenticated "invalid auth token")
  end.

Definition check_request_or_token (c : AuthConfig) (authorization : option string)
    (payload_token : option string) : Result Status unit :=
  match token c with
  | None => Ok tt
  | Some expected =>
      let by_header :=
        match authorization with
        | Some header =>
            match to_str header with
            | Some value =>
                match strip_prefix "Bearer " value with
                | Some provided => constant_time_eq (as_bytes provided) (as_bytes expected)
                | None => false
                end
            | None => false
            end
        | None => false
        end in
      if by_header then Ok tt else
      match payload_token with
      | Some t =>
          if negb (is_empty t) && constant_time_eq (as_bytes t) (as_bytes expected) then Ok tt
          else Err (unauthenticated "missing or invalid authorization credentials")
      | None => Err (unauthenticated "missing or invalid authorization credentials")
      end
  end.

(** The authentication policy of HA mode, from the two command-line options. *)
Definition auth_from_args (auth_token : option string) (insecure_no_auth : bool)
  : SyncResult AuthConfig :=
  match auth_token, insecure_no_auth with
  | Some _, true =>
      Err (Protocol "--ha-grpc-auth-token and --ha-grpc-insecure-no-auth are mutually exclusive")
  | Some t, false =>
      if is_empty (trim t) then Err (Protocol "--ha-grpc-auth-token must not be empty")
      else Ok (required t)
  | None, true => Ok disabled
  | None, false =>
      Err (Protocol ("--ha-grpc-auth-token (or --ha-grpc-insecure-no-auth to explicitly run " +++
                     "without authentication) is required when --ha-grpc-bind is set"))
  end.

(** ** Lemmas *)

Lemma fold_lor_zero (l : list (Z * Z)) : forall acc,
  fold_left (fun acc '(x, y) => Z.lor acc (Z.lxor x y)) l acc = 0 <->
  acc = 0 /\ Forall (fun '(x, y) => x = y) l.
Proof.
  induction l as [|[x y] l IH]; intros acc; cbn.
  - split; [intros ->; by split|by intros [-> _]].
  - rewrite IH, Z.lor_eq_0_iff, Z.lxor_eq_0_iff. split.
    + intros [[-> ->] Hl]. split; [done|]. by constructor.
    + intros [-> Hl]. apply Forall_cons in Hl as [-> Hl]. done.
Qed.

Lemma zip_equal (a b : bytes) : length a = length b ->
  Forall (fun '(x, y) => x = y) (zip a b) <-> a = b.
Proof.
  revert b. induction a as [|x a IH]; intros [|y b] Hl; cbn in *; try done.
  rewrite Forall_cons, IH by lia. naive_solver.
Qed.

Lemma constant_time_eq_spec a b : constant_time_eq a b = true <-> a = b.
Proof.
  unfold constant_time_eq. destruct (zlen a =? zlen b) eqn:E; cbn [negb]; zbool.
  - rewrite Z.eqb_eq, fold_lor_zero, zip_equal by (unfold zlen in E; lia). naive_solver.
  - split; [done|]. intros ->. done.
Qed.

Lemma as_bytes_inj s t : as_bytes s = as_bytes t -> s = t.
Proof.
  revert t. induction s as [|a s IH]; intros [|b t]; cbn; try done. intros [= Hab Hst].
  f_equal; [|by apply IH]. unfold RustStr.code in Hab.
  rewrite <- (ascii_N_embedding a), <- (ascii_N_embedding b). f_equal. lia.
Qed.

(** ** Claims *)

(** The accumulated comparison of two byte strings is equality. *)
Theorem constant_time_eq_is_equality s t :
  constant_time_eq (as_bytes s) (as_bytes t) = true <-> s = t.
Proof.
  rewrite constant_time_eq_spec. split; [apply as_bytes_inj|by intros ->].
Qed.

(** With a configured token, a request passes exactly when its authorization header is
    [Bearer ] followed by that token (and printable); a missing header never does. *)
Theorem check_accepts_exactly expected authorization :
  check (required expected) authorization = Ok tt <->
  exists header, authorization = Some header /\ header = "Bearer " +++ expected /\
    all_chars header_char header = true.
Proof.
  unfold check, required. cbn [token].
  destruct authorization as [header|]; cbn [ok_or]; [|split; [done|]; by intros (h & ? & _)].
  unfold to_str. destruct (all_chars header_char header) eqn:Ev; cbn [ok_or];
    [|split; [done|]; intros (h & [= <-] & _ & Hc); congruence].
  destruct (strip_prefix "Bearer " header) as [p|] eqn:Ep; cbn [ok_or].
  - apply strip_prefix_Some in Ep as ->.
    destruct (constant_time_eq _ _) eqn:E.
    + apply constant_time_eq_spec, as_bytes_inj in E as ->. split; [|done]. intros _.
      eexists. split; [reflexivity|]. split; [reflexivity|exact Ev].
    + split; [done|]. intros (h & [= <-] & He & _).
      assert (p = expected) as -> by (by injection He).
      assert (constant_time_eq (as_bytes expected) (as_bytes expected) = true)
        by (by apply constant_time_eq_spec). congruence.
  - split; [done|]. intros (h & [= <-] & -> & _). by rewrite strip_prefix_app in Ep.
Qed.

(** HA mode never starts an unauthenticated gateway by accident: without a non-blank token
    it needs the explicit opt-out, and the two together are refused. *)
Theorem auth_never_open_by_default auth_token insecure c :
  auth_from_args auth_token insecure = Ok c ->
  is_disabled c = true <-> (auth_token = None /\ insecure = true).
Proof.
  unfold auth_from_args. destruct auth_token as [t|], insecure; try done.
  - destruct (is_empty (trim t)); [done|]. intros [= <-]. cbn. naive_solver.
  - intros [= <-]. cbn. naive_solver.
Qed.

Lemma auth_never_open_by_default_witness :
  is_disabled (required "secret") = true <-> (Some "secret" = None /\ false = true).
Proof. apply (auth_never_open_by_default (Some "secret") false (required "secret")). reflexivity. Defined.
