(* ===== verification/Engine.v ===== *)
(** * SQL engine of the gateway (src/src/gateway/engine.rs, statements of src/src/db.rs)

    Database names, per-database locks, statement execution, chunked queries,
    batches and the listing of databases.  SQLite is the class [SqliteDb]: executing
    a control statement, preparing a statement, and what a prepared statement
    answers when bound and stepped.  Elapsed times are left out. *)

From S2P Require Import Prelude RustStr Errors.

(** ** Values *)

Inductive SqlValue :=
| SqlNull
| SqlInteger (i : Z)
| SqlFloat (bits : Z)
| SqlText (t : string)
| SqlBlob (b : bytes).

(** [value::Value] of the protobuf, absent or present. *)
Inductive ProtoValueInner :=
| NullValue (b : bool)
| IntValue (i : Z)
| FloatValue (bits : Z)
| TextValue (t : string)
| BlobValue (b : bytes).
Abbreviation ProtoValue := (option ProtoValueInner).

Definition sql_value_to_proto (v : SqlValue) : ProtoValue :=
  match v with
  | SqlNull => Some (NullValue true)
  | SqlInteger i => Some (IntValue i)
  | SqlFloat f => Some (FloatValue f)
  | SqlText t => Some (TextValue t)
  | SqlBlob b => Some (BlobValue b)
  end.

Definition proto_value_to_sql (v : ProtoValue) : SqlValue :=
  match v with
  | None | Some (NullValue _) => SqlNull
  | Some (IntValue i) => SqlInteger i
  | Some (FloatValue f) => SqlFloat f
  | Some (TextValue t) => SqlText t
  | Some (BlobValue b) => SqlBlob b
  end.

Inductive ColumnType := TypeUnspecified | TypeInteger | TypeFloat | TypeText | TypeBlob.

Definition map_decltype_to_proto (decltype : string) : ColumnType :=
  let upper := to_ascii_uppercase decltype in
  if contains "INT" upper then TypeInteger
  else if contains "CHAR" upper || contains "TEXT" upper || contains "CLOB" upper then TypeText
  else if contains "BLOB" upper then TypeBlob
  else if contains "REAL" upper || contains "FLOA" upper || contains "DOUB" upper then TypeFloat
  else TypeUnspecified.

(** ** Names and locks *)

Inductive Component := RootDir | CurDir | ParentDir | Normal (name : string).

Fixpoint split_on_go (c : ascii) (cur s : string) : list string :=
  match s with
  | "" => [cur]
  | String a r =>
      if Ascii.eqb a c then cur :: split_on_go c "" r else split_on_go c (cur +++ String a "") r
  end.
Definition split_on (c : ascii) (s : string) : list string := split_on_go c "" s.

(** [Path::components] on Unix: empty parts are skipped, and [.] too unless it leads. *)
Definition component_of (first : bool) (part : string) : option Component :=
  if is_empty part then None
  else if String.eqb part "." then (if first then Some CurDir else None)
  else if String.eqb part ".." then Some ParentDir
  else Some (Normal part).

Definition components (p : string) : list Component :=
  (if starts_with "/" p then [RootDir] else []) ++
  match split_on "/" p with
  | [] => []
  | first :: rest =>
      omap (fun x => x) [component_of true first] ++ omap (component_of false) rest
  end.

Definition is_normal (c : Component) : bool :=
  match c with Normal _ => true | _ => false end.

(** [Path::join] with a relative path. *)
Definition join (dir p : string) : string :=
  if is_empty dir then p
  else if ends_with "/" dir then dir +++ p
  else dir +++ "/" +++ p.

(** [create_parent path] is [create_dir_all] of the parent of [path]. *)
Definition resolve_db_path (data_dir db_name : string) (create_parent : string -> option IoError)
  : SyncResult string :=
  let trimmed := trim db_name in
  if is_empty trimmed then Err (Protocol "database name cannot be empty") else
  if negb (forallb is_normal (components trimmed)) then
    Err (Protocol ("invalid database name '" +++ trimmed +++ "': path traversal not permitted"))
  else
    let full_path := join data_dir trimmed in
    match create_parent full_path with
    | Some e => Err (Io e)
    | None => Ok full_path
    end.

(** The lock table: a fresh lock is a fresh number. *)
Record LockTable := mk_locks { db_mutexes : gmap string nat; next_lock : nat }.

Definition get_db_lock (db_name : string) (t : LockTable) : nat * LockTable :=
  let trimmed := trim db_name in
  match db_mutexes t !! trimmed with
  | Some l => (l, t)
  | None => (next_lock t, mk_locks (<[trimmed := next_lock t]> (db_mutexes t)) (S (next_lock t)))
  end.

Definition remove_lock (db_name : string) (t : LockTable) : LockTable :=
  mk_locks (delete (trim db_name) (db_mutexes t)) (next_lock t).

(** ** Statements *)

Abbreviation Row := (list ProtoValue).

Record ColumnHeader := mk_column {
  col_name : string;
  column_type : ColumnType;
  declared_type : string;
}.

Record Statement := mk_statement {
  sql : string;
  positional : list ProtoValue;
  named : list (string * option ProtoValue);
  has_parameters : bool;
}.

(** The values bound to the parameters of a statement, by index. *)
Abbreviation Bindings := (gmap Z SqlValue).

(** A prepared statement as SQLite answers for it: its columns, the index of a
    parameter name (0 if absent), the result of binding and, for the values bound and the
    connection when it is first stepped, the successive steps ([None] is [SQLITE_DONE]) and
    the connection that stepping it to its end, or its first step alone, leaves.  A
    statement that SQLite calls read-only can change its connection: BEGIN, COMMIT,
    ROLLBACK, SAVEPOINT and RELEASE are among them. *)
Record Prepared (DB : Type) := mk_prepared {
  is_readonly : bool;
  prepared_columns : list (string * option string);
  sqlite3_bind_parameter_index : string -> Z;
  sqlite3_bind : Z -> SqlValue -> SyncResult unit;
  steps : Bindings -> DB -> list (SyncResult (option (list SqlValue)));
  after_read : Bindings -> DB -> DB;
  step_write : Bindings -> DB -> SyncResult unit * DB;
}.
Arguments is_readonly {DB}.
Arguments prepared_columns {DB}.
Arguments sqlite3_bind_parameter_index {DB}.
Arguments sqlite3_bind {DB}.
Arguments steps {DB}.
Arguments after_read {DB}.
Arguments step_write {DB}.
Arguments mk_prepared {DB}.

Class SqliteDb (DB : Type) := {
  db_exec : string -> DB -> SyncResult unit * DB;
  db_prepare : string -> DB -> SyncResult (Prepared DB);
  db_changes : DB -> Z;
  db_last_insert_rowid : DB -> Z;
}.

Definition no_nul (s : string) : bool := all_chars (fun a => negb (code a =? 0)) s.

(** [bind_parameter_index]: the name as given, then with each prefix. *)
Fixpoint first_index (index : string -> Z) (candidates : list string) : option Z :=
  match candidates with
  | [] => None
  | cand :: rest =>
      if no_nul cand && (0 <? index cand) then Some (index cand) else first_index index rest
  end.

Definition bind_parameter_index {DB} (p : Prepared DB) (name : string) : option Z :=
  first_index (sqlite3_bind_parameter_index p) [name; ":" +++ name; "@" +++ name; "$" +++ name].

(** Each [bind_*] adds to the values bound so far; an index bound again is replaced. *)
Definition bind_proto_value {DB} (p : Prepared DB) (b : Bindings) (idx : Z) (v : ProtoValue)
  : SyncResult Bindings :=
  let? _ := sqlite3_bind p idx (proto_value_to_sql v) in Ok (<[idx := proto_value_to_sql v]> b).

Fixpoint bind_positional {DB} (p : Prepared DB) (b : Bindings) (idx : Z) (vs : list ProtoValue)
  : SyncResult Bindings :=
  match vs with
  | [] => Ok b
  | v :: vs => let? b := bind_proto_value p b (idx + 1) v in bind_positional p b (idx + 1) vs
  end.

Fixpoint bind_named {DB} (p : Prepared DB) (b : Bindings) (ps : list (string * option ProtoValue))
  : SyncResult Bindings :=
  match ps with
  | [] => Ok b
  | (name, None) :: ps => bind_named p b ps
  | (name, Some v) :: ps =>
      match bind_parameter_index p name with
      | Some idx => let? b := bind_proto_value p b idx v in bind_named p b ps
      | None => Err (Protocol ("named parameter '" +++ name +++ "' not found in prepared statement"))
      end
  end.

Definition bind_parameters {DB} (p : Prepared DB) (s : Statement) : SyncResult Bindings :=
  if negb (has_parameters s) then Ok ∅ else
  let? b := bind_positional p ∅ 0 (positional s) in
  bind_named p b (named s).

Definition headers {DB} (p : Prepared DB) : list ColumnHeader :=
  map (fun '(name, decl) =>
         let d := default "" decl in mk_column name (map_decltype_to_proto d) d)
    (prepared_columns p).

(** ** Reading *)

Definition column_count {DB} (p : Prepared DB) : nat := length (prepared_columns p).

(** [column_value] of the columns counted before the first step; SQLite answers NULL for a
    column that the row does not have. *)
Definition read_row (col_count : nat) (vs : list SqlValue) : Row :=
  map (fun idx => sql_value_to_proto (default SqlNull (vs !! idx))) (seq 0 col_count).

(** [while let Row = step()? { ...; if max_rows > 0 && total >= max_rows { break } }]. *)
Fixpoint collect_rows (col_count : nat) (max_rows total : Z) (ss : list (SyncResult (option (list SqlValue))))
  : SyncResult (list Row) :=
  match ss with
  | [] => Ok []
  | Err e :: _ => Err e
  | Ok None :: _ => Ok []
  | Ok (Some vs) :: rest =>
      let row := read_row col_count vs in
      let total := total + 1 in
      if (0 <? max_rows) && (max_rows <=? total) then Ok [row]
      else let? rows := collect_rows col_count max_rows total rest in Ok (row :: rows)
  end.

Record QueryResponse := mk_query_response {
  q_columns : list ColumnHeader;
  q_rows : list Row;
  q_total_rows : Z;
  q_generation : Z;
  q_is_replica_read : bool;
}.

Record QueryChunk := mk_chunk {
  chunk_columns : list ColumnHeader;
  chunk_rows : list Row;
  is_last : bool;
  chunk_total_rows : Z;
}.

(** The chunking loop: [cur] are the rows of the open chunk, [cols] the headers not
    yet sent. *)
Fixpoint chunk_rows_go (col_count : nat) (max_rows chunk_size total : Z) (cols : list ColumnHeader)
    (cur : list Row) (ss : list (SyncResult (option (list SqlValue)))) : SyncResult (list QueryChunk) :=
  let final cur cols total := Ok [mk_chunk cols cur true total] in
  match ss with
  | [] => final cur cols total
  | Err e :: _ => Err e
  | Ok None :: _ => final cur cols total
  | Ok (Some vs) :: rest =>
      let total := total + 1 in
      let cur := cur ++ [read_row col_count vs] in
      let full := chunk_size <=? zlen cur in
      let out := if full then [mk_chunk cols cur false total] else [] in
      let cols := if full then [] else cols in
      let cur := if full then [] else cur in
      if (0 <? max_rows) && (max_rows <=? total)
      then Ok (out ++ [mk_chunk cols cur true total])
      else let? chunks := chunk_rows_go col_count max_rows chunk_size total cols cur rest in
           Ok (out ++ chunks)
  end.

(** ** Batches *)

Inductive BatchTransactionMode := ModeDeferred | ModeImmediate | ModeExclusive | ModeNone.

Record ExecuteResponse := mk_execute_response {
  rows_affected : Z;
  last_insert_rowid : Z;
  e_generation : Z;
}.

Inductive StatementOk :=
| QueryResult (q : QueryResponse)
| ExecuteResult (e : ExecuteResponse).

(** [StatementResult]: a result, or none and the error text. *)
Abbreviation StatementResult := (Result string StatementOk).

Record BatchResponse := mk_batch_response {
  results : list StatementResult;
  b_generation : Z;
  committed : bool;
}.

(** All rows of a read-only statement, or the error of a step. *)
Fixpoint all_rows (col_count : nat) (ss : list (SyncResult (option (list SqlValue)))) : SyncResult (list Row) :=
  match ss with
  | [] => Ok []
  | Err e :: _ => Err e
  | Ok None :: _ => Ok []
  | Ok (Some vs) :: rest =>
      let? rows := all_rows col_count rest in Ok (read_row col_count vs :: rows)
  end.

Section Engine.
Context {DB : Type} `{!SqliteDb DB}.

(** *** Opening *)

Variables (data_dir : string) (create_parent : string -> option IoError).
(** [Connection::open] at a path, read-only or not. *)
Variable sqlite_open : string -> bool -> SyncResult DB.

Definition exec_in (q : string) (d : DB) : SyncResult DB :=
  match db_exec q d with (Ok _, d) => Ok d | (Err e, _) => Err e end.

Definition open_connection (db_name : string) (read_only : bool) : SyncResult DB :=
  let? path := resolve_db_path data_dir db_name create_parent in
  let? conn := sqlite_open path read_only in
  if read_only then Ok conn else
  let? conn := exec_in "PRAGMA journal_mode=WAL;" conn in
  let? conn := exec_in "PRAGMA synchronous=NORMAL;" conn in
  exec_in "PRAGMA busy_timeout=5000;" conn.

(** *** execute *)

(** [execute] once the lock of the database is held; the database after a write is
    returned also when a later step of the call fails. *)
Definition execute_locked (db_name : string) (s : Statement) (generation : Z)
  : SyncResult ExecuteResponse * option DB :=
  match open_connection db_name false with
  | Err e => (Err e, None)
  | Ok conn =>
      match db_prepare (sql s) conn with
      | Err e => (Err e, Some conn)
      | Ok prepared =>
          match bind_parameters prepared s with
          | Err e => (Err e, Some conn)
          | Ok bound =>
              match step_write prepared bound conn with
              | (Err e, conn) => (Err e, Some conn)
              | (Ok _, conn) =>
                  (Ok (mk_execute_response (db_changes conn) (db_last_insert_rowid conn) generation),
                   Some conn)
              end
          end
      end
  end.

(** The lock is looked up (and created) before the database is opened. *)
Definition execute (db_name : string) (s : Statement) (generation : Z) (locks : LockTable)
  : SyncResult ExecuteResponse * option DB * LockTable :=
  let '(_, locks) := get_db_lock db_name locks in
  (execute_locked db_name s generation, locks).

(** *** query and stream_query_chunks *)

Definition prepare_bound (db_name : string) (s : Statement) : SyncResult (DB * Prepared DB * Bindings) :=
  let? conn := open_connection db_name true in
  let? prepared := db_prepare (sql s) conn in
  let? bound := bind_parameters prepared s in
  Ok (conn, prepared, bound).

Definition query (db_name : string) (s : Statement) (max_rows generation : Z)
    (is_replica_read : bool) : SyncResult QueryResponse :=
  let? (conn, prepared, bound) := prepare_bound db_name s in
  let? rows := collect_rows (column_count prepared) max_rows 0 (steps prepared bound conn) in
  Ok (mk_query_response (headers prepared) rows (zlen rows) generation is_replica_read).

Definition stream_query_chunks (db_name : string) (s : Statement) (max_rows chunk_size : Z)
  : SyncResult (list QueryChunk) :=
  let? (conn, prepared, bound) := prepare_bound db_name s in
  chunk_rows_go (column_count prepared) max_rows chunk_size 0 (headers prepared) [] (steps prepared bound conn).

(** *** batch *)

(** One statement of a batch. *)
Definition run_statement (s : Statement) (generation : Z) (d : DB) : StatementResult * DB :=
  match db_prepare (sql s) d with
  | Err e => (Err (SyncError_to_string e), d)
  | Ok prepared =>
      match bind_parameters prepared s with
      | Err e => (Err (SyncError_to_string e), d)
      | Ok bound =>
          if is_readonly prepared then
            match all_rows (column_count prepared) (steps prepared bound d) with
            | Err e => (Err (SyncError_to_string e), after_read prepared bound d)
            | Ok rows =>
                (Ok (QueryResult (mk_query_response (headers prepared) rows (zlen rows)
                                    generation false)), after_read prepared bound d)
            end
          else
            match step_write prepared bound d with
            | (Ok _, d) =>
                (Ok (ExecuteResult (mk_execute_response (db_changes d) (db_last_insert_rowid d)
                                      generation)), d)
            | (Err e, d) => (Err (SyncError_to_string e), d)
            end
      end
  end.

Fixpoint run_statements (stop_on_error : bool) (generation : Z) (ss : list Statement) (d : DB)
  : list StatementResult * bool * DB :=
  match ss with
  | [] => ([], false, d)
  | s :: rest =>
      match run_statement s generation d with
      | (Ok r, d) =>
          let '(rs, err, d) := run_statements stop_on_error generation rest d in
          (Ok r :: rs, err, d)
      | (Err e, d) =>
          if stop_on_error then ([Err e], true, d)
          else let '(rs, _, d) := run_statements stop_on_error generation rest d in
               (Err e :: rs, true, d)
      end
  end.

Definition begin_sql (m : BatchTransactionMode) : option string :=
  match m with
  | ModeNone => None
  | ModeImmediate => Some "BEGIN IMMEDIATE"
  | ModeExclusive => Some "BEGIN EXCLUSIVE"
  | ModeDeferred => Some "BEGIN DEFERRED"
  end.

(** [batch] on an open connection. *)
Definition batch_on (statements : list Statement) (m : BatchTransactionMode)
    (stop_on_error : bool) (generation : Z) (conn : DB) : SyncResult BatchResponse * DB :=
  match (match begin_sql m with
         | None => (Ok tt, conn)
         | Some q => db_exec q conn
         end) with
  | (Err e, conn) => (Err e, conn)
  | (Ok _, conn) =>
      let '(rs, has_error, conn) := run_statements stop_on_error generation statements conn in
      match begin_sql m with
      | Some _ =>
          if has_error && stop_on_error then
            let conn := snd (db_exec "ROLLBACK" conn) in
            (Ok (mk_batch_response rs generation false), conn)
          else
            let '(r, conn) := db_exec "COMMIT" conn in
            (Ok (mk_batch_response rs generation (is_ok r)), conn)
      | None => (Ok (mk_batch_response rs generation (negb has_error)), conn)
      end
  end.

Definition batch (db_name : string) (statements : list Statement) (m : BatchTransactionMode)
    (stop_on_error : bool) (generation : Z) (locks : LockTable)
  : SyncResult BatchResponse * option DB * LockTable :=
  let '(_, locks) := get_db_lock db_name locks in
  match open_connection db_name false with
  | Err e => (Err e, None, locks)
  | Ok conn =>
      let '(r, conn) := batch_on statements m stop_on_error generation conn in
      (r, Some conn, locks)
  end.
End Engine.

(** ** Dropping and listing *)

(** The files of the data directory: [remove_file] fails for the reason given, if any. *)
Fixpoint remove_files (fail : string -> option IoError) (paths : list string) (fs : gset string)
  : SyncResult unit * gset string :=
  match paths with
  | [] => (Ok tt, fs)
  | p :: rest =>
      match fail p with
      | Some e => (Err (Io e), fs)
      | None => remove_files fail rest (fs ∖ {[p]})
      end
  end.

Definition drop_database (data_dir db_name : string) (create_parent : string -> option IoError)
    (fail : string -> option IoError) (fs : gset string) (locks : LockTable)
  : SyncResult bool * gset string * LockTable :=
  let '(_, locks) := get_db_lock db_name locks in
  match resolve_db_path data_dir db_name create_parent with
  | Err e => (Err e, fs, locks)
  | Ok path =>
      let existed := bool_decide (path ∈ fs) in
      match remove_files fail (map (fun suffix => path +++ suffix) [""; "-wal"; "-shm"; "-journal"]) fs with
      | (Err e, fs) => (Err e, fs, locks)
      | (Ok _, fs) => (Ok existed, fs, remove_lock db_name locks)
      end
  end.

(** A directory tree: a file carries the outcome of opening it ([page_size] and
    [page_count]) and its size. *)
Inductive FsNode :=
| FsDir (name : string) (children : list FsNode)
| FsFile (name : string) (opened : SyncResult (Z * Z)) (size : Z).

Record DatabaseInfo := mk_database_info {
  db_name : string;
  db_page_size : Z;
  db_page_count : Z;
  file_size_bytes : Z;
  db_journal_mode : string;
}.

Definition under (prefix name : string) : string :=
  if is_empty prefix then name else prefix +++ "/" +++ name.

Fixpoint collect_databases (prefix : string) (n : FsNode) : SyncResult (list DatabaseInfo) :=
  match n with
  | FsDir name children =>
      (fix go (l : list FsNode) : SyncResult (list DatabaseInfo) :=
         match l with
         | [] => Ok []
         | c :: rest =>
             let? a := collect_databases (under prefix name) c in
             let? b := go rest in Ok (a ++ b)
         end) children
  | FsFile name opened size =>
      if ends_with "-wal" name || ends_with "-shm" name || ends_with "-journal" name then Ok [] else
      let rel_name := under prefix name in
      match opened with
      | Ok (page_size, page_count) => Ok [mk_database_info rel_name page_size page_count size "wal"]
      | Err (Sqlite code _) =>
          if (code =? 5) || (code =? 6) then
            Err (Busy ("database '" +++ rel_name +++ "' is temporarily locked (SQLITE code " +++
                       show_int code +++ ")"))
          else Ok []
      | Err _ => Ok []
      end
  end.

Fixpoint insert_by_name (d : DatabaseInfo) (l : list DatabaseInfo) : list DatabaseInfo :=
  match l with
  | [] => [d]
  | x :: rest => if String.leb (db_name d) (db_name x) then d :: l else x :: insert_by_name d rest
  end.
Definition sort_by_name (l : list DatabaseInfo) : list DatabaseInfo :=
  foldr insert_by_name [] l.

Definition list_databases (root : option FsNode) : SyncResult (list DatabaseInfo) :=
  match root with
  | None => Ok []
  | Some n => let? l := collect_databases "" n in Ok (sort_by_name l)
  end.

(** ** Claims *)

(** A SQL value sent over the wire and back is unchanged. *)
Theorem value_round_trip v : proto_value_to_sql (sql_value_to_proto v) = v.
Proof. by destruct v. Qed.

Lemma component_of_normal b part :
  (forall c, component_of b part = Some c -> is_normal c = true) -> part <> ".." .
Proof. intros H ->. specialize (H ParentDir eq_refl). done. Qed.

(** C26. A database name that resolves stays below the data directory: it is not absolute and
    none of its path segments is [..]. *)
Theorem resolved_path_is_confined data_dir name create_parent path :
  resolve_db_path data_dir name create_parent = Ok path ->
  path = join data_dir (trim name) /\ starts_with "/" (trim name) = false /\
  forall part, part ∈ split_on "/" (trim name) -> part <> "..".
Proof.
  unfold resolve_db_path. destruct (is_empty (trim name)); [done|].
  destruct (forallb is_normal (components (trim name))) eqn:E; [|done]. cbn [negb].
  destruct (create_parent _); [done|]. intros [= <-]. split; [done|].
  unfold components in E. rewrite forallb_app in E. apply andb_true_iff in E as [E1 E2].
  split; [by destruct (starts_with "/" (trim name))|].
  destruct (split_on "/" (trim name)) as [|p0 rest]; [set_solver|].
  rewrite forallb_app in E2. apply andb_true_iff in E2 as [E2 E3].
  rewrite forallb_forall in E3. intros part [->|Hp]%elem_of_cons.
  - apply (component_of_normal true). intros c Hc. rewrite Hc in E2. cbn in E2.
    by rewrite andb_true_r in E2.
  - apply (component_of_normal false). intros c Hc. apply E3, list_elem_of_In, list_elem_of_omap.
    by exists part.
Qed.

Lemma resolved_path_is_confined_witness :
  join "/data" "tenant/app.db" = join "/data" (trim " tenant/app.db ") /\
  starts_with "/" (trim " tenant/app.db ") = false /\
  forall part, part ∈ split_on "/" (trim " tenant/app.db ") -> part <> "..".
Proof.
  apply (resolved_path_is_confined "/data" " tenant/app.db " (fun _ => None)
           (join "/data" "tenant/app.db")).
  reflexivity.
Defined.

(** *** Chunked queries *)

(** What a chunked answer looks like: full chunks, then one last chunk that is not
    full; the headers come with the first chunk only. *)
Definition chunks_shape (chunk_size : Z) (cols : list ColumnHeader) (chunks : list QueryChunk) : Prop :=
  exists init last, chunks = init ++ [last] /\ is_last last = true /\
    zlen (chunk_rows last) < chunk_size /\
    Forall (fun c => is_last c = false /\ zlen (chunk_rows c) = chunk_size) init /\
    map chunk_columns chunks = cols :: replicate (length init) [].

Lemma chunks_shape_cons cs cols c chunks :
  is_last c = false -> zlen (chunk_rows c) = cs -> chunk_columns c = cols ->
  chunks_shape cs [] chunks -> chunks_shape cs cols (c :: chunks).
Proof.
  intros Hl Hz Hc (init & last & -> & H1 & H2 & H3 & H4).
  exists (c :: init), last. repeat split; try done; [by constructor|].
  cbn in *. rewrite H4. by subst.
Qed.

Lemma chunks_shape_last cs cols cur total :
  zlen cur < cs -> chunks_shape cs cols [mk_chunk cols cur true total].
Proof. intros H. exists [], (mk_chunk cols cur true total). repeat split; done. Qed.

Lemma chunk_go_spec n max cs ss : forall total cols cur,
  0 < cs -> zlen cur < cs ->
  match chunk_rows_go n max cs total cols cur ss, collect_rows n max total ss with
  | Ok chunks, Ok rows =>
      concat (map chunk_rows chunks) = cur ++ rows /\ chunks_shape cs cols chunks
  | Err e, Err e' => e = e'
  | _, _ => False
  end.
Proof.
  induction ss as [|[[vs|]|e] ss IH]; intros total cols cur Hcs Hcur; cbn [chunk_rows_go collect_rows].
  - split; [done|]. by apply chunks_shape_last.
  - set (row := read_row n vs).
    assert (Hz : zlen (cur ++ [row]) = zlen cur + 1) by (rewrite zlen_app; unfold zlen; cbn; lia).
    rewrite Hz. destruct (cs <=? zlen cur + 1) eqn:Ef; zbool.
    + assert (Hshape : forall chunks, chunks_shape cs [] chunks ->
        chunks_shape cs cols (mk_chunk cols (cur ++ [row]) false (total + 1) :: chunks))
        by (intros chunks Hc; apply chunks_shape_cons; cbn; try done; lia).
      destruct (_ && _).
      * split; [cbn; by rewrite app_nil_r|]. apply Hshape, chunks_shape_last. unfold zlen; cbn; lia.
      * specialize (IH (total + 1) [] [] Hcs ltac:(unfold zlen; cbn; lia)).
        destruct (chunk_rows_go _ _ _ _ _ _ _), (collect_rows _ _ _ _); try done.
        destruct IH as [IH1 IH2]. split; [|by apply Hshape]. cbn. rewrite IH1. cbn.
        by rewrite <- app_assoc.
    + destruct (_ && _).
      * split; [cbn; by rewrite app_nil_r|]. apply chunks_shape_last. lia.
      * specialize (IH (total + 1) cols (cur ++ [row]) Hcs ltac:(lia)).
        destruct (chunk_rows_go _ _ _ _ _ _ _), (collect_rows _ _ _ _); try done.
        destruct IH as [IH1 IH2]. split; [|done]. cbn [app]. rewrite IH1. by rewrite <- app_assoc.
  - rewrite app_nil_r. split; [cbn; by rewrite app_nil_r|]. by apply chunks_shape_last.
  - done.
Qed.

Section EngineClaims.
Context {DB : Type} `{!SqliteDb DB}.
Variables (data_dir : string) (create_parent : string -> option IoError).
Variable sqlite_open : string -> bool -> SyncResult DB.

(** The chunks of a query carry the rows of the query. *)
Lemma stream_matches_query name s max_rows chunk_size gen rr :
  0 < chunk_size ->
  match stream_query_chunks data_dir create_parent sqlite_open name s max_rows chunk_size,
        query data_dir create_parent sqlite_open name s max_rows gen rr with
  | Ok chunks, Ok q =>
      concat (map chunk_rows chunks) = q_rows q /\ chunks_shape chunk_size (q_columns q) chunks
  | Err e, Err e' => e = e'
  | _, _ => False
  end.
Proof.
  intros Hcs. unfold stream_query_chunks, query.
  destruct (prepare_bound _ _ _ _ _) as [[[conn p] b]|e]; [|done].
  pose proof (chunk_go_spec (column_count p) max_rows chunk_size (steps p b conn) 0 (headers p) [] Hcs
                ltac:(unfold zlen; cbn; lia)) as H.
  destruct (chunk_rows_go _ _ _ _ _ _ _), (collect_rows _ _ _ _); done.
Qed.

(** C25. A chunked query returns the rows of the plain query, cut into full chunks and one
    final short chunk, headers first; when the plain query fails so does it, with
    the same error. *)
Theorem chunks_equal_query name s max_rows chunk_size gen rr :
  0 < chunk_size ->
  match stream_query_chunks data_dir create_parent sqlite_open name s max_rows chunk_size,
        query data_dir create_parent sqlite_open name s max_rows gen rr with
  | Ok chunks, Ok q =>
      concat (map chunk_rows chunks) = q_rows q /\ chunks_shape chunk_size (q_columns q) chunks
  | Err e, Err e' => e = e'
  | _, _ => False
  end.
Proof. apply stream_matches_query. Qed.

(** *** Parameters *)

(** The value a request gives to the parameter of index [k]: the last named parameter that
    has a value and resolves to [k], else the positional one. *)
Definition named_at (p : Prepared DB) (k : Z) (np : string * option ProtoValue) : option SqlValue :=
  match np with
  | (name, Some v) =>
      match bind_parameter_index p name with
      | Some idx => if idx =? k then Some (proto_value_to_sql v) else None
      | None => None
      end
  | (_, None) => None
  end.
Definition positional_at (vs : list ProtoValue) (k : Z) : option SqlValue :=
  if 1 <=? k then proto_value_to_sql <$> vs !! Z.to_nat (k - 1) else None.
Definition request_value (p : Prepared DB) (s : Statement) (k : Z) : option SqlValue :=
  if has_parameters s then
    match last (omap (named_at p k) (named s)) with
    | Some v => Some v
    | None => positional_at (positional s) k
    end
  else None.

Lemma bind_positional_at (p : Prepared DB) vs : forall b idx b', 0 <= idx ->
  bind_positional p b idx vs = Ok b' ->
  forall k, b' !! k = match positional_at vs (k - idx) with Some v => Some v | None => b !! k end.
Proof.
  induction vs as [|v vs IH]; intros b idx b' Hi; cbn [bind_positional].
  - intros [= <-] k. unfold positional_at. rewrite lookup_nil. by destruct (_ <=? _).
  - unfold bind_proto_value. destruct (sqlite3_bind p (idx + 1) (proto_value_to_sql v)); [|done].
    intros Hb k. rewrite (IH _ (idx + 1) _ ltac:(lia) Hb k). unfold positional_at.
    destruct (decide (k = idx + 1)) as [->|Hk].
    + zdec (1 <=? idx + 1 - (idx + 1)) false. zdec (1 <=? idx + 1 - idx) true.
      replace (idx + 1 - idx - 1) with 0 by lia. cbn. by rewrite lookup_insert_eq.
    + rewrite lookup_insert_ne by done. destruct (1 <=? k - idx) eqn:E; zbool.
      * zdec (1 <=? k - (idx + 1)) true.
        replace (Z.to_nat (k - idx - 1)) with (S (Z.to_nat (k - (idx + 1) - 1))) by lia. done.
      * by zdec (1 <=? k - (idx + 1)) false.
Qed.

Lemma bind_named_at (p : Prepared DB) ps : forall b b', bind_named p b ps = Ok b' ->
  forall k, b' !! k = match last (omap (named_at p k) ps) with Some v => Some v | None => b !! k end.
Proof.
  induction ps as [|[name [v|]] ps IH]; intros b b'; cbn [bind_named].
  - by intros [= <-].
  - destruct (bind_parameter_index p name) as [idx|] eqn:Ei; [|done]. unfold bind_proto_value.
    destruct (sqlite3_bind p idx (proto_value_to_sql v)); [|done].
    intros Hb k. rewrite (IH _ _ Hb k). cbn [omap list_omap named_at]. rewrite Ei.
    destruct (Z.eqb_spec idx k) as [->|Hk].
    + rewrite last_cons. destruct (last _); [done|]. by rewrite lookup_insert_eq.
    + destruct (last _); [done|]. by rewrite lookup_insert_ne.
  - intros Hb k. by rewrite (IH _ _ Hb k).
Qed.

Lemma bind_parameters_at (p : Prepared DB) s b : bind_parameters p s = Ok b -> forall k, b !! k = request_value p s k.
Proof.
  unfold bind_parameters, request_value. destruct (has_parameters s); cbn [negb]; [|by intros [= <-]].
  destruct (bind_positional p ∅ 0 (positional s)) as [b0|] eqn:E; [|done].
  intros Hb k. rewrite (bind_named_at _ _ _ _ Hb k).
  destruct (last _); [done|]. rewrite (bind_positional_at _ _ _ _ _ ltac:(done) E k), Z.sub_0_r.
  by destruct (positional_at _ _).
Qed.

(** C28. A statement runs with the values of its request and no others: a successful [execute]
    is the first step, and a successful [query] the rows, of the prepared statement with
    each parameter bound to what the request gives it. *)
Theorem request_values_reach_sqlite name s :
  (forall gen resp d, execute_locked data_dir create_parent sqlite_open name s gen = (Ok resp, d) ->
     exists conn p b d', open_connection data_dir create_parent sqlite_open name false = Ok conn /\
       db_prepare (sql s) conn = Ok p /\ (forall k, b !! k = request_value p s k) /\
       step_write p b conn = (Ok tt, d') /\ d = Some d' /\
       rows_affected resp = db_changes d' /\ last_insert_rowid resp = db_last_insert_rowid d') /\
  (forall max gen rr q, query data_dir create_parent sqlite_open name s max gen rr = Ok q ->
     exists conn p b, open_connection data_dir create_parent sqlite_open name true = Ok conn /\
       db_prepare (sql s) conn = Ok p /\ (forall k, b !! k = request_value p s k) /\
       collect_rows (column_count p) max 0 (steps p b conn) = Ok (q_rows q) /\ q_columns q = headers p).
Proof.
  split.
  - intros gen resp d. unfold execute_locked.
    destruct (open_connection _ _ _ _ _) as [conn|] eqn:Eo; [|done].
    destruct (db_prepare (sql s) conn) as [p|] eqn:Ep; [|done].
    destruct (bind_parameters p s) as [b|] eqn:Eb; [|done].
    destruct (step_write p b conn) as [[[]|] d'] eqn:Es; [|done]. intros [= <- <-].
    exists conn, p, b, d'. by pose proof (bind_parameters_at _ _ _ Eb).
  - intros max gen rr q. unfold query, prepare_bound.
    destruct (open_connection _ _ _ _ _) as [conn|] eqn:Eo; [|done].
    destruct (db_prepare (sql s) conn) as [p|] eqn:Ep; [|done].
    destruct (bind_parameters p s) as [b|] eqn:Eb; [|done].
    destruct (collect_rows (column_count p) max 0 (steps p b conn)) as [rows|] eqn:Er; [|done]. intros [= <-].
    exists conn, p, b. by pose proof (bind_parameters_at _ _ _ Eb).
Qed.

(** *** Transactions *)

Context {File : Type} (in_transaction : DB -> bool) (persist : DB -> File).

(** Stepping a statement on the connection [d] answers well or not and leaves [d']. *)
Definition stepped (d : DB) (ok : bool) (d' : DB) : Prop :=
  exists q p bound, db_prepare q d = Ok p /\
    ((ok = is_ok (fst (step_write p bound d)) /\ d' = snd (step_write p bound d)) \/
     (ok = is_ok (all_rows (column_count p) (steps p bound d)) /\ d' = after_read p bound d)).

(** SQLite's contract on transactions.  [in_transaction] says that autocommit is off, and
    [persist] is what other connections find in the file.  BEGIN turns autocommit off; what
    a statement does while it stays off, and what a failing statement did, is not seen by
    others; ROLLBACK keeps what they see. *)
Class TransactionLaws : Prop := {
  begin_opens m q d d1 :
    begin_sql m = Some q -> db_exec q d = (Ok tt, d1) ->
    in_transaction d1 = true /\ persist d1 = persist d;
  open_unseen d ok d' :
    in_transaction d = true -> stepped d ok d' -> in_transaction d' = true \/ ok = false ->
    persist d' = persist d;
  rollback_keeps d : persist (snd (db_exec "ROLLBACK" d)) = persist d;
}.

(** A statement that does not end the transaction it runs in; when the batch stops at the
    first error, a failing statement may (SQLite rolls back by itself on some errors). *)
Definition keeps_transaction (stop_on_error : bool) (s : Statement) : Prop :=
  forall gen d r d', in_transaction d = true -> run_statement s gen d = (r, d') ->
    is_ok r = true \/ stop_on_error = false -> in_transaction d' = true.

Lemma run_statement_stepped s gen d r d' :
  run_statement s gen d = (r, d') -> d' = d \/ stepped d (is_ok r) d'.
Proof.
  unfold run_statement. destruct (db_prepare (sql s) d) as [p|e] eqn:Ep; [|intros [= _ <-]; by left].
  destruct (bind_parameters p s) as [b|]; [|intros [= _ <-]; by left].
  intros Hs. right. exists (sql s), p, b. split; [done|].
  destruct (is_readonly p); [right|left].
  - destruct (all_rows _ _); by injection Hs as <- <-.
  - destruct (step_write p b d) as [[u|e] d1]; by injection Hs as <- <-.
Qed.

(** A statement of a batch is not seen from outside while its transaction stays open. *)
Lemma run_statement_unseen `{!TransactionLaws} stop s gen d r d' :
  keeps_transaction stop s -> in_transaction d = true -> run_statement s gen d = (r, d') ->
  persist d' = persist d /\ (is_ok r = true \/ stop = false -> in_transaction d' = true).
Proof.
  intros Hk Hd Hs. pose proof (Hk gen d r d' Hd Hs) as Hin. split; [|done].
  destruct (run_statement_stepped s gen d r d' Hs) as [->|Hst]; [done|].
  apply (open_unseen d (is_ok r) d'); [done..|]. destruct (is_ok r); auto.
Qed.

Lemma run_statements_unseen `{!TransactionLaws} stop gen ss : forall d rs err d',
  Forall (keeps_transaction stop) ss -> in_transaction d = true ->
  run_statements stop gen ss d = (rs, err, d') -> persist d' = persist d.
Proof.
  induction ss as [|s ss IH]; intros d rs err d' Hk Hd Hrun; cbn in Hrun; [by injection Hrun as _ _ <-|].
  apply Forall_cons in Hk as [Hks Hk]. destruct (run_statement s gen d) as [r d1] eqn:Er.
  destruct (run_statement_unseen stop s gen d r d1) as [<- Hin]; [done..|].
  destruct r as [r|e].
  - destruct (run_statements stop gen ss d1) as [[rs1 err1] d2] eqn:E2.
    injection Hrun as _ _ <-. eapply IH; eauto.
  - destruct stop; [by injection Hrun as _ _ <-|].
    destruct (run_statements false gen ss d1) as [[rs1 err1] d2] eqn:E2.
    injection Hrun as _ _ <-. eapply IH; eauto.
Qed.

(** With [stop_on_error], the results are those of a prefix of the statements, and only
    the last of them can be an error. *)
Lemma run_statements_stop gen ss : forall d rs err d',
  run_statements true gen ss d = (rs, err, d') ->
  (err = false /\ length rs = length ss /\ Forall (fun r => is_ok r = true) rs) \/
  (err = true /\ (length rs <= length ss)%nat /\
   exists oks e, rs = oks ++ [Err e] /\ Forall (fun r => is_ok r = true) oks).
Proof.
  induction ss as [|s ss IH]; intros d rs err d' H; cbn in H.
  - injection H as <- <- <-. left. done.
  - destruct (run_statement s gen d) as [[r|e] d1] eqn:Er.
    + destruct (run_statements true gen ss d1) as [[rs1 err1] d2] eqn:E2.
      injection H as <- <- <-.
      destruct (IH _ _ _ _ E2) as [(-> & Hl & Hf)|(-> & Hl & oks & e & -> & Hf)].
      * left. cbn. repeat split; [lia|by constructor].
      * right. cbn. repeat split; [lia|]. exists (Ok r :: oks), e. split; [done|by constructor].
    + injection H as <- <- <-. right. cbn. repeat split; [lia|]. by exists [], e.
Qed.

(** C16. A transactional batch with [stop_on_error], none of whose statements ends the transaction
    by succeeding (no COMMIT, END, ROLLBACK or outermost RELEASE among them), is atomic: either
    every statement has a result without error (and [committed] says whether COMMIT
    succeeded), or others find in the file what was there before the batch and the answer
    says it was not committed. *)
Theorem batch_is_atomic `{!TransactionLaws} ss m gen d resp d' :
  m <> ModeNone -> Forall (keeps_transaction true) ss ->
  batch_on ss m true gen d = (Ok resp, d') ->
  (length (results resp) = length ss /\ Forall (fun r => is_ok r = true) (results resp) /\
   exists d2 r, db_exec "COMMIT" d2 = (r, d') /\ committed resp = is_ok r) \/
  (committed resp = false /\ persist d' = persist d).
Proof.
  intros Hm Hk. unfold batch_on.
  destruct (begin_sql m) as [q|] eqn:Eb; [|by destruct m].
  destruct (db_exec q d) as [[[]|e] d1] eqn:Ex; [|done].
  destruct (begin_opens _ _ _ _ Eb Ex) as [Hin <-].
  destruct (run_statements true gen ss d1) as [[rs err] d2] eqn:Er.
  destruct (run_statements_stop _ _ _ _ _ _ Er) as [(-> & Hl & Hf)|(-> & _ & _)]; cbn [andb].
  - destruct (db_exec "COMMIT" d2) as [r d3] eqn:Ec. intros [= <- <-]. left. split_and!; [done..|]. by exists d2, r.
  - intros [= <- <-]. right. split; [done|]. rewrite rollback_keeps. by eapply run_statements_unseen.
Qed.

(** A statement of the batch that ends the transaction defeats this: when the statements before
    the failing one have left the transaction, what they made visible stays, and the answer
    says that the batch was not committed. *)
Theorem batch_commit_escapes `{!TransactionLaws} pre s ss m gen d q d1 rs d2 e d3 :
  begin_sql m = Some q -> db_exec q d = (Ok tt, d1) ->
  run_statements true gen pre d1 = (rs, false, d2) -> run_statement s gen d2 = (Err e, d3) ->
  exists d', batch_on (pre ++ s :: ss) m true gen d =
               (Ok (mk_batch_response (rs ++ [Err e]) gen false), d') /\
    persist d' = persist d3.
Proof.
  intros Hb Hx Hpre Hs. unfold batch_on. rewrite Hb, Hx.
  assert (Hall : run_statements true gen (pre ++ s :: ss) d1 = (rs ++ [Err e], true, d3)).
  { clear Hx. revert d1 rs Hpre. induction pre as [|s0 pre IH]; intros d1 rs Hpre; cbn in *.
    - injection Hpre as <- <-. by rewrite Hs.
    - destruct (run_statement s0 gen d1) as [[r|e0] d0]; [|by injection Hpre].
      destruct (run_statements true gen pre d0) as [[rs0 err0] d4] eqn:E0.
      injection Hpre as <- -> ->. by rewrite (IH d0 rs0 E0). }
  rewrite Hall. eexists. split; [done|]. apply rollback_keeps.
Qed.

(** Without [stop_on_error] a transactional batch is committed although statements of it
    failed: [committed] can be true next to an error result. *)
Theorem batch_commits_despite_errors s1 ss m gen d q d1 e d2 d3 rs err :
  begin_sql m = Some q -> db_exec q d = (Ok tt, d1) ->
  run_statement s1 gen d1 = (Err e, d2) -> run_statements false gen ss d2 = (rs, err, d3) ->
  fst (db_exec "COMMIT" d3) = Ok tt ->
  exists d4, batch_on (s1 :: ss) m false gen d = (Ok (mk_batch_response (Err e :: rs) gen true), d4).
Proof.
  intros Hb Hx Hs Hr Hc. unfold batch_on. rewrite Hb, Hx. cbn [run_statements].
  rewrite Hs, Hr. cbn [andb]. destruct (db_exec "COMMIT" d3) as [r d4]. cbn in Hc. subst r.
  by eexists.
Qed.
End EngineClaims.

(** The lock table is keyed by the trimmed spelling of a name, not by the file it resolves
    to: two spellings of one path get two locks, so writers to the same file are
    not serialised by them. *)
Theorem one_file_two_locks :
  let t0 := mk_locks ∅ 0 in
  let '(l1, t1) := get_db_lock "tenant/app.db" t0 in
  let '(l2, _) := get_db_lock "tenant//app.db" t1 in
  components "tenant/app.db" = components "tenant//app.db" /\ l1 <> l2.
Proof. vm_compute. done. Qed.

(** ** A small SQLite for the examples

    A database is a log of executed statements and the log saved by an open
    transaction; [fail] is a statement that fails, [select] and [commit] are read-only. *)
Record ToyDb := mk_toy { log : list string; saved : option (list string) }.

Definition toy_commit (d : ToyDb) : SyncResult unit * ToyDb :=
  match saved d with
  | Some _ => (Ok tt, mk_toy (log d) None)
  | None => (Err (Sqlite 1 "cannot commit - no transaction is active"), d)
  end.

Definition toy_step (q : string) (d : ToyDb) : SyncResult unit * ToyDb :=
  if String.eqb q "fail" then (Err (Sqlite 1 "constraint failed"), d)
  else if String.eqb q "commit" then toy_commit d
  else if String.eqb q "select" then (Ok tt, d)
  else (Ok tt, mk_toy (log d ++ [q]) (saved d)).

Definition toy_steps (q : string) (d : ToyDb) : list (SyncResult (option (list SqlValue))) :=
  match fst (toy_step q d) with
  | Err e => [Err e]
  | Ok _ =>
      if String.eqb q "select"
      then [Ok (Some [SqlInteger 1]); Ok (Some [SqlInteger 2]); Ok (Some [SqlInteger 3]); Ok None]
      else [Ok None]
  end.

Definition toy_prepare (q : string) (_ : ToyDb) : SyncResult (Prepared ToyDb) :=
  Ok (mk_prepared (String.eqb q "select" || String.eqb q "commit")
        (if String.eqb q "select" then [("c", Some "INTEGER")] else [])
        (fun _ => 0) (fun _ _ => Ok tt)
        (fun _ => toy_steps q) (fun _ d => snd (toy_step q d)) (fun _ => toy_step q)).

Definition toy_exec (q : string) (d : ToyDb) : SyncResult unit * ToyDb :=
  if starts_with "BEGIN" q then
    match saved d with
    | None => (Ok tt, mk_toy (log d) (Some (log d)))
    | Some _ => (Err (Sqlite 1 "cannot start a transaction within a transaction"), d)
    end
  else if String.eqb q "ROLLBACK" then
    match saved d with
    | Some l => (Ok tt, mk_toy l None)
    | None => (Err (Sqlite 1 "cannot rollback - no transaction is active"), d)
    end
  else if String.eqb q "COMMIT" then toy_commit d
  else (Ok tt, d).

#[export] Instance toy_sqlite : SqliteDb ToyDb := {|
  db_exec := toy_exec;
  db_prepare := toy_prepare;
  db_changes := fun _ => 1;
  db_last_insert_rowid := fun d => zlen (log d);
|}.

Definition toy_open_tx (d : ToyDb) : bool := bool_decide (is_Some (saved d)).
Definition toy_persist (d : ToyDb) : list string := default (log d) (saved d).

Lemma toy_stepped d ok d' : stepped d ok d' -> exists q, ok = is_ok (fst (toy_step q d)) /\ d' = snd (toy_step q d).
Proof.
  intros (q & p & b & [= <-] & [[-> ->]|[-> ->]]); exists q; [done|]. split; [|done]. cbn.
  unfold toy_steps. destruct (fst (toy_step q d)); [|done]. by destruct (String.eqb q "select").
Qed.

#[export] Instance toy_transactions : TransactionLaws toy_open_tx toy_persist.
Proof.
  split.
  - intros m q d d1 Hb Hx. destruct d as [l [s|]]; destruct m; cbn in Hb; simplify_eq; cbn in Hx; by simplify_eq.
  - intros [l [s|]] ok d' Hd (q & -> & ->)%toy_stepped; [|done]. unfold toy_step, toy_commit.
    repeat case_match; cbn; try done. by intros [|].
  - by intros [l [s|]].
Qed.

Definition toy_statement (q : string) : Statement := mk_statement q [] [] false.

Lemma toy_keeps stop q : q <> "commit" -> keeps_transaction toy_open_tx stop (toy_statement q).
Proof.
  intros Hq gen d r d' Hd Hs _.
  assert (d' = snd (toy_step q d)) as ->.
  { unfold run_statement in Hs. cbn in Hs. destruct (_ || _).
    - by destruct (all_rows _ _); injection Hs as _ <-.
    - by destruct (toy_step q d) as [[] ?]; injection Hs as _ <-. }
  unfold toy_step. destruct (String.eqb_spec q "commit"); [done|]. repeat case_match; done.
Qed.

Definition toy_open (path : string) (read_only : bool) : SyncResult ToyDb := Ok (mk_toy [] None).

Lemma chunks_equal_query_witness :
  match stream_query_chunks "/data" (fun _ => None) toy_open "a.db" (toy_statement "select") 0 2,
        query "/data" (fun _ => None) toy_open "a.db" (toy_statement "select") 0 7 false with
  | Ok chunks, Ok q => concat (map chunk_rows chunks) = q_rows q /\ chunks_shape 2 (q_columns q) chunks
  | Err e, Err e' => e = e'
  | _, _ => False
  end.
Proof.
  apply (chunks_equal_query "/data" (fun _ => None) toy_open "a.db" (toy_statement "select") 0 2 7 false).
  reflexivity.
Defined.

Lemma request_values_reach_sqlite_witness :
  let s := mk_statement "insert" [Some (TextValue "x")] [] true in
  exists p b d', db_prepare "insert" (mk_toy [] None) = Ok p /\ b !! 1 = Some (SqlText "x") /\
    step_write p b (mk_toy [] None) = (Ok tt, d').
Proof.
  intros s.
  destruct (request_values_reach_sqlite "/data" (fun _ => None) toy_open "a.db" s) as [H _].
  destruct (H 7 (mk_execute_response 1 1 7) (Some (mk_toy ["insert"] None)) eq_refl)
    as (conn & p & b & d' & Ho & Hp & Hb & Hs & _).
  injection Ho as <-. exists p, b, d'. split; [exact Hp|]. split; [|exact Hs].
  rewrite Hb. injection Hp as <-. reflexivity.
Defined.

Lemma batch_is_atomic_witness :
  exists resp d', batch_on (map toy_statement ["insert"; "select"; "fail"; "insert"]) ModeImmediate true 7
                    (mk_toy ["before"] None) = (Ok resp, d') /\
    committed resp = false /\ toy_persist d' = ["before"].
Proof.
  eexists _, _. split; [vm_compute; reflexivity|].
  edestruct (batch_is_atomic toy_open_tx toy_persist (map toy_statement ["insert"; "select"; "fail"; "insert"])
               ModeImmediate 7 (mk_toy ["before"] None)) as [[Hl _]|H];
    [discriminate|repeat constructor; by apply toy_keeps|vm_compute; reflexivity| |exact H].
  discriminate Hl.
Defined.

(** The INSERT before a COMMIT of the client stays, and the answer says nothing was committed. *)
Lemma batch_commit_escapes_witness :
  exists d', batch_on (map toy_statement ["insert"; "commit"; "fail"]) ModeImmediate true 7 (mk_toy [] None) =
    (Ok (mk_batch_response [Ok (ExecuteResult (mk_execute_response 1 1 7));
                            Ok (QueryResult (mk_query_response [] [] 0 7 false));
                            Err "SQLite error (code 1): constraint failed"] 7 false), d') /\
    toy_persist d' = ["insert"].
Proof.
  apply (batch_commit_escapes toy_open_tx toy_persist (map toy_statement ["insert"; "commit"])
           (toy_statement "fail") [] ModeImmediate 7 (mk_toy [] None) "BEGIN IMMEDIATE"
           (mk_toy [] (Some []))
           [Ok (ExecuteResult (mk_execute_response 1 1 7));
            Ok (QueryResult (mk_query_response [] [] 0 7 false))] (mk_toy ["insert"] None)
           "SQLite error (code 1): constraint failed" (mk_toy ["insert"] None)); reflexivity.
Defined.

Lemma batch_commits_despite_errors_witness :
  exists d4, batch_on (toy_statement "fail" :: [toy_statement "insert"]) ModeDeferred false 7
               (mk_toy [] None) =
    (Ok (mk_batch_response [Err "SQLite error (code 1): constraint failed";
                            Ok (ExecuteResult (mk_execute_response 1 1 7))] 7 true), d4).
Proof.
  apply (batch_commits_despite_errors (toy_statement "fail") [toy_statement "insert"] ModeDeferred 7
           (mk_toy [] None) "BEGIN DEFERRED" (mk_toy [] (Some []))
           "SQLite error (code 1): constraint failed" (mk_toy [] (Some []))
           (mk_toy ["insert"] (Some []))
           [Ok (ExecuteResult (mk_execute_response 1 1 7))] false); reflexivity.
Defined.
