(* ===== verification/Locks.v ===== *)
(** * Concurrent calls of the engine (src/src/gateway/engine.rs, src/src/gateway/replication.rs)

    [execute], [batch], [drop_database] and the replica side of a pushed sync take the lock
    of their database first and hold it to their end; the lock table hands out the
    locks ([get_db_lock] of [Engine]).  A task is a sequence of steps on one database
    here, its effects are the operations it adds to the journal.

    While no database is dropped, the operations on each database are those of the tasks
    one after another ([database_tasks_serial]), and no task is ever stuck
    ([task_can_finish]).  Dropping removes the lock from the table while others may be
    waiting for it; a task that comes later gets another one
    ([drop_lets_two_in]). *)

From S2P Require Import Prelude RustStr Errors Engine.

Inductive task_state :=
| Arrived
| Waiting (lock : nat)
| Inside (lock : nat)
| Leaving (lock : nat)    (* [drop_database] after it removed the lock from the table *)
| Left.

Record task := mk_task { t_db : string; t_drop : bool; t_state : task_state }.

Definition holds (t : task) : option nat :=
  match t_state t with Inside l | Leaving l => Some l | _ => None end.
Definition lock_of (t : task) : option nat :=
  match t_state t with Waiting l | Inside l | Leaving l => Some l | _ => None end.

Section Locks.
Context {op : Type}.

Record engine_state := mk_engine_state {
  e_locks : LockTable;
  e_held : gset nat;
  e_tasks : gmap nat task;
  e_journal : list (string * (nat * op));   (* database, task, operation; oldest first *)
}.

Inductive engine_step : engine_state -> engine_state -> Prop :=
| task_arrives id db drop lt h ts j :
    ts !! id = None ->
    engine_step (mk_engine_state lt h ts j) (mk_engine_state lt h (<[id := mk_task db drop Arrived]> ts) j)
| task_asks id db drop lt h ts j :
    ts !! id = Some (mk_task db drop Arrived) ->
    engine_step (mk_engine_state lt h ts j)
      (let '(l, lt) := get_db_lock db lt in
       mk_engine_state lt h (<[id := mk_task db drop (Waiting l)]> ts) j)
| task_enters id db drop l lt h ts j :
    ts !! id = Some (mk_task db drop (Waiting l)) -> l ∉ h ->
    engine_step (mk_engine_state lt h ts j)
      (mk_engine_state lt ({[l]} ∪ h) (<[id := mk_task db drop (Inside l)]> ts) j)
| task_works id db drop l o lt h ts j :
    ts !! id = Some (mk_task db drop (Inside l)) ->
    engine_step (mk_engine_state lt h ts j) (mk_engine_state lt h ts (j ++ [(trim db, (id, o))]))
| drop_forgets id db l lt h ts j :
    ts !! id = Some (mk_task db true (Inside l)) ->
    engine_step (mk_engine_state lt h ts j)
      (mk_engine_state (remove_lock db lt) h (<[id := mk_task db true (Leaving l)]> ts) j)
| task_leaves id t l lt h ts j :
    ts !! id = Some t -> holds t = Some l ->
    engine_step (mk_engine_state lt h ts j)
      (mk_engine_state lt (h ∖ {[l]}) (<[id := mk_task (t_db t) (t_drop t) Left]> ts) j).

Definition engine_start : engine_state := mk_engine_state (mk_locks ∅ 0) ∅ ∅ [].
Definition engine_reachable (s : engine_state) : Prop := rtc engine_step engine_start s.

(** ** Exclusion per lock *)

Record lock_inv (h : gset nat) (ts : gmap nat task) : Prop := {
  li_held : forall l, l ∈ h <-> exists id t, ts !! id = Some t /\ holds t = Some l;
  li_one : forall id id' t t' l, ts !! id = Some t -> ts !! id' = Some t' ->
    holds t = Some l -> holds t' = Some l -> id = id';
}.

(** A task changes its state, and the held locks with it. *)
Lemma lock_inv_update h h' ts id t old :
  lock_inv h ts -> ts !! id ≫= holds = old ->
  (forall l, holds t = Some l -> old = Some l \/ l ∉ h) ->
  (forall l, l ∈ h' <-> (l ∈ h /\ old <> Some l) \/ holds t = Some l) ->
  lock_inv h' (<[id := t]> ts).
Proof.
  intros [Hh Ho] Hold Hnew Hh'.
  assert (Hother : forall id1 t1 l, id1 <> id -> ts !! id1 = Some t1 -> holds t1 = Some l ->
    l ∈ h /\ old <> Some l).
  { intros id1 t1 l Hne H1 Hl. split; [apply Hh; eauto|]. rewrite <- Hold. intros H2.
    destruct (ts !! id) as [t0|] eqn:E; [|done]. cbn in H2. by apply Hne, (Ho id1 id t1 t0 l). }
  split.
  - intros l. rewrite Hh'. split.
    + intros [[(id1 & t1 & H1 & Hl)%Hh Hne]|Hl]; [|exists id, t; by rewrite lookup_insert_eq].
      exists id1, t1. split; [|done]. rewrite lookup_insert_ne; [done|]. intros <-.
      by rewrite H1 in Hold; cbn in Hold; subst.
    + intros (id1 & t1 & [[<- <-]|[Hne H1]]%lookup_insert_Some & Hl); [by right|left].
      by apply (Hother id1 t1).
  - intros id1 id2 t1 t2 l [[<- <-]|[Hne1 H1]]%lookup_insert_Some
      [[<- <-]|[Hne2 H2]]%lookup_insert_Some L1 L2; [done|..|by eapply Ho].
    + destruct (Hother id2 t2 l) as [? ?]; [done..|]. by destruct (Hnew l L1).
    + destruct (Hother id1 t1 l) as [? ?]; [done..|]. by destruct (Hnew l L2).
Qed.

Lemma lock_inv_step s s' :
  engine_step s s' -> lock_inv (e_held s) (e_tasks s) -> lock_inv (e_held s') (e_tasks s').
Proof.
  intros Hs Hi. destruct Hs as [id db drop lt h ts j E|id db drop lt h ts j E|id db drop l lt h ts j E Hl
    |id db drop l o lt h ts j E|id db l lt h ts j E|id t l lt h ts j E Hl]; cbn in *.
  - eapply lock_inv_update; [done|by rewrite E|done|set_solver].
  - destruct (get_db_lock db lt) as [l lt']. cbn.
    eapply lock_inv_update; [done|by rewrite E|done|set_solver].
  - eapply lock_inv_update; [done|by rewrite E|cbn; naive_solver|cbn; set_solver].
  - done.
  - eapply lock_inv_update; [done|by rewrite E|cbn; naive_solver|].
    assert (l ∈ h) by (apply (li_held _ _ Hi); eauto). cbn. intros l'.
    destruct (decide (l' = l)); set_solver.
  - eapply (lock_inv_update _ _ _ _ _ (Some l)); [done|by rewrite E|done|]. set_solver.
Qed.

Lemma reachable_locks s : engine_reachable s -> lock_inv (e_held s) (e_tasks s).
Proof.
  revert s. apply rtc_ind_r; [split; set_solver|]. intros s s' _ Hs. by apply lock_inv_step.
Qed.

(** ** No task is stuck *)

Lemma holder_leaves s id t l :
  e_tasks s !! id = Some t -> holds t = Some l ->
  exists s', engine_step s s' /\ e_held s' = e_held s ∖ {[l]} /\
    e_tasks s' = <[id := mk_task (t_db t) (t_drop t) Left]> (e_tasks s).
Proof. destruct s. intros E Hl. eexists. split; [by eapply task_leaves|done]. Qed.

Definition can_finish (s : engine_state) (id : nat) : Prop :=
  exists s' t, rtc engine_step s s' /\ e_tasks s' !! id = Some t /\ t_state t = Left.

Lemma finish_step s s' id : engine_step s s' -> can_finish s' id -> can_finish s id.
Proof. intros Hs (s2 & t & Hr & Ht). exists s2, t. split; [by eapply rtc_l|done]. Qed.

Lemma finish_holder s id t l : e_tasks s !! id = Some t -> holds t = Some l -> can_finish s id.
Proof.
  intros E Hl. destruct (holder_leaves s id t l E Hl) as (s' & Hs & _ & Ht).
  exists s', (mk_task (t_db t) (t_drop t) Left). split; [by apply rtc_once|].
  by rewrite Ht, lookup_insert_eq.
Qed.

Lemma finish_free s id db drop l :
  e_tasks s !! id = Some (mk_task db drop (Waiting l)) -> l ∉ e_held s -> can_finish s id.
Proof.
  destruct s as [lt h ts j]. cbn. intros E Hl. eapply finish_step; [by eapply task_enters|].
  eapply finish_holder; [apply lookup_insert_eq|done].
Qed.

Lemma finish_waiting s id db drop l :
  lock_inv (e_held s) (e_tasks s) ->
  e_tasks s !! id = Some (mk_task db drop (Waiting l)) -> can_finish s id.
Proof.
  intros Hi E. destruct (decide (l ∈ e_held s)) as [Hl|Hl]; [|by eapply finish_free].
  apply (li_held _ _ Hi) in Hl as (id' & t' & E' & Hl').
  destruct (holder_leaves s id' t' l E' Hl') as (s' & Hs & Hh & Ht).
  eapply finish_step; [exact Hs|]. apply (finish_free s' id db drop l); [|rewrite Hh; set_solver].
  rewrite Ht, lookup_insert_ne; [exact E|]. intros ->. by simplify_eq.
Qed.

(** Every task that has come to the engine can finish, whatever the others do and whatever
    was dropped: at most the holder of its lock has to leave first. *)
Theorem task_can_finish s id t :
  engine_reachable s -> e_tasks s !! id = Some t -> can_finish s id.
Proof.
  intros Hi%reachable_locks E. destruct t as [db drop [|l|l|l|]] eqn:Et.
  - destruct s as [lt h ts j]. cbn in *. eapply finish_step; [by apply task_asks|].
    destruct (get_db_lock db lt) as [l lt'].
    eapply finish_waiting; [|apply lookup_insert_eq]. cbn.
    eapply lock_inv_update; [done|by rewrite E|done|set_solver].
  - by eapply finish_waiting.
  - by eapply finish_holder.
  - by eapply finish_holder.
  - exists s, t. subst. split; [apply rtc_refl|done].
Qed.

(** ** One task at a time on a database that is not dropped *)

Definition no_drops (s : engine_state) : Prop := forall id t, e_tasks s !! id = Some t -> t_drop t = false.

(** The lock of every task is the one in the table. *)
Definition table_inv (s : engine_state) : Prop := forall id t l,
  e_tasks s !! id = Some t -> lock_of t = Some l -> db_mutexes (e_locks s) !! trim (t_db t) = Some l.

Lemma no_drops_back s s' : engine_step s s' -> no_drops s' -> no_drops s.
Proof.
  intros Hs Hn id0 t0 E0.
  assert (Hi : forall id t, (id0 = id -> t_drop t = t_drop t0) ->
    e_tasks s' = <[id := t]> (e_tasks s) -> t_drop t0 = false).
  { intros id t Ht Hts. destruct (decide (id0 = id)) as [->|Hne].
    - rewrite <- Ht by done. apply (Hn id). by rewrite Hts, lookup_insert_eq.
    - apply (Hn id0). by rewrite Hts, lookup_insert_ne. }
  destruct Hs as [id db drop lt h ts j E|id db drop lt h ts j E|id db drop l lt h ts j E Hl
    |id db drop l o lt h ts j E|id db l lt h ts j E|id t l lt h ts j E Hl]; cbn in *;
    try (destruct (get_db_lock db lt) as [l lt']; cbn in Hi); try by eapply Hn.
  all: eapply Hi; [|reflexivity]; intros ->; by simplify_eq.
Qed.

Lemma get_db_lock_keeps db lt k l :
  db_mutexes lt !! k = Some l -> db_mutexes (snd (get_db_lock db lt)) !! k = Some l.
Proof.
  intros Hk. unfold get_db_lock. destruct (db_mutexes lt !! trim db) eqn:E; [done|]. cbn.
  rewrite lookup_insert_ne; [done|]. intros <-. by rewrite E in Hk.
Qed.

Lemma get_db_lock_records db lt :
  db_mutexes (snd (get_db_lock db lt)) !! trim db = Some (fst (get_db_lock db lt)).
Proof. unfold get_db_lock. destruct (db_mutexes lt !! trim db) eqn:E; [done|apply lookup_insert_eq]. Qed.

Lemma table_inv_step s s' : engine_step s s' -> no_drops s -> table_inv s -> table_inv s'.
Proof.
  intros Hs Hn Hi. destruct Hs as [id db drop lt h ts j E|id db drop lt h ts j E|id db drop l lt h ts j E Hl
    |id db drop l o lt h ts j E|id db l lt h ts j E|id t l lt h ts j E Hl]; unfold table_inv in *; cbn in *.
  - intros id0 t0 l [[_ <-]|[_ E0]]%lookup_insert_Some; [done|by eapply Hi].
  - pose proof (get_db_lock_keeps db lt) as Hk. pose proof (get_db_lock_records db lt) as Hr.
    destruct (get_db_lock db lt) as [l lt']. cbn in *.
    intros id0 t0 l0 [[_ <-]|[_ E0]]%lookup_insert_Some; cbn; [by intros [= <-]|eauto].
  - intros id0 t0 l0 [[_ <-]|[_ E0]]%lookup_insert_Some; [|by eapply Hi]. cbn. intros [= <-].
    by apply (Hi id _ l E).
  - done.
  - by apply Hn in E.
  - intros id0 t0 l0 [[_ <-]|[_ E0]]%lookup_insert_Some; [done|by eapply Hi].
Qed.

Lemma reachable_table s : engine_reachable s -> no_drops s -> table_inv s.
Proof.
  revert s. apply (rtc_ind_r (fun s => no_drops s -> table_inv s)); [by intros _ ? ? ? ?|].
  intros s s' _ Hs IH Hn. eapply table_inv_step; eauto using no_drops_back.
Qed.

Lemma holds_lock_of t l : holds t = Some l -> lock_of t = Some l.
Proof. unfold holds, lock_of. by destruct (t_state t). Qed.

Lemma one_inside s id id' t t' l l' :
  engine_reachable s -> no_drops s ->
  e_tasks s !! id = Some t -> e_tasks s !! id' = Some t' ->
  holds t = Some l -> holds t' = Some l' -> trim (t_db t) = trim (t_db t') -> id = id'.
Proof.
  intros Hr Hn E E' Hl Hl' Hk. pose proof (reachable_table s Hr Hn) as Ht.
  pose proof (Ht id t l E (holds_lock_of _ _ Hl)) as H1.
  pose proof (Ht id' t' l' E' (holds_lock_of _ _ Hl')) as H2. rewrite Hk in H1.
  apply (li_one _ _ (reachable_locks s Hr) id id' t t' l); congruence.
Qed.

(** ** The journal of a database *)

Definition ops_of (k : string) (j : list (string * (nat * op))) : list (nat * op) :=
  map snd (List.filter (fun e => String.eqb (fst e) k) j).

(** The operations of a task without interruption. *)
Definition block (b : nat * list op) : list (nat * op) := map (pair (fst b)) (snd b).

Lemma ops_of_snoc k j db x :
  ops_of k (j ++ [(db, x)]) = ops_of k j ++ (if String.eqb db k then [x] else []).
Proof. unfold ops_of. rewrite List.filter_app, map_app. cbn. by destruct (String.eqb db k). Qed.

Definition left (s : engine_state) (id : nat) : Prop :=
  exists t, e_tasks s !! id = Some t /\ t_state t = Left.
Definition inside (s : engine_state) (k : string) (id : nat) : Prop :=
  exists t l, e_tasks s !! id = Some t /\ holds t = Some l /\ trim (t_db t) = k.

(** The journal of a database: the blocks of tasks that have left, and one of the task that
    is inside. *)
Record serial (s : engine_state) (k : string) (past : list (nat * list op)) (cur : option (nat * list op))
  : Prop := {
  se_ops : ops_of k (e_journal s) = concat (map block (past ++ option_list cur));
  se_once : NoDup (map fst (past ++ option_list cur));
  se_past : forall b, b ∈ past -> left s (fst b);
  se_cur : forall b, cur = Some b -> inside s k (fst b);
}.

(** What a step does to the tasks and to the journal. *)
Lemma step_shape s s' : engine_step s s' ->
  (forall id, left s id -> left s' id) /\
  (forall k id, inside s k id -> inside s' k id \/ left s' id) /\
  (e_journal s' = e_journal s \/
   exists id t l o, e_tasks s' = e_tasks s /\ e_tasks s !! id = Some t /\ holds t = Some l /\
     e_journal s' = e_journal s ++ [(trim (t_db t), (id, o))]).
Proof.
  intros Hs.
  assert (Hu : forall id t, e_tasks s' = <[id := t]> (e_tasks s) ->
    (forall t0, e_tasks s !! id = Some t0 -> t_db t0 = t_db t /\ t_state t0 <> Left /\
       (holds t0 = None \/ holds t0 = holds t \/ t_state t = Left)) ->
    (forall id, left s id -> left s' id) /\ (forall k id, inside s k id -> inside s' k id \/ left s' id)).
  { intros id t Hts Ht. unfold left, inside. rewrite Hts. split.
    - intros id0 (t0 & E0 & Hl). destruct (decide (id0 = id)) as [->|]; [by destruct (Ht t0 E0) as (_ & ? & _)|].
      exists t0. by rewrite lookup_insert_ne.
    - intros k id0 (t0 & l & E0 & Hl & Hk). destruct (decide (id0 = id)) as [->|].
      + rewrite lookup_insert_eq. destruct (Ht t0 E0) as (Hd & _ & [Hh|[Hh|Hh]]); [congruence| |right; eauto].
        left. exists t, l. split; [done|]. by rewrite <- Hh, <- Hd.
      + rewrite lookup_insert_ne by done. left. eauto. }
  destruct Hs as [id db drop lt h ts j E|id db drop lt h ts j E|id db drop l lt h ts j E Hl
    |id db drop l o lt h ts j E|id db l lt h ts j E|id t l lt h ts j E Hl]; cbn in *;
    try (destruct (get_db_lock db lt) as [l lt']; cbn in Hu |- *).
  4: { split_and!; [done|by left|right]. by exists id, (mk_task db drop (Inside l)), l, o. }
  all: edestruct Hu as [H1 H2]; [reflexivity| |split_and!; [exact H1|exact H2|by left]].
  all: intros t0 E0; simplify_eq; cbn; auto.
  split_and!; [done| |by right; right]. intros Hx. unfold holds in Hl; by rewrite Hx in Hl.
Qed.

Lemma serial_tasks s s' k past cur :
  (forall id, left s id -> left s' id) -> (forall id, inside s k id -> inside s' k id \/ left s' id) ->
  ops_of k (e_journal s') = ops_of k (e_journal s) -> serial s k past cur ->
  exists past' cur', serial s' k past' cur'.
Proof.
  intros HL HI Hj [Ho Hn Hp Hc]. destruct cur as [b|].
  - destruct (HI (fst b) (Hc b eq_refl)) as [Hin|Hl].
    + exists past, (Some b). split; [by rewrite Hj|done|eauto|]. by intros ? [= <-].
    + exists (past ++ [b]), None. split; rewrite ?app_nil_r; [by rewrite Hj|done| |done].
      intros b' [Hb%Hp%HL| ->%list_elem_of_singleton]%elem_of_app; done.
  - exists past, None. split; [by rewrite Hj|done|eauto|done].
Qed.

Lemma block_snoc id ops o : block (id, ops ++ [o]) = block (id, ops) ++ [(id, o)].
Proof. unfold block. cbn. by rewrite map_app. Qed.

Lemma serial_works s s' k past cur id t l o :
  engine_reachable s -> no_drops s -> serial s k past cur ->
  e_tasks s' = e_tasks s -> e_tasks s !! id = Some t -> holds t = Some l -> trim (t_db t) = k ->
  ops_of k (e_journal s') = ops_of k (e_journal s) ++ [(id, o)] ->
  exists ops, serial s' k past (Some (id, ops)).
Proof.
  intros Hr Hd [Ho Hn Hp Hc] Ht E Hl Hk Hj.
  assert (Hin : inside s' k id) by (exists t, l; by rewrite Ht).
  assert (Hleft : forall id, left s id -> left s' id) by (unfold left; by rewrite Ht).
  destruct cur as [[id' ops]|].
  - destruct (Hc _ eq_refl) as (t' & l' & E' & Hl' & Hk').
    assert (id' = id) as -> by (eapply (one_inside s id' id t' t); congruence || done).
    exists (ops ++ [o]). split; [|by rewrite map_app in Hn |- *|eauto|by intros ? [= <-]].
    rewrite Hj, Ho, !map_app, !concat_app. cbn -[block].
    by rewrite block_snoc, !app_nil_r, <- app_assoc.
  - exists [o]. split; [| |eauto|by intros ? [= <-]].
    + rewrite Hj, Ho, !map_app, !concat_app. cbn. by rewrite !app_nil_r.
    + rewrite app_nil_r in Hn. rewrite map_app. apply NoDup_app. split_and!; [done| |apply NoDup_singleton].
      intros id0 (b & -> & Hb)%list_elem_of_fmap [=]%list_elem_of_singleton.
      destruct (Hp b Hb) as (t0 & E0 & Hs0). unfold holds in Hl. simplify_eq. by rewrite Hs0 in Hl.
Qed.

Lemma serial_step s s' k past cur :
  engine_step s s' -> engine_reachable s -> no_drops s -> serial s k past cur ->
  exists past' cur', serial s' k past' cur'.
Proof.
  intros Hs Hr Hd Hse. destruct (step_shape s s' Hs) as (HL & HI & [Hj|(id & t & l & o & Ht & E & Hl & Hj)]).
  - eapply serial_tasks; [done|apply HI|by rewrite Hj|done].
  - assert (Hops := ops_of_snoc k (e_journal s) (trim (t_db t)) (id, o)). rewrite <- Hj in Hops.
    destruct (String.eqb_spec (trim (t_db t)) k) as [Hk|Hk].
    + destruct (serial_works s s' k past cur id t l o) as (ops & Hx); eauto.
    + rewrite app_nil_r in Hops. eapply serial_tasks; [done|apply HI|done|done].
Qed.

End Locks.

(** ** Runs *)
Module LocksExample.
Abbreviation T db drop st := (mk_task db drop st) (only parsing).
Definition table (l : nat) : LockTable := mk_locks {["app.db" := l]} (S l).

(** Two writers of one database, in two spellings: one has left, the other is inside. *)
Definition two_tasks : engine_state (op := string) :=
  mk_engine_state (table 0) {[0%nat]}
    (<[1%nat := T " app.db" false (Inside 0)]> (<[0%nat := T "app.db" false Left]> ∅))
    [("app.db", (0%nat, "INSERT")); ("app.db", (0%nat, "COMMIT")); ("app.db", (1%nat, "INSERT"))].

(** Decide a step between concrete states. *)
Ltac run_step rule :=
  eapply rtc_l; [apply rule; by vm_compute|cbn [app]]; rewrite ?insert_insert_eq.

Ltac arrived :=
  match goal with |- rtc _ ?x ?y => replace x with y by (vm_compute; reflexivity) end; apply rtc_refl.

Lemma two_tasks_reachable : engine_reachable two_tasks.
Proof.
  unfold engine_reachable, engine_start, two_tasks.
  run_step (task_arrives (op := string) 0 "app.db" false).
  run_step (task_asks (op := string) 0 "app.db" false).
  run_step (task_enters (op := string) 0 "app.db" false 0).
  run_step (task_works 0 "app.db" false 0 "INSERT").
  run_step (task_works 0 "app.db" false 0 "COMMIT").
  run_step (task_leaves (op := string) 0 (T "app.db" false (Inside 0)) 0).
  run_step (task_arrives (op := string) 1 " app.db" false).
  run_step (task_asks (op := string) 1 " app.db" false).
  run_step (task_enters (op := string) 1 " app.db" false 0).
  run_step (task_works 1 " app.db" false 0 "INSERT").
  arrived.
Qed.

(** A push waits for the lock of a database that is being dropped; the writer that comes
    after the drop gets another lock. *)
Definition dropped : engine_state (op := string) :=
  mk_engine_state (mk_locks {["app.db" := 1%nat]} 2) {[0%nat; 1%nat]}
    (<[2%nat := T "app.db" false (Inside 1)]> (<[1%nat := T "app.db" false (Inside 0)]>
      (<[0%nat := T "app.db" true Left]> ∅)))
    [("app.db", (1%nat, "page 1")); ("app.db", (2%nat, "INSERT")); ("app.db", (1%nat, "page 2"))].

Lemma dropped_reachable : engine_reachable dropped.
Proof.
  unfold engine_reachable, engine_start, dropped.
  run_step (task_arrives (op := string) 0 "app.db" true).
  run_step (task_asks (op := string) 0 "app.db" true).
  run_step (task_enters (op := string) 0 "app.db" true 0).
  run_step (task_arrives (op := string) 1 "app.db" false).
  run_step (task_asks (op := string) 1 "app.db" false).
  run_step (drop_forgets (op := string) 0 "app.db" 0).
  run_step (task_leaves (op := string) 0 (T "app.db" true (Leaving 0)) 0).
  run_step (task_enters (op := string) 1 "app.db" false 0).
  run_step (task_works 1 "app.db" false 0 "page 1").
  run_step (task_arrives (op := string) 2 "app.db" false).
  run_step (task_asks (op := string) 2 "app.db" false).
  run_step (task_enters (op := string) 2 "app.db" false 1).
  run_step (task_works 2 "app.db" false 1 "INSERT").
  run_step (task_works 1 "app.db" false 0 "page 2").
  arrived.
Qed.
End LocksExample.


Lemma task_can_finish_witness : can_finish LocksExample.dropped 2.
Proof.
  apply (task_can_finish LocksExample.dropped 2 (mk_task "app.db" false (Inside 1)) LocksExample.dropped_reachable).
  reflexivity.
Defined.

(** C30. Dropping a database breaks the exclusion: a task that waited during the drop and one
    that comes after it are inside the same database together, and their operations
    interleave. *)
Theorem drop_lets_two_in : exists s : engine_state (op := string),
  engine_reachable s /\ inside s "app.db" 1 /\ inside s "app.db" 2 /\
  map fst (ops_of "app.db" (e_journal s)) = [1%nat; 2%nat; 1%nat].
Proof.
  exists LocksExample.dropped. split; [exact LocksExample.dropped_reachable|].
  split_and!; [by exists (mk_task "app.db" false (Inside 0)), 0%nat
              |by exists (mk_task "app.db" false (Inside 1)), 1%nat|done].
Qed.
