(* ===== verification/Linear.v ===== *)
(** * Concurrent calls of the engine, as their callers see them

    [DatabaseEngine::execute], [batch], [query] and [stream_query_chunks] (src/src/gateway/engine.rs)
    run on blocking tasks, several at a time.  A writing call takes the lock of its database
    ([Locks]), opens a connection, and works on it one SQLite operation after another; a
    reading call takes no lock: it opens a connection, prepares its statement and looks at
    its columns, and steps it, at three moments, and its rows are those of the file when it
    is first stepped.  Here every call is the program of its SQLite operations, the calls
    are interleaved between any two operations, and the history records when each was
    invoked and what it returned.

    [engine_linearizable]: while no database is dropped, names are spelled one way, batches
    are transactional and do not end their transaction themselves, and no call changes the
    schema, the history of every existing database is that of the calls of [Engine] made one
    at a time, each at a moment between its invocation and its return.
    [plain_batch_is_seen_in_part] shows what a batch without a transaction lets a reader
    see, [schema_change_splits_query] what a query across a schema change answers. *)

From stdpp Require Import functions.
From S2P Require Import Prelude RustStr Errors Engine Locks.

#[export] Instance component_eq_dec : EqDecision Component.
Proof. solve_decision. Defined.

(** ** Calls and their programs *)

Inductive write_call :=
| Execute (s : Statement) (generation : Z)
| BatchOf (ss : list Statement) (m : BatchTransactionMode) (stop_on_error : bool) (generation : Z).
Inductive read_call :=
| Query (s : Statement) (max_rows generation : Z) (is_replica_read : bool)
| Stream (s : Statement) (max_rows chunk_size : Z).
Inductive call := Write (w : write_call) | Read (q : read_call).

Inductive response :=
| ExecuteAnswer (r : SyncResult ExecuteResponse)
| BatchAnswer (r : SyncResult BatchResponse)
| QueryAnswer (r : SyncResult QueryResponse)
| StreamAnswer (r : SyncResult (list QueryChunk)).

(** What a writing call answers when its connection cannot be opened. *)
Definition open_failed (w : write_call) (e : SyncError) : response :=
  match w with
  | Execute _ _ => ExecuteAnswer (Err e)
  | BatchOf _ _ _ _ => BatchAnswer (Err e)
  end.

Definition read_statement (q : read_call) : Statement :=
  match q with Query s _ _ _ | Stream s _ _ => s end.

(** What a reading call answers when opening, preparing or binding fails, *)
Definition read_failed (q : read_call) (e : SyncError) : response :=
  match q with
  | Query _ _ _ _ => QueryAnswer (Err e)
  | Stream _ _ _ => StreamAnswer (Err e)
  end.

(** and from the headers it took from its prepared statement and the steps of this. *)
Definition read_result {DB} (q : read_call) (p : Prepared DB) (ss : list (SyncResult (option (list SqlValue))))
  : response :=
  match q with
  | Query _ max_rows generation replica =>
      QueryAnswer (let? rows := collect_rows (column_count p) max_rows 0 ss in
                   Ok (mk_query_response (headers p) rows (zlen rows) generation replica))
  | Stream _ max_rows chunk_size =>
      StreamAnswer (chunk_rows_go (column_count p) max_rows chunk_size 0 (headers p) [] ss)
  end.

(** What the file of a database holds between connections: [attach] is [Connection::open] on
    it, [refresh] is a connection that is not in a transaction when it looks at the file
    again, [persist] what other connections find there while one is open, and what is left
    when it is closed. *)
Class SqliteFiles (DB File : Type) := {
  attach : File -> string -> bool -> SyncResult DB;
  refresh : File -> DB -> DB;
  persist : DB -> File;
}.

Section Linear.
Context {DB : Type} `{!SqliteDb DB}.
Context (data_dir : string) (create_parent : string -> option IoError).
Context {File : Type} `{!SqliteFiles DB File}.

(** The rest of a call: its answer, or an operation on the connection and what follows. *)
Inductive program :=
| Done (r : response)
| Op (step : DB -> DB * program).

Fixpoint run (p : program) (d : DB) : response * DB :=
  match p with
  | Done r => (r, d)
  | Op f => let '(d', p') := f d in run p' d'
  end.

(** [prepare], [bind_parameters], [step], then the counters of the connection. *)
Definition execute_program (s : Statement) (generation : Z) : program :=
  Op (fun d => (d,
    match db_prepare (sql s) d with
    | Err e => Done (ExecuteAnswer (Err e))
    | Ok prepared =>
        match bind_parameters prepared s with
        | Err e => Done (ExecuteAnswer (Err e))
        | Ok bound =>
            Op (fun d =>
              match step_write prepared bound d with
              | (Err e, d) => (d, Done (ExecuteAnswer (Err e)))
              | (Ok _, d) => (d, Op (fun d => (d, Done (ExecuteAnswer (Ok
                  (mk_execute_response (db_changes d) (db_last_insert_rowid d) generation))))))
              end)
        end
    end)).

(** One statement of a batch; [k] goes on with its result. *)
Definition statement_program (s : Statement) (generation : Z) (k : StatementResult -> program) : program :=
  Op (fun d => (d,
    match db_prepare (sql s) d with
    | Err e => k (Err (SyncError_to_string e))
    | Ok prepared =>
        match bind_parameters prepared s with
        | Err e => k (Err (SyncError_to_string e))
        | Ok bound =>
            if is_readonly prepared then
              Op (fun d => (after_read prepared bound d,
                match all_rows (column_count prepared) (steps prepared bound d) with
                | Err e => k (Err (SyncError_to_string e))
                | Ok rows => k (Ok (QueryResult (mk_query_response (headers prepared) rows (zlen rows) generation false)))
                end))
            else
              Op (fun d =>
                match step_write prepared bound d with
                | (Ok _, d) => (d, Op (fun d => (d, k (Ok (ExecuteResult
                    (mk_execute_response (db_changes d) (db_last_insert_rowid d) generation))))))
                | (Err e, d) => (d, k (Err (SyncError_to_string e)))
                end)
        end
    end)).

(** The loop over the statements: [results] and [has_error] are its variables. *)
Fixpoint statements_program (stop_on_error : bool) (generation : Z) (ss : list Statement)
    (results : list StatementResult) (has_error : bool) (k : list StatementResult -> bool -> program)
  : program :=
  match ss with
  | [] => k results has_error
  | s :: rest =>
      statement_program s generation (fun r =>
        match r with
        | Ok _ => statements_program stop_on_error generation rest (results ++ [r]) has_error k
        | Err _ =>
            if stop_on_error then k (results ++ [r]) true
            else statements_program stop_on_error generation rest (results ++ [r]) true k
        end)
  end.

(** After the loop: rollback or commit, and the answer. *)
Definition finish_batch (m : BatchTransactionMode) (stop_on_error : bool) (generation : Z)
    (rs : list StatementResult) (has_error : bool) : program :=
  let answer committed := Done (BatchAnswer (Ok (mk_batch_response rs generation committed))) in
  match begin_sql m with
  | Some _ =>
      if has_error && stop_on_error then Op (fun d => (snd (db_exec "ROLLBACK" d), answer false))
      else Op (fun d => let '(r, d) := db_exec "COMMIT" d in (d, answer (is_ok r)))
  | None => answer (negb has_error)
  end.

Definition batch_program (ss : list Statement) (m : BatchTransactionMode) (stop_on_error : bool)
    (generation : Z) : program :=
  let rest := statements_program stop_on_error generation ss [] false (finish_batch m stop_on_error generation) in
  match begin_sql m with
  | None => rest
  | Some q =>
      Op (fun d =>
        match db_exec q d with
        | (Err e, d) => (d, Done (BatchAnswer (Err e)))
        | (Ok _, d) => (d, rest)
        end)
  end.

Definition program_of (w : write_call) : program :=
  match w with
  | Execute s generation => execute_program s generation
  | BatchOf ss m stop generation => batch_program ss m stop generation
  end.

(** A reading call of [Engine] on a file that does not change. *)
Definition read_answer (db : string) (q : read_call) (f : File) : response :=
  match q with
  | Query s max_rows generation replica =>
      QueryAnswer (query data_dir create_parent (attach f) db s max_rows generation replica)
  | Stream s max_rows chunk_size =>
      StreamAnswer (stream_query_chunks data_dir create_parent (attach f) db s max_rows chunk_size)
  end.

(** ** The concurrent engine *)

(** Where a call is: before its connection is open; a reading call with its connection, and
    with its prepared and bound statement; a writing call at work; with the answer known;
    returned. *)
Inductive phase :=
| Pending
| Opened (conn : DB)
| Compiled (conn : DB) (p : Prepared DB) (bound : Bindings)
| Running (conn : DB) (p : program)
| Answered (r : response)
| Returned.

Definition answer (ph : phase) : option response :=
  match ph with Running _ (Done r) | Answered r => Some r | _ => None end.

Inductive event :=
| Invoke (id : nat) (db : string) (c : call)
| Return (id : nat) (r : response).

Record lin_state := mk_lin {
  ls_engine : engine_state (op := unit);
  ls_calls : gmap nat (string * call);
  ls_phases : gmap nat phase;
  ls_files : list Component -> File;
  ls_history : list event;          (* oldest first *)
}.

(** The file a name stands for, below the data directory. *)
Definition path_of (db : string) : list Component := components (trim db).

(** The steps of [Locks], as functions. *)
Definition arrive (id : nat) (db : string) (e : engine_state (op := unit)) : engine_state :=
  mk_engine_state (e_locks e) (e_held e) (<[id := mk_task db false Arrived]> (e_tasks e)) (e_journal e).
Definition ask (id : nat) (db : string) (e : engine_state (op := unit)) : engine_state :=
  let '(l, lt) := get_db_lock db (e_locks e) in
  mk_engine_state lt (e_held e) (<[id := mk_task db false (Waiting l)]> (e_tasks e)) (e_journal e).
Definition enter (id : nat) (db : string) (l : nat) (e : engine_state (op := unit)) : engine_state :=
  mk_engine_state (e_locks e) ({[l]} ∪ e_held e) (<[id := mk_task db false (Inside l)]> (e_tasks e)) (e_journal e).
Definition leave (id : nat) (db : string) (l : nat) (e : engine_state (op := unit)) : engine_state :=
  mk_engine_state (e_locks e) (e_held e ∖ {[l]}) (<[id := mk_task db false Left]> (e_tasks e)) (e_journal e).

(** The operations of a reading call, on the file as it is then. *)
Definition open_read (db : string) (q : read_call) (f : File) : phase :=
  match open_connection data_dir create_parent (attach f) db true with
  | Err e => Answered (read_failed q e)
  | Ok conn => Opened conn
  end.
Definition prepare_read (q : read_call) (conn : DB) (f : File) : phase :=
  match db_prepare (sql (read_statement q)) (refresh f conn) with
  | Err e => Answered (read_failed q e)
  | Ok p =>
      match bind_parameters p (read_statement q) with
      | Err e => Answered (read_failed q e)
      | Ok bound => Compiled (refresh f conn) p bound
      end
  end.
Definition step_read (q : read_call) (conn : DB) (p : Prepared DB) (bound : Bindings) (f : File) : phase :=
  Answered (read_result q p (steps p bound (refresh f conn))).

(** What a reading call does next. *)
Definition read_next (db : string) (q : read_call) (ph : phase) (f : File) : option phase :=
  match ph with
  | Pending => Some (open_read db q f)
  | Opened conn => Some (prepare_read q conn f)
  | Compiled conn p bound => Some (step_read q conn p bound f)
  | _ => None
  end.

Inductive lin_step : lin_state -> lin_state -> Prop :=
| call_arrives id db c e cs ph fs h :
    cs !! id = None -> e_tasks e !! id = None ->
    lin_step (mk_lin e cs ph fs h)
      (mk_lin (match c with Write _ => arrive id db e | Read _ => e end) (<[id := (db, c)]> cs) (<[id := Pending]> ph) fs
         (h ++ [Invoke id db c]))
| call_asks id db e cs ph fs h :
    e_tasks e !! id = Some (mk_task db false Arrived) ->
    lin_step (mk_lin e cs ph fs h) (mk_lin (ask id db e) cs ph fs h)
| call_enters id db l e cs ph fs h :
    e_tasks e !! id = Some (mk_task db false (Waiting l)) -> l ∉ e_held e ->
    lin_step (mk_lin e cs ph fs h) (mk_lin (enter id db l e) cs ph fs h)
| call_opens id db w l e cs ph fs h :
    e_tasks e !! id = Some (mk_task db false (Inside l)) -> cs !! id = Some (db, Write w) -> ph !! id = Some Pending ->
    lin_step (mk_lin e cs ph fs h)
      (match open_connection data_dir create_parent (attach (fs (path_of db))) db false with
       | Err err => mk_lin e cs (<[id := Answered (open_failed w err)]> ph) fs h
       | Ok conn =>
           mk_lin e cs (<[id := Running conn (program_of w)]> ph) (<[path_of db := persist conn]> fs) h
       end)
| call_operates id db w l conn f e cs ph fs h :
    e_tasks e !! id = Some (mk_task db false (Inside l)) -> cs !! id = Some (db, Write w) ->
    ph !! id = Some (Running conn (Op f)) ->
    lin_step (mk_lin e cs ph fs h)
      (let '(conn, p) := f conn in
       mk_lin e cs (<[id := Running conn p]> ph) (<[path_of db := persist conn]> fs) h)
| call_leaves id db w l r phase e cs ph fs h :
    e_tasks e !! id = Some (mk_task db false (Inside l)) -> cs !! id = Some (db, Write w) ->
    ph !! id = Some phase -> answer phase = Some r ->
    lin_step (mk_lin e cs ph fs h) (mk_lin (leave id db l e) cs (<[id := Returned]> ph) fs (h ++ [Return id r]))
| query_reads id db q phase phase' e cs ph fs h :
    cs !! id = Some (db, Read q) -> ph !! id = Some phase ->
    read_next db q phase (fs (path_of db)) = Some phase' ->
    lin_step (mk_lin e cs ph fs h) (mk_lin e cs (<[id := phase']> ph) fs h)
| query_returns id db q r e cs ph fs h :
    cs !! id = Some (db, Read q) -> ph !! id = Some (Answered r) ->
    lin_step (mk_lin e cs ph fs h) (mk_lin e cs (<[id := Returned]> ph) fs (h ++ [Return id r])).

Context (files0 : list Component -> File).

Definition lin_start : lin_state := mk_lin engine_start ∅ ∅ files0 [].
Definition lin_reachable (s : lin_state) : Prop := rtc lin_step lin_start s.

(** ** The sequential engine *)

Definition left_behind (f : File) (d : option DB) : File := from_option persist f d.

(** A call of [Engine] with nobody else there. *)
Definition seq_call (db : string) (c : call) (f : File) : response * File :=
  let no_locks := mk_locks ∅ 0 in
  match c with
  | Write (Execute s generation) =>
      let '(r, d, _) := execute data_dir create_parent (attach f) db s generation no_locks in
      (ExecuteAnswer r, left_behind f d)
  | Write (BatchOf ss m stop generation) =>
      let '(r, d, _) := batch data_dir create_parent (attach f) db ss m stop generation no_locks in
      (BatchAnswer r, left_behind f d)
  | Read q => (read_answer db q f, f)
  end.

Fixpoint seq_run (order : list (nat * (string * call))) (f : File) : list response * File :=
  match order with
  | [] => ([], f)
  | (_, (db, c)) :: rest =>
      let '(r, f) := seq_call db c f in
      let '(rs, f) := seq_run rest f in (r :: rs, f)
  end.

(** [order] explains the history of the file [p]: each call of it once, every returned
    call among them with the answer of the sequential engine, and a call that
    returned before another was invoked comes before it. *)
Definition before (a b : event) (h : list event) : Prop :=
  exists h1 h2 h3, h = h1 ++ a :: h2 ++ b :: h3.

Record linearization (p : list Component) (h : list event) (order : list (nat * (string * call))) : Prop := {
  lz_once : NoDup (map fst order);
  lz_invoked : forall id db c, (id, (db, c)) ∈ order -> Invoke id db c ∈ h /\ path_of db = p;
  lz_returned : forall id db c r, Invoke id db c ∈ h -> path_of db = p -> Return id r ∈ h ->
    exists i, order !! i = Some (id, (db, c)) /\ fst (seq_run order (files0 p)) !! i = Some r;
  lz_real_time : forall i j id1 x1 r id2 db2 c2,
    order !! i = Some (id1, x1) -> order !! j = Some (id2, (db2, c2)) ->
    before (Return id1 r) (Invoke id2 db2 c2) h -> (i < j)%nat;
}.

(** ** Without interruption, the programs are the engine's functions *)

Lemma run_statement_program s gen k d :
  run (statement_program s gen k) d = let '(r, d) := run_statement s gen d in run (k r) d.
Proof.
  unfold statement_program, run_statement. cbn.
  destruct (db_prepare (sql s) d) as [p|]; [|done]. destruct (bind_parameters p s) as [b|]; [|done].
  cbn. destruct (is_readonly p); [cbn; by destruct (all_rows _ _)|]. cbn.
  by destruct (step_write p b d) as [[] ?].
Qed.

Lemma run_statements_program stop gen ss k : forall acc err d,
  run (statements_program stop gen ss acc err k) d =
  let '(rs, e, d) := run_statements stop gen ss d in run (k (acc ++ rs) (err || e)) d.
Proof.
  induction ss as [|s ss IH]; intros acc err d; cbn [statements_program run_statements].
  - by rewrite app_nil_r, orb_false_r.
  - rewrite run_statement_program. destruct (run_statement s gen d) as [[r|e] d1].
    + rewrite IH. destruct (run_statements stop gen ss d1) as [[rs e] d2]. by rewrite <- app_assoc.
    + destruct stop; [by rewrite orb_true_r|]. rewrite IH.
      destruct (run_statements false gen ss d1) as [[rs e'] d2]. by rewrite orb_true_r, <- app_assoc.
Qed.

Lemma run_batch_program ss m stop gen d :
  run (batch_program ss m stop gen) d =
  let '(r, d) := batch_on ss m stop gen d in (BatchAnswer r, d).
Proof.
  assert (Hs : forall d, run (statements_program stop gen ss [] false (finish_batch m stop gen)) d =
    let '(rs, e, d) := run_statements stop gen ss d in run (finish_batch m stop gen rs e) d)
    by (intros; by rewrite run_statements_program).
  unfold batch_program, batch_on. destruct (begin_sql m) as [q|] eqn:Eb.
  - cbn. destruct (db_exec q d) as [[u|e] d1]; [|done]. rewrite Hs.
    destruct (run_statements stop gen ss d1) as [[rs e] d2]. unfold finish_batch. rewrite Eb.
    destruct (e && stop); [done|]. cbn. by destruct (db_exec "COMMIT" d2).
  - rewrite Hs. destruct (run_statements stop gen ss d) as [[rs e] d2]. unfold finish_batch. by rewrite Eb.
Qed.

Lemma seq_call_write db w f :
  seq_call db (Write w) f =
  match open_connection data_dir create_parent (attach f) db false with
  | Err e => (open_failed w e, f)
  | Ok conn => let '(r, d) := run (program_of w) conn in (r, persist d)
  end.
Proof.
  destruct w as [s gen|ss m stop gen]; cbn -[open_connection get_db_lock run].
  - unfold execute, execute_locked. destruct (get_db_lock _ _). destruct (open_connection _ _ _ _ _) as [conn|]; [|done].
    unfold execute_program. cbn.
    destruct (db_prepare (sql s) conn) as [p|]; [|done]. destruct (bind_parameters p s) as [b|]; [|done].
    cbn. by destruct (step_write p b conn) as [[] ?].
  - unfold batch. destruct (get_db_lock _ _). destruct (open_connection _ _ _ _ _) as [conn|]; [|done].
    rewrite run_batch_program. by destruct (batch_on ss m stop gen conn).
Qed.

(** ** When a call becomes visible *)

(** Nothing another connection can see changes any more. *)
Fixpoint steady (p : program) (d : DB) : Prop :=
  match p with
  | Done _ => True
  | Op f => let '(d', p') := f d in persist d' = persist d /\ steady p' d'
  end.

(** At most one operation changes what others see. *)
Fixpoint one_change (p : program) (d : DB) : Prop :=
  match p with
  | Done _ => True
  | Op f => let '(d', p') := f d in (persist d' = persist d /\ one_change p' d') \/ steady p' d'
  end.

Lemma steady_run : forall p d, steady p d -> persist (snd (run p d)) = persist d.
Proof.
  fix IH 1. intros [r|f] d; cbn; [done|]. destruct (f d) as [d' p']. intros [<- Hs]. by apply IH.
Qed.

(** SQLite's contract with the files.  [present f]: there is a database.  Opening one leaves its
    contents alone; a connection shows what the file holds when it looks; what a statement
    is compiled to depends on the schema only. *)
Class FileLaws {Schema : Type} (in_transaction : DB -> bool) (present : File -> bool) (schema : File -> Schema)
  : Prop := {
  fl_transactions : TransactionLaws in_transaction persist;
  open_keeps f db conn : present f = true ->
    open_connection data_dir create_parent (attach f) db false = Ok conn -> persist conn = f;
  persist_present d : present (persist d) = true;
  open_again f f' path conn : present f' = true ->
    attach f path true = Ok conn -> attach f' path true = Ok (refresh f' conn);
  refresh_again f f' conn : refresh f (refresh f' conn) = refresh f conn;
  prepare_by_schema q conn f f' : schema f = schema f' ->
    db_prepare q (refresh f conn) = db_prepare q (refresh f' conn);
}.

Context {Schema : Type} (in_transaction : DB -> bool) (present : File -> bool) (schema : File -> Schema).

Definition transactional (c : call) : Prop :=
  match c with
  | Write (BatchOf ss m stop _) => m <> ModeNone /\ Forall (keeps_transaction in_transaction stop) ss
  | _ => True
  end.

Definition keeps_schema (db : string) (c : call) : Prop :=
  forall f, schema (snd (seq_call db c f)) = schema f.

Lemma execute_one_change s gen d : one_change (execute_program s gen) d.
Proof.
  unfold execute_program. cbn. left. split; [done|].
  destruct (db_prepare (sql s) d) as [p|]; [|done]. destruct (bind_parameters p s) as [b|]; [|done].
  cbn. destruct (step_write p b d) as [[] d']; by right.
Qed.

(** Inside a transaction. *)
Section Transaction.
Context `{!TransactionLaws in_transaction persist}.
Variables (stop : bool) (f : File).

Lemma statement_one_change s gen k d :
  keeps_transaction in_transaction stop s -> in_transaction d = true -> persist d = f ->
  (forall r d', persist d' = f -> (is_ok r = true \/ stop = false -> in_transaction d' = true) ->
     one_change (k r) d') ->
  one_change (statement_program s gen k) d.
Proof.
  intros Hs Hd Hf Hk. pose proof (run_statement_unseen in_transaction persist stop s gen d) as Hun.
  unfold run_statement in Hun. unfold statement_program. cbn. left. split; [done|].
  assert (Hgo : forall r d', run_statement s gen d = (r, d') -> persist d' = persist d /\ one_change (k r) d').
  { intros r d' Hr. destruct (Hun r d' Hs Hd Hr) as [Hp Hin]. split; [done|]. apply Hk; [congruence|done]. }
  clear Hun. unfold run_statement in Hgo.
  destruct (db_prepare (sql s) d) as [p|] eqn:Ep; [|by eapply Hgo].
  destruct (bind_parameters p s) as [b|]; [|by eapply Hgo].
  destruct (is_readonly p); cbn.
  - left. destruct (all_rows _ _); by apply Hgo.
  - destruct (step_write p b d) as [[u|e] d']; left; destruct (Hgo _ _ eq_refl); (split; [done|]); [|done].
    cbn. by left.
Qed.

Lemma statements_one_change gen k ss : forall acc err d,
  Forall (keeps_transaction in_transaction stop) ss -> in_transaction d = true -> persist d = f ->
  (forall rs e d', persist d' = f -> one_change (k rs e) d') ->
  one_change (statements_program stop gen ss acc err k) d.
Proof.
  induction ss as [|s ss IH]; intros acc err d Hss Hd Hf Hk; cbn [statements_program]; [by apply Hk|].
  apply Forall_cons in Hss as [Hs Hss]. apply statement_one_change; [done..|].
  intros [r|e] d' Hd' Hin; [by apply IH; auto|].
  destruct stop; [by apply Hk|by apply IH; auto].
Qed.
End Transaction.

Lemma program_one_change `{!FileLaws in_transaction present schema} w d :
  transactional (Write w) -> one_change (program_of w) d.
Proof.
  destruct w as [s gen|ss m stop gen]; cbn; [intros _; apply execute_one_change|]. intros [Hm Hss].
  pose proof fl_transactions. unfold batch_program. destruct (begin_sql m) as [q|] eqn:Eb; [|by destruct m]. cbn.
  destruct (db_exec q d) as [[[]|e] d1] eqn:Ex; [|by right]. left.
  destruct (begin_opens _ _ _ _ _ _ Eb Ex) as [Hin Hp]. split; [done|].
  apply (statements_one_change stop (persist d)); [done..|].
  intros rs e d' Hd'. unfold finish_batch. rewrite Eb.
  destruct (e && stop); cbn; [by right|]. destruct (db_exec "COMMIT" d'). by right.
Qed.

(** ** Sequential runs *)

Lemma seq_run_app l1 : forall l2 f,
  seq_run (l1 ++ l2) f =
  let '(r1, f1) := seq_run l1 f in let '(r2, f2) := seq_run l2 f1 in (r1 ++ r2, f2).
Proof.
  induction l1 as [|[id [db c]] l1 IH]; intros l2 f; cbn; [by destruct (seq_run l2 f)|].
  destruct (seq_call db c f) as [r f1]. rewrite IH. destruct (seq_run l1 f1) as [r1 f2].
  by destruct (seq_run l2 f2).
Qed.

Lemma seq_run_length l : forall f, length (fst (seq_run l f)) = length l.
Proof.
  induction l as [|[id [db c]] l IH]; intros f; cbn; [done|].
  destruct (seq_call db c f) as [r f1]. specialize (IH f1). by destruct (seq_run l f1); cbn in *; f_equal.
Qed.

(** ** The calls and the locks *)

Lemma invoked_calls s id db c :
  lin_reachable s -> Invoke id db c ∈ ls_history s <-> ls_calls s !! id = Some (db, c).
Proof.
  intros Hr. revert s Hr id db c.
  apply (rtc_ind_r (fun s => forall id db c, Invoke id db c ∈ ls_history s <-> ls_calls s !! id = Some (db, c)));
    [intros; cbn; rewrite lookup_empty; set_solver|].
  intros s s' _ Hs IH id0 db0 c0.
  destruct Hs as [id db c e cs ph fs h E1 E2| | |id db w l e cs ph fs h|id db w l conn f e cs ph fs h| | |];
    cbn in *; try done.
  - rewrite elem_of_app, list_elem_of_singleton, IH, lookup_insert_Some. naive_solver.
  - by destruct (open_connection _ _ _ _ _).
  - by destruct (f conn).
  - rewrite elem_of_app, list_elem_of_singleton, IH. naive_solver.
  - rewrite elem_of_app, list_elem_of_singleton, IH. naive_solver.
Qed.

(** Every step of a call is one of [Locks], or none. *)
Lemma lin_step_engine s s' : lin_step s s' ->
  ls_engine s' = ls_engine s \/ engine_step (ls_engine s) (ls_engine s').
Proof.
  intros Hs.
  destruct Hs as [id db [w|q] [] cs ph fs h|id db [] cs ph fs h|id db l [] cs ph fs h|id db w l e cs ph fs h
    |id db w l conn f e cs ph fs h|id db w l r phase [] cs ph fs h| |]; cbn in *; auto.
  - right. by apply task_arrives.
  - right. unfold ask. cbn. by apply (task_asks id db false).
  - right. by apply task_enters.
  - destruct (open_connection _ _ _ _ _); auto.
  - destruct (f conn); auto.
  - right. by eapply (task_leaves id (mk_task db false (Inside l))).
Qed.

Lemma ask_tasks id db e :
  e_tasks (ask id db e) = <[id := mk_task db false (Waiting (fst (get_db_lock db (e_locks e))))]> (e_tasks e).
Proof. unfold ask. by destruct (get_db_lock _ _). Qed.

Lemma lin_step_no_drops s s' : lin_step s s' -> no_drops (ls_engine s) -> no_drops (ls_engine s').
Proof.
  assert (Hi : forall (e e' : engine_state (op := unit)) id db st,
    e_tasks e' = <[id := mk_task db false st]> (e_tasks e) -> no_drops e -> no_drops e').
  { intros e e' id db st He Hn id' t. rewrite He. intros [[_ <-]|[_ E]]%lookup_insert_Some; [done|by eapply Hn]. }
  intros [id db [w|q] e|id db e|id db l e|id db w l e cs ph fs h|id db w l conn f e|id db w l r phase e| |];
    cbn in *; auto.
  - by eapply Hi.
  - eapply Hi, ask_tasks.
  - by eapply Hi.
  - by destruct (open_connection _ _ _ _ _).
  - by destruct (f conn).
  - by eapply Hi.
Qed.

Lemma lin_engine s : lin_reachable s -> engine_reachable (ls_engine s) /\ no_drops (ls_engine s).
Proof.
  revert s. apply (rtc_ind_r (fun s => engine_reachable (ls_engine s) /\ no_drops (ls_engine s))).
  - split; [apply rtc_refl|by intros id t].
  - intros s s' _ Hs [Hr Hn]. split; [|by eapply lin_step_no_drops].
    destruct (lin_step_engine s s' Hs) as [->|He]; [done|by eapply rtc_r].
Qed.

Section Invariant.
Context `{!FileLaws in_transaction present schema}.
Variable k : string.                   (* the name of the database, trimmed *)
Hypothesis exists_at_start : present (files0 (components k)) = true.
Definition here (db : string) : Prop := path_of db = components k.
Definition contents (order : list (nat * (string * call))) : File := snd (seq_run order (files0 (components k))).

(** The call [id] has its place in the order, and the answer [r]. *)
Definition recorded (order : list (nat * (string * call))) (id : nat) (r : response) : Prop :=
  exists i x, order !! i = Some (id, x) /\ fst (seq_run order (files0 (components k))) !! i = Some r.

Lemma recorded_app order x id r : recorded order id r -> recorded (order ++ [x]) id r.
Proof.
  intros (i & y & Hi & Hr). exists i, y. split; [by apply lookup_app_l_Some|].
  rewrite seq_run_app. destruct (seq_run order _) as [r1 f1]. destruct (seq_run [x] f1).
  by apply lookup_app_l_Some.
Qed.

Lemma recorded_snoc order id db c r f :
  seq_call db c (contents order) = (r, f) ->
  recorded (order ++ [(id, (db, c))]) id r /\ contents (order ++ [(id, (db, c))]) = f.
Proof.
  unfold recorded, contents. rewrite seq_run_app.
  pose proof (seq_run_length order (files0 (components k))) as Hl.
  destruct (seq_run order _) as [r1 f1]. cbn in *. intros ->. split; [|done].
  exists (length order), (db, c). split; by apply list_lookup_middle.
Qed.

Definition in_order (order : list (nat * (string * call))) (id : nat) : Prop := id ∈ map fst order.

(** [conn] is the connection of a reading call, opened some time ago. *)
Definition was_opened (db : string) (conn : DB) : Prop :=
  exists f, open_connection data_dir create_parent (attach f) db true = Ok conn.

(** A call of this database in its phase, when the calls of [order] have taken effect. *)
Definition phase_ok (s : lin_state) (order : list (nat * (string * call))) (id : nat) (db : string) (c : call)
    (ph : phase) : Prop :=
  match ph with
  | Pending => ~ in_order order id
  | Opened conn => ~ in_order order id /\ was_opened db conn
  | Compiled conn p bound =>
      ~ in_order order id /\
      exists q f conn0, c = Read q /\ was_opened db conn0 /\ conn = refresh f conn0 /\
        schema f = schema (files0 (components k)) /\
        db_prepare (sql (read_statement q)) conn = Ok p /\ bind_parameters p (read_statement q) = Ok bound
  | Running conn p =>
      (exists l, e_tasks (ls_engine s) !! id = Some (mk_task db false (Inside l))) /\
      persist conn = contents order /\
      ((~ in_order order id /\ one_change p conn /\
        seq_call db c (contents order) = (fst (run p conn), persist (snd (run p conn)))) \/
       (recorded order id (fst (run p conn)) /\ steady p conn))
  | Answered r => recorded order id r
  | Returned => forall r, Return id r ∈ ls_history s -> recorded order id r
  end.

Record lin_inv (s : lin_state) (order : list (nat * (string * call))) : Prop := {
  lv_files : ls_files s (components k) = contents order;
  lv_once : NoDup (map fst order);
  lv_order : forall id db c, (id, (db, c)) ∈ order -> ls_calls s !! id = Some (db, c) /\ here db;
  lv_phase : forall id db c, ls_calls s !! id = Some (db, c) -> here db ->
    exists ph, ls_phases s !! id = Some ph /\ phase_ok s order id db c ph;
  lv_returned : forall id r, Return id r ∈ ls_history s ->
    ls_phases s !! id = Some Returned /\ is_Some (ls_calls s !! id);
  lv_real_time : forall i j id1 x1 r id2 db2 c2,
    order !! i = Some (id1, x1) -> order !! j = Some (id2, (db2, c2)) ->
    before (Return id1 r) (Invoke id2 db2 c2) (ls_history s) -> (i < j)%nat;
}.

(** *** Frames *)

(** The order grew by a call other than [id], or not at all. *)
Definition grown (order order' : list (nat * (string * call))) (id : nat) : Prop :=
  order' = order \/ exists x, order' = order ++ [x] /\ fst x <> id.

Lemma in_order_app order x id : in_order (order ++ [x]) id <-> in_order order id \/ id = fst x.
Proof. unfold in_order. rewrite map_app, elem_of_app. cbn. by rewrite list_elem_of_singleton. Qed.

Lemma phase_ok_frame s s' order order' id db c ph :
  grown order order' id ->
  (contents order' = contents order /\ e_tasks (ls_engine s') !! id = e_tasks (ls_engine s) !! id
   \/ forall conn p, ph <> Running conn p) ->
  (forall r, Return id r ∈ ls_history s' -> Return id r ∈ ls_history s) ->
  phase_ok s order id db c ph -> phase_ok s' order' id db c ph.
Proof.
  intros Hg Hc Hh.
  assert (Hr : forall r, recorded order id r -> recorded order' id r)
    by (destruct Hg as [->|(x & -> & _)]; auto using recorded_app).
  assert (Ho : ~ in_order order id -> ~ in_order order' id).
  { destruct Hg as [->|(x & -> & Hx)]; [done|]. rewrite in_order_app. naive_solver. }
  destruct ph as [|conn|conn p b|conn p|r|]; cbn; [auto|naive_solver|naive_solver| |auto|auto].
  destruct Hc as [[-> ->]|Hc]; [|by destruct (Hc conn p)].
  intros (Hl & Hp & [(H1 & H2 & H3)|[H1 H2]]); split_and!; auto.
Qed.

Lemma before_snoc a b e h : before a b (h ++ [e]) -> before a b h \/ (a ∈ h /\ b = e).
Proof.
  intros (h1 & h2 & h3 & E). destruct h3 as [|z h3 _] using rev_ind.
  - rewrite app_comm_cons, app_assoc in E. apply app_inj_tail in E as [-> <-]. right. set_solver.
  - left. exists h1, h2, h3.
    assert (E' : h ++ [e] = (h1 ++ a :: h2 ++ b :: h3) ++ [z])
      by (rewrite E; by repeat (rewrite <- app_assoc; cbn)).
    by apply app_inj_tail in E' as [-> _].
Qed.

(** A step of the call [id] that puts it in phase [ph]; [item] is what it adds to the order. *)
Lemma lin_inv_update s s' order order' id db c ph :
  lin_inv s order ->
  ls_calls s !! id = Some (db, c) -> ls_calls s' = ls_calls s -> ls_phases s' = <[id := ph]> (ls_phases s) ->
  ls_phases s !! id <> Some Returned ->
  (forall id', id' <> id -> e_tasks (ls_engine s') !! id' = e_tasks (ls_engine s) !! id') ->
  (ls_history s' = ls_history s \/ exists r, ph = Returned /\ ls_history s' = ls_history s ++ [Return id r]) ->
  (order' = order \/ order' = order ++ [(id, (db, c))] /\ here db /\ ~ in_order order id) ->
  ls_files s' (components k) = contents order' ->
  (contents order' = contents order \/
   forall id' db' c' conn p, id' <> id -> ls_calls s !! id' = Some (db', c') -> here db' ->
     ls_phases s !! id' <> Some (Running conn p)) ->
  (here db -> phase_ok s' order' id db c ph) ->
  lin_inv s' order'.
Proof.
  intros [Hf Ho Hor Hph Hret Hrt] Ecall Ecalls Ephs Hnr Htask Hhist Horder Hf' Hothers Hid.
  assert (Hret_id : forall r, ~ Return id r ∈ ls_history s) by (intros r [Hr _]%Hret; done).
  assert (Hret' : forall id' r, id' <> id -> Return id' r ∈ ls_history s' -> Return id' r ∈ ls_history s).
  { intros id' r Hne. destruct Hhist as [->|(r0 & _ & ->)]; [done|].
    intros [?|[= -> _]%list_elem_of_singleton]%elem_of_app; done. }
  split.
  - done.
  - destruct Horder as [->|(-> & _ & Hn)]; [done|]. rewrite map_app. apply NoDup_app.
    split_and!; [done| |apply NoDup_singleton]. intros y Hy ->%list_elem_of_singleton. exact (Hn Hy).
  - intros id' db' c'. rewrite Ecalls. destruct Horder as [->|(-> & Hh & _)]; [apply Hor|].
    intros [?|[= -> -> ->]%list_elem_of_singleton]%elem_of_app; [by apply Hor|done].
  - intros id' db' c'. rewrite Ecalls, Ephs. intros E' Hh'. destruct (decide (id' = id)) as [->|Hne].
    + exists ph. rewrite lookup_insert_eq. simplify_eq. auto.
    + destruct (Hph id' db' c' E' Hh') as (ph' & Hl & Hok). exists ph'.
      rewrite lookup_insert_ne by done. split; [done|]. eapply phase_ok_frame; [| | |exact Hok].
      * destruct Horder as [->|(-> & _)]; [by left|right]. by eexists.
      * destruct Hothers as [Hc|Hc]; [left; auto|right]. intros conn p ->. by eapply Hc.
      * intros r. by apply Hret'.
  - intros id' r Hr. rewrite Ephs, Ecalls. destruct (decide (id' = id)) as [->|Hne].
    + rewrite lookup_insert_eq, Ecall. split; [|done]. destruct Hhist as [Hh|(r0 & -> & _)]; [|done].
      rewrite Hh in Hr. by apply Hret_id in Hr.
    + rewrite lookup_insert_ne by done. eapply Hret, Hret'; eauto.
  - intros i j id1 x1 r id2 db2 c2 Hi Hj Hb.
    assert (Hb' : before (Return id1 r) (Invoke id2 db2 c2) (ls_history s)).
    { destruct Hhist as [Hh|(r0 & _ & Hh)]; rewrite Hh in Hb; [done|].
      by apply before_snoc in Hb as [?|[_ ?]]. }
    destruct Horder as [->|(-> & _)]; [by eapply Hrt|].
    apply lookup_app_Some in Hi as [Hi|[_ Hi]], Hj as [Hj|[Hlj Hj]]; [by eapply Hrt|..].
    + apply lookup_lt_Some in Hi. lia.
    + apply list_lookup_singleton_Some in Hi as [_ [= <- _]]. destruct Hb' as (h1 & h2 & h3 & Hh).
      destruct (Hret_id r). rewrite Hh. set_solver.
    + apply list_lookup_singleton_Some in Hi as [_ [= <- _]]. destruct Hb' as (h1 & h2 & h3 & Hh).
      destruct (Hret_id r). rewrite Hh. set_solver.
Qed.

(** *** Steps *)

(** The calls of this database: one spelling of its name, no plain batch. *)
Definition proper_calls (s : lin_state) : Prop := forall id db c,
  ls_calls s !! id = Some (db, c) -> here db -> trim db = k /\ transactional c /\ keeps_schema db c.

(** There is always a database, with the schema it had. *)
Lemma contents_present order : present (contents order) = true.
Proof.
  unfold contents. revert exists_at_start. generalize (files0 (components k)).
  induction order as [|[id [db c]] order IH]; intros f Hf; cbn; [done|].
  assert (Hc : present (snd (seq_call db c f)) = true).
  { destruct c as [w|q]; [|done]. rewrite seq_call_write.
    destruct (open_connection _ _ _ _ _) as [conn|]; [|done].
    destruct (run (program_of w) conn). apply persist_present. }
  destruct (seq_call db c f) as [r f1]. specialize (IH f1 Hc). by destruct (seq_run order f1).
Qed.

Lemma contents_schema s order :
  proper_calls s -> lin_inv s order -> schema (contents order) = schema (files0 (components k)).
Proof.
  intros Hp Hi. assert (Hk : Forall (fun x => keeps_schema (fst (snd x)) (snd (snd x))) order).
  { apply Forall_forall. intros [id [db c]] Hx. apply (lv_order _ _ Hi) in Hx as [Hc Hh].
    by apply (Hp id db c Hc Hh). }
  clear Hi. unfold contents. generalize (files0 (components k)).
  induction Hk as [|[id [db c]] order Hc _ IH]; intros f; cbn; [done|]. specialize (Hc f). cbn in Hc.
  destruct (seq_call db c f) as [r f1]. specialize (IH f1). destruct (seq_run order f1). cbn in *. congruence.
Qed.

(** A connection opened earlier is the one that opening now would give, once it looks. *)
Lemma was_opened_now db conn f : present f = true -> was_opened db conn ->
  open_connection data_dir create_parent (attach f) db true = Ok (refresh f conn).
Proof.
  intros Hf (f0 & Ho). unfold open_connection in *. destruct (resolve_db_path _ _ _); [|done]. cbn in *.
  destruct (attach f0 _ true) eqn:Ea; [|done]. cbn in Ho. simplify_eq.
  by rewrite (open_again _ _ _ _ Hf Ea).
Qed.

Lemma read_answer_opened db q conn f :
  open_connection data_dir create_parent (attach f) db true = Ok conn ->
  read_answer db q f =
  match db_prepare (sql (read_statement q)) conn with
  | Err e => read_failed q e
  | Ok p => match bind_parameters p (read_statement q) with
            | Err e => read_failed q e
            | Ok bound => read_result q p (steps p bound conn)
            end
  end.
Proof.
  intros Ho. destruct q; cbn; unfold query, stream_query_chunks, prepare_bound; rewrite Ho; cbn;
    (destruct (db_prepare _ _) as [p|]; cbn; [|done]); by destruct (bind_parameters _ _).
Qed.

(** What a reading call does next is to go on, or to answer as if it were alone, now. *)
Lemma read_next_ok s order id db q ph ph' :
  proper_calls s -> lin_inv s order -> here db ->
  phase_ok s order id db (Read q) ph -> read_next db q ph (contents order) = Some ph' ->
  ~ in_order order id /\ (phase_ok s order id db (Read q) ph' /\ (forall conn p, ph' <> Running conn p) /\
    ph' <> Returned \/ ph' = Answered (read_answer db q (contents order))).
Proof.
  intros Hp Hi Hh Hok Hn. pose proof (contents_present order) as Hpres.
  pose proof (contents_schema s order Hp Hi) as Hsch.
  destruct ph as [|conn|conn p b| | |]; cbn in Hn; simplify_eq; cbn in Hok.
  - split; [done|]. unfold open_read. destruct (open_connection _ _ _ _ _) as [conn|e] eqn:Eo.
    + left. split_and!; [split; [done|by eexists]|done..].
    + right. destruct q; cbn; unfold query, stream_query_chunks, prepare_bound; by rewrite Eo.
  - destruct Hok as [Hno Hc]. split; [done|]. pose proof (was_opened_now _ _ _ Hpres Hc) as Ho.
    unfold prepare_read. rewrite (read_answer_opened db q _ _ Ho).
    destruct (db_prepare _ _) as [p|] eqn:Ep; [|by right].
    destruct (bind_parameters p _) as [b|] eqn:Eb; [|by right].
    left. split_and!; [split; [done|by exists q, (contents order), conn]|done..].
  - destruct Hok as (Hno & q' & f & conn0 & [= <-] & Hc & -> & Hs & Ep & Eb). split; [done|]. right.
    pose proof (was_opened_now _ _ _ Hpres Hc) as Ho. unfold step_read.
    rewrite (read_answer_opened db q _ _ Ho), refresh_again.
    rewrite (prepare_by_schema _ conn0 (contents order) f) by congruence. by rewrite Ep, Eb.
Qed.

(** While a call is inside, no other is at work on the file. *)
Lemma only_running s order id db c l :
  lin_reachable s -> proper_calls s -> lin_inv s order ->
  ls_calls s !! id = Some (db, c) -> here db -> e_tasks (ls_engine s) !! id = Some (mk_task db false (Inside l)) ->
  forall id' db' c' conn p, id' <> id -> ls_calls s !! id' = Some (db', c') -> here db' ->
    ls_phases s !! id' <> Some (Running conn p).
Proof.
  intros Hr Hp Hi Ec Hh Et id' db' c' conn p Hne Ec' Hh' Eph.
  destruct (lv_phase _ _ Hi id' db' c' Ec' Hh') as (ph & Eph' & Hok). simplify_eq.
  destruct Hok as ((l' & Et') & _). destruct (lin_engine s Hr) as [He Hn]. apply Hne.
  apply (one_inside (ls_engine s) id' id _ _ l' l He Hn Et' Et); [done..|]. cbn [t_db].
  by rewrite (proj1 (Hp _ _ _ Ec Hh)), (proj1 (Hp _ _ _ Ec' Hh')).
Qed.

Lemma lin_inv_arrives order id db c e cs ph fs h :
  cs !! id = None -> e_tasks e !! id = None -> lin_inv (mk_lin e cs ph fs h) order ->
  lin_inv (mk_lin (match c with Write _ => arrive id db e | Read _ => e end) (<[id := (db, c)]> cs)
             (<[id := Pending]> ph) fs (h ++ [Invoke id db c])) order.
Proof.
  intros Ec Et [Hf Ho Hor Hph Hret Hrt]; cbn in *.
  assert (Hnot : ~ in_order order id).
  { intros ([id0 [db0 c0]] & -> & Hx)%list_elem_of_fmap. apply Hor in Hx as [Hx _]. cbn in *. congruence. }
  assert (Hret' : forall id' r, Return id' r ∈ h ++ [Invoke id db c] -> Return id' r ∈ h).
  { intros id' r [?|[=]%list_elem_of_singleton]%elem_of_app; done. }
  split; cbn; [done..| | | |].
  - intros id' db' c' Hx. destruct (Hor _ _ _ Hx) as [Hc Hh]. split; [|done].
    rewrite lookup_insert_ne; [done|]. intros <-. congruence.
  - intros id' db' c' [[<- [= <- <-]]|[Hne E']]%lookup_insert_Some Hh.
    + exists Pending. by rewrite lookup_insert_eq.
    + destruct (Hph id' db' c' E' Hh) as (ph' & Hl & Hok). exists ph'. rewrite lookup_insert_ne by done.
      split; [done|]. eapply (phase_ok_frame (mk_lin e cs ph fs h)); [by left| |apply Hret'|exact Hok].
      left. split; [done|]. destruct c; [|done]. cbn. by rewrite lookup_insert_ne.
  - intros id' r [Hr [x Hx]]%Hret'%Hret. rewrite !lookup_insert_ne by congruence. eauto.
  - intros i j id1 x1 r id2 db2 c2 Hi Hj [Hb|[_ [= -> _ _]]]%before_snoc; [by eapply Hrt|].
    destruct Hnot. apply list_elem_of_fmap. exists (id, (db2, c2)). split; [done|]. by eapply list_elem_of_lookup_2.
Qed.

(** A step that only moves a task which is not inside. *)
Lemma lin_inv_moves order id t t' e e' cs ph fs h :
  e_tasks e !! id = Some t -> holds t = None -> e_tasks e' = <[id := t']> (e_tasks e) ->
  lin_inv (mk_lin e cs ph fs h) order -> lin_inv (mk_lin e' cs ph fs h) order.
Proof.
  intros Et Hl Ee [Hf Ho Hor Hph Hret Hrt]; split; cbn in *; [done..| |done|done].
  intros id' db' c' Ec Hh. destruct (Hph id' db' c' Ec Hh) as (ph' & Hl' & Hok). exists ph'. split; [done|].
  eapply (phase_ok_frame (mk_lin e cs ph fs h)); [by left| |done|exact Hok]. cbn. rewrite Ee.
  destruct (decide (id' = id)) as [->|Hne]; [right|left; by rewrite lookup_insert_ne].
  intros conn p ->. destruct Hok as ((l & El) & _). cbn in El. by simplify_eq.
Qed.

Lemma lin_inv_opens order id db w l e cs ph fs h :
  let s := mk_lin e cs ph fs h in
  lin_reachable s -> proper_calls s -> lin_inv s order ->
  e_tasks e !! id = Some (mk_task db false (Inside l)) -> cs !! id = Some (db, Write w) ->
  ph !! id = Some Pending ->
  exists order', lin_inv
    match open_connection data_dir create_parent (attach (fs (path_of db))) db false with
    | Err err => mk_lin e cs (<[id := Answered (open_failed w err)]> ph) fs h
    | Ok conn => mk_lin e cs (<[id := Running conn (program_of w)]> ph) (<[path_of db := persist conn]> fs) h
    end order'.
Proof.
  intros s Hr Hp Hi Et Ec Eph. pose proof (lv_files _ _ Hi) as Hf. cbn in Hf.
  assert (Hpend : here db -> ~ in_order order id).
  { intros Hh. destruct (lv_phase _ _ Hi id db _ Ec Hh) as (ph' & E & Hok). cbn in E. by simplify_eq. }
  pose proof (seq_call_write db w (fs (path_of db))) as Hseq.
  destruct (open_connection _ _ _ _ _) as [conn|err] eqn:Eo.
  - exists order.
    assert (Hk : here db -> persist conn = fs (path_of db)).
    { intros Hh. apply (open_keeps _ db); [|done]. rewrite Hh, Hf. apply contents_present. }
    assert (Hsame : <[path_of db := persist conn]> fs (components k) = fs (components k)).
    { destruct (decide (here db)) as [Hh|Hh]; [|by apply fn_lookup_insert_ne].
      rewrite <- (Hh : path_of db = components k), fn_lookup_insert. by apply Hk. }
    eapply (lin_inv_update s _ order order id db (Write w) (Running conn (program_of w))); cbn; eauto; try done.
    + by rewrite Eph.
    + by rewrite Hsame.
    + intros Hh. split; [eauto|]. rewrite (Hk Hh), <- Hf, <- Hh. split; [done|left].
      split_and!; [auto|apply program_one_change; by apply (Hp id db)|].
      etrans; [exact Hseq|]. by destruct (run (program_of w) conn).
  - destruct (decide (here db)) as [Hh|Hh].
    + destruct (recorded_snoc order id db (Write w) (open_failed w err) (contents order)) as [Hrec Hcon].
      { by rewrite <- Hf, <- Hh. }
      exists (order ++ [(id, (db, Write w))]).
      eapply (lin_inv_update s _ order _ id db (Write w) (Answered (open_failed w err))); cbn; eauto; try done.
      * by rewrite Eph.
      * by rewrite Hcon.
    + exists order. eapply (lin_inv_update s _ order _ id db (Write w) (Answered (open_failed w err))); cbn; eauto; try done.
      by rewrite Eph.
Qed.

Lemma lin_inv_operates order id db w l conn f conn' p' e cs ph fs h :
  let s := mk_lin e cs ph fs h in
  lin_reachable s -> proper_calls s -> lin_inv s order ->
  e_tasks e !! id = Some (mk_task db false (Inside l)) -> cs !! id = Some (db, Write w) ->
  ph !! id = Some (Running conn (Op f)) -> f conn = (conn', p') ->
  exists order', lin_inv (mk_lin e cs (<[id := Running conn' p']> ph) (<[path_of db := persist conn']> fs) h) order'.
Proof.
  intros s Hr Hp Hi Et Ec Eph Ef. pose proof (lv_files _ _ Hi) as Hf. cbn in Hf.
  set (s' := mk_lin _ _ _ _ _).
  assert (Hgo : forall order', (order' = order \/ order' = order ++ [(id, (db, Write w))] /\ here db /\ ~ in_order order id) ->
    (here db -> persist conn' = contents order') ->
    (contents order' = contents order \/ here db) ->
    (here db -> phase_ok s' order' id db (Write w) (Running conn' p')) -> lin_inv s' order').
  { intros order' Hord Hcon Hch Hok.
    apply (lin_inv_update s s' order order' id db (Write w) (Running conn' p')); cbn; auto; try done.
    - by rewrite Eph.
    - destruct (decide (path_of db = components k)) as [Hh|Hh].
      + rewrite <- (Hcon Hh), <- Hh. apply fn_lookup_insert.
      + rewrite fn_lookup_insert_ne by done. destruct Hch as [->|]; done.
    - destruct (decide (here db)) as [Hh|Hh]; [right|by left; destruct Hch].
      eapply (only_running s order id db); eauto. }
  destruct (decide (here db)) as [Hh|Hh]; [|exists order; apply Hgo; auto; done].
  destruct (lv_phase _ _ Hi id db _ Ec Hh) as (ph' & E & Hok). cbn in E. simplify_eq.
  destruct Hok as (Hin & Hpe & Hcase). cbn [run one_change steady] in Hcase. rewrite Ef in Hcase.
  destruct Hcase as [(Hn & Hone & Hseq)|(Hrec & Hsame & Hst)].
  - destruct Hone as [[Hsame Hone]|Hst].
    + exists order. apply Hgo; auto; [by rewrite Hsame|]. intros _. split; [done|]. rewrite Hsame. auto.
    + destruct (recorded_snoc order id db (Write w) _ _ Hseq) as [Hrec Hcon].
      rewrite steady_run in Hcon by done.
      eexists. apply Hgo; [by right|done|by right|]. intros _. split; [done|]. auto.
  - exists order. apply Hgo; auto; [by rewrite Hsame|]. intros _. split; [done|]. rewrite Hsame. auto.
Qed.

Lemma lin_inv_leaves order id db w l r phase e cs ph fs h :
  let s := mk_lin e cs ph fs h in
  lin_inv s order -> e_tasks e !! id = Some (mk_task db false (Inside l)) -> cs !! id = Some (db, Write w) ->
  ph !! id = Some phase -> answer phase = Some r ->
  exists order', lin_inv (mk_lin (leave id db l e) cs (<[id := Returned]> ph) fs (h ++ [Return id r])) order'.
Proof.
  intros s Hi Et Ec Eph Ha. pose proof (lv_files _ _ Hi) as Hf. cbn in Hf.
  set (s' := mk_lin _ _ _ _ _).
  assert (Hnr : phase <> Returned) by (by intros ->).
  assert (Hno : forall r, ~ Return id r ∈ h).
  { intros r0 Hr0. apply (lv_returned _ _ Hi) in Hr0 as [Hr0 _]. cbn in Hr0. by simplify_eq. }
  assert (Hgo : forall order', (order' = order \/ order' = order ++ [(id, (db, Write w))] /\ here db /\ ~ in_order order id) ->
    contents order' = contents order -> (here db -> recorded order' id r) -> lin_inv s' order').
  { intros order' Hord Hcon Hrec.
    apply (lin_inv_update s s' order order' id db (Write w) Returned); cbn; eauto.
    - rewrite Eph. naive_solver.
    - intros id' Hne. by rewrite lookup_insert_ne.
    - by rewrite Hcon.
    - intros Hh r0. intros [Hr0|[= ->]%list_elem_of_singleton]%elem_of_app; [by apply Hno in Hr0|auto]. }
  destruct (decide (here db)) as [Hh|Hh]; [|exists order; apply Hgo; auto; done].
  destruct (lv_phase _ _ Hi id db _ Ec Hh) as (ph' & E & Hok). cbn in E. simplify_eq.
  destruct phase as [| | |conn [r0|]|r0|]; try done; cbn in Ha, Hok; simplify_eq.
  - destruct Hok as (_ & Hpe & [(Hn & _ & Hseq)|[Hrec _]]); [|exists order; by apply Hgo; auto].
    destruct (recorded_snoc order id db (Write w) _ _ Hseq) as [Hrec Hcon].
    eexists. apply Hgo; [by right|by rewrite Hcon|done].
  - exists order. by apply Hgo; auto.
Qed.

Lemma lin_inv_reads order id db q phase phase' e cs ph fs h :
  let s := mk_lin e cs ph fs h in
  proper_calls s -> lin_inv s order -> cs !! id = Some (db, Read q) -> ph !! id = Some phase ->
  read_next db q phase (fs (path_of db)) = Some phase' ->
  exists order', lin_inv (mk_lin e cs (<[id := phase']> ph) fs h) order'.
Proof.
  intros s Hp Hi Ec Eph En. pose proof (lv_files _ _ Hi) as Hf. cbn in Hf.
  set (s' := mk_lin _ _ _ _ _).
  assert (Hnr : phase <> Returned) by (by intros ->).
  assert (Hgo : forall order', (order' = order \/ order' = order ++ [(id, (db, Read q))] /\ here db /\ ~ in_order order id) ->
    contents order' = contents order -> (here db -> phase_ok s' order' id db (Read q) phase') -> lin_inv s' order').
  { intros order' Hord Hcon Hok. apply (lin_inv_update s s' order order' id db (Read q) phase'); cbn; auto.
    - rewrite Eph. naive_solver.
    - by rewrite Hcon. }
  destruct (decide (here db)) as [Hh|Hh]; [|exists order; apply Hgo; auto; done].
  destruct (lv_phase _ _ Hi id db _ Ec Hh) as (ph' & E & Hok). cbn in E. simplify_eq.
  rewrite Hh, Hf in En.
  destruct (read_next_ok s order id db q phase phase' Hp Hi Hh Hok En) as (Hno & [(Hok' & Hrun & Hret)| ->]).
  - exists order. apply Hgo; [by left|done|]. intros _.
    eapply phase_ok_frame; [by left|by right| |exact Hok']. done.
  - destruct (recorded_snoc order id db (Read q) _ (contents order) eq_refl) as [Hrec Hcon].
    eexists. apply Hgo; [by right|done|done].
Qed.

Lemma lin_inv_returns order id db q r e cs ph fs h :
  let s := mk_lin e cs ph fs h in
  lin_inv s order -> cs !! id = Some (db, Read q) -> ph !! id = Some (Answered r) ->
  lin_inv (mk_lin e cs (<[id := Returned]> ph) fs (h ++ [Return id r])) order.
Proof.
  intros s Hi Ec Eph.
  apply (lin_inv_update s _ order order id db (Read q) Returned); cbn; eauto; try done.
  - by rewrite Eph.
  - apply (lv_files _ _ Hi).
  - intros Hh r0 [Hr0|[= ->]%list_elem_of_singleton]%elem_of_app.
    + apply (lv_returned _ _ Hi) in Hr0 as [Hr0 _]. cbn in Hr0. by simplify_eq.
    + destruct (lv_phase _ _ Hi id db _ Ec Hh) as (ph' & E & Hok). cbn in E. by simplify_eq.
Qed.

Lemma lin_inv_step s s' order :
  lin_reachable s -> lin_step s s' -> proper_calls s -> lin_inv s order -> exists order', lin_inv s' order'.
Proof.
  intros Hr Hs Hp Hi. destruct Hs as [id db c e cs ph fs h E1 E2|id db e cs ph fs h Et|id db l e cs ph fs h Et Hl
    |id db w l e cs ph fs h Et Ec Eph|id db w l conn f e cs ph fs h Et Ec Eph
    |id db w l r phase e cs ph fs h Et Ec Eph Ha|id db q phase phase' e cs ph fs h Ec Eph En|id db q r e cs ph fs h Ec Eph].
  - exists order. by apply lin_inv_arrives.
  - exists order. by eapply (lin_inv_moves order id); [exact Et|..|exact Hi]; [|apply ask_tasks].
  - exists order. by eapply (lin_inv_moves order id).
  - by eapply lin_inv_opens.
  - destruct (f conn) as [conn' p'] eqn:Ef. by eapply lin_inv_operates.
  - by eapply lin_inv_leaves.
  - by eapply lin_inv_reads.
  - exists order. by eapply lin_inv_returns.
Qed.

Lemma proper_calls_back s s' : lin_step s s' -> proper_calls s' -> proper_calls s.
Proof.
  intros Hs Hp id0 db0 c0 E0. apply (Hp id0). revert E0.
  destruct Hs as [id db c e cs ph fs h E1 E2| | |id db w l e cs ph fs h|id db w l conn f e cs ph fs h| | |];
    cbn; try done.
  - intros E0. rewrite lookup_insert_ne; [done|]. intros <-. congruence.
  - by destruct (open_connection _ _ _ _ _).
  - by destruct (f conn).
Qed.

Lemma reachable_lin_inv s : lin_reachable s -> proper_calls s -> exists order, lin_inv s order.
Proof.
  revert s. apply (rtc_ind_r (fun s => proper_calls s -> exists order, lin_inv s order)).
  - intros _. exists []. split; cbn; [done|constructor|set_solver|done|set_solver|done].
  - intros s s' Hr Hs IH Hp. apply (proper_calls_back s s' Hs) in Hp as Hp0.
    destruct (IH Hp0) as [order Hi]. by eapply lin_inv_step.
Qed.
End Invariant.

(** C8. The engine is linearizable.  Take an existing database that is not dropped, whose calls
    spell its name one way and do not change its schema, and whose batches are
    transactional and do not end their transaction by a statement of their own.  Then there
    is an order of calls of this database, in which each occurs once and every call that
    returned occurs, such that the engine called one at a time in this order gives every
    returned call the answer it got; a call that returned before another was invoked comes
    before it; and the file holds what these calls leave, also while others are at work. *)
Theorem engine_linearizable `{!FileLaws in_transaction present schema} s k :
  lin_reachable s -> present (files0 (components k)) = true ->
  (forall id db c, Invoke id db c ∈ ls_history s -> path_of db = components k ->
     trim db = k /\ transactional c /\ keeps_schema db c) ->
  exists order, linearization (components k) (ls_history s) order /\
    ls_files s (components k) = snd (seq_run order (files0 (components k))).
Proof.
  intros Hr Hpres Hp. pose proof (fun id db c => invoked_calls s id db c Hr) as Hinv.
  destruct (reachable_lin_inv k Hpres s Hr) as [order [Hf Ho Hor Hph Hret Hrt]].
  { intros id db c Ec Hh. apply (Hp id db c); [by apply Hinv|done]. }
  exists order. split; [|exact Hf]. split; [done| | |done].
  - intros id db c Hx. rewrite Hinv. by apply Hor.
  - intros id db c r Hi Hh HR. apply Hinv in Hi. destruct (Hph id db c Hi Hh) as (ph & Eph & Hok).
    pose proof (proj1 (Hret id r HR)). simplify_eq. destruct (Hok r HR) as (i & [db' c'] & Hx & Hres).
    exists i. split; [|done]. destruct (Hor id db' c') as [Hx' _]; [by eapply list_elem_of_lookup_2|]. congruence.
Qed.
End Linear.

(** ** Schedules

    A schedule names, step by step, the call that moves; performing one gives the state the
    steps lead to. *)
Inductive action :=
| Arrive (id : nat) (db : string) (c : call)
| Ask (id : nat)
| Enter (id : nat)
| OpenDb (id : nat)
| Operate (id : nat)
| Leave (id : nat)
| ReadDb (id : nat)
| Answer (id : nat).

Section Schedule.
Context {DB : Type} `{!SqliteDb DB}.
Context (data_dir : string) (create_parent : string -> option IoError).
Context {File : Type} `{!SqliteFiles DB File}.
Abbreviation lin_step := (lin_step data_dir create_parent).

Definition perform (a : action) (s : lin_state) : option (lin_state (DB := DB) (File := File)) :=
  let '(mk_lin e cs ph fs h) := s in
  match a with
  | Arrive id db c =>
      match cs !! id, e_tasks e !! id with
      | None, None => Some (mk_lin (match c with Write _ => arrive id db e | Read _ => e end)
          (<[id := (db, c)]> cs) (<[id := Pending]> ph) fs (h ++ [Invoke id db c]))
      | _, _ => None
      end
  | Ask id =>
      match e_tasks e !! id with
      | Some (mk_task db false Arrived) => Some (mk_lin (ask id db e) cs ph fs h)
      | _ => None
      end
  | Enter id =>
      match e_tasks e !! id with
      | Some (mk_task db false (Waiting l)) =>
          if decide (l ∈ e_held e) then None else Some (mk_lin (enter id db l e) cs ph fs h)
      | _ => None
      end
  | OpenDb id =>
      match e_tasks e !! id, cs !! id, ph !! id with
      | Some (mk_task db false (Inside l)), Some (db', Write w), Some Pending =>
          if decide (db' = db) then Some
            match open_connection data_dir create_parent (attach (fs (path_of db))) db false with
            | Err err => mk_lin e cs (<[id := Answered (open_failed w err)]> ph) fs h
            | Ok conn => mk_lin e cs (<[id := Running conn (program_of w)]> ph)
                           (<[path_of db := persist conn]> fs) h
            end
          else None
      | _, _, _ => None
      end
  | Operate id =>
      match e_tasks e !! id, cs !! id, ph !! id with
      | Some (mk_task db false (Inside l)), Some (db', Write w), Some (Running conn (Op f)) =>
          if decide (db' = db) then Some
            (let '(conn, p) := f conn in
             mk_lin e cs (<[id := Running conn p]> ph) (<[path_of db := persist conn]> fs) h)
          else None
      | _, _, _ => None
      end
  | Leave id =>
      match e_tasks e !! id, cs !! id, ph !! id ≫= answer with
      | Some (mk_task db false (Inside l)), Some (db', Write w), Some r =>
          if decide (db' = db) then
            Some (mk_lin (leave id db l e) cs (<[id := Returned]> ph) fs (h ++ [Return id r]))
          else None
      | _, _, _ => None
      end
  | ReadDb id =>
      match cs !! id, ph !! id with
      | Some (db, Read q), Some phase =>
          match read_next data_dir create_parent db q phase (fs (path_of db)) with
          | Some phase' => Some (mk_lin e cs (<[id := phase']> ph) fs h)
          | None => None
          end
      | _, _ => None
      end
  | Answer id =>
      match cs !! id, ph !! id with
      | Some (db, Read q), Some (Answered r) =>
          Some (mk_lin e cs (<[id := Returned]> ph) fs (h ++ [Return id r]))
      | _, _ => None
      end
  end.

Lemma perform_sound a s s' : perform a s = Some s' -> lin_step s s'.
Proof.
  destruct s as [e cs ph fs h], a as [id db c|id|id|id|id|id|id|id]; cbn.
  - destruct (cs !! id) eqn:Ec, (e_tasks e !! id) eqn:Et; try done. intros [= <-]. by apply call_arrives.
  - destruct (e_tasks e !! id) as [[db [] []]|] eqn:Et; try done. intros [= <-]. by apply call_asks.
  - destruct (e_tasks e !! id) as [[db [] []]|] eqn:Et; try done.
    destruct (decide _); [done|]. intros [= <-]. by apply call_enters.
  - destruct (e_tasks e !! id) as [[db [] []]|] eqn:Et; try done.
    destruct (cs !! id) as [[db' [w|q]]|] eqn:Ec; try done. destruct (ph !! id) as [[]|] eqn:Eph; try done.
    destruct (decide _) as [->|]; [|done]. intros [= <-]. by eapply call_opens.
  - destruct (e_tasks e !! id) as [[db [] []]|] eqn:Et; try done.
    destruct (cs !! id) as [[db' [w|q]]|] eqn:Ec; try done.
    destruct (ph !! id) as [[| | |conn []| |]|] eqn:Eph; try done.
    destruct (decide _) as [->|]; [|done]. intros [= <-]. by eapply call_operates.
  - destruct (e_tasks e !! id) as [[db [] []]|] eqn:Et; try done.
    destruct (cs !! id) as [[db' [w|q]]|] eqn:Ec; try done.
    destruct (ph !! id) as [phase|] eqn:Eph; [|done]. cbn. destruct (answer phase) as [r|] eqn:Ea; [|done].
    destruct (decide _) as [->|]; [|done]. intros [= <-]. by eapply call_leaves.
  - destruct (cs !! id) as [[db [w|q]]|] eqn:Ec; try done. destruct (ph !! id) as [phase|] eqn:Eph; try done.
    destruct (read_next _ _ _ _ _ _) eqn:En; [|done]. intros [= <-]. by eapply query_reads.
  - destruct (cs !! id) as [[db [w|q]]|] eqn:Ec; try done. destruct (ph !! id) as [[]|] eqn:Eph; try done.
    intros [= <-]. by eapply query_returns.
Qed.

(** The state after as much of a schedule as can be performed. *)
Fixpoint perform_all (acts : list action) (s : lin_state) : lin_state (DB := DB) (File := File) :=
  match acts with
  | [] => s
  | a :: acts => match perform a s with Some s => perform_all acts s | None => s end
  end.

Lemma perform_all_sound acts : forall s, rtc lin_step s (perform_all acts s).
Proof.
  induction acts as [|a acts IH]; intros s; cbn; [apply rtc_refl|].
  destruct (perform a s) as [s'|] eqn:E; [|apply rtc_refl].
  eapply rtc_l; [by eapply perform_sound|apply IH].
Qed.
End Schedule.

(** ** Runs

    A database that holds one number in a column with a name: [ADD] adds one to it, [RENAME]
    renames the column, [SELECT] reads it. *)
Module LinearExample.
Record Counter := mk_counter { value : Z; column : string }.
Record CounterDb := mk_counter_db { stored : Counter; working : option Counter }.
Definition current (d : CounterDb) : Counter := default (stored d) (working d).
Definition in_tx (d : CounterDb) : bool := bool_decide (is_Some (working d)).

Definition counter_exec (q : string) (d : CounterDb) : SyncResult unit * CounterDb :=
  match working d with
  | None =>
      if starts_with "BEGIN" q then (Ok tt, mk_counter_db (stored d) (Some (stored d)))
      else if String.eqb q "ROLLBACK" || String.eqb q "COMMIT" then
        (Err (Sqlite 1 "cannot commit - no transaction is active"), d)
      else (Ok tt, d)
  | Some c =>
      if starts_with "BEGIN" q then (Err (Sqlite 1 "cannot start a transaction within a transaction"), d)
      else if String.eqb q "COMMIT" then (Ok tt, mk_counter_db c None)
      else if String.eqb q "ROLLBACK" then (Ok tt, mk_counter_db (stored d) None)
      else (Ok tt, d)
  end.

Definition apply_to (q : string) (c : Counter) : Counter :=
  if String.eqb q "ADD" then mk_counter (value c + 1) (column c)
  else if String.eqb q "RENAME" then mk_counter (value c) "m"
  else c.
Definition counter_step (q : string) (d : CounterDb) : CounterDb :=
  match working d with
  | Some c => mk_counter_db (stored d) (Some (apply_to q c))
  | None => mk_counter_db (apply_to q (stored d)) None
  end.

Definition counter_prepare (q : string) (d : CounterDb) : SyncResult (Prepared CounterDb) :=
  Ok (mk_prepared (String.eqb q "SELECT") [(column (current d), Some "INTEGER")] (fun _ => 0) (fun _ _ => Ok tt)
        (fun _ d => [Ok (Some [SqlInteger (value (current d))]); Ok None]) (fun _ d => d)
        (fun _ d => (Ok tt, counter_step q d))).

#[export] Instance counter_sqlite : SqliteDb CounterDb := {|
  db_exec := counter_exec;
  db_prepare := counter_prepare;
  db_changes := fun _ => 1;
  db_last_insert_rowid := fun d => value (current d);
|}.

#[export] Instance counter_files : SqliteFiles CounterDb Counter := {|
  attach := fun f _ _ => Ok (mk_counter_db f None);
  refresh := fun f d => mk_counter_db f (working d);
  persist := stored;
|}.

#[export] Instance counter_transactions : TransactionLaws in_tx stored.
Proof.
  split.
  - intros m q [c [w|]] d1 Hb Hx; destruct m; cbn in Hb; simplify_eq; cbn in Hx; by simplify_eq.
  - intros [c [w|]] ok d' Hd (q & p & b & [= <-] & [[_ ->]|[_ ->]]) _; by cbn in *.
  - by intros [c [w|]].
Qed.

#[export] Instance counter_laws : FileLaws "/data" (fun _ => None) in_tx (fun _ : Counter => true) column.
Proof.
  split.
  - apply _.
  - intros f db conn _. unfold open_connection. destruct (resolve_db_path _ _ _); [|done]. by intros [= <-].
  - done.
  - intros f f' path conn _ [= <-]. done.
  - done.
  - intros q [c [w|]] f f' Hs; [done|]. cbn. unfold counter_prepare. cbn. by rewrite Hs.
Qed.

Definition stmt (q : string) : Statement := mk_statement q [] [] false.

Lemma counter_keeps stop q : keeps_transaction in_tx stop (stmt q).
Proof.
  intros gen [c [w|]] r d' Hd; [|done]. unfold run_statement. cbn. destruct (String.eqb q "SELECT"); by intros [= _ <-].
Qed.

Definition start : lin_state (DB := CounterDb) := lin_start (fun _ => mk_counter 0 "n").
Definition performed (acts : list action) : lin_state := perform_all "/data" (fun _ => None) acts start.
Definition batch_of (qs : list string) (m : BatchTransactionMode) : call := Write (BatchOf (map stmt qs) m true 7).
Definition add2 (m : BatchTransactionMode) : call := batch_of ["ADD"; "ADD"] m.
Definition select : call := Read (Query (stmt "SELECT") 0 7 false).
Definition begins (id : nat) : list action := [Arrive id "app.db" select; ReadDb id; ReadDb id].
Definition ends (id : nat) : list action := [ReadDb id; Answer id].
Definition operates (n : nat) : list action := replicate n (Operate 0).

(** A batch of two additions; one reader is through inside it, another has prepared its
    statement there and steps it after the commit. *)
Definition batch_and_readers : lin_state := performed
  ([Arrive 0 "app.db" (add2 ModeImmediate); Ask 0; Enter 0; OpenDb 0] ++ operates 4
   ++ begins 1 ++ ends 1 ++ begins 2 ++ operates 4 ++ ends 2 ++ [Leave 0]).

Definition selected (name : string) (n : Z) : response :=
  QueryAnswer (Ok (mk_query_response [mk_column name TypeInteger "INTEGER"] [[Some (IntValue n)]] 1 7 false)).
Definition added (n : Z) : StatementResult := Ok (ExecuteResult (mk_execute_response 1 n 7)).
Definition batched (ns : list Z) : response := BatchAnswer (Ok (mk_batch_response (map added ns) 7 true)).

Lemma batch_and_readers_history : ls_history batch_and_readers =
  [Invoke 0 "app.db" (add2 ModeImmediate); Invoke 1 "app.db" select; Return 1 (selected "n" 0);
   Invoke 2 "app.db" select; Return 2 (selected "n" 2); Return 0 (batched [1; 2])].
Proof. vm_compute. reflexivity. Qed.

(** The same batch without a transaction, and a reader between its statements. *)
Definition plain_batch_and_reader : lin_state := performed
  ([Arrive 0 "app.db" (add2 ModeNone); Ask 0; Enter 0; OpenDb 0] ++ operates 3
   ++ begins 1 ++ ends 1 ++ operates 3 ++ [Leave 0]).

Lemma plain_batch_and_reader_history : ls_history plain_batch_and_reader =
  [Invoke 0 "app.db" (add2 ModeNone); Invoke 1 "app.db" select; Return 1 (selected "n" 1);
   Return 0 (batched [1; 2])].
Proof. vm_compute. reflexivity. Qed.

(** A reader that prepares its statement before a batch which renames the column, and steps
    it afterwards. *)
Definition rename_and_reader : lin_state := performed
  ([Arrive 0 "app.db" (batch_of ["RENAME"; "ADD"] ModeImmediate); Ask 0; Enter 0; OpenDb 0]
   ++ begins 1 ++ operates 8 ++ ends 1 ++ [Leave 0]).

Lemma rename_and_reader_history : ls_history rename_and_reader =
  [Invoke 0 "app.db" (batch_of ["RENAME"; "ADD"] ModeImmediate); Invoke 1 "app.db" select;
   Return 1 (selected "n" 1); Return 0 (batched [0; 1])].
Proof. vm_compute. reflexivity. Qed.
End LinearExample.
Import LinearExample.

Lemma engine_linearizable_witness :
  exists order,
    linearization "/data" (fun _ => None) (fun _ => mk_counter 0 "n") (components "app.db")
      (ls_history batch_and_readers) order /\
    ls_files batch_and_readers (components "app.db") =
      snd (seq_run "/data" (fun _ => None) order (mk_counter 0 "n")).
Proof.
  apply (engine_linearizable "/data" (fun _ => None) (fun _ => mk_counter 0 "n") in_tx (fun _ => true) column
           batch_and_readers "app.db"); [apply perform_all_sound|reflexivity|].
  rewrite batch_and_readers_history. intros id db c Hin _.
  assert (Hdb : Forall (fun e => match e with
    | Invoke _ db c => trim db = "app.db" /\ transactional in_tx c /\ keeps_schema "/data" (fun _ => None) column db c
    | Return _ _ => True end)
    [Invoke 0 "app.db" (add2 ModeImmediate); Invoke 1 "app.db" select; Return 1 (selected "n" 0);
     Invoke 2 "app.db" select; Return 2 (selected "n" 2); Return 0 (batched [1; 2])]).
  { repeat constructor; try discriminate; try (by apply counter_keeps). }
  rewrite Forall_forall in Hdb. exact (Hdb _ Hin).
Defined.

(** Two calls on one database, a batch and a query, whose answers no order explains. *)
Lemma no_order_of_two h b rb rq :
  h = [Invoke 0 "app.db" b; Invoke 1 "app.db" select; Return 1 rq; Return 0 rb] ->
  let seq order := fst (seq_run "/data" (fun _ => None) order (mk_counter 0 "n")) in
  seq [(1%nat, ("app.db", select)); (0%nat, ("app.db", b))] !! 0%nat <> Some rq ->
  seq [(0%nat, ("app.db", b)); (1%nat, ("app.db", select))] !! 1%nat <> Some rq ->
  forall order, ~ linearization "/data" (fun _ => None) (fun _ => mk_counter 0 "n") (components "app.db") h order.
Proof.
  intros -> seq H1 H2 order [Hn Hi Hr _].
  destruct (Hr 1%nat "app.db" select rq) as (i & Ei & Ri); [set_solver|done|set_solver|].
  destruct (Hr 0%nat "app.db" b rb) as (j & Ej & Rj); [set_solver|done|set_solver|].
  assert (Hl : (length order <= 2)%nat).
  { rewrite <- (length_map fst). change 2%nat with (length [0%nat; 1%nat]).
    apply submseteq_length, NoDup_submseteq; [done|].
    intros id ([id' [db c]] & -> & Hx)%list_elem_of_fmap. apply Hi in Hx as [Hx _]. cbn. set_solver. }
  destruct order as [|x [|y [|]]]; cbn in Hl; [done| | |lia].
  - destruct i, j; cbn in Ei, Ej; simplify_eq.
  - destruct i as [|[|]], j as [|[|]]; cbn in Ei, Ej; simplify_eq; solve [by apply H1|by apply H2].
Qed.

(** A batch without a transaction is not one step for those who read: there are runs on one
    database, under one name, whose history no order of the calls explains. *)
Theorem plain_batch_is_seen_in_part : exists s,
  lin_reachable "/data" (fun _ => None) (fun _ => mk_counter 0 "n") s /\
  (forall id db c, Invoke id db c ∈ ls_history s -> db = "app.db") /\
  forall order, ~ linearization "/data" (fun _ => None) (fun _ => mk_counter 0 "n")
                    (components "app.db") (ls_history s) order.
Proof.
  exists plain_batch_and_reader. split; [apply perform_all_sound|].
  split; [rewrite plain_batch_and_reader_history; set_solver|].
  apply (no_order_of_two _ _ _ _ plain_batch_and_reader_history); vm_compute; discriminate.
Qed.

(** Nor is a query one step when the schema changes under it: it takes its headers when it
    prepares its statement and its rows when it steps it, and a transaction between the two
    is seen in the rows only. *)
Theorem schema_change_splits_query : exists s,
  lin_reachable "/data" (fun _ => None) (fun _ => mk_counter 0 "n") s /\
  (forall id db c, Invoke id db c ∈ ls_history s -> db = "app.db" /\ transactional in_tx c) /\
  forall order, ~ linearization "/data" (fun _ => None) (fun _ => mk_counter 0 "n")
                    (components "app.db") (ls_history s) order.
Proof.
  exists rename_and_reader. split; [apply perform_all_sound|]. split.
  - rewrite rename_and_reader_history. intros id db c Hin.
    assert (Hall : Forall (fun e => match e with
      | Invoke _ db c => db = "app.db" /\ transactional in_tx c | Return _ _ => True end)
      [Invoke 0 "app.db" (batch_of ["RENAME"; "ADD"] ModeImmediate); Invoke 1 "app.db" select;
       Return 1 (selected "n" 1); Return 0 (batched [0; 1])]).
    { repeat constructor; try discriminate; by apply counter_keeps. }
    rewrite Forall_forall in Hall. exact (Hall _ Hin).
  - apply (no_order_of_two _ _ _ _ rename_and_reader_history); vm_compute; discriminate.
Qed.

(** ** Every call can return *)

Section Progress.
Context {DB : Type} `{!SqliteDb DB}.
Context (data_dir : string) (create_parent : string -> option IoError).
Context {File : Type} `{!SqliteFiles DB File}.
Context (files0 : list Component -> File).
Abbreviation lin_step := (lin_step data_dir create_parent).
Abbreviation lin_reachable := (lin_reachable data_dir create_parent files0).
Abbreviation lin_state := (lin_state (DB := DB) (File := File)).

(** Where a call can be: its task and its phase. *)
Definition status_ok (db : string) (c : call) (t : option task) (ph : option (phase (DB := DB))) (returned : Prop)
  : Prop :=
  match c, t, ph with
  | Write _, Some (mk_task db' false Arrived), Some Pending
  | Write _, Some (mk_task db' false (Waiting _)), Some Pending
  | Write _, Some (mk_task db' false (Inside _)), Some (Pending | Running _ _ | Answered _) => db' = db
  | Write _, Some (mk_task _ false Left), Some Returned => returned
  | Read _, None, Some (Pending | Opened _ | Compiled _ _ _ | Answered _) => True
  | Read _, None, Some Returned => returned
  | _, _, _ => False
  end.

Definition returned (s : lin_state) (id : nat) : Prop := exists r, Return id r ∈ ls_history s.

Definition call_status (s : lin_state) (id : nat) : Prop :=
  match ls_calls s !! id with
  | Some (db, c) => status_ok db c (e_tasks (ls_engine s) !! id) (ls_phases s !! id) (returned s id)
  | None => e_tasks (ls_engine s) !! id = None
  end.

Lemma status_ok_mono db c t ph (P Q : Prop) : (P -> Q) -> status_ok db c t ph P -> status_ok db c t ph Q.
Proof.
  intros HPQ. unfold status_ok. destruct c, t as [[db' [] []]|], ph as [[]|]; auto.
Qed.

Lemma status_read_next db q t ph ph' f (P : Prop) :
  read_next data_dir create_parent db q ph f = Some ph' ->
  status_ok db (Read q) t (Some ph) P -> status_ok db (Read q) t (Some ph') P.
Proof.
  assert (Hgo : forall ph', (forall conn p, ph' <> Running conn p) -> ph' <> Returned ->
    t = None -> status_ok db (Read q) t (Some ph') P) by (intros [] H1 H2 ->; cbn; try done; by eapply H1).
  intros Hn Hst. assert (t = None) as Ht by (by destruct t as [[? [] []]|], ph).
  destruct ph; cbn in Hn; simplify_eq; apply Hgo; try done;
    unfold open_read, prepare_read; repeat case_match; done.
Qed.

(** A step of the call [id] leaves the others where they are. *)
Lemma call_status_frame s s' id id' :
  id' <> id -> ls_calls s' !! id' = ls_calls s !! id' ->
  e_tasks (ls_engine s') !! id' = e_tasks (ls_engine s) !! id' -> ls_phases s' !! id' = ls_phases s !! id' ->
  (exists l, ls_history s' = ls_history s ++ l) -> call_status s id' -> call_status s' id'.
Proof.
  intros Hne Hc Ht Hp [l Hl]. unfold call_status. rewrite Hc, Ht, Hp.
  destruct (ls_calls s !! id') as [[db c]|]; [|done]. apply status_ok_mono.
  intros [r Hr]. exists r. rewrite Hl. set_solver.
Qed.

(** A step changes the task and the phase of one call, and adds to the history. *)
Lemma lin_step_local s s' : lin_step s s' -> exists id,
  (forall id', id' <> id -> ls_calls s' !! id' = ls_calls s !! id' /\
     e_tasks (ls_engine s') !! id' = e_tasks (ls_engine s) !! id' /\ ls_phases s' !! id' = ls_phases s !! id') /\
  (exists l, ls_history s' = ls_history s ++ l) /\
  (call_status s id -> call_status s' id).
Proof.
  assert (Hnil : forall h : list event, exists l, h = h ++ l) by (intros h; exists []; by rewrite app_nil_r).
  intros Hs. destruct Hs as [id db c e cs ph fs h E1 E2|id db e cs ph fs h Et|id db l e cs ph fs h Et Hl
    |id db w l e cs ph fs h Et Ec Eph|id db w l conn f e cs ph fs h Et Ec Eph
    |id db w l r phase e cs ph fs h Et Ec Eph Ha|id db q phase phase' e cs ph fs h Ec Eph En|id db q r e cs ph fs h Ec Eph];
    exists id; cbn; try (destruct (open_connection _ _ _ _ _)); try (destruct (f conn));
    try (destruct c); (split; [intros id' Hne; cbn; rewrite ?ask_tasks, ?lookup_insert_ne by done; done|]);
    (split; [by eauto|]); unfold call_status; cbn; rewrite ?ask_tasks, ?lookup_insert_eq, ?Ec, ?Et, ?Eph.
  - by rewrite E1.
  - rewrite E1, E2. done.
  - destruct (cs !! id) as [[db' [w|q]]|]; [|done..]. by destruct (ph !! id) as [[]|].
  - destruct (cs !! id) as [[db' [w|q]]|]; [|done..]. by destruct (ph !! id) as [[]|].
  - done.
  - done.
  - done.
  - intros _. exists r. cbn. set_solver.
  - by apply (status_read_next db q _ phase phase' (fs (path_of db))).
  - destruct (e_tasks e !! id) as [[? [] []]|]; try done. intros _. exists r. cbn. set_solver.
Qed.

Lemma reachable_status s : lin_reachable s -> forall id, call_status s id.
Proof.
  revert s. apply (rtc_ind_r (fun s => forall id, call_status s id)); [done|].
  intros s s' _ Hs IH id'. destruct (lin_step_local s s' Hs) as (id & Hothers & Hh & Hid).
  destruct (decide (id' = id)) as [->|Hne]; [by apply Hid|].
  destruct (Hothers id' Hne) as (Hc & Ht & Hp). by eapply (call_status_frame s s' id).
Qed.

(** A call that is inside gets through its program, *)
Lemma run_to_done id db w l e cs h :
  e_tasks e !! id = Some (mk_task db false (Inside l)) -> cs !! id = Some (db, Write w) ->
  forall p conn ph fs, ph !! id = Some (Running conn p) ->
  exists ph' fs' conn' r, rtc lin_step (mk_lin e cs ph fs h) (mk_lin e cs ph' fs' h) /\
    ph' !! id = Some (Running conn' (Done r)).
Proof.
  intros Et Ec. fix IH 1. intros [r|f] conn ph fs Eph; [by exists ph, fs, conn, r; split; [apply rtc_refl|]|].
  pose proof (call_operates data_dir create_parent id db w l conn f e cs ph fs h Et Ec Eph) as Hs.
  destruct (f conn) as [conn' p'].
  destruct (IH p' conn' (<[id := Running conn' p']> ph) (<[path_of db := persist conn']> fs))
    as (ph' & fs' & conn2 & r & Hr & E); [apply lookup_insert_eq|].
  exists ph', fs', conn2, r. split; [by eapply rtc_l|done].
Qed.

(** and leaves, giving its lock back. *)
Lemma inside_can_return s id db w l :
  call_status s id -> ls_calls s !! id = Some (db, Write w) ->
  e_tasks (ls_engine s) !! id = Some (mk_task db false (Inside l)) ->
  exists s', rtc lin_step s s' /\ returned s' id /\ ls_calls s' = ls_calls s /\
    e_held (ls_engine s') = e_held (ls_engine s) ∖ {[l]} /\
    e_tasks (ls_engine s') = <[id := mk_task db false Left]> (e_tasks (ls_engine s)).
Proof.
  destruct s as [e cs ph fs h]. unfold call_status. cbn. intros Hst Ec Et. rewrite Ec, Et in Hst.
  assert (Hout : forall ph fs phase r, ph !! id = Some phase -> answer phase = Some r ->
    exists s', rtc lin_step (mk_lin e cs ph fs h) s' /\ returned s' id /\ ls_calls s' = cs /\
      e_held (ls_engine s') = e_held e ∖ {[l]} /\
      e_tasks (ls_engine s') = <[id := mk_task db false Left]> (e_tasks e)).
  { intros ph1 fs1 phase r Eph Ha. eexists. split; [eapply rtc_once, (call_leaves _ _ id db w l r phase); eauto|].
    split; [exists r; cbn; set_solver|done]. }
  assert (Hrun : forall ph fs conn p, ph !! id = Some (Running conn p) ->
    exists s', rtc lin_step (mk_lin e cs ph fs h) s' /\ returned s' id /\ ls_calls s' = cs /\
      e_held (ls_engine s') = e_held e ∖ {[l]} /\
      e_tasks (ls_engine s') = <[id := mk_task db false Left]> (e_tasks e)).
  { intros ph1 fs1 conn p Eph. destruct (run_to_done id db w l e cs h Et Ec p conn ph1 fs1 Eph)
      as (ph2 & fs2 & conn2 & r & Hr & Eph2).
    destruct (Hout ph2 fs2 _ r Eph2 eq_refl) as (s' & Hr' & Hx). exists s'. split; [by etrans|done]. }
  destruct (ph !! id) as [[| | |conn p|r|]|] eqn:Eph; cbn in Hst; try done.
  - pose proof (call_opens data_dir create_parent id db w l e cs ph fs h Et Ec Eph) as Hs.
    destruct (open_connection _ _ _ _ _) as [conn|err].
    + edestruct Hrun as (s' & Hr' & Hx); [apply lookup_insert_eq|]. exists s'. split; [by eapply rtc_l|done].
    + destruct (Hout (<[id := Answered (open_failed w err)]> ph) fs _ _ (lookup_insert_eq _ _ _) eq_refl)
        as (s' & Hr' & Hx). exists s'. split; [by eapply rtc_l|done].
  - by eapply Hrun.
  - by eapply Hout.
Qed.

Definition can_return (s : lin_state) (id : nat) : Prop := exists s', rtc lin_step s s' /\ returned s' id.

Lemma can_return_later s s' id : rtc lin_step s s' -> can_return s' id -> can_return s id.
Proof. intros Hr (s2 & Hr2 & Hx). exists s2. split; [by etrans|done]. Qed.

Lemma free_lock_can_return s id db w l :
  lin_reachable s -> ls_calls s !! id = Some (db, Write w) ->
  e_tasks (ls_engine s) !! id = Some (mk_task db false (Waiting l)) -> l ∉ e_held (ls_engine s) -> can_return s id.
Proof.
  destruct s as [e cs ph fs h]; cbn. intros Hr Ec Et Hl.
  pose proof (call_enters data_dir create_parent id db l e cs ph fs h Et Hl) as Hs.
  eapply can_return_later; [by apply rtc_once|].
  destruct (inside_can_return (mk_lin (enter id db l e) cs ph fs h) id db w l) as (s' & Hr' & Hret & _);
    [|done|apply lookup_insert_eq|by exists s'].
  apply reachable_status. by eapply rtc_r.
Qed.

(** Who waits for a lock gets it when its holder is through. *)
Lemma waiting_can_return s id db w l :
  lin_reachable s -> ls_calls s !! id = Some (db, Write w) ->
  e_tasks (ls_engine s) !! id = Some (mk_task db false (Waiting l)) -> can_return s id.
Proof.
  intros Hr Ec Et. destruct (decide (l ∈ e_held (ls_engine s))) as [Hl|Hl]; [|by eapply free_lock_can_return].
  destruct (lin_engine _ _ _ s Hr) as [He _].
  apply (li_held _ _ (reachable_locks _ He)) in Hl as (id2 & t2 & Et2 & Hh).
  pose proof (reachable_status s Hr id2) as Hst. assert (Hst' := Hst).
  unfold call_status in Hst. rewrite Et2 in Hst.
  destruct (ls_calls s !! id2) as [[db2 [w2|q2]]|] eqn:Ec2; [|by destruct t2 as [? [] []]|done].
  destruct t2 as [db2' [] []]; try done; cbn in Hh; simplify_eq.
  assert (db2' = db2) as -> by (destruct (ls_phases s !! id2) as [[]|]; done).
  destruct (inside_can_return s id2 db2 w2 l Hst' Ec2 Et2) as (s' & Hr' & _ & Hc & Hheld & Htasks).
  apply (can_return_later s s'); [done|].
  assert (id2 <> id) by (intros ->; congruence).
  eapply (free_lock_can_return s' id db w l); [exact (transitivity Hr Hr')|by rewrite Hc| |rewrite Hheld; set_solver].
  by rewrite Htasks, lookup_insert_ne.
Qed.

(** C14. No call of the engine is ever stuck: whatever has happened so far, every call that was
    invoked has returned or can still return. *)
Theorem every_call_can_return s id db c :
  lin_reachable s -> Invoke id db c ∈ ls_history s -> can_return s id.
Proof.
  intros Hr Hinv. apply (invoked_calls _ _ _ s id db c Hr) in Hinv as Ec.
  pose proof (reachable_status s Hr id) as Hst. assert (Hst' := Hst).
  unfold call_status in Hst. rewrite Ec in Hst. destruct s as [e cs ph fs h]. cbn in *. destruct c as [w|q].
  - destruct (e_tasks e !! id) as [[db' [] [|l|l|l|]]|] eqn:Et; try done;
      destruct (ph !! id) as [[]|] eqn:Eph; cbn in Hst; try done; subst.
    1: { pose proof (call_asks data_dir create_parent id db e cs ph fs h Et) as Hs.
         eapply can_return_later; [by apply rtc_once|]. eapply waiting_can_return; [by eapply rtc_r|done|].
         cbn. rewrite ask_tasks. apply lookup_insert_eq. }
    1: by eapply waiting_can_return.
    1-3: destruct (inside_can_return _ id db w l Hst' Ec Et) as (s' & Hr' & Hret & _); by exists s'.
    destruct Hst as [r Hret]. by eexists; split; [apply rtc_refl|exists r].
  - destruct (e_tasks e !! id) as [[? [] []]|]; try done.
    assert (Hans : forall ph r, ph !! id = Some (Answered r) -> can_return (mk_lin e cs ph fs h) id).
    { intros ph1 r Eph. eexists. split; [eapply rtc_once; by eapply query_returns|]. exists r. cbn. set_solver. }
    assert (Hnext : forall ph phase phase', ph !! id = Some phase ->
      read_next data_dir create_parent db q phase (fs (path_of db)) = Some phase' ->
      can_return (mk_lin e cs (<[id := phase']> ph) fs h) id -> can_return (mk_lin e cs ph fs h) id).
    { intros ph1 x x' E1 E2. apply can_return_later, rtc_once. by eapply query_reads. }
    assert (Hcomp : forall ph conn p b, ph !! id = Some (Compiled conn p b) -> can_return (mk_lin e cs ph fs h) id).
    { intros ph1 conn p b E1. eapply Hnext; [done..|]. eapply Hans, lookup_insert_eq. }
    assert (Hopen : forall ph conn, ph !! id = Some (Opened conn) -> can_return (mk_lin e cs ph fs h) id).
    { intros ph1 conn E1. eapply Hnext; [done..|]. unfold prepare_read.
      destruct (db_prepare _ _) as [p|]; [destruct (bind_parameters _ _)|];
        [eapply Hcomp|eapply Hans..]; apply lookup_insert_eq. }
    destruct (ph !! id) as [[]|] eqn:Eph; cbn in Hst; try done; [| |by eapply Hcomp|by eapply Hans|].
    + eapply Hnext; [done..|]. unfold open_read. destruct (open_connection _ _ _ _ _);
        [eapply Hopen|eapply Hans]; apply lookup_insert_eq.
    + by eapply Hopen.
    + destruct Hst as [r Hret]. by eexists; split; [apply rtc_refl|exists r].
Qed.
End Progress.

(** A writer that waits for the lock of a batch at work. *)
Definition waiting_writer : lin_state := performed
  [Arrive 0 "app.db" (add2 ModeImmediate); Ask 0; Enter 0; OpenDb 0; Operate 0;
   Arrive 1 " app.db" (Write (Execute (stmt "ADD") 7)); Ask 1].

Lemma every_call_can_return_witness :
  can_return "/data" (fun _ => None) waiting_writer 1.
Proof.
  apply (every_call_can_return "/data" (fun _ => None) (fun _ => mk_counter 0 "n")
           waiting_writer 1 " app.db" (Write (Execute (stmt "ADD") 7))); [apply perform_all_sound|].
  replace (ls_history waiting_writer) with
    [Invoke 0 "app.db" (add2 ModeImmediate); Invoke 1 " app.db" (Write (Execute (stmt "ADD") 7))]
    by (vm_compute; reflexivity).
  apply elem_of_cons. right. apply list_elem_of_singleton. reflexivity.
Defined.
