(* ===== verification/Server.v ===== *)
(** * SQL gateway server (src/src/gateway/server.rs, src/src/gateway/replication.rs)

    Every RPC handler with its access check; the engine's operations are an
    interface ([GatewayEngine]) whose calls are counted by a log, so that "the
    engine was not reached" is a statement about the state.  Protobuf enums are the
    integers of the generated code. *)

From S2P Require Import Prelude RustStr Errors Ha Auth Engine.

Definition HEADER_RSQLITE_CODE : string := "x-rsqlite-code".
Definition HEADER_RSQLITE_LEADER_ID : string := "x-rsqlite-leader-id".
Definition HEADER_RSQLITE_GENERATION : string := "x-rsqlite-generation".
Definition HEADER_RSQLITE_LEADER_ENDPOINT : string := "x-rsqlite-leader-endpoint".
Definition CODE_NOT_LEADER : string := "NOT_LEADER".

(** [s.parse::<MetadataValue<Ascii>>()]: printable ASCII only. *)
Definition header_value (s : string) : option string :=
  if all_chars header_char s then Some s else None.

Definition insert_header (key : string) (v : option string) (m : list (string * string))
  : list (string * string) :=
  match v with
  | Some v => match header_value v with Some v => m ++ [(key, v)] | None => m end
  | None => m
  end.

Definition not_leader_status (s : HaSharedState) : Status :=
  mk_status FailedPrecondition "node is not the active writer"
    (insert_header HEADER_RSQLITE_LEADER_ENDPOINT (active_leader_endpoint s)
      (insert_header HEADER_RSQLITE_GENERATION (Some (show_Z (sh_generation s)))
        (insert_header HEADER_RSQLITE_LEADER_ID (active_leader_id s)
          (insert_header HEADER_RSQLITE_CODE (Some CODE_NOT_LEADER) [])))).

Definition check_write_access (s : HaSharedState) (now : Z) : Result Status Z :=
  if negb (is_writer s now) then Err (not_leader_status s) else Ok (sh_generation s).

Inductive ConsistencyLevel := Strong | Eventual.
Definition consistency_try_from (i : Z) : option ConsistencyLevel :=
  match i with 0 => Some Strong | 1 => Some Eventual | _ => None end.
Definition batch_mode_try_from (i : Z) : option BatchTransactionMode :=
  match i with
  | 0 => Some ModeNone | 1 => Some ModeDeferred | 2 => Some ModeImmediate | 3 => Some ModeExclusive
  | _ => None
  end.

Definition check_read_access (s : HaSharedState) (now : Z) (consistency : ConsistencyLevel)
  : Result Status (Z * bool) :=
  let w := is_writer s now in
  match consistency with
  | Strong => if negb w then Err (not_leader_status s) else Ok (sh_generation s, false)
  | Eventual =>
      if w then Ok (sh_generation s, false)
      else if allow_replica_reads s then Ok (sh_generation s, true)
      else Err (not_leader_status s)
  end.

(** ** Handlers *)

(** A call of the engine: it runs on a blocking task, whose join can fail. *)
Abbreviation Call A := (Result string (SyncResult A)) (only parsing).

Inductive EngineCall :=
| CallExecute (db : string) (s : Statement) (generation : Z)
| CallQuery (db : string) (s : Statement) (max_rows generation : Z) (replica : bool)
| CallStream (db : string) (s : Statement) (max_rows chunk_size : Z)
| CallBatch (db : string) (ss : list Statement) (m : BatchTransactionMode) (stop : bool) (generation : Z)
| CallDrop (db : string).

Class GatewayEngine := {
  engine_execute : string -> Statement -> Z -> Call ExecuteResponse;
  engine_query : string -> Statement -> Z -> Z -> bool -> Call QueryResponse;
  engine_stream : string -> Statement -> Z -> Z -> Call (list QueryChunk);
  engine_batch : string -> list Statement -> BatchTransactionMode -> bool -> Z -> Call BatchResponse;
  engine_drop : string -> Call bool;
  engine_list : Call (list DatabaseInfo);
}.

(** What the handlers rely on: a chunked query carries the rows of the plain one. *)
Class GatewayEngineLaws `{!GatewayEngine} : Prop := {
  engine_stream_query db s max_rows chunk_size generation replica :
    0 < chunk_size ->
    match engine_stream db s max_rows chunk_size,
          engine_query db s max_rows generation replica with
    | Ok (Ok chunks), Ok (Ok q) => concat (map chunk_rows chunks) = q_rows q
    | Ok (Err e), Ok (Err e') => e = e'
    | Err _, _ | _, Err _ => True
    | _, _ => False
    end;
}.

(** The engine of the gateway, in a given state of its locks and of the data directory;
    no call panics, so every join succeeds. *)
Section DatabaseEngine.
Context {DB : Type} `{!SqliteDb DB}.
Context (data_dir : string) (create_parent : string -> option IoError)
  (sqlite_open : string -> bool -> SyncResult DB) (locks : LockTable)
  (remove_fails : string -> option IoError) (files : gset string) (root : option FsNode).

Definition database_engine : GatewayEngine := {|
  engine_execute db s gen :=
    Ok (fst (fst (Engine.execute data_dir create_parent sqlite_open db s gen locks)));
  engine_query db s max_rows gen replica :=
    Ok (Engine.query data_dir create_parent sqlite_open db s max_rows gen replica);
  engine_stream db s max_rows chunk_size :=
    Ok (stream_query_chunks data_dir create_parent sqlite_open db s max_rows chunk_size);
  engine_batch db ss m stop gen :=
    Ok (fst (fst (Engine.batch data_dir create_parent sqlite_open db ss m stop gen locks)));
  engine_drop db :=
    Ok (fst (fst (drop_database data_dir db create_parent remove_fails files locks)));
  engine_list := Ok (list_databases root);
|}.

Lemma database_engine_laws : @GatewayEngineLaws database_engine.
Proof.
  split. intros db s max_rows chunk_size gen replica Hc. cbn.
  pose proof (stream_matches_query data_dir create_parent sqlite_open db s max_rows chunk_size
                gen replica Hc) as H.
  destruct (stream_query_chunks _ _ _ _ _ _ _), (Engine.query _ _ _ _ _ _ _ _); [|done..].
  by destruct H.
Qed.
End DatabaseEngine.

(** [.map_err(join error)?.map_err(internal)?]. *)
Definition joined {A} (c : Call A) : Result Status A :=
  match c with
  | Err e => Err (status Internal ("task join error: " +++ e))
  | Ok (Err e) => Err (status Internal (SyncError_to_string e))
  | Ok (Ok a) => Ok a
  end.

Definition missing_statement (rpc : string) : Status :=
  status InvalidArgument ("missing statement in " +++ rpc +++ " request").

Section Handlers.
Context `{!GatewayEngine}.
Variables (ha : HaSharedState) (now : Z).

(** Each handler returns its answer and the engine calls it made. *)

Definition rpc_execute (db : string) (stmt : option Statement)
  : Result Status ExecuteResponse * list EngineCall :=
  match check_write_access ha now with
  | Err st => (Err st, [])
  | Ok generation =>
      match stmt with
      | None => (Err (missing_statement "execute"), [])
      | Some s => (joined (engine_execute db s generation), [CallExecute db s generation])
      end
  end.

Definition rpc_query (db : string) (stmt : option Statement) (max_rows consistency : Z)
  : Result Status QueryResponse * list EngineCall :=
  let level := default Strong (consistency_try_from consistency) in
  match check_read_access ha now level with
  | Err st => (Err st, [])
  | Ok (generation, replica) =>
      match stmt with
      | None => (Err (missing_statement "query"), [])
      | Some s => (joined (engine_query db s max_rows generation replica),
                   [CallQuery db s max_rows generation replica])
      end
  end.

(** The stream sends the chunks in order; a receiver that goes away cuts it short. *)
Definition rpc_stream_query (db : string) (stmt : option Statement)
    (max_rows chunk_size_arg consistency : Z) : Result Status (list QueryChunk) * list EngineCall :=
  let level := default Strong (consistency_try_from consistency) in
  match check_read_access ha now level with
  | Err st => (Err st, [])
  | Ok _ =>
      match stmt with
      | None => (Err (missing_statement "stream query"), [])
      | Some s =>
          let chunk_size := if 0 <? chunk_size_arg then chunk_size_arg else 100 in
          (joined (engine_stream db s max_rows chunk_size), [CallStream db s max_rows chunk_size])
      end
  end.

Definition rpc_batch (db : string) (ss : list Statement) (mode : Z) (stop_on_error : bool)
  : Result Status BatchResponse * list EngineCall :=
  let tx_mode := default ModeDeferred (batch_mode_try_from mode) in
  match check_write_access ha now with
  | Err st => (Err st, [])
  | Ok generation =>
      (joined (engine_batch db ss tx_mode stop_on_error generation),
       [CallBatch db ss tx_mode stop_on_error generation])
  end.

Definition rpc_drop_database (db : string) : Result Status (bool * Z) * list EngineCall :=
  match check_write_access ha now with
  | Err st => (Err st, [])
  | Ok generation =>
      (match joined (engine_drop db) with
       | Ok existed => Ok (existed, generation)
       | Err st => Err st
       end, [CallDrop db])
  end.

Record LeaseStatus := mk_lease_status {
  ls_is_held : bool;
  ls_lease : LeaseRecord;
  ls_is_expired : bool;
}.

Record ClusterStatusResponse := mk_cluster_status {
  cs_node_id : string;
  cs_role : NodeRole;
  cs_local_generation : Z;
  cs_lease : option LeaseStatus;
  cs_leader_id : string;
  cs_leader_endpoint : string;
  cs_databases : list DatabaseInfo;
  cs_uptime_secs : Z;
  cs_version : string;
}.

(** [CARGO_PKG_VERSION]. *)
Definition SERVER_VERSION : string := "0.4.0".

Definition rpc_get_cluster_status (uptime_secs : Z) : Result Status ClusterStatusResponse :=
  match engine_list with
  | Err e => Err (status Internal ("task join error: " +++ e))
  | Ok listed =>
      Ok (mk_cluster_status (sh_node_id ha)
            (if is_writer ha now then Writer else Replica)
            (sh_generation ha)
            (option_map (fun l => mk_lease_status true l (is_expired l now)) (lease_record ha))
            (default "" (active_leader_id ha)) (default "" (active_leader_endpoint ha))
            (match listed with Ok l => l | Err _ => [] end) uptime_secs SERVER_VERSION)
  end.
End Handlers.

(** ** Replication service: admission of a sync stream *)

Inductive ClientRole := RoleReplica | RoleOrigin.
Definition client_role_try_from (i : Z) : option ClientRole :=
  match i with 1 => Some RoleReplica | 2 => Some RoleOrigin | _ => None end.

Record SyncInit := mk_sync_init {
  init_database : string;
  init_client_role : Z;
  init_auth_token : string;
}.

(** The first message of the stream: a stream error, the end of the stream, or a
    message that is an init or not. *)
Inductive FirstMessage :=
| StreamFailed (text : string)
| StreamClosed
| NotInit
| Init (i : SyncInit).

(** The checks [sync] makes before it spawns a handler: the role the client takes and
    the path of the database. *)
Definition admit_sync (auth : AuthConfig) (authorization : option string)
    (resolve : string -> SyncResult string) (ha_state : option HaSharedState) (now : Z)
    (first : FirstMessage) : Result Status (ClientRole * string) :=
  match first with
  | StreamFailed e => Err (status Internal ("failed to receive initial sync message: " +++ e))
  | StreamClosed => Err (status InvalidArgument "client closed stream before sending SyncInit")
  | NotInit => Err (status InvalidArgument "first message on replication stream must be SyncInit")
  | Init init =>
      let? _ := check_request_or_token auth authorization (Some (init_auth_token init)) in
      let? db_path :=
        map_err (fun e => status InvalidArgument
                   ("invalid database name '" +++ init_database init +++ "': " +++ SyncError_to_string e))
          (resolve (init_database init)) in
      let? role := ok_or (client_role_try_from (init_client_role init))
                     (status InvalidArgument
                        "client_role must be CLIENT_ROLE_REPLICA or CLIENT_ROLE_ORIGIN") in
      match role, ha_state with
      | RoleOrigin, Some s =>
          if is_writer s now then
            Err (status FailedPrecondition "cannot push replication to an active writer node")
          else Ok (role, db_path)
      | _, _ => Ok (role, db_path)
      end
  end.

(** ** Claims *)

Definition writes (c : EngineCall) : bool :=
  match c with CallExecute _ _ _ | CallBatch _ _ _ _ _ | CallDrop _ => true | _ => false end.

Section Claims.
Context `{!GatewayEngine}.

(** A node that is not the writer reaches no mutating engine operation: execute, batch
    and drop answer with the not-leader status and make no engine call. *)
Theorem writes_are_fenced ha now db stmt ss mode stop :
  is_writer ha now = false ->
  rpc_execute ha now db stmt = (Err (not_leader_status ha), []) /\
  rpc_batch ha now db ss mode stop = (Err (not_leader_status ha), []) /\
  rpc_drop_database ha now db = (Err (not_leader_status ha), []).
Proof.
  intros Hw. unfold rpc_execute, rpc_batch, rpc_drop_database, check_write_access.
  by rewrite Hw.
Qed.

(** A streamed query answers with the rows of the plain query, for any chunk size of the
    request. *)
Theorem stream_serves_the_query_rows `{!GatewayEngineLaws} ha now db stmt max chunk cons chunks q :
  fst (rpc_stream_query ha now db stmt max chunk cons) = Ok chunks ->
  fst (rpc_query ha now db stmt max cons) = Ok q ->
  concat (map chunk_rows chunks) = q_rows q.
Proof.
  unfold rpc_stream_query, rpc_query.
  destruct (check_read_access _ _ _) as [[gen replica]|]; [|done]. destruct stmt as [s|]; [|done].
  cbn. intros Hs Hq.
  assert (Hc : 0 < (if 0 <? chunk then chunk else 100)) by (case_test; lia).
  pose proof (engine_stream_query db s max _ gen replica Hc) as Hl. unfold joined in *.
  destruct (engine_stream _ _ _ _) as [[]|]; [|done..].
  destruct (engine_query _ _ _ _ _) as [[]|]; [|done..]. by simplify_eq.
Qed.

Lemma query_access ha now db s max consistency :
  let '(r, calls) := rpc_query ha now db (Some s) max consistency in
  calls <> [] ->
  exists replica, calls = [CallQuery db s max (sh_generation ha) replica] /\
    ((is_writer ha now = true /\ replica = false) \/
     (is_writer ha now = false /\ replica = true /\ consistency = 1 /\ allow_replica_reads ha = true)).
Proof.
  unfold rpc_query, check_read_access.
  assert (Hc : consistency_try_from consistency = Some Eventual -> consistency = 1).
  { unfold consistency_try_from. destruct consistency as [|p|]; try done.
    destruct p; done. }
  destruct (default Strong (consistency_try_from consistency)) eqn:El.
  - destruct (is_writer ha now); cbn [negb]; [|by intros []].
    intros _. exists false. split; [done|]. by left.
  - assert (consistency = 1) as -> by (destruct (consistency_try_from consistency); cbn in El; [subst|]; auto; done).
    destruct (is_writer ha now); [intros _; exists false; split; [done|]; by left|].
    destruct (allow_replica_reads ha); [|by intros []].
    intros _. exists true. split; [done|]. by right.
Qed.

(** A strong read, and any read with an unknown consistency value, is served by the
    writer alone; an eventual read is served elsewhere only when replica reads
    are allowed, and is then marked as a replica read. *)
Theorem reads_respect_consistency ha now db s max consistency r calls :
  rpc_query ha now db (Some s) max consistency = (r, calls) -> calls <> [] ->
  exists replica, calls = [CallQuery db s max (sh_generation ha) replica] /\
    ((is_writer ha now = true /\ replica = false) \/
     (is_writer ha now = false /\ replica = true /\ consistency = 1 /\ allow_replica_reads ha = true)).
Proof.
  intros E Hc. pose proof (query_access ha now db s max consistency) as Hq. rewrite E in Hq. auto.
Qed.
End Claims.

(** A push into a node that is currently the writer is refused, with any credentials: the
    writer's database is never overwritten by replication. *)
Theorem writer_never_overwritten auth authorization resolve s now first role path :
  admit_sync auth authorization resolve (Some s) now first = Ok (role, path) ->
  is_writer s now = true -> role = RoleReplica.
Proof.
  unfold admit_sync. intros H Hw. destruct first as [| | |init]; try done.
  destruct (check_request_or_token _ _ _); [|done].
  destruct (resolve (init_database init)); cbn in H; [|done].
  destruct (client_role_try_from _) as [[|]|]; cbn in H; try done; [by simplify_eq|].
  by rewrite Hw in H.
Qed.

#[export] Instance toy_engine : GatewayEngine := {|
  engine_execute := fun _ _ g => Ok (Ok (mk_execute_response 1 1 g));
  engine_query := fun _ _ _ g r => Ok (Ok (mk_query_response [] [] 0 g r));
  engine_stream := fun _ _ _ _ => Ok (Ok []);
  engine_batch := fun _ _ _ _ g => Ok (Ok (mk_batch_response [] g true));
  engine_drop := fun _ => Ok (Ok true);
  engine_list := Ok (Ok []);
|}.

Definition follower : HaSharedState :=
  mk_shared "b" Replica 0 (Some "a") (Some "http://a:50051") (Some example_lease) true.

Lemma writes_are_fenced_witness :
  rpc_execute follower 105 "app.db" None = (Err (not_leader_status follower), []) /\
  rpc_batch follower 105 "app.db" [] 1 true = (Err (not_leader_status follower), []) /\
  rpc_drop_database follower 105 "app.db" = (Err (not_leader_status follower), []).
Proof. apply (writes_are_fenced follower 105 "app.db" None [] 1 true). reflexivity. Defined.

Definition leader : HaSharedState := mk_shared "a" Writer 3 None None (Some example_lease) false.

Lemma writer_never_overwritten_witness :
  admit_sync disabled None (fun n => Ok n) (Some leader) 105 (Init (mk_sync_init "app.db" 1 "")) =
    Ok (RoleReplica, "app.db") /\ is_writer leader 105 = true /\ RoleReplica = RoleReplica.
Proof.
  split; [reflexivity|]. split; [reflexivity|].
  apply (writer_never_overwritten disabled None (fun n => Ok n) leader 105
           (Init (mk_sync_init "app.db" 1 "")) RoleReplica "app.db"); reflexivity.
Defined.

(** An eventual read on a follower that allows replica reads. *)
Lemma reads_respect_consistency_witness :
  exists replica,
    [CallQuery "app.db" (mk_statement "SELECT 1" [] [] false) 10 0 true] =
    [CallQuery "app.db" (mk_statement "SELECT 1" [] [] false) 10 (sh_generation follower) replica] /\
    ((is_writer follower 105 = true /\ replica = false) \/
     (is_writer follower 105 = false /\ replica = true /\ 1 = 1 /\ allow_replica_reads follower = true)).
Proof.
  apply (reads_respect_consistency follower 105 "app.db" (mk_statement "SELECT 1" [] [] false) 10 1
           (Ok (mk_query_response [] [] 0 0 true))); [reflexivity|discriminate].
Defined.
