(* ===== verification/GatewayTests.v ===== *)
(** * The unit tests of the gateway on the model

    (src/src/gateway/engine.rs, src/src/gateway/server.rs)

    The tests run the handlers of [Server] over the engine of [Engine] over a SQLite that
    knows the statements of the tests: [read_sql] reads their texts, tables are lists of
    rows.  The files of the data directory are kept in a [world], which each call of the
    engine changes. *)

From S2P Require Import Prelude RustStr Errors Ha Auth Engine Server.

Module GatewayTests.
Definition all_hold (tests : list Prop) : Prop := Forall (fun t : Prop => t) tests.
Definition err_contains {A} (part : string) (r : SyncResult A) : bool :=
  match r with Err e => contains part (SyncError_to_string e) | Ok _ => false end.
Definition is_err {E A} (r : Result E A) : bool := match r with Err _ => true | Ok _ => false end.

(** ** A SQLite for the statements of the tests *)

Inductive expr := Lit (v : SqlValue) | Param (k : Z).
Inductive sql_text :=
| CreateTable (name : string) (cols : list (string * string)) (pk : bool) (unique : option nat)
| InsertInto (name : string) (cols : list string) (vals : list expr) (params : list (option string))
| SelectFrom (name : string) (cols : list string)
| SelectCount (col name : string)
| SelectValue (col : string) (v : SqlValue).

(** A table: columns with their declared types, whether the first is the row id, the
    column without duplicates, and the rows. *)
Record table := mk_table {
  t_cols : list (string * string);
  t_pk : bool;
  t_unique : option nat;
  t_rows : list (list SqlValue);
}.
Record test_db := mk_test_db {
  tables : gmap string table;
  begun : option (gmap string table);     (* the tables when the transaction began *)
  t_changes : Z;
  t_rowid : Z;
}.
Definition empty_db : test_db := mk_test_db ∅ None 0 0.

Fixpoint given (col : string) (cols : list string) (vals : list SqlValue) : option SqlValue :=
  match cols, vals with
  | c :: cols, v :: vals => if String.eqb c col then Some v else given col cols vals
  | _, _ => None
  end.
(** A row with the given columns; the row id is the next number unless it is given. *)
Definition new_row (t : table) (rowid : Z) (cols : list string) (vals : list SqlValue) : list SqlValue :=
  imap (fun i '(c, _) =>
          match given c cols vals with
          | Some v => v
          | None => if t_pk t && (i =? 0)%nat then SqlInteger rowid else SqlNull
          end) (t_cols t).
Definition same_value (a b : option SqlValue) : bool :=
  match a, b with
  | Some (SqlInteger i), Some (SqlInteger j) => i =? j
  | Some (SqlText s), Some (SqlText u) => String.eqb s u
  | _, _ => false
  end.
Definition conflicts (t : table) (row : list SqlValue) : bool :=
  match t_unique t with
  | Some i => existsb (fun r => same_value (r !! i) (row !! i)) (t_rows t)
  | None => false
  end.

Definition eval_expr (b : Bindings) (e : expr) : SqlValue :=
  match e with Lit v => v | Param k => default SqlNull (b !! k) end.
Definition run_insert (name : string) (cols : list string) (vals : list expr) (b : Bindings) (d : test_db)
  : SyncResult unit * test_db :=
  match tables d !! name with
  | None => (Err (Sqlite 1 ("no such table: " +++ name)), d)
  | Some t =>
      let cols := match cols with [] => map fst (t_cols t) | _ => cols end in
      let row := new_row t (zlen (t_rows t) + 1) cols (map (eval_expr b) vals) in
      if conflicts t row then (Err (Sqlite 19 ("UNIQUE constraint failed: " +++ name)), d)
      else
        let t := mk_table (t_cols t) (t_pk t) (t_unique t) (t_rows t ++ [row]) in
        (Ok tt, mk_test_db (<[name := t]> (tables d)) (begun d) 1 (zlen (t_rows t)))
  end.
Definition run_create (name : string) (t : table) (d : test_db) : SyncResult unit * test_db :=
  match tables d !! name with
  | Some _ => (Err (Sqlite 1 ("table " +++ name +++ " already exists")), d)
  | None => (Ok tt, mk_test_db (<[name := t]> (tables d)) (begun d) (t_changes d) (t_rowid d))
  end.

Fixpoint index_of {A} (f : A -> bool) (l : list A) : option nat :=
  match l with
  | [] => None
  | x :: l => if f x then Some O else option_map S (index_of f l)
  end.
Definition column (t : table) (name : string) : option nat :=
  index_of (fun c => String.eqb (fst c) name) (t_cols t).
Definition project (t : table) (cols : list string) (row : list SqlValue) : list SqlValue :=
  map (fun c => default SqlNull (i ← column t c; row !! i)) cols.

Definition read_steps (rows : list (list SqlValue)) : list (SyncResult (option (list SqlValue))) :=
  map (fun r => Ok (Some r)) rows ++ [Ok None].
Definition no_write (_ : Bindings) (d : test_db) : SyncResult unit * test_db := (Ok tt, d).
(** [sqlite3_bind_*]: an index out of range is an error. *)
Definition bind_in (n : Z) (idx : Z) (_ : SqlValue) : SyncResult unit :=
  if (1 <=? idx) && (idx <=? n) then Ok tt else Err (Sqlite 25 "column index out of range").
Definition read_only_stmt (cols : list (string * option string)) (rows : test_db -> list (list SqlValue))
  : Prepared test_db :=
  mk_prepared true cols (fun _ => 0) (bind_in 0) (fun _ d => read_steps (rows d)) (fun _ d => d) no_write.
Definition write_stmt (params : list (option string)) (run : Bindings -> test_db -> SyncResult unit * test_db)
  : Prepared test_db :=
  mk_prepared false [] (fun n => match index_of (fun p => bool_decide (p = Some n)) params with
                                 | Some i => Z.of_nat i + 1
                                 | None => 0
                                 end) (bind_in (zlen params)) (fun _ _ => [Ok None])
    (fun b d => snd (run b d)) run.

Definition rowid_table (name : string) (cols : list (string * string)) : sql_text :=
  CreateTable name (("id", "INTEGER") :: cols) true None.
Definition insert_values (name : string) (cols : list string) (vs : list SqlValue) : sql_text :=
  InsertInto name cols (map Lit vs) [].
(** The texts of the tests, floats by their bits. *)
Definition known_sql : list (string * sql_text) :=
  [("CREATE TABLE t (id INTEGER PRIMARY KEY);", rowid_table "t" []);
   ("CREATE TABLE t (id INTEGER PRIMARY KEY, v TEXT);", rowid_table "t" [("v", "TEXT")]);
   ("CREATE TABLE t (id INTEGER PRIMARY KEY, v TEXT UNIQUE);",
     CreateTable "t" [("id", "INTEGER"); ("v", "TEXT")] true (Some 1%nat));
   ("CREATE TABLE t (id INTEGER, v TEXT);", CreateTable "t" [("id", "INTEGER"); ("v", "TEXT")] false None);
   ("CREATE TABLE t (id INT);", CreateTable "t" [("id", "INT")] false None);
   ("CREATE TABLE t (x INT);", CreateTable "t" [("x", "INT")] false None);
   ("CREATE TABLE s (id INT);", CreateTable "s" [("id", "INT")] false None);
   ("CREATE TABLE b (id INT);", CreateTable "b" [("id", "INT")] false None);
   ("CREATE TABLE nums (n INT);", CreateTable "nums" [("n", "INT")] false None);
   ("CREATE TABLE kv (k TEXT PRIMARY KEY, v TEXT);",
     CreateTable "kv" [("k", "TEXT"); ("v", "TEXT")] false (Some 0%nat));
   ("CREATE TABLE items (id INTEGER PRIMARY KEY, name TEXT);", rowid_table "items" [("name", "TEXT")]);
   ("CREATE TABLE items (id INTEGER PRIMARY KEY, name TEXT, price REAL, blob_col BLOB, note TEXT);",
     rowid_table "items" [("name", "TEXT"); ("price", "REAL"); ("blob_col", "BLOB"); ("note", "TEXT")]);
   ("INSERT INTO items (name, price, blob_col, note) VALUES (?, ?, ?, ?);",
     InsertInto "items" ["name"; "price"; "blob_col"; "note"] [Param 1; Param 2; Param 3; Param 4]
       [None; None; None; None]);
   ("INSERT INTO items (name, price, blob_col, note) VALUES (:name, :price, :blob, :note);",
     InsertInto "items" ["name"; "price"; "blob_col"; "note"] [Param 1; Param 2; Param 3; Param 4]
       [Some ":name"; Some ":price"; Some ":blob"; Some ":note"]);
   ("INSERT INTO t (id, v) VALUES (:id, :v);",
     InsertInto "t" ["id"; "v"] [Param 1; Param 2] [Some ":id"; Some ":v"]);
   ("INSERT INTO t (v) VALUES (:v);", InsertInto "t" ["v"] [Param 1] [Some ":v"]);
   ("INSERT INTO t DEFAULT VALUES;", insert_values "t" [] []);
   ("INSERT INTO kv (k, v) VALUES ('hello', 'world');",
     insert_values "kv" ["k"; "v"] [SqlText "hello"; SqlText "world"]);
   ("INSERT INTO items VALUES (1, 'item1');", insert_values "items" [] [SqlInteger 1; SqlText "item1"]);
   ("INSERT INTO b VALUES (100);", insert_values "b" [] [SqlInteger 100]);
   ("SELECT id, name, price, blob_col, note FROM items ORDER BY id;",
     SelectFrom "items" ["id"; "name"; "price"; "blob_col"; "note"]);
   ("SELECT id, name FROM items;", SelectFrom "items" ["id"; "name"]);
   ("CREATE TABLE users (id INTEGER PRIMARY KEY, name TEXT, score REAL);",
     rowid_table "users" [("name", "TEXT"); ("score", "REAL")]);
   ("INSERT INTO users (name, score) VALUES (?, ?);",
     InsertInto "users" ["name"; "score"] [Param 1; Param 2] [None; None]);
   ("INSERT INTO users (name, score) VALUES ('Bob', 88.0);",
     insert_values "users" ["name"; "score"] [SqlText "Bob"; SqlFloat 0x4056000000000000]);
   ("INSERT INTO users (name, score) VALUES ('Charlie', 72.5);",
     insert_values "users" ["name"; "score"] [SqlText "Charlie"; SqlFloat 0x4052200000000000]);
   ("SELECT id, name, score FROM users;", SelectFrom "users" ["id"; "name"; "score"]);
   ("SELECT id FROM t ORDER BY id;", SelectFrom "t" ["id"]);
   ("SELECT id FROM b;", SelectFrom "b" ["id"]);
   ("SELECT n FROM nums ORDER BY n;", SelectFrom "nums" ["n"]);
   ("SELECT COUNT(*) FROM t;", SelectCount "COUNT(*)" "t");
   ("SELECT 1;", SelectValue "1" (SqlInteger 1));
   ("SELECT 42 as num;", SelectValue "num" (SqlInteger 42))].
(** The texts that the tests build with [format!]. *)
Definition insert_v (v : string) : string := "INSERT INTO t (v) VALUES ('" +++ v +++ "');".
Definition insert_num (n : Z) : string := "INSERT INTO nums VALUES (" +++ show_Z n +++ ");".
Definition formatted_sql : list (string * sql_text) :=
  map (fun v => (insert_v v, insert_values "t" ["v"] [SqlText v]))
    ["none"; "deferred"; "immediate"; "exclusive"; "after"; "first"; "third"; "dup"; "unique-2"] ++
  map (fun n => (insert_num n, insert_values "nums" [] [SqlInteger n])) [1; 2; 3; 4; 5].
Fixpoint assoc {A} (k : string) (l : list (string * A)) : option A :=
  match l with
  | [] => None
  | (k', v) :: l => if String.eqb k k' then Some v else assoc k l
  end.
Definition read_sql (q : string) : option sql_text := assoc q (known_sql ++ formatted_sql).

Definition prepare_with (read_sql : string -> option sql_text) (q : string) (d : test_db)
  : SyncResult (Prepared test_db) :=
  let from name (k : table -> SyncResult (Prepared test_db)) :=
    match tables d !! name with Some t => k t | None => Err (Sqlite 1 ("no such table: " +++ name)) end in
  let rows_of name (k : table -> list (list SqlValue)) d :=
    match tables d !! name with Some t => k t | None => [] end in
  match read_sql q with
  | None => Err (Sqlite 1 "syntax error")
  | Some (CreateTable name cols pk unique) =>
      Ok (write_stmt [] (fun _ => run_create name (mk_table cols pk unique [])))
  | Some (InsertInto name cols vals params) =>
      from name (fun _ => Ok (write_stmt params (run_insert name cols vals)))
  | Some (SelectFrom name cols) =>
      from name (fun t => Ok (read_only_stmt (map (fun c => (c, assoc c (t_cols t))) cols)
                                (rows_of name (fun t => map (project t cols) (t_rows t)))))
  | Some (SelectCount col name) =>
      from name (fun _ => Ok (read_only_stmt [(col, None)] (rows_of name (fun t => [[SqlInteger (zlen (t_rows t))]]))))
  | Some (SelectValue col v) => Ok (read_only_stmt [(col, None)] (fun _ => [[v]]))
  end.
Definition test_prepare : string -> test_db -> SyncResult (Prepared test_db) := prepare_with read_sql.

Definition test_exec (q : string) (d : test_db) : SyncResult unit * test_db :=
  if starts_with "BEGIN" q then
    match begun d with
    | None => (Ok tt, mk_test_db (tables d) (Some (tables d)) (t_changes d) (t_rowid d))
    | Some _ => (Err (Sqlite 1 "cannot start a transaction within a transaction"), d)
    end
  else if String.eqb q "COMMIT" then
    match begun d with
    | Some _ => (Ok tt, mk_test_db (tables d) None (t_changes d) (t_rowid d))
    | None => (Err (Sqlite 1 "cannot commit - no transaction is active"), d)
    end
  else if String.eqb q "ROLLBACK" then
    match begun d with
    | Some ts => (Ok tt, mk_test_db ts None (t_changes d) (t_rowid d))
    | None => (Err (Sqlite 1 "cannot rollback - no transaction is active"), d)
    end
  else (Ok tt, d).

#[local] Instance test_sqlite : SqliteDb test_db := {|
  db_exec := test_exec;
  db_prepare := test_prepare;
  db_changes := t_changes;
  db_last_insert_rowid := t_rowid;
|}.

(** ** The engine on a data directory *)

Abbreviation world := (gmap string test_db).
Definition DIR : string := "/data".
Definition no_locks : LockTable := mk_locks ∅ 0.
Definition parents_made (_ : string) : option IoError := None.
Definition open_in (w : world) (path : string) (read_only : bool) : SyncResult test_db :=
  match w !! path with
  | Some d => Ok d
  | None => if read_only then Err (Sqlite 14 "unable to open database file") else Ok empty_db
  end.
Definition store (w : world) (db : string) (d : option test_db) : world :=
  match d with Some d => <[join DIR (trim db) := d]> w | None => w end.

Definition stmt (q : string) : Statement := mk_statement q [] [] false.
Definition eng_execute (w : world) (db : string) (s : Statement) (gen : Z)
  : SyncResult ExecuteResponse * world :=
  let '(r, d, _) := Engine.execute DIR parents_made (open_in w) db s gen no_locks in (r, store w db d).
Definition eng_query (w : world) (db : string) (q : string) (max_rows gen : Z) (replica : bool)
  : SyncResult QueryResponse := Engine.query DIR parents_made (open_in w) db (stmt q) max_rows gen replica.
Definition eng_chunks (w : world) (db q : string) (max_rows chunk_size : Z) : SyncResult (list QueryChunk) :=
  stream_query_chunks DIR parents_made (open_in w) db (stmt q) max_rows chunk_size.
Definition eng_batch (w : world) (db : string) (ss : list Statement) (m : BatchTransactionMode)
    (stop : bool) (gen : Z) : SyncResult BatchResponse * world :=
  let '(r, d, _) := Engine.batch DIR parents_made (open_in w) db ss m stop gen no_locks in (r, store w db d).
(** The statements of the set-up of a test, each of which it unwraps. *)
Definition set_up (db : string) (qs : list string) : option world :=
  fold_left (fun w q => match w with
                        | Some w => match eng_execute w db (stmt q) 1 with
                                    | (Ok _, w) => Some w
                                    | (Err _, _) => None
                                    end
                        | None => None
                        end) qs (Some ∅).
Definition starting (w : option world) (test : world -> Prop) : Prop :=
  match w with Some w => test w | None => False end.
(** ** Engine *)

Definition test_lock_normalization : Prop :=
  let '(lock1, locks) := get_db_lock "test.db" no_locks in
  fst (get_db_lock ("  test.db  " +++ nl) locks) = lock1.

Definition file (name : string) : FsNode := FsFile name (Ok (4096, 2)) 8192.
Definition listed (root : option FsNode) : SyncResult (list string) :=
  match list_databases root with Ok l => Ok (map db_name l) | Err e => Err e end.
Definition drop_in (fs : gset string) (fails : string -> option IoError) (db : string)
  : SyncResult bool * gset string :=
  let '(r, fs, _) := drop_database DIR db parents_made fails fs no_locks in (r, fs).
Definition no_failure (_ : string) : option IoError := None.
Definition test_recursive_list_and_drop_databases : Prop :=
  listed (Some (FsDir "" [file "root.db"; FsDir "tenants" [file "tenant1.db"]]))
    = Ok ["root.db"; "tenants/tenant1.db"] /\
  fst (drop_in {["/data/root.db"; "/data/tenants/tenant1.db"]} no_failure "  tenants/tenant1.db  ") = Ok true /\
  bool_decide (snd (drop_in {["/data/root.db"; "/data/tenants/tenant1.db"]} no_failure "  tenants/tenant1.db  ")
    = {["/data/root.db"]}) = true /\
  listed (Some (FsDir "" [file "root.db"; FsDir "tenants" []])) = Ok ["root.db"].

Definition resolve (name : string) : SyncResult string := resolve_db_path DIR name parents_made.
Definition test_resolve_db_path_rejects_empty_name : Prop :=
  err_contains "cannot be empty" (resolve "   ") = true.
Definition test_resolve_db_path_rejects_path_traversal_and_absolute : Prop :=
  forallb (fun n => err_contains "path traversal not permitted" (resolve n))
    ["../escape.db"; "./current.db"; "/etc/evil.db"] = true.
Definition test_resolve_db_path_creates_nested_parent_dirs : Prop :=
  resolve "a/b/c.db" = Ok (join DIR "a/b/c.db").

(** 9.99 by its bits. *)
Definition F9_99 : Z := 0x4023FAE147AE147B.
Definition with_named (q : string) (ps : list (string * option ProtoValue)) : Statement :=
  mk_statement q [] ps true.
Definition test_execute_and_query_with_positional_and_named_parameters : Prop :=
  starting (set_up "app.db"
    ["CREATE TABLE items (id INTEGER PRIMARY KEY, name TEXT, price REAL, blob_col BLOB, note TEXT);"]) (fun w =>
  let '(r1, w) :=
    eng_execute w "app.db"
      (mk_statement "INSERT INTO items (name, price, blob_col, note) VALUES (?, ?, ?, ?);"
         [Some (TextValue "widget"); Some (FloatValue F9_99); Some (BlobValue [1; 2; 3]); None] [] true) 7 in
  let '(r2, w) :=
    eng_execute w "app.db"
      (with_named "INSERT INTO items (name, price, blob_col, note) VALUES (:name, :price, :blob, :note);"
         [(":name", Some (Some (TextValue "gadget"))); (":price", Some (Some (IntValue 5)));
          (":blob", Some (Some (NullValue true))); (":note", Some None)]) 1 in
  r1 = Ok (mk_execute_response 1 1 7) /\ is_err r2 = false /\
  match eng_query w "app.db" "SELECT id, name, price, blob_col, note FROM items ORDER BY id;" 0 3 true with
  | Ok resp =>
      q_total_rows resp = 2 /\ q_is_replica_read resp = true /\ q_generation resp = 3 /\
      map column_type (take 4 (q_columns resp)) = [TypeInteger; TypeText; TypeFloat; TypeBlob] /\
      drop 3 (default [] (head (q_rows resp))) = [Some (BlobValue [1; 2; 3]); Some (NullValue true)]
  | Err _ => False
  end).
Definition test_execute_named_parameter_not_found_errors : Prop :=
  starting (set_up "app.db" ["CREATE TABLE t (id INTEGER, v TEXT);"]) (fun w =>
  err_contains "not found in prepared statement"
    (fst (eng_execute w "app.db"
            (with_named "INSERT INTO t (id, v) VALUES (:id, :v);" [(":missing", Some (Some (IntValue 1)))]) 1)) = true).

(** A table with [n] rows. *)
Definition numbered (n : nat) : option world :=
  set_up "app.db" ("CREATE TABLE t (id INTEGER PRIMARY KEY);" :: replicate n "INSERT INTO t DEFAULT VALUES;").
Definition ids : string := "SELECT id FROM t ORDER BY id;".
Definition test_query_respects_max_rows_limit : Prop :=
  starting (numbered 5) (fun w =>
  match eng_query w "app.db" ids 2 1 false with
  | Ok resp => q_total_rows resp = 2 /\ length (q_rows resp) = 2%nat
  | Err _ => False
  end).
Definition test_stream_query_chunks_splits_into_multiple_chunks : Prop :=
  starting (numbered 5) (fun w =>
  match eng_chunks w "app.db" ids 0 2 with
  | Ok chunks =>
      map (fun c => length (chunk_columns c)) chunks = [1; 0; 0]%nat /\
      map is_last chunks = [false; false; true] /\ map (fun c => length (chunk_rows c)) chunks = [2; 2; 1]%nat /\
      option_map chunk_total_rows (last chunks) = Some 5
  | Err _ => False
  end).
Definition test_stream_query_chunks_respects_max_rows : Prop :=
  starting (numbered 10) (fun w =>
  match eng_chunks w "app.db" ids 3 10 with
  | Ok [chunk] =>
      is_last chunk = true /\ chunk_total_rows chunk = 3 /\ length (chunk_rows chunk) = 3%nat /\
      length (chunk_columns chunk) = 1%nat
  | _ => False
  end).

Definition count_t (w : world) : option Z :=
  match eng_query w "app.db" "SELECT COUNT(*) FROM t;" 0 1 false with
  | Ok resp => match q_rows resp with [[Some (IntValue n)]] => Some n | _ => None end
  | Err _ => None
  end.
Definition v_table : option world := set_up "app.db" ["CREATE TABLE t (id INTEGER PRIMARY KEY, v TEXT);"].
Definition batch_of (w : world) (qs : list Statement) (m : BatchTransactionMode) (stop : bool)
  : SyncResult BatchResponse * world := eng_batch w "app.db" qs m stop 9.
(** Of a batch: for each result whether it is an error, and whether the batch committed. *)
Definition outcome (r : SyncResult BatchResponse) : option (list bool * bool) :=
  match r with Ok resp => Some (map is_err (results resp), committed resp) | Err _ => None end.
Definition first_error (part : string) (r : SyncResult BatchResponse) : bool :=
  match r with
  | Ok resp => match results resp with Err e :: _ => contains part e | _ => false end
  | Err _ => false
  end.

Definition test_batch_commits_across_transaction_modes : Prop :=
  starting v_table (fun w =>
  let '(rs, w) :=
    fold_left (fun '(rs, w) '(mode, v) =>
        let '(r, w) := batch_of w [stmt (insert_v v)] mode true in (rs ++ [r], w))
      [(ModeNone, "none"); (ModeDeferred, "deferred"); (ModeImmediate, "immediate"); (ModeExclusive, "exclusive")]
      ([], w) in
  map outcome rs = replicate 4 (Some ([false], true)) /\
  map (fun r => match r with Ok resp => b_generation resp | Err _ => 0 end) rs = [9; 9; 9; 9] /\
  count_t w = Some 4).
Definition test_batch_stop_on_error_true_halts_on_prepare_error : Prop :=
  starting v_table (fun w =>
  let '(r, w) := batch_of w [stmt "NOT VALID SQL"; stmt (insert_v "after")] ModeDeferred true in
  outcome r = Some ([true], false) /\ count_t w = Some 0).
Definition test_batch_continues_past_prepare_error_when_stop_on_error_false : Prop :=
  starting v_table (fun w =>
  let '(r, w) :=
    batch_of w [stmt (insert_v "first"); stmt "NOT VALID SQL"; stmt (insert_v "third")] ModeNone false in
  outcome r = Some ([false; true; false], false) /\ count_t w = Some 2).
Definition test_batch_bind_error_stop_on_error_variants : Prop :=
  starting v_table (fun w =>
  let stmts :=
    [with_named "INSERT INTO t (v) VALUES (:v);" [(":missing", Some (Some (TextValue "x")))];
     stmt (insert_v "after")] in
  let '(r, w) := batch_of w stmts ModeDeferred true in
  let '(r2, _) := batch_of w stmts ModeDeferred false in
  outcome r = Some ([true], false) /\ first_error "not found in prepared statement" r = true /\
  outcome r2 = Some ([true; false], true) /\ first_error "not found in prepared statement" r2 = true).
Definition test_batch_write_step_error_stop_on_error_variants : Prop :=
  starting (set_up "app.db" ["CREATE TABLE t (id INTEGER PRIMARY KEY, v TEXT UNIQUE);"; insert_v "dup"]) (fun w =>
  let stmts := [stmt (insert_v "dup"); stmt (insert_v "unique-2")] in
  let '(r, w) := batch_of w stmts ModeImmediate true in
  let '(r2, _) := batch_of w stmts ModeImmediate false in
  outcome r = Some ([true], false) /\ option_map fst (outcome r2) = Some [true; false]).

Definition test_drop_database_removes_existing_and_tolerates_missing_sidecars : Prop :=
  let '(r, fs) := drop_in {["/data/app.db"; "/data/app.db-wal"]} no_failure "app.db" in
  r = Ok true /\ bool_decide (fs = ∅) = true /\ fst (drop_in fs no_failure "app.db") = Ok false.
Definition test_drop_database_propagates_non_notfound_errors : Prop :=
  is_err (fst (drop_in {["/data/app.db"; "/data/app.db-wal"]}
    (fun p => if String.eqb p "/data/app.db-wal" then Some (mk_io_error OtherKind "Is a directory (os error 21)")
              else None) "app.db")) = true.
Definition test_list_databases_returns_empty_when_data_dir_missing : Prop := list_databases None = Ok [].
Definition test_list_databases_skips_unreadable_database_files : Prop :=
  listed (Some (FsDir "" [file "good.db"; FsFile "bad.db" (Err (Sqlite 14 "unable to open database file")) 21]))
    = Ok ["good.db"].
Definition test_map_decltype_to_proto_all_branches : Prop :=
  map map_decltype_to_proto ["INTEGER"; "VARCHAR(32)"; "TEXT"; "CLOB"; "BLOB"; "REAL"; "FLOAT"; "DOUBLE"; ""]
  = [TypeInteger; TypeText; TypeText; TypeText; TypeBlob; TypeFloat; TypeFloat; TypeFloat; TypeUnspecified].
(** 1.5 and 2.5 by their bits. *)
Definition F1_5 : Z := 0x3FF8000000000000.
Definition F2_5 : Z := 0x4004000000000000.
Definition test_sql_value_to_proto_all_variants : Prop :=
  map sql_value_to_proto [SqlNull; SqlInteger 42; SqlFloat F1_5; SqlText "hi"; SqlBlob [1; 2; 3]]
  = map Some [NullValue true; IntValue 42; FloatValue F1_5; TextValue "hi"; BlobValue [1; 2; 3]].
Definition test_proto_value_to_sql_all_variants : Prop :=
  map proto_value_to_sql
    [None; Some (NullValue true); Some (IntValue 7); Some (FloatValue F2_5); Some (TextValue "x");
     Some (BlobValue [9; 8])]
  = [SqlNull; SqlNull; SqlInteger 7; SqlFloat F2_5; SqlText "x"; SqlBlob [9; 8]].
(** ** Server *)

Definition NOW : Z := 1000.
Definition create_test_server (is_writer allow_replica_reads : bool) : HaSharedState :=
  if is_writer
  then mk_shared "node-1" Writer 42 None None (Some (mk_lease "node-1" 42 NOW 60)) allow_replica_reads
  else mk_shared "node-1" Replica 42 (Some "node-writer") (Some "http://127.0.0.1:9090") None allow_replica_reads.

(** The engine of the server on the data directory as it is. *)
Definition engine_on (w : world) (fs : gset string) (root : option FsNode) : GatewayEngine :=
  database_engine DIR parents_made (open_in w) no_locks no_failure fs root.
(** What the calls of the engine do to the databases. *)
Definition apply_call (w : world) (c : EngineCall) : world :=
  match c with
  | CallExecute db s gen => snd (eng_execute w db s gen)
  | CallBatch db ss m stop gen => snd (eng_batch w db ss m stop gen)
  | CallDrop db => delete (join DIR (trim db)) w
  | CallQuery _ _ _ _ _ | CallStream _ _ _ _ => w
  end.
Definition after_calls {A} (w : world) (r : A * list EngineCall) : A * world :=
  (fst r, fold_left apply_call (snd r) w).

Definition serve_execute (s : HaSharedState) (w : world) (db : string) (st : option Statement)
  : Result Status ExecuteResponse * world :=
  after_calls w (@rpc_execute (engine_on w ∅ None) s NOW db st).
Definition serve_query (s : HaSharedState) (w : world) (db : string) (st : option Statement)
    (max_rows consistency : Z) : Result Status QueryResponse :=
  fst (@rpc_query (engine_on w ∅ None) s NOW db st max_rows consistency).
Definition serve_stream (s : HaSharedState) (w : world) (db : string) (st : option Statement)
    (chunk_size consistency : Z) : Result Status (list QueryChunk) :=
  fst (@rpc_stream_query (engine_on w ∅ None) s NOW db st 0 chunk_size consistency).
Definition serve_batch (s : HaSharedState) (w : world) (db : string) (ss : list Statement) (mode : Z)
    (stop : bool) : Result Status BatchResponse * world :=
  after_calls w (@rpc_batch (engine_on w ∅ None) s NOW db ss mode stop).
Definition serve_all (s : HaSharedState) (db : string) (qs : list string) : option world :=
  fold_left (fun w q => match w with
                        | Some w => match serve_execute s w db (Some (stmt q)) with
                                    | (Ok _, w) => Some w
                                    | (Err _, _) => None
                                    end
                        | None => None
                        end) qs (Some ∅).

Definition writer : HaSharedState := create_test_server true false.
Definition replica (reads : bool) : HaSharedState := create_test_server false reads.
Definition error_code {A} (r : Result Status A) : option Code :=
  match r with Err st => Some (code st) | Ok _ => None end.
Definition error_header {A} (key : string) (r : Result Status A) : option string :=
  match r with Err st => assoc key (metadata st) | Ok _ => None end.

Definition execute_on_writer_succeeds : Prop :=
  let '(r, w) := serve_execute writer ∅ "test.db" (Some (stmt "CREATE TABLE kv (k TEXT PRIMARY KEY, v TEXT);")) in
  match r with Ok resp => e_generation resp = 42 | Err _ => False end /\
  fst (serve_execute writer w "test.db" (Some (stmt "INSERT INTO kv (k, v) VALUES ('hello', 'world');")))
    = Ok (mk_execute_response 1 1 42).
Definition execute_on_replica_fails_precondition_with_leader_metadata : Prop :=
  let r := fst (serve_execute (replica false) ∅ "test.db" (Some (stmt "CREATE TABLE t (id INT);"))) in
  error_code r = Some FailedPrecondition /\ error_header HEADER_RSQLITE_CODE r = Some CODE_NOT_LEADER /\
  error_header HEADER_RSQLITE_LEADER_ID r = Some "node-writer" /\
  error_header HEADER_RSQLITE_LEADER_ENDPOINT r = Some "http://127.0.0.1:9090" /\
  error_header HEADER_RSQLITE_GENERATION r = Some "42".
Definition execute_missing_statement_returns_invalid_argument : Prop :=
  error_code (fst (serve_execute writer ∅ "test.db" None)) = Some InvalidArgument.
Definition execute_invalid_sql_returns_internal : Prop :=
  error_code (fst (serve_execute writer ∅ "test.db" (Some (stmt "INVALID SQL STATEMENT;")))) = Some Internal.

(** [ConsistencyLevel::Strong as i32] and [Eventual as i32]. *)
Definition STRONG : Z := 0.
Definition EVENTUAL : Z := 1.
Definition query_strong_consistency_on_writer_succeeds : Prop :=
  starting (serve_all writer "query.db"
    ["CREATE TABLE items (id INTEGER PRIMARY KEY, name TEXT);"; "INSERT INTO items VALUES (1, 'item1');"]) (fun w =>
  match serve_query writer w "query.db" (Some (stmt "SELECT id, name FROM items;")) 10 STRONG with
  | Ok resp =>
      q_total_rows resp = 1 /\ length (q_rows resp) = 1%nat /\ length (q_columns resp) = 2%nat /\
      q_is_replica_read resp = false
  | Err _ => False
  end).
Definition query_strong_consistency_on_replica_fails : Prop :=
  error_code (serve_query (replica true) ∅ "query.db" (Some (stmt "SELECT 1;")) 10 STRONG) = Some FailedPrecondition.
(** A data directory with one empty database. *)
Definition opened (db : string) : world := store ∅ db (Some empty_db).
Definition query_eventual_consistency_on_replica_with_reads_allowed : Prop :=
  match serve_query (replica true) (opened "query.db") "query.db" (Some (stmt "SELECT 42 as num;")) 0 EVENTUAL with
  | Ok resp => q_total_rows resp = 1 /\ q_is_replica_read resp = true
  | Err _ => False
  end.
Definition query_eventual_consistency_on_replica_disallowed_fails : Prop :=
  error_code (serve_query (replica false) ∅ "query.db" (Some (stmt "SELECT 42 as num;")) 0 EVENTUAL)
    = Some FailedPrecondition.
Definition query_missing_statement_and_invalid_sql : Prop :=
  error_code (serve_query writer ∅ "q.db" None 0 STRONG) = Some InvalidArgument /\
  error_code (serve_query writer ∅ "q.db" (Some (stmt "SELECT FROM WHERE;")) 0 STRONG) = Some Internal.
Definition stream_query_on_writer_and_replica : Prop :=
  starting (serve_all writer "stream.db" ("CREATE TABLE nums (n INT);" :: map insert_num [1; 2; 3; 4; 5])) (fun w =>
  match serve_stream writer w "stream.db" (Some (stmt "SELECT n FROM nums ORDER BY n;")) 2 STRONG with
  | Ok chunks => (3 <=? zlen chunks) = true /\ zlen (concat (map chunk_rows chunks)) = 5
  | Err _ => False
  end /\
  error_code (serve_stream writer w "stream.db" None 0 STRONG) = Some InvalidArgument /\
  error_code (serve_stream (replica false) ∅ "stream.db" (Some (stmt "SELECT 1;")) 0 STRONG)
    = Some FailedPrecondition).
(** [BatchTransactionMode::Immediate as i32] is 2, [None as i32] is 0. *)
Definition batch_on_writer_and_replica : Prop :=
  match fst (serve_batch writer ∅ "batch.db"
    (map stmt ["CREATE TABLE b (id INT);"; "INSERT INTO b VALUES (100);"; "SELECT id FROM b;"]) 2 true) with
  | Ok resp => length (results resp) = 3%nat /\ committed resp = true /\ b_generation resp = 42
  | Err _ => False
  end /\
  error_code (fst (serve_batch (replica false) ∅ "batch.db" [] 0 false)) = Some FailedPrecondition.
Definition serve_drop (s : HaSharedState) (fs : gset string) (db : string) : Result Status (bool * Z) :=
  fst (@rpc_drop_database (engine_on ∅ fs None) s NOW db).
Definition drop_database_on_writer_and_replica : Prop :=
  serve_drop writer {["/data/dropme.db"]} "dropme.db" = Ok (true, 42) /\
  serve_drop writer ∅ "nonexistent.db" = Ok (false, 42) /\
  error_code (serve_drop (replica false) ∅ "dropme.db") = Some FailedPrecondition.
Definition serve_status (s : HaSharedState) (root : option FsNode) : Result Status ClusterStatusResponse :=
  @rpc_get_cluster_status (engine_on ∅ ∅ root) s NOW 10.
Definition get_cluster_status_writer_and_replica : Prop :=
  match serve_status writer (Some (FsDir "" [file "stat.db"])) with
  | Ok resp =>
      cs_node_id resp = "node-1" /\ cs_role resp = Writer /\ cs_local_generation resp = 42 /\
      match cs_lease resp with
      | Some l => ls_is_held l = true /\ holder_node_id (ls_lease l) = "node-1"
      | None => False
      end /\
      map db_name (cs_databases resp) = ["stat.db"] /\ is_empty (cs_version resp) = false
  | Err _ => False
  end /\
  match serve_status (replica false) (Some (FsDir "" [])) with
  | Ok resp =>
      cs_role resp = Replica /\ cs_leader_id resp = "node-writer" /\
      cs_leader_endpoint resp = "http://127.0.0.1:9090"
  | Err _ => False
  end.
Definition query_eventual_consistency_on_writer_uses_writer_generation : Prop :=
  starting (serve_all writer "eventual_writer.db" ["CREATE TABLE t (id INT);"]) (fun w =>
  match serve_query writer w "eventual_writer.db" (Some (stmt "SELECT 1;")) 0 EVENTUAL with
  | Ok resp => q_total_rows resp = 1 /\ q_generation resp = 42 /\ q_is_replica_read resp = false
  | Err _ => False
  end).
Definition query_out_of_range_consistency_falls_back_to_strong : Prop :=
  match serve_query writer (opened "consistency_fallback.db") "consistency_fallback.db"
          (Some (stmt "SELECT 1;")) 0 999 with
  | Ok resp => q_is_replica_read resp = false
  | Err _ => False
  end /\
  error_code (serve_query (replica true) ∅ "consistency_fallback.db" (Some (stmt "SELECT 1;")) 0 (-1))
    = Some FailedPrecondition.
Definition batch_out_of_range_transaction_mode_falls_back_to_deferred : Prop :=
  match fst (serve_batch writer ∅ "batch_fallback.db" [stmt "CREATE TABLE t (id INT);"] 999 true) with
  | Ok resp => length (results resp) = 1%nat /\ committed resp = true
  | Err _ => False
  end.

Definition gateway_tests : list Prop :=
  [test_lock_normalization; test_recursive_list_and_drop_databases;
   test_resolve_db_path_rejects_empty_name;
   test_resolve_db_path_rejects_path_traversal_and_absolute;
   test_resolve_db_path_creates_nested_parent_dirs;
   test_execute_and_query_with_positional_and_named_parameters;
   test_execute_named_parameter_not_found_errors; test_query_respects_max_rows_limit;
   test_stream_query_chunks_splits_into_multiple_chunks;
   test_stream_query_chunks_respects_max_rows; test_batch_commits_across_transaction_modes;
   test_batch_stop_on_error_true_halts_on_prepare_error;
   test_batch_continues_past_prepare_error_when_stop_on_error_false;
   test_batch_bind_error_stop_on_error_variants;
   test_batch_write_step_error_stop_on_error_variants;
   test_drop_database_removes_existing_and_tolerates_missing_sidecars;
   test_drop_database_propagates_non_notfound_errors;
   test_list_databases_returns_empty_when_data_dir_missing;
   test_list_databases_skips_unreadable_database_files;
   test_map_decltype_to_proto_all_branches; test_sql_value_to_proto_all_variants;
   test_proto_value_to_sql_all_variants; execute_on_writer_succeeds;
   execute_on_replica_fails_precondition_with_leader_metadata;
   execute_missing_statement_returns_invalid_argument; execute_invalid_sql_returns_internal;
   query_strong_consistency_on_writer_succeeds; query_strong_consistency_on_replica_fails;
   query_eventual_consistency_on_replica_with_reads_allowed;
   query_eventual_consistency_on_replica_disallowed_fails;
   query_missing_statement_and_invalid_sql; stream_query_on_writer_and_replica;
   batch_on_writer_and_replica; drop_database_on_writer_and_replica;
   get_cluster_status_writer_and_replica;
   query_eventual_consistency_on_writer_uses_writer_generation;
   query_out_of_range_consistency_falls_back_to_strong;
   batch_out_of_range_transaction_mode_falls_back_to_deferred].
End GatewayTests.

(** The unit tests of the database engine and of the gateway server hold of the model, with
    the handlers running over the engine and the engine over tables. *)
Theorem gateway_tests_hold : GatewayTests.all_hold GatewayTests.gateway_tests.
Proof.
  unfold GatewayTests.all_hold, GatewayTests.gateway_tests.
  repeat (apply Forall_cons; split; [vm_compute; split_and?; (done || congruence)|]). apply Forall_nil_2.
Qed.
