(* ===== verification/Client.v ===== *)
(** * Gateway client (src/crates/rsqlite-rsync-client/src/{client,discovery,error,config}.rs)

    Endpoint discovery and the retry loop.  The network (URI parsing, connecting,
    the RPC itself) is a parameter indexed by the attempt, so every behaviour of
    it is covered; the loop returns its result with the trace of what it did. *)

From S2P Require Import Prelude RustStr Errors Ha Auth Engine Server.

(** ** Configuration and errors *)

Inductive DiscoveryMode :=
| Direct (ep : string)
| Candidates (eps : list string)
| Custom.

Record ClientConfig := mk_client_config {
  discovery : DiscoveryMode;
  max_retries : Z;
  initial_backoff_ms : Z;
  max_backoff_ms : Z;
  timeout_ms : Z;
  auth_token : option string;
}.

Definition default_client_config : ClientConfig :=
  mk_client_config (Direct "http://127.0.0.1:50051") 5 100 2000 15000 None.
Definition client_config_new (d : DiscoveryMode) : ClientConfig :=
  let c := default_client_config in
  mk_client_config d (max_retries c) (initial_backoff_ms c) (max_backoff_ms c) (timeout_ms c)
    (auth_token c).

(** The builder setters; [as_millis() as u64] of a duration in milliseconds. *)
Definition with_max_retries (n : Z) (c : ClientConfig) : ClientConfig :=
  mk_client_config (discovery c) n (initial_backoff_ms c) (max_backoff_ms c) (timeout_ms c) (auth_token c).
Definition with_initial_backoff (ms : Z) (c : ClientConfig) : ClientConfig :=
  mk_client_config (discovery c) (max_retries c) (u64 ms) (max_backoff_ms c) (timeout_ms c) (auth_token c).
Definition with_max_backoff (ms : Z) (c : ClientConfig) : ClientConfig :=
  mk_client_config (discovery c) (max_retries c) (initial_backoff_ms c) (u64 ms) (timeout_ms c) (auth_token c).
Definition with_timeout (ms : Z) (c : ClientConfig) : ClientConfig :=
  mk_client_config (discovery c) (max_retries c) (initial_backoff_ms c) (max_backoff_ms c) ms (auth_token c).
Definition with_auth_token (t : string) (c : ClientConfig) : ClientConfig :=
  mk_client_config (discovery c) (max_retries c) (initial_backoff_ms c) (max_backoff_ms c) (timeout_ms c)
    (Some t).

Inductive ClientError :=
| InvalidEndpoint (endpoint source : string)
| Connect (endpoint source : string)
| Discovery (message : string) (source : option string)
| Rpc (st : Status)
| RetriesExhausted (attempts : Z) (source : ClientError).

Fixpoint error_status (e : ClientError) : option Status :=
  match e with
  | Rpc st => Some st
  | RetriesExhausted _ source => error_status source
  | _ => None
  end.

Definition error_code (e : ClientError) : option Code := option_map code (error_status e).

Fixpoint header (key : string) (m : list (string * string)) : option string :=
  match m with
  | [] => None
  | (k, v) :: m => if String.eqb k key then Some v else header key m
  end.

Definition is_not_leader_status (st : Status) : bool :=
  bool_decide (code st = FailedPrecondition) &&
  match header HEADER_RSQLITE_CODE (metadata st) with
  | Some v => String.eqb v CODE_NOT_LEADER
  | None => false
  end.

Definition is_not_leader (e : ClientError) : bool :=
  match error_status e with Some st => is_not_leader_status st | None => false end.

Definition transient_code (c : Code) : bool :=
  bool_decide (c = Unavailable) || bool_decide (c = DeadlineExceeded).

Definition is_retryable (e : ClientError) : bool :=
  is_not_leader e ||
  match error_status e with Some st => transient_code (code st) | None => false end.

(** ** Requests and endpoints *)

(** [authorized_request]: the authorization header of a request. *)
Definition authorization_header (t : option string) : option string :=
  match t with
  | Some t => header_value ("Bearer " +++ t)
  | None => None
  end.

Definition normalize_endpoint (ep : string) : string :=
  let trimmed := trim ep in
  if starts_with "http://" trimmed || starts_with "https://" trimmed then trimmed
  else "http://" +++ trimmed.

Section Discover.
(** [Endpoint::from_shared], a probe of an endpoint (whether it connects and reports
    the writer role), and the caller's resolver. *)
Variable from_shared : string -> option string.
Variable probe_writer : string -> bool.
Variable resolver : Result string string.

Definition valid_uri (ep : string) : bool :=
  match from_shared ep with None => true | Some _ => false end.

Fixpoint first_writer (eps : list string) : option string :=
  match eps with
  | [] => None
  | ep :: rest =>
      let norm := normalize_endpoint ep in
      if valid_uri norm && probe_writer norm then Some norm else first_writer rest
  end.

Fixpoint first_valid (eps : list string) : option string :=
  match eps with
  | [] => None
  | ep :: rest =>
      let norm := normalize_endpoint ep in
      if valid_uri norm then Some norm else first_valid rest
  end.

Definition discover_leader (m : DiscoveryMode) : Result ClientError string :=
  match m with
  | Direct ep => Ok (normalize_endpoint ep)
  | Candidates eps =>
      match first_writer eps with
      | Some ep => Ok ep
      | None =>
          ok_or (first_valid eps)
            (Discovery "no syntactically valid candidates configured for discovery" None)
      end
  | Custom =>
      match resolver with
      | Ok ep => Ok (normalize_endpoint ep)
      | Err source => Err (Discovery "custom resolver failed" (Some source))
      end
  end.
End Discover.

(** ** The retry loop *)

Definition next_backoff (current_ms max_ms : Z) : Z := Z.min (sat_mul64 current_ms 2) max_ms.

Record SqlGatewayClient := mk_client {
  config : ClientConfig;
  current_endpoint : option string;
  connected : bool;                    (* [tonic_client.is_some()] *)
}.

Definition client_new (c : ClientConfig) : SqlGatewayClient := mk_client c None false.

Definition reset_connection (cl : SqlGatewayClient) : SqlGatewayClient :=
  mk_client (config cl) None false.

Definition process_leader_header (st : Status) (cl : SqlGatewayClient) : SqlGatewayClient :=
  match match header HEADER_RSQLITE_LEADER_ENDPOINT (metadata st) with
        | Some v => match to_str v with Some s => if is_empty s then None else Some s | None => None end
        | None => None
        end with
  | Some ep => mk_client (config cl) (Some (normalize_endpoint ep)) false
  | None => reset_connection cl
  end.

(** What the loop did: calls with the attempt, the endpoint and the outcome, and sleeps. *)
Inductive LoopEvent :=
| Called (attempt : nat) (endpoint : string) (failure : option Status)
| Slept (ms : Z).

Section Retry.
Context {T : Type}.
(** The network, by attempt. *)
Variable discover : nat -> Result ClientError string.
Variable from_shared : string -> option string.
Variable connect : nat -> string -> option string.
Variable op : nat -> string -> Result Status T.

Definition get_or_connect (n : nat) (cl : SqlGatewayClient)
  : Result ClientError string * SqlGatewayClient :=
  match connected cl, current_endpoint cl with
  | true, Some ep => (Ok ep, cl)
  | _, ep =>
      match (match ep with Some ep => Ok ep | None => discover n end) with
      | Err e => (Err e, cl)
      | Ok ep =>
          match from_shared ep with
          | Some source => (Err (InvalidEndpoint ep source), cl)
          | None =>
              match connect n ep with
              | Some source => (Err (Connect ep source), cl)
              | None => (Ok ep, mk_client (config cl) (Some ep) true)
              end
          end
      end
  end.

(** [n] counts the attempts made before this turn; [None] is the end of the fuel. *)
Fixpoint retry_loop (fuel : nat) (idempotent : bool) (n : nat) (backoff_ms : Z)
    (cl : SqlGatewayClient)
  : option (Result ClientError T) * list LoopEvent * SqlGatewayClient :=
  match fuel with
  | O => (None, [], cl)
  | S fuel =>
      let attempts := Z.of_nat n + 1 in
      let next := next_backoff backoff_ms (max_backoff_ms (config cl)) in
      match get_or_connect n cl with
      | (Err e, cl) =>
          match e with
          | InvalidEndpoint _ _ => (Some (Err e), [], cl)
          | _ =>
              if max_retries (config cl) <=? attempts
              then (Some (Err (RetriesExhausted attempts e)), [], cl)
              else
                let '(r, evs, cl) := retry_loop fuel idempotent (S n) next (reset_connection cl) in
                (r, Slept backoff_ms :: evs, cl)
          end
      | (Ok ep, cl) =>
          match op n ep with
          | Ok res => (Some (Ok res), [Called n ep None], cl)
          | Err st =>
              let should_retry := is_not_leader_status st ||
                                  (idempotent && transient_code (code st)) in
              if negb should_retry then (Some (Err (Rpc st)), [Called n ep (Some st)], cl)
              else if max_retries (config cl) <=? attempts
              then (Some (Err (RetriesExhausted attempts (Rpc st))), [Called n ep (Some st)], cl)
              else
                let '(r, evs, cl) :=
                  retry_loop fuel idempotent (S n) next (process_leader_header st cl) in
                (r, Called n ep (Some st) :: Slept backoff_ms :: evs, cl)
          end
      end
  end.

(** A call of the client: [execute] and [batch] pass [false], the others [true]. *)
Definition call (fuel : nat) (idempotent : bool) (cl : SqlGatewayClient) :=
  retry_loop fuel idempotent 0 (initial_backoff_ms (config cl)) cl.
End Retry.

(** ** Lemmas *)

Definition calls (evs : list LoopEvent) : list (string * option Status) :=
  omap (fun e => match e with Called _ ep f => Some (ep, f) | Slept _ => None end) evs.
Definition sleeps (evs : list LoopEvent) : list Z :=
  omap (fun e => match e with Slept ms => Some ms | Called _ _ _ => None end) evs.

Section RetryFacts.
Context {T : Type}.
Variable discover : nat -> Result ClientError string.
Variable from_shared : string -> option string.
Variable connect : nat -> string -> option string.
Variable op : nat -> string -> Result Status T.
Abbreviation loop := (retry_loop discover from_shared connect op).

Lemma get_or_connect_config n cl r cl' :
  get_or_connect discover from_shared connect n cl = (r, cl') -> config cl' = config cl.
Proof. unfold get_or_connect. repeat case_match; intros [= _ <-]; done. Qed.

Lemma process_config st cl : config (process_leader_header st cl) = config cl.
Proof. unfold process_leader_header. by repeat case_match. Qed.

(** Enough fuel for the attempts left gives a result, within that many calls. *)
Lemma loop_terminates idem fuel : forall n b cl,
  (Z.to_nat (Z.max 1 (max_retries (config cl) - Z.of_nat n)) <= fuel)%nat ->
  exists r evs cl', loop fuel idem n b cl = (Some r, evs, cl') /\
    Z.of_nat (length (calls evs)) <= Z.max 1 (max_retries (config cl) - Z.of_nat n).
Proof.
  induction fuel as [|fuel IH]; intros n b cl Hf; [lia|]. cbn [retry_loop].
  destruct (get_or_connect _ _ _ n cl) as [[ep|e] cl1] eqn:Eg.
  - pose proof (get_or_connect_config _ _ _ _ Eg) as Hc.
    destruct (op n ep) as [res|st]; [do 3 eexists; split; [done|]; cbn; lia|].
    destruct (negb _); [do 3 eexists; split; [done|]; cbn; lia|].
    rewrite Hc. destruct (max_retries (config cl) <=? _) eqn:Em; zbool;
      [do 3 eexists; split; [done|]; cbn; lia|].
    edestruct (IH (S n)) as (r & evs & cl' & -> & Hl).
    { rewrite process_config, Hc. lia. }
    do 3 eexists. split; [done|]. rewrite process_config, Hc in Hl. cbn.
    fold (calls evs). lia.
  - pose proof (get_or_connect_config _ _ _ _ Eg) as Hc.
    assert (Hgo : forall r0, exists r evs cl',
      (if max_retries (config cl1) <=? Z.of_nat n + 1
       then (Some (Err r0 : Result ClientError T), [], cl1)
       else let '(r, evs, cl2) :=
              loop fuel idem (S n) (next_backoff b (max_backoff_ms (config cl))) (reset_connection cl1) in
            (r, Slept b :: evs, cl2)) = (Some r, evs, cl') /\
      Z.of_nat (length (calls evs)) <= Z.max 1 (max_retries (config cl) - Z.of_nat n)).
    { intros r0. rewrite Hc. destruct (_ <=? _) eqn:Em; zbool; [do 3 eexists; split; [done|]; cbn; lia|].
      edestruct (IH (S n)) as (r & evs & cl' & -> & Hl).
      { cbn. rewrite Hc. lia. }
      do 3 eexists. split; [done|]. cbn in *. rewrite Hc in Hl. fold (calls evs) in *. lia. }
    destruct e; try apply Hgo. do 3 eexists. split; [done|]. cbn. lia.
Qed.

(** Every call before the last failed with the not-leader status, unless the operation is
    idempotent. *)
Lemma loop_write_calls fuel : forall n b cl r evs cl',
  loop fuel false n b cl = (r, evs, cl') ->
  forall pre last, calls evs = pre ++ [last] ->
  Forall (fun '(_, f) => exists st, f = Some st /\ is_not_leader_status st = true) pre.
Proof.
  induction fuel as [|fuel IH]; intros n b cl r evs cl' H pre last Hp; cbn [retry_loop] in H.
  { injection H as _ <- _. by destruct pre. }
  destruct (get_or_connect _ _ _ n cl) as [[ep|e] cl1] eqn:Eg.
  - destruct (op n ep) as [res|st].
    { injection H as _ <- _. cbn in Hp. destruct pre as [|x [|]]; [constructor|done..]. }
    cbn [andb] in H. rewrite orb_false_r in H.
    destruct (is_not_leader_status st) eqn:En; cbn [negb] in H.
    2:{ injection H as _ <- _. cbn in Hp. destruct pre as [|x [|]]; [constructor|done..]. }
    destruct (_ <=? _).
    { injection H as _ <- _. cbn in Hp. destruct pre as [|x [|]]; [constructor|done..]. }
    destruct (loop _ _ _ _ _) as [[r1 evs1] cl2] eqn:El. injection H as _ <- _.
    cbn in Hp. fold (calls evs1) in Hp.
    destruct pre as [|x pre]; [constructor|]. cbn in Hp. injection Hp as <- Hp.
    constructor; [by exists st|]. eapply IH; eauto.
  - assert (Hgo : (if max_retries (config cl1) <=? Z.of_nat n + 1
       then (Some (Err (RetriesExhausted (Z.of_nat n + 1) e)), [], cl1)
       else let '(r, evs, cl2) :=
              loop fuel false (S n) (next_backoff b (max_backoff_ms (config cl))) (reset_connection cl1) in
            (r, Slept b :: evs, cl2)) = (r, evs, cl') ->
      Forall (fun '(_, f) => exists st, f = Some st /\ is_not_leader_status st = true) pre).
    { destruct (_ <=? _); [intros [= _ <- _]; by destruct pre|].
      destruct (loop _ _ _ _ _) as [[r1 evs1] cl2] eqn:El. intros [= _ <- _].
      eapply IH; eauto. }
    destruct e; try (by apply Hgo). injection H as _ <- _. by destruct pre.
Qed.

Lemma next_backoff_bound b m : 0 <= b -> 0 <= m -> 0 <= next_backoff b m <= m.
Proof. unfold next_backoff, sat_mul64, U64_MAX. lia. Qed.

Lemma loop_sleeps idem fuel : forall n b cl r evs cl',
  0 <= b -> 0 <= max_backoff_ms (config cl) ->
  loop fuel idem n b cl = (r, evs, cl') ->
  Forall (fun ms => 0 <= ms <= Z.max b (max_backoff_ms (config cl))) (sleeps evs).
Proof.
  induction fuel as [|fuel IH]; intros n b cl r evs cl' Hb Hm H; cbn [retry_loop] in H.
  { injection H as _ <- _. constructor. }
  pose proof (next_backoff_bound b (max_backoff_ms (config cl)) Hb Hm) as Hnb.
  assert (Hstep : forall cl1 r1 evs1 cl2, config cl1 = config cl ->
    loop fuel idem (S n) (next_backoff b (max_backoff_ms (config cl))) cl1 = (r1, evs1, cl2) ->
    Forall (fun ms => 0 <= ms <= Z.max b (max_backoff_ms (config cl))) (b :: sleeps evs1)).
  { intros cl1 r1 evs1 cl2 Hc Hl. constructor; [lia|].
    eapply Forall_impl; [eapply IH; [| |exact Hl]; rewrite ?Hc; lia|].
    rewrite Hc. cbn. lia. }
  destruct (get_or_connect _ _ _ n cl) as [[ep|e] cl1] eqn:Eg;
    pose proof (get_or_connect_config _ _ _ _ Eg) as Hc.
  - destruct (op n ep); [injection H as _ <- _; constructor|].
    destruct (negb _); [injection H as _ <- _; constructor|].
    destruct (_ <=? _); [injection H as _ <- _; constructor|].
    destruct (loop _ _ _ _ _) as [[r1 evs1] cl2] eqn:El. injection H as _ <- _.
    eapply Hstep; [|exact El]. by rewrite process_config.
  - destruct (_ <=? _); [destruct e; injection H as _ <- _; constructor|].
    destruct (loop _ _ _ _ _) as [[r1 evs1] cl2] eqn:El.
    assert (Hs : Forall (fun ms => 0 <= ms <= Z.max b (max_backoff_ms (config cl))) (b :: sleeps evs1))
      by (eapply Hstep; [|exact El]; done).
    destruct e; injection H as _ <- _; try exact Hs. constructor.
Qed.
End RetryFacts.

(** ** Claims *)

Section Claims.
Context {T : Type}.
Variable discover : nat -> Result ClientError string.
Variable from_shared : string -> option string.
Variable connect : nat -> string -> option string.
Variable op : nat -> string -> Result Status T.

(** C27. A client call always ends, after at most [max_retries] calls of the server (one when
    it is zero), whatever the network does. *)
Theorem retry_terminates idem cl :
  exists r evs cl',
    call discover from_shared connect op (Z.to_nat (Z.max 1 (max_retries (config cl)))) idem cl =
      (Some r, evs, cl') /\
    Z.of_nat (length (calls evs)) <= Z.max 1 (max_retries (config cl)).
Proof.
  unfold call. destruct (loop_terminates discover from_shared connect op idem
    (Z.to_nat (Z.max 1 (max_retries (config cl)))) 0 (initial_backoff_ms (config cl)) cl)
    as (r & evs & cl' & H & Hl); [lia|].
  exists r, evs, cl'. split; [done|]. lia.
Qed.

(** A write is never sent again after an ambiguous failure: each call of a
    non-idempotent operation that was followed by another call had been refused
    by a node that is not the leader. *)
Theorem writes_not_resent_after_ambiguity fuel cl r evs cl' pre last :
  call discover from_shared connect op fuel false cl = (r, evs, cl') ->
  calls evs = pre ++ [last] ->
  Forall (fun '(_, f) => exists st, f = Some st /\ is_not_leader_status st = true) pre.
Proof. intros H Hp. eapply loop_write_calls; eauto. Qed.

(** Each pause between attempts is at most the larger of the initial and the maximal
    backoff; the initial backoff itself is not capped by the maximum. *)
Theorem backoff_bounded fuel idem cl r evs cl' :
  0 <= initial_backoff_ms (config cl) -> 0 <= max_backoff_ms (config cl) ->
  call discover from_shared connect op fuel idem cl = (r, evs, cl') ->
  Forall (fun ms => 0 <= ms <= Z.max (initial_backoff_ms (config cl)) (max_backoff_ms (config cl)))
    (sleeps evs).
Proof. intros. by eapply loop_sleeps. Qed.
End Claims.

(** The gateway's not-leader answer is understood by the client: it is recognised as such,
    and the endpoint it carries (printable and not empty) becomes the endpoint of
    the next attempt. *)
Theorem not_leader_redirects s cl ep :
  is_not_leader_status (not_leader_status s) = true /\
  (active_leader_endpoint s = Some ep -> all_chars header_char ep = true -> ep <> "" ->
   current_endpoint (process_leader_header (not_leader_status s) cl) = Some (normalize_endpoint ep)).
Proof.
  assert (Hh : forall k v m, header HEADER_RSQLITE_CODE m = Some CODE_NOT_LEADER ->
    header HEADER_RSQLITE_CODE (insert_header k v m) = Some CODE_NOT_LEADER).
  { intros k v m Hm. unfold insert_header. destruct v as [v|]; [|done].
    destruct (header_value v); [|done]. clear -Hm. induction m as [|[k' v'] m IH]; cbn in *; [done|].
    destruct (String.eqb k' _); [done|]. by apply IH. }
  split.
  - unfold is_not_leader_status, not_leader_status. cbn [code metadata].
    assert (Hc : header HEADER_RSQLITE_CODE (metadata (not_leader_status s)) = Some CODE_NOT_LEADER).
    { unfold not_leader_status. cbn [metadata]. do 3 apply Hh. reflexivity. }
    unfold not_leader_status in Hc. cbn [metadata] in Hc. rewrite Hc. reflexivity.
  - intros Hep Hch Hne. unfold process_leader_header, not_leader_status. cbn [metadata].
    assert (Hlast : forall m, header HEADER_RSQLITE_LEADER_ENDPOINT m = None ->
      header HEADER_RSQLITE_LEADER_ENDPOINT (insert_header HEADER_RSQLITE_LEADER_ENDPOINT (Some ep) m)
      = Some ep).
    { intros m. unfold insert_header, header_value. rewrite Hch.
      induction m as [|[k' v'] m IH]; cbn; [done|]. destruct (String.eqb k' _) eqn:Ek; [done|apply IH]. }
    assert (Hother : forall k v m, String.eqb k HEADER_RSQLITE_LEADER_ENDPOINT = false ->
      header HEADER_RSQLITE_LEADER_ENDPOINT m = None ->
      header HEADER_RSQLITE_LEADER_ENDPOINT (insert_header k v m) = None).
    { intros k v m Hk Hm. unfold insert_header. destruct v as [v|]; [|done].
      destruct (header_value v); [|done]. clear -Hk Hm. induction m as [|[k' v'] m IH]; cbn in *.
      - by rewrite Hk.
      - destruct (String.eqb k' _); [done|]. by apply IH. }
    rewrite Hep, Hlast by (repeat apply Hother; reflexivity).
    unfold to_str. rewrite Hch. by destruct ep.
Qed.

(** Candidate discovery returns the first candidate that reports itself as the writer, when
    one does. *)
Theorem discovery_finds_writer from_shared probe resolver pre ep post :
  Forall (fun c => valid_uri from_shared (normalize_endpoint c) &&
                   probe (normalize_endpoint c) = false) pre ->
  valid_uri from_shared (normalize_endpoint ep) = true -> probe (normalize_endpoint ep) = true ->
  discover_leader from_shared probe resolver (Candidates (pre ++ ep :: post)) =
  Ok (normalize_endpoint ep).
Proof.
  intros Hpre Hv Hp. unfold discover_leader.
  assert (first_writer from_shared probe (pre ++ ep :: post) = Some (normalize_endpoint ep)) as ->;
    [|done].
  induction Hpre as [|c pre Hc _ IH]; cbn; [by rewrite Hv, Hp|]. by rewrite Hc.
Qed.

(** ** Examples *)

(** A cluster of two nodes: the first redirects to the second. *)
Definition example_op (n : nat) (ep : string) : Result Status Z :=
  if String.eqb ep "http://a:50051" then Ok 42 else Err (not_leader_status follower).
Definition example_client : SqlGatewayClient :=
  client_new (client_config_new (Direct "b:50051")).
Definition example_call :=
  call (fun _ => Ok "http://b:50051") (fun _ => None) (fun _ _ => None) example_op 5 false example_client.

Example example_call_redirects :
  fst (fst example_call) = Some (Ok 42) /\
  calls (snd (fst example_call)) =
    [("http://b:50051", Some (not_leader_status follower)); ("http://a:50051", None)].
Proof. vm_compute. done. Qed.

Lemma writes_not_resent_after_ambiguity_witness :
  Forall (fun '(_, f) => exists st, f = Some st /\ is_not_leader_status st = true)
    [("http://b:50051", Some (not_leader_status follower))].
Proof.
  apply (writes_not_resent_after_ambiguity (fun _ => Ok "http://b:50051") (fun _ => None)
           (fun _ _ => None) example_op 5 example_client (fst (fst example_call))
           (snd (fst example_call)) (snd example_call) _ ("http://a:50051", None));
    vm_compute; reflexivity.
Defined.

Lemma backoff_bounded_witness :
  Forall (fun ms => 0 <= ms <= Z.max 100 2000) (sleeps (snd (fst example_call))).
Proof.
  apply (backoff_bounded (fun _ => Ok "http://b:50051") (fun _ => None)
           (fun _ _ => None) example_op 5 false example_client (fst (fst example_call))
           (snd (fst example_call)) (snd example_call)); [done|done|vm_compute; reflexivity].
Defined.

Lemma discovery_finds_writer_witness :
  discover_leader (fun _ => None) (String.eqb "http://b:1") (Err "none") (Candidates ["a:1"; "b:1"; "c:1"]) =
  Ok "http://b:1".
Proof.
  apply (discovery_finds_writer (fun _ => None) (String.eqb "http://b:1") (Err "none") ["a:1"] "b:1" ["c:1"]);
    [constructor; [reflexivity|constructor]|reflexivity|reflexivity].
Defined.

Lemma not_leader_redirects_witness :
  is_not_leader_status (not_leader_status follower) = true /\
  current_endpoint (process_leader_header (not_leader_status follower) example_client) =
    Some "http://a:50051".
Proof.
  destruct (not_leader_redirects follower example_client "http://a:50051") as [Hs Hr].
  split; [exact Hs|]. apply Hr; [reflexivity|reflexivity|discriminate].
Defined.
