(* ===== verification/Endpoint.v ===== *)
(** * Endpoints of the command line (src/src/endpoint.rs)

    [parse] tells gRPC URLs, ssh locations ([[user@]host:path]) and local paths
    apart.  The address syntax of [std::net::IpAddr] is modelled as its parser
    reads it: dotted decimal, or eight hexadecimal groups with one [::]. *)

From S2P Require Import Prelude RustStr.

(** ** [str::parse::<IpAddr>] *)

Definition hex_value (a : ascii) : option Z :=
  let c := code a in
  if (48 <=? c) && (c <=? 57) then Some (c - 48)
  else if (97 <=? c) && (c <=? 102) then Some (c - 87)
  else if (65 <=? c) && (c <=? 70) then Some (c - 55)
  else None.

(** [char::to_digit(radix)] for a radix of at most 16. *)
Definition to_digit (radix : Z) (a : ascii) : option Z :=
  match hex_value a with
  | Some d => if d <? radix then Some d else None
  | None => None
  end.

(** The digits at the front: their value, their number, and what follows. *)
Fixpoint read_digits (radix : Z) (s : string) (value count : Z) : Z * Z * string :=
  match s with
  | "" => (value, count, s)
  | String a r =>
      match to_digit radix a with
      | Some d => read_digits radix r (value * radix + d) (count + 1)
      | None => (value, count, s)
      end
  end.

(** [Parser::read_number]: at most [max_digits] digits, the value within [limit]. *)
Definition read_number (radix max_digits : Z) (allow_zero_prefix : bool) (limit : Z) (s : string)
  : option string :=
  let '(value, count, rest) := read_digits radix s 0 0 in
  if (count =? 0) || (max_digits <? count) then None
  else if negb allow_zero_prefix && starts_with "0" s && (1 <? count) then None
  else if limit <? value then None else Some rest.

Definition read_ipv4 (s : string) : option string :=
  let octet := read_number 10 3 false 255 in
  let! s := octet s in
  let! s := strip_prefix "." s in let! s := octet s in
  let! s := strip_prefix "." s in let! s := octet s in
  let! s := strip_prefix "." s in octet s.

(** [read_separator(':', i, inner)]. *)
Definition read_separator (first : bool) (inner : string -> option string) (s : string)
  : option string :=
  if first then inner s else let! s := strip_prefix ":" s in inner s.

(** [read_groups] with [slots] groups left: the number of groups read, whether the
    last two are a dotted address, and what follows. *)
Fixpoint read_groups (slots : nat) (first : bool) (s : string) : nat * bool * string :=
  match slots with
  | O => (O, false, s)
  | S k =>
      match (match k with O => None | S _ => read_separator first read_ipv4 s end) with
      | Some rest => (2%nat, true, rest)
      | None =>
          match read_separator first (read_number 16 4 true 65535) s with
          | None => (O, false, s)
          | Some rest => let '(n, v4, rest) := read_groups k false rest in (S n, v4, rest)
          end
      end
  end.

Definition read_ipv6 (s : string) : option string :=
  let '(head, head_ipv4, rest) := read_groups 8 true s in
  if Nat.eqb head 8 then Some rest
  else if head_ipv4 then None
  else
    let! rest := strip_prefix "::" rest in
    let '(_, _, rest) := read_groups (8 - (head + 1)) true rest in
    Some rest.

Definition parses_as_ip (s : string) : bool :=
  match (match read_ipv4 s with Some r => Some r | None => read_ipv6 s end) with
  | Some "" => true
  | _ => false
  end.

(** ** Other string methods *)

Definition contains_char (c : ascii) (s : string) : bool :=
  negb (all_chars (fun a => negb (Ascii.eqb a c)) s).

(** [chars().any(char::is_whitespace)]: the white-space encodings of two and three
    bytes start with a byte that no other position of a character can hold. *)
Fixpoint any_whitespace (s : string) : bool :=
  match s with
  | "" => false
  | String a r =>
      ascii_ws a ||
      match r with
      | String b r2 => ws2 a b || match r2 with String c _ => ws3 a b c | "" => false end
      | "" => false
      end || any_whitespace r
  end.

(** Around [rfind(c)]. *)
Fixpoint rsplit_once (c : ascii) (s : string) : option (string * string) :=
  match s with
  | "" => None
  | String a r =>
      match rsplit_once c r with
      | Some (x, y) => Some (String a x, y)
      | None => if Ascii.eqb a c then Some ("", r) else None
      end
  end.

(** Around [find(p)]. *)
Fixpoint split_at_str (p s : string) : option (string * string) :=
  match strip_prefix p s with
  | Some r => Some ("", r)
  | None =>
      match s with
      | "" => None
      | String a r => match split_at_str p r with
                      | Some (x, y) => Some (String a x, y)
                      | None => None
                      end
      end
  end.

Fixpoint trim_start_slashes (s : string) : string :=
  match s with String "/" r => trim_start_slashes r | _ => s end.

(** ** Endpoints *)

Inductive Endpoint :=
| LocalEndpoint (path : string)
| RemoteEndpoint (user_host path : string)
| GrpcEndpoint (url database : string).

#[export] Instance Endpoint_eq_dec : EqDecision Endpoint.
Proof. solve_decision. Defined.

Definition looks_like_remote_host (host_part : string) : bool :=
  if is_empty host_part || starts_with "." host_part || contains_char "/" host_part
     || contains_char "\" host_part || any_whitespace host_part then false
  else if contains_char "@" host_part then true
  else if eq_ignore_ascii_case host_part "localhost" then true
  else if parses_as_ip host_part then true
  else contains_char "." host_part.

Definition is_ascii_alphabetic (a : ascii) : bool :=
  let c := code a in ((65 <=? c) && (c <=? 90)) || ((97 <=? c) && (c <=? 122)).

Definition is_remote_candidate (host_part path_part : string) : bool :=
  let is_windows_drive :=
    match host_part with String a "" => is_ascii_alphabetic a | _ => false end in
  negb is_windows_drive && negb (is_empty path_part) && looks_like_remote_host host_part.

Definition grpc_scheme (s : string) : option (bool * string) :=
  match strip_prefix "grpc://" s with
  | Some rest => Some (false, rest)
  | None =>
      match strip_prefix "grpcs://" s with
      | Some rest => Some (true, rest)
      | None =>
          match strip_prefix "http://" s with
          | Some rest => Some (false, rest)
          | None =>
              match strip_prefix "https://" s with
              | Some rest => Some (true, rest)
              | None => None
              end
          end
      end
  end.

Definition parse_grpc_parts (s : string) : option (string * string) :=
  let! (is_tls, rest) := grpc_scheme s in
  let '(host_port, db_path) :=
    match split_once "/" rest with Some (hp, path) => (hp, path) | None => (rest, "") end in
  if is_empty host_port then None else
  let scheme := if is_tls : bool then "https" else "http" in
  Some (scheme +++ "://" +++ host_port, trim_start_slashes db_path).

(** The three ways to read a remote location, in the order they are tried. *)
Definition bracketed_parts (s : string) : option (string * string) :=
  match split_at_str "]:" s with
  | Some (before, path) =>
      match before with
      | String "[" host =>
          if negb (is_empty host) && negb (is_empty path) then Some (host, path) else None
      | _ => None
      end
  | None => None
  end.

Definition bare_ip_parts (s : string) : option (string * string) :=
  match rsplit_once ":" s with
  | Some (host_part, path_part) =>
      if parses_as_ip host_part && is_remote_candidate host_part path_part
      then Some (host_part, path_part) else None
  | None => None
  end.

Definition host_path_parts (s : string) : option (string * string) :=
  match split_once ":" s with
  | Some (host_part, path_part) =>
      if is_remote_candidate host_part path_part then Some (host_part, path_part) else None
  | None => None
  end.

Definition parse_remote_parts (s : string) : option (string * string) :=
  match bracketed_parts s with
  | Some p => Some p
  | None => match bare_ip_parts s with
            | Some p => Some p
            | None => host_path_parts s
            end
  end.

Definition parse (s : string) : Endpoint :=
  match parse_grpc_parts s with
  | Some (url, database) => GrpcEndpoint url database
  | None =>
      match parse_remote_parts s with
      | Some (user_host, path) => RemoteEndpoint user_host path
      | None => LocalEndpoint s
      end
  end.

Definition is_remote (e : Endpoint) : bool :=
  match e with RemoteEndpoint _ _ | GrpcEndpoint _ _ => true | LocalEndpoint _ => false end.
Definition is_grpc (e : Endpoint) : bool :=
  match e with GrpcEndpoint _ _ => true | _ => false end.

(** The cases of the unit tests. *)
Example parse_cases :
  map parse ["grpcs://secure.leader.internal:443/tenant/db.sqlite"; "user@example.com:/data/o.db";
             "[fe80::1]:/data/db.sqlite"; "[]:/data/db.sqlite"; "fe80::1:/data/db.sqlite";
             "192.168.1.50:/data/a:b"; "somedir:file.db"; "d:/database.db"; ".hidden:path"] =
  [GrpcEndpoint "https://secure.leader.internal:443" "tenant/db.sqlite";
   RemoteEndpoint "user@example.com" "/data/o.db"; RemoteEndpoint "fe80::1" "/data/db.sqlite";
   LocalEndpoint "[]:/data/db.sqlite"; RemoteEndpoint "fe80::1" "/data/db.sqlite";
   RemoteEndpoint "192.168.1.50" "/data/a:b"; LocalEndpoint "somedir:file.db";
   LocalEndpoint "d:/database.db"; LocalEndpoint ".hidden:path"].
Proof. vm_compute. reflexivity. Qed.

(** ** What an address can be written with *)

Definition ip_char (a : ascii) : bool :=
  match hex_value a with Some _ => true | None => Ascii.eqb a ":" || Ascii.eqb a "." end.

(** [rest] is [s] without a prefix of address characters. *)
Definition consumes (s rest : string) : Prop :=
  exists pre, s = pre +++ rest /\ all_chars ip_char pre = true.

Lemma consumes_refl s : consumes s s.
Proof. by exists "". Qed.

Lemma consumes_trans a b c : consumes a b -> consumes b c -> consumes a c.
Proof.
  intros (p & -> & Hp) (q & -> & Hq). exists (p +++ q).
  by rewrite sapp_assoc, all_chars_app, Hp, Hq.
Qed.

Create HintDb endpoint.
#[local] Hint Resolve consumes_refl : endpoint.

Lemma strip_consumes p s r :
  all_chars ip_char p = true -> strip_prefix p s = Some r -> consumes s r.
Proof. intros Hp Hs. exists p. split; [by apply strip_prefix_Some|done]. Qed.

Lemma read_digits_consumes radix s : forall v n v' n' rest,
  read_digits radix s v n = (v', n', rest) -> consumes s rest.
Proof.
  induction s as [|a s IH]; intros v n v' n' rest; cbn; [intros [= _ _ <-]; auto with endpoint|].
  destruct (to_digit radix a) as [d|] eqn:Ed; [|intros [= _ _ <-]; auto with endpoint].
  intros Hr. apply IH in Hr as (pre & -> & Hp). exists (String a pre).
  unfold to_digit in Ed. cbn. unfold ip_char at 1. by destruct (hex_value a).
Qed.

Lemma read_number_consumes radix m z lim s rest :
  read_number radix m z lim s = Some rest -> consumes s rest.
Proof.
  unfold read_number. destruct (read_digits radix s 0 0) as [[v n] r] eqn:Er.
  repeat case_match; try done. intros [= <-]. by eapply read_digits_consumes.
Qed.

(** Peels one [let!] off a hypothesis. *)
Ltac peel H :=
  match type of H with
  | match ?o with Some _ => _ | None => _ end = Some _ =>
      let E := fresh "E" in destruct o eqn:E; [|done]
  end.

Lemma read_ipv4_consumes s rest : read_ipv4 s = Some rest -> consumes s rest.
Proof.
  unfold read_ipv4. intros H. repeat peel H.
  repeat match goal with
  | E : strip_prefix "." _ = Some _ |- _ => apply strip_consumes in E; [|done]
  | E : read_number _ _ _ _ _ = Some _ |- _ => apply read_number_consumes in E
  end.
  eauto 12 using consumes_trans.
Qed.

Lemma read_separator_consumes first inner s rest :
  (forall s r, inner s = Some r -> consumes s r) ->
  read_separator first inner s = Some rest -> consumes s rest.
Proof.
  intros Hi. unfold read_separator. destruct first; [apply Hi|]. intros H. peel H.
  eapply consumes_trans; [by apply (strip_consumes ":")|eauto].
Qed.

Lemma read_groups_consumes slots : forall first s n v4 rest,
  read_groups slots first s = (n, v4, rest) -> consumes s rest.
Proof.
  induction slots as [|k IH]; intros first s n v4 rest; cbn [read_groups];
    [intros [= _ _ <-]; auto with endpoint|].
  destruct (match k with O => None | S _ => _ end) as [r|] eqn:E4.
  { intros [= _ _ <-]. destruct k; [done|].
    eapply read_separator_consumes; [apply read_ipv4_consumes|done]. }
  destruct (read_separator first (read_number _ _ _ _) s) as [r|] eqn:En;
    [|intros [= _ _ <-]; auto with endpoint].
  destruct (read_groups k false r) as [[m w] r'] eqn:Eg. intros [= _ _ <-].
  eapply consumes_trans; [|by eapply IH].
  eapply read_separator_consumes; [apply read_number_consumes|done].
Qed.

Lemma parses_as_ip_chars s : parses_as_ip s = true -> all_chars ip_char s = true.
Proof.
  unfold parses_as_ip. intros H.
  assert (Hc : consumes s "").
  { destruct (read_ipv4 s) as [r|] eqn:E4; [destruct r; [by apply read_ipv4_consumes|done]|].
    destruct (read_ipv6 s) as [r|] eqn:E6; [|done]. destruct r; [|done].
    unfold read_ipv6 in E6. destruct (read_groups 8 true s) as [[hd v4] r] eqn:Eg.
    apply read_groups_consumes in Eg. destruct (Nat.eqb hd 8); [by injection E6 as ->|].
    destruct v4; [done|]. peel E6. destruct (read_groups _ true s0) as [[m w] r'] eqn:Et.
    injection E6 as ->. apply read_groups_consumes in Et. apply strip_consumes in E; [|done].
    eauto using consumes_trans. }
  destruct Hc as (pre & -> & Hp). by rewrite all_chars_app, Hp.
Qed.

Lemma not_ip c s : ip_char c = false -> contains_char c s = true -> parses_as_ip s = false.
Proof.
  intros Hc Hin. destruct (parses_as_ip s) eqn:E; [|done]. apply parses_as_ip_chars in E.
  unfold contains_char in Hin. rewrite (all_chars_impl ip_char) in Hin; [done| |done].
  intros a Ha. destruct (Ascii.eqb_spec a c) as [->|]; [by rewrite Hc in Ha|done].
Qed.

(** ** Splitting a location *)

Lemma contains_char_app c a b : contains_char c (a +++ b) = contains_char c a || contains_char c b.
Proof. unfold contains_char. by rewrite all_chars_app, negb_andb. Qed.

Lemma contains_char_false c s :
  contains_char c s = false -> all_chars (fun a => negb (Ascii.eqb a c)) s = true.
Proof. unfold contains_char. by destruct (all_chars _ s). Qed.

Lemma rsplit_once_app c h p :
  rsplit_once c (h +++ String c p) =
  Some match rsplit_once c p with
       | Some (x, y) => (h +++ String c x, y)
       | None => (h, p)
       end.
Proof.
  induction h as [|a h IH]; cbn.
  - destruct (rsplit_once c p) as [[x y]|]; [done|]. by rewrite Ascii.eqb_refl.
  - rewrite IH. by destruct (rsplit_once c p) as [[x y]|].
Qed.

(** A string whose first [:] follows [h] has no scheme but [h]. *)
Lemma scheme_is_host p h path :
  contains_char ":" h = false -> contains_char ":" p = false ->
  is_Some (strip_prefix (p +++ "://") (h +++ String ":" path)) -> h = p.
Proof.
  intros Hh Hp [r Hr]. apply strip_prefix_Some in Hr. rewrite sapp_assoc in Hr.
  assert (E : split_once ":" (h +++ String ":" path) = Some (p, "//" +++ r)).
  { rewrite Hr. apply split_once_app. by apply contains_char_false. }
  rewrite split_once_app in E by by apply contains_char_false. by injection E.
Qed.

Lemma no_scheme h path :
  contains_char ":" h = false -> h ∉ ["grpc"; "grpcs"; "http"; "https"] ->
  parse_grpc_parts (h +++ String ":" path) = None.
Proof.
  intros Hh Hn. unfold parse_grpc_parts.
  assert (Hs : forall p, contains_char ":" p = false -> p ∈ ["grpc"; "grpcs"; "http"; "https"] ->
    strip_prefix (p +++ "://") (h +++ String ":" path) = None).
  { intros p Hp Hin. destruct (strip_prefix _ _) eqn:E; [|done]. exfalso. apply Hn.
    rewrite (scheme_is_host p h path); [done|done|done|by eexists]. }
  assert (grpc_scheme (h +++ String ":" path) = None) as ->; [|done].
  unfold grpc_scheme.
  pose proof (Hs "grpc" eq_refl ltac:(set_solver)) as H1.
  pose proof (Hs "grpcs" eq_refl ltac:(set_solver)) as H2.
  pose proof (Hs "http" eq_refl ltac:(set_solver)) as H3.
  pose proof (Hs "https" eq_refl ltac:(set_solver)) as H4.
  cbn [String.append] in H1, H2, H3, H4. by rewrite H1, H2, H3, H4.
Qed.

Lemma split_at_str_Some p s x y : split_at_str p s = Some (x, y) -> s = x +++ p +++ y.
Proof.
  revert x y. induction s as [|a s IH]; intros x y; cbn [split_at_str];
    (destruct (strip_prefix p _) as [r|] eqn:E;
     [intros [= <- <-]; by apply strip_prefix_Some in E|]); [done|].
  destruct (split_at_str p s) as [[x' y']|]; [|done]. intros [= <- <-]. cbn. by rewrite <- IH.
Qed.

(** ** Claims *)

(** The characters of a host name or address: visible ASCII but [:], [/] and [\ ]. *)
Definition host_char (a : ascii) : bool :=
  ascii_solid a && negb (Ascii.eqb a ":") && negb (Ascii.eqb a "/") && negb (Ascii.eqb a "\").

Lemma host_chars_lack c h :
  host_char c = false -> all_chars host_char h = true -> contains_char c h = false.
Proof.
  intros Hc Hh. unfold contains_char. rewrite (all_chars_impl host_char); [done| |done].
  intros a Ha. destruct (Ascii.eqb_spec a c) as [->|]; [by rewrite Hc in Ha|done].
Qed.

Lemma host_chars_solid h : all_chars host_char h = true -> any_whitespace h = false.
Proof.
  induction h as [|a h IH]; [done|]. cbn [all_chars any_whitespace]. intros H.
  apply andb_true_iff in H as [Ha Hh]. unfold host_char in Ha.
  do 3 apply andb_true_iff in Ha as [Ha _]. unfold ascii_solid in Ha.
  apply andb_true_iff in Ha as [Hlt Hws]. apply negb_true_iff in Hws.
  rewrite Hws, (IH Hh), orb_false_r. destruct h as [|b [|c h]]; [done| |];
    rewrite ws2_ascii by lia; [done|]. by rewrite ws3_ascii by lia.
Qed.

(** A location [user@host:path] is read as that user and host and that path, whatever
    the path contains, further colons included. *)
Theorem ssh_location_round_trip user_host path :
  all_chars host_char user_host = true -> contains_char "@" user_host = true ->
  starts_with "." user_host = false -> starts_with "[" user_host = false -> path <> "" ->
  parse (user_host +++ ":" +++ path) = RemoteEndpoint user_host path.
Proof.
  intros Hh Hat Hdot Hbr Hp. unfold parse. cbn [String.append].
  rewrite no_scheme; cycle 1.
  { by apply host_chars_lack. }
  { intros Hin. repeat (apply elem_of_cons in Hin as [->|Hin]; [done|]). by apply elem_of_nil in Hin. }
  assert (Hcand : is_remote_candidate user_host path = true).
  { unfold is_remote_candidate, looks_like_remote_host.
    rewrite Hdot, Hat, host_chars_solid, (host_chars_lack "/"), (host_chars_lack "\") by done.
    destruct path; [done|]. destruct user_host as [|x [|y u]]; [done| |done]. unfold contains_char in Hat.
    cbn in Hat. rewrite andb_true_r, negb_involutive in Hat. by apply Ascii.eqb_eq in Hat as ->. }
  unfold parse_remote_parts.
  assert (bracketed_parts (user_host +++ String ":" path) = None) as ->.
  { unfold bracketed_parts. destruct (split_at_str _ _) as [[before p']|] eqn:E; [|done].
    apply split_at_str_Some in E. destruct user_host as [|a u]; [done|].
    destruct before as [|b before]; [done|]. injection E as <- _.
    by destruct a as [[] [] [] [] [] [] [] []]. }
  assert (bare_ip_parts (user_host +++ String ":" path) = None) as ->.
  { unfold bare_ip_parts. rewrite rsplit_once_app.
    destruct (rsplit_once ":" path) as [[x y]|];
      rewrite (not_ip "@"); rewrite ?contains_char_app, ?Hat; done. }
  unfold host_path_parts. rewrite split_once_app; [by rewrite Hcand|].
  apply contains_char_false. by apply host_chars_lack.
Qed.

Lemma split_once_first c a s x y :
  Ascii.eqb a c = false -> split_once c (String a s) = Some (x, y) -> exists x', x = String a x'.
Proof.
  intros Ha. cbn. rewrite Ha. destruct (split_once c s) as [[x' y']|]; [|done].
  intros [= <- _]. by eexists.
Qed.

Lemma rsplit_once_first c a s x y :
  Ascii.eqb a c = false -> rsplit_once c (String a s) = Some (x, y) -> exists x', x = String a x'.
Proof.
  intros Ha. cbn. rewrite Ha. destruct (rsplit_once c s) as [[x' y']|]; [|done].
  intros [= <- _]. by eexists.
Qed.

(** A path that starts with [/] or [.] is local, whatever follows: it never reaches ssh
    or the network. *)
Theorem explicit_path_is_local a s :
  a = "/"%char \/ a = "."%char -> parse (String a s) = LocalEndpoint (String a s).
Proof.
  intros Ha.
  assert (Hno : forall x y, is_remote_candidate (String a x) y = false).
  { intros x y. unfold is_remote_candidate, looks_like_remote_host.
    destruct Ha as [-> | ->]; cbn; by rewrite ?orb_true_r, ?andb_false_r. }
  assert (Hg : parse_grpc_parts (String a s) = None) by (by destruct Ha as [-> | ->]).
  unfold parse. rewrite Hg. unfold parse_remote_parts.
  assert (bracketed_parts (String a s) = None) as ->.
  { unfold bracketed_parts. destruct (split_at_str _ _) as [[b p]|] eqn:E; [|done].
    apply split_at_str_Some in E. destruct b as [|c b]; [done|]. injection E as <- _.
    by destruct Ha as [-> | ->]. }
  assert (bare_ip_parts (String a s) = None) as ->.
  { unfold bare_ip_parts. destruct (rsplit_once _ _) as [[x y]|] eqn:E; [|done].
    apply rsplit_once_first in E as [x' ->]; [|by destruct Ha as [-> | ->]].
    by rewrite Hno, andb_false_r. }
  unfold host_path_parts. destruct (split_once _ _) as [[x y]|] eqn:E; [|done].
  apply split_once_first in E as [x' ->]; [|by destruct Ha as [-> | ->]]. by rewrite Hno.
Qed.

Lemma ssh_location_round_trip_witness :
  parse "ops@db.example:/srv/a:b.db" = RemoteEndpoint "ops@db.example" "/srv/a:b.db".
Proof. apply (ssh_location_round_trip "ops@db.example" "/srv/a:b.db"); done. Defined.

Lemma explicit_path_is_local_witness :
  parse "./user@host.example:x.db" = LocalEndpoint "./user@host.example:x.db".
Proof. apply (explicit_path_is_local "."%char "/user@host.example:x.db"). by right. Defined.
