(* ===== verification/RustText.v ===== *)
(** * More of the Rust standard library: case mapping, words, signed integers, hexadecimal

    The string methods that only the command-line client calls. *)

From S2P Require Import Prelude RustStr Errors Endpoint.

(** ** Unicode case mapping

    [str::to_uppercase] on UTF-8, exact where the result has ASCII letters: the
    table holds every non-ASCII character whose uppercase form contains one.  The
    other non-ASCII characters keep their bytes: they map to characters without an
    ASCII letter, and the program only compares the result with ASCII words. *)
Definition bytes_str (l : list N) : string :=
  fold_right (fun n s => String (ascii_of_N n) s) "" l.

Definition special_upper : list (string * string) :=
  [ (bytes_str [195; 159]%N, "SS");                               (* U+00DF *)
    (bytes_str [196; 177]%N, "I");                                (* U+0131 *)
    (bytes_str [197; 137]%N, bytes_str [202; 188; 78]%N);         (* U+0149 *)
    (bytes_str [197; 191]%N, "S");                                (* U+017F *)
    (bytes_str [199; 176]%N, bytes_str [74; 204; 140]%N);         (* U+01F0 *)
    (bytes_str [225; 186; 150]%N, bytes_str [72; 204; 177]%N);    (* U+1E96 *)
    (bytes_str [225; 186; 151]%N, bytes_str [84; 204; 136]%N);    (* U+1E97 *)
    (bytes_str [225; 186; 152]%N, bytes_str [87; 204; 138]%N);    (* U+1E98 *)
    (bytes_str [225; 186; 153]%N, bytes_str [89; 204; 138]%N);    (* U+1E99 *)
    (bytes_str [225; 186; 154]%N, bytes_str [65; 202; 190]%N);    (* U+1E9A *)
    (bytes_str [239; 172; 128]%N, "FF");                          (* U+FB00 *)
    (bytes_str [239; 172; 129]%N, "FI");
    (bytes_str [239; 172; 130]%N, "FL");
    (bytes_str [239; 172; 131]%N, "FFI");
    (bytes_str [239; 172; 132]%N, "FFL");
    (bytes_str [239; 172; 133]%N, "ST");
    (bytes_str [239; 172; 134]%N, "ST") ].

(** [str::to_lowercase], in the same sense. *)
Definition special_lower : list (string * string) :=
  [ (bytes_str [196; 176]%N, bytes_str [105; 204; 135]%N);        (* U+0130 *)
    (bytes_str [226; 132; 170]%N, "k") ].                         (* U+212A *)

Fixpoint lookup_special (table : list (string * string)) (s : string) : option (string * nat) :=
  match table with
  | [] => None
  | (from, to) :: table =>
      if starts_with from s then Some (to, String.length from) else lookup_special table s
  end.

(** [skip] counts the bytes of a replaced character still to pass over. *)
Fixpoint case_map (f : ascii -> ascii) (table : list (string * string)) (skip : nat) (s : string)
  : string :=
  match s with
  | "" => ""
  | String a r =>
      match skip with
      | S skip => case_map f table skip r
      | O =>
          match (if code a <? 128 then None else lookup_special table s) with
          | Some (to, n) => to +++ case_map f table (pred n) r
          | None => String (f a) (case_map f table 0 r)
          end
      end
  end.

Definition to_uppercase (s : string) : string := case_map to_ascii_upper special_upper 0 s.
Definition to_lowercase (s : string) : string := case_map to_ascii_lower special_lower 0 s.

(** ** [str::split_whitespace] *)

Definition push_word (cur : string) (ws : list string) : list string :=
  if is_empty cur then ws else cur :: ws.

Fixpoint split_whitespace_go (cur s : string) : list string :=
  match s with
  | "" => push_word cur []
  | String a r1 =>
      if ascii_ws a then push_word cur (split_whitespace_go "" r1) else
      match r1 with
      | String b r2 =>
          if ws2 a b then push_word cur (split_whitespace_go "" r2) else
          match r2 with
          | String c r3 =>
              if ws3 a b c then push_word cur (split_whitespace_go "" r3)
              else split_whitespace_go (cur +++ String a "") r1
          | "" => split_whitespace_go (cur +++ String a "") r1
          end
      | "" => split_whitespace_go (cur +++ String a "") r1
      end
  end.
Definition split_whitespace (s : string) : list string := split_whitespace_go "" s.

Definition strip_suffix (p s : string) : option string :=
  option_map srev (strip_prefix (srev p) (srev s)).

(** [s.replace(c, to)]. *)
Fixpoint replace_char (c : ascii) (to s : string) : string :=
  match s with
  | "" => ""
  | String a r => (if Ascii.eqb a c then to else String a "") +++ replace_char c to r
  end.

(** ** [parse::<i64>] *)
Definition I64_MIN : Z := - 2 ^ 63.
Definition I64_MAX : Z := 2 ^ 63 - 1.

Definition parse_i64 (s : string) : option Z :=
  match s with
  | String "-" r => if is_empty r then None else option_map Z.opp (parse_digits (2 ^ 63) r 0)
  | _ => parse_unsigned I64_MAX s
  end.

(** ** Hexadecimal *)

(** A nibble of [{:02x}]. *)
Definition hex_digit (n : Z) : ascii :=
  ascii_of_N (Z.to_N (if n <? 10 then 48 + n else 87 + n)).

Definition is_ascii_hexdigit (a : ascii) : bool :=
  match hex_value a with Some _ => true | None => false end.

(** [u8::from_str_radix(_, 16)] of two digits. *)
Definition hex_pair (a b : ascii) : option Z :=
  match hex_value a, hex_value b with
  | Some x, Some y => Some (16 * x + y)
  | _, _ => None
  end.

(** ** Lemmas *)

Lemma digit_first n : 0 <= n -> exists a r, show_Z n = String a r /\ is_digit a = true.
Proof.
  intros Hn. pose proof (show_Z_digits n Hn) as Hd.
  destruct (show_Z n) as [|a r] eqn:E; [by apply show_Z_nonempty in E|].
  cbn in Hd. apply andb_true_iff in Hd as [? _]. by exists a, r.
Qed.

Lemma parse_i64_show i : I64_MIN <= i <= I64_MAX -> parse_i64 (show_int i) = Some i.
Proof.
  unfold I64_MIN, I64_MAX. intros Hi. unfold show_int. case_test.
  - change ("-" +++ show_Z (- i)) with (String "-" (show_Z (- i))). cbn [parse_i64].
    rewrite parse_digits_show_Z by lia.
    destruct (digit_first (- i) ltac:(lia)) as (a & r & -> & _). cbn. f_equal. lia.
  - destruct (digit_first i ltac:(lia)) as (a & r & E & Ha).
    pose proof (parse_show_Z (2 ^ 63 - 1) i ltac:(lia)) as Hp. rewrite E in *.
    apply digit_not_sign in Ha as [_ Ha]. unfold parse_i64.
    destruct (ascii_dec a "-") as [->|Hne]; [done|].
    destruct a as [[] [] [] [] [] [] [] []]; try done.
Qed.

Lemma hex_value_digit n : 0 <= n < 16 -> hex_value (hex_digit n) = Some n.
Proof.
  intros Hn. assert (Hc : n ∈ seqZ 0 16) by (apply elem_of_seqZ; lia).
  clear Hn. revert n Hc. apply Forall_forall. vm_compute. repeat constructor.
Qed.

Lemma strip_suffix_app s p : strip_suffix p (s +++ p) = Some s.
Proof. unfold strip_suffix. rewrite srev_app, strip_prefix_app. cbn. by rewrite srev_srev. Qed.
