(* ===== verification/CliText.v ===== *)
(** * Texts of the command-line client (src/src/cli/client.rs)

    Parameters and literals, splitting of scripts, classification of statements, and
    the output formats.  Printing is the list of lines printed; parsing and
    printing of floating-point values and of elapsed times are parameters. *)

From S2P Require Import Prelude RustStr Errors KvText Endpoint RustText Engine.

(** ** Literals *)

Definition hex_encode (data : bytes) : string :=
  fold_right (fun b s => String (hex_digit (b / 16)) (String (hex_digit (b mod 16)) s)) "" data.

Section Literals.
Variable show_f64 : Z -> string.
Variable parse_f64 : string -> option Z.

Definition blob_literal (b : bytes) : string := "x'" +++ hex_encode b +++ "'".

Definition format_sql_value (val : SqlValue) : string :=
  match val with
  | SqlNull => "NULL"
  | SqlInteger i => show_int i
  | SqlFloat f => show_f64 f
  | SqlText t => t
  | SqlBlob b => blob_literal b
  end.

(** The loop over the pairs of digits; an odd digit left over is an out-of-range slice,
    which the caller has ruled out. *)
Fixpoint decode_hex (s hex : string) : SyncResult bytes :=
  match hex with
  | "" => Ok []
  | String a (String b r) =>
      let? byte :=
        ok_or (hex_pair a b)
          (Protocol ("invalid hex blob literal '" +++ s +++ "': non-hex digit in '" +++
                     String a (String b "") +++ "'")) in
      let? rest := decode_hex s r in Ok (byte :: rest)
  | String a "" => Ok []
  end.

Definition parse_blob (s hex : string) : SyncResult ProtoValue :=
  if negb (all_chars is_ascii_hexdigit hex) then
    Err (Protocol ("invalid hex blob literal '" +++ s +++ "': contains non-hex characters"))
  else if negb (Nat.even (String.length hex)) then
    Err (Protocol ("invalid hex blob literal '" +++ s +++ "': odd number of hex digits"))
  else let? b := decode_hex s hex in Ok (Some (BlobValue b)).

Definition parse_string_to_value (s : string) : SyncResult ProtoValue :=
  if eq_ignore_ascii_case s "null" then Ok (Some (NullValue true)) else
  match parse_i64 s with
  | Some i => Ok (Some (IntValue i))
  | None =>
      match parse_f64 s with
      | Some f => Ok (Some (FloatValue f))
      | None =>
          match (match strip_prefix "x'" s with Some h => strip_suffix "'" h | None => None end) with
          | Some hex => parse_blob s hex
          | None => Ok (Some (TextValue s))
          end
      end
  end.

(** [Parameters]: positional and named. *)
Record Parameters := mk_parameters {
  p_positional : list ProtoValue;
  p_named : list (string * option ProtoValue);
}.

Fixpoint parse_params (raw_params : list string) (acc : Parameters) : SyncResult Parameters :=
  match raw_params with
  | [] => Ok acc
  | p :: rest =>
      match split_once "=" p with
      | Some (k, v) =>
          let? x := parse_string_to_value (trim v) in
          parse_params rest (mk_parameters (p_positional acc) (p_named acc ++ [(trim k, Some x)]))
      | None =>
          let? x := parse_string_to_value (trim p) in
          parse_params rest (mk_parameters (p_positional acc ++ [x]) (p_named acc))
      end
  end.

Definition parse_cli_parameters (raw_params : list string) : SyncResult (option Parameters) :=
  match raw_params with
  | [] => Ok None
  | _ => let? ps := parse_params raw_params (mk_parameters [] []) in Ok (Some ps)
  end.
End Literals.

(** ** Scripts *)

Definition SQUOTE : ascii := "'"%char.

Record Quotes := mk_quotes { in_single_quote : bool; in_double_quote : bool }.
Definition outside : Quotes := mk_quotes false false.

Definition bare_statement (s : string) : Statement := mk_statement s [] [] false.

(** The statement in [current], unless it is blank. *)
Definition push_statement (current : string) (stmts : list Statement) : list Statement :=
  let trimmed := trim current in
  if is_empty trimmed then stmts else bare_statement trimmed :: stmts.

Definition next_quotes (q : Quotes) (ch : ascii) : Quotes :=
  if Ascii.eqb ch SQUOTE && negb (in_double_quote q)
  then mk_quotes (negb (in_single_quote q)) (in_double_quote q)
  else if Ascii.eqb ch DQUOTE && negb (in_single_quote q)
  then mk_quotes (in_single_quote q) (negb (in_double_quote q))
  else q.

(** A semicolon that ends a statement. *)
Definition ends_statement (q : Quotes) (ch : ascii) : bool :=
  Ascii.eqb ch ";" && negb (in_single_quote q) && negb (in_double_quote q).

Fixpoint split_sql_go (q : Quotes) (current sql : string) : list Statement :=
  match sql with
  | "" => push_statement current []
  | String ch r =>
      if ends_statement q ch then push_statement current (split_sql_go q "" r)
      else split_sql_go (next_quotes q ch) (current +++ String ch "") r
  end.

Definition split_sql_statements (sql : string) : list Statement := split_sql_go outside "" sql.

Definition is_query_sql (sql : string) : bool :=
  let s := to_uppercase (trim sql) in
  starts_with "SELECT" s || starts_with "PRAGMA" s || starts_with "EXPLAIN" s || starts_with "WITH" s.

(** ** Output formats *)

Inductive OutputFormat := Table | Json | Csv | Tsv | Raw.

Definition show_format (f : OutputFormat) : string :=
  match f with Table => "Table" | Json => "Json" | Csv => "Csv" | Tsv => "Tsv" | Raw => "Raw" end.

(** A cell of a table and its colour. *)
Inductive Color := Cyan | DarkGrey | Plain.
Record Cell := mk_cell { cell_text : string; cell_color : Color }.

Inductive JsonValue :=
| JNull
| JBool (b : bool)
| JInt (i : Z)
| JFloat (bits : Z)
| JString (s : string).

(** What a command prints. *)
Inductive Output :=
| Line (s : string)                                       (* println! *)
| ErrLine (s : string)                                    (* eprintln! *)
| Grid (header : list Cell) (rows : list (list Cell))     (* a comfy-table *)
| JsonArray (rows : list (gmap string JsonValue))         (* to_string_pretty *)
| JsonStatus (fields : gmap string JsonValue) (databases : list (gmap string JsonValue)).

(** ** Sizes *)

(** A quotient of naturals, rounded to the nearest integer, ties to even. *)
Definition round_half_even (num den : Z) : Z :=
  let q := num / den in
  let twice := 2 * (num mod den) in
  if twice <? den then q else if den <? twice then q + 1 else if Z.even q then q else q + 1.

(** [u64 as f64]: exact below [2^53], otherwise rounded to 53 significant bits. *)
Definition u64_as_f64 (n : Z) : Z :=
  let excess := Z.log2 n - 52 in
  if excess <=? 0 then n else round_half_even n (2 ^ excess) * 2 ^ excess.

(** [{:.decimals}] of the exact quotient of a natural by a power of two. *)
Definition show_fixed (decimals : nat) (num den : Z) : string :=
  let scale := 10 ^ Z.of_nat decimals in
  let r := round_half_even (num * scale) den in
  let frac := show_Z (r mod scale) in
  show_Z (r / scale) +++ "." +++
  Nat.iter (decimals - String.length frac) (String "0"%char) frac.

Definition format_bytes (n : Z) : string :=
  let kb := 2 ^ 10 in let mb := 2 ^ 20 in let gb := 2 ^ 30 in
  if n <? kb then show_Z n +++ " B"
  else if n <? mb then show_fixed 1 (u64_as_f64 n) kb +++ " KB"
  else if n <? gb then show_fixed 1 (u64_as_f64 n) mb +++ " MB"
  else show_fixed 2 (u64_as_f64 n) gb +++ " GB".

Example format_bytes_sizes :
  map format_bytes [500; 2048; 5 * 2 ^ 20; 3 * 2 ^ 30; 1075; 2 ^ 20 - 1]
  = ["500 B"; "2.0 KB"; "5.0 MB"; "3.00 GB"; "1.0 KB"; "1024.0 KB"].
Proof. vm_compute. reflexivity. Qed.

Section Printing.
Variable show_f64 : Z -> string.
Variable is_finite : Z -> bool.

Definition csv_special (s : string) : bool :=
  contains_char "," s || contains_char DQUOTE s || contains_char NL s.

Definition csv_quote (s : string) : string :=
  String DQUOTE "" +++ replace_char DQUOTE (String DQUOTE (String DQUOTE "")) s +++ String DQUOTE "".

Definition delimited_field (delimiter : ascii) (v : ProtoValue) : string :=
  match proto_value_to_sql v with
  | SqlNull => ""
  | sql_value =>
      let s := format_sql_value show_f64 sql_value in
      if Ascii.eqb delimiter "," && csv_special s then csv_quote s else s
  end.

Definition delimited_row (delimiter : ascii) (row : Row) : string :=
  String.concat (String delimiter "") (map (delimited_field delimiter) row).

Definition print_delimited (resp : QueryResponse) (delimiter : ascii) : list Output :=
  Line (String.concat (String delimiter "") (map col_name (q_columns resp))) ::
  map (fun row => Line (delimited_row delimiter row)) (q_rows resp).

Definition sql_value_to_json (val : SqlValue) : JsonValue :=
  match val with
  | SqlNull => JNull
  | SqlInteger i => JInt i
  | SqlFloat f => if is_finite f then JFloat f else JNull
  | SqlText t => JString t
  | SqlBlob b => JString (blob_literal b)
  end.

(** [serde_json::Map::insert] replaces: of columns with one name the last one counts. *)
Fixpoint json_row (columns : list ColumnHeader) (i : Z) (values : Row)
    (obj : gmap string JsonValue) : gmap string JsonValue :=
  match values with
  | [] => obj
  | v :: values =>
      let col_name :=
        match columns with c :: _ => col_name c | [] => "col_" +++ show_Z i end in
      json_row (tail columns) (i + 1) values
        (<[col_name := sql_value_to_json (proto_value_to_sql v)]> obj)
  end.

Definition print_json (resp : QueryResponse) : list Output :=
  [JsonArray (map (fun row => json_row (q_columns resp) 0 row ∅) (q_rows resp))].

Definition header_cell (col : ColumnHeader) : Cell :=
  mk_cell (if is_empty (declared_type col) then col_name col
           else col_name col +++ nl +++ "(" +++ declared_type col +++ ")") Cyan.

Definition value_cell (v : ProtoValue) : Cell :=
  match proto_value_to_sql v with
  | SqlNull => mk_cell "NULL" DarkGrey
  | sql_value => mk_cell (format_sql_value show_f64 sql_value) Plain
  end.

(** [elapsed] is the time in milliseconds, printed with two decimals. *)
Definition print_table (elapsed : string) (resp : QueryResponse) : list Output :=
  [ Grid (map header_cell (q_columns resp)) (map (map value_cell) (q_rows resp));
    Line ("(" +++ show_Z (q_total_rows resp) +++ " " +++
          (if q_total_rows resp =? 1 then "row" else "rows") +++ " in " +++ elapsed +++ " ms)") ].

Definition print_query_response (elapsed : string) (resp : QueryResponse) (format : OutputFormat)
  : list Output :=
  match format with
  | Table => print_table elapsed resp
  | Json => print_json resp
  | Csv => print_delimited resp ","
  | Tsv => print_delimited resp TAB
  | Raw => print_delimited resp " "
  end.

Definition print_execute_response (elapsed : string) (resp : ExecuteResponse) : list Output :=
  [Line ("Query executed in " +++ elapsed +++ " ms. Rows affected: " +++ show_int (rows_affected resp) +++
         ", Last Insert RowID: " +++ show_int (last_insert_rowid resp) +++
         " (Generation: " +++ show_Z (e_generation resp) +++ ")")].

Fixpoint batch_errors (idx : Z) (rs : list StatementResult) : list Output :=
  match rs with
  | [] => []
  | Ok _ :: rs => batch_errors (idx + 1) rs
  | Err e :: rs =>
      (if is_empty e then [] else [ErrLine ("Statement " +++ show_Z (idx + 1) +++ ": " +++ e)]) ++
      batch_errors (idx + 1) rs
  end.

Definition print_batch_response (elapsed : string) (resp : BatchResponse) : list Output :=
  Line ("Batch transaction " +++ (if committed resp then "COMMITTED" else "FAILED") +++ " in " +++
        elapsed +++ " ms. Statements executed: " +++ show_Z (zlen (results resp)) +++
        " (Generation: " +++ show_Z (b_generation resp) +++ ")") ::
  batch_errors 0 (results resp).
End Printing.

(** ** Literals read back *)

Lemma nibbles x : is_u8 x -> 0 <= x / 16 < 16 /\ 0 <= x mod 16 < 16.
Proof.
  unfold is_u8. change (2 ^ 8) with 256. intros Hx.
  split; [|apply Z.mod_pos_bound; lia].
  split; [apply Z.div_pos; lia|apply Z.div_lt_upper_bound; lia].
Qed.

Lemma all_hexdigits b : Forall is_u8 b -> all_chars is_ascii_hexdigit (hex_encode b) = true.
Proof.
  induction 1 as [|x b Hx _ IH]; [done|]. apply nibbles in Hx as [Hd Hm].
  cbn [hex_encode fold_right all_chars]. unfold is_ascii_hexdigit at 1 2.
  rewrite !hex_value_digit by done. exact IH.
Qed.

Lemma hex_encode_even b : Nat.even (String.length (hex_encode b)) = true.
Proof. induction b as [|x b IH]; [done|]. exact IH. Qed.

Lemma decode_encode s b : Forall is_u8 b -> decode_hex s (hex_encode b) = Ok b.
Proof.
  induction 1 as [|x b Hx _ IH]; [done|]. apply nibbles in Hx as [Hd Hm].
  cbn [hex_encode fold_right decode_hex]. unfold hex_pair.
  rewrite !hex_value_digit by done. cbn [ok_or].
  change (fold_right _ "" b) with (hex_encode b). rewrite IH.
  do 2 f_equal. rewrite (Z.div_mod x 16) at 3 by lia. done.
Qed.

(** A value that text can carry: integers of 64 bits, bytes, and texts without blanks around
    them that are not literals of another type. *)
Definition printable (parse_f64 : string -> option Z) (v : SqlValue) : Prop :=
  match v with
  | SqlNull => True
  | SqlInteger i => I64_MIN <= i <= I64_MAX
  | SqlBlob b => Forall is_u8 b
  | SqlText t => trim t = t /\ eq_ignore_ascii_case t "null" = false /\ parse_i64 t = None /\
                 parse_f64 t = None /\ strip_prefix "x'" t = None
  | SqlFloat _ => False
  end.

(** An argument of the client: a value, or a name and a value. *)
Inductive CliArg := PositionalArg (v : SqlValue) | NamedArg (name : string) (v : SqlValue).

Definition arg_text (show_f64 : Z -> string) (a : CliArg) : string :=
  match a with
  | PositionalArg v => format_sql_value show_f64 v
  | NamedArg name v => name +++ String "=" (format_sql_value show_f64 v)
  end.

(** A positional text has no [=], and no more has a name. *)
Definition arg_ok (parse_f64 : string -> option Z) (a : CliArg) : Prop :=
  match a with
  | PositionalArg v => printable parse_f64 v /\ (forall t, v = SqlText t -> no_char "=" t = true)
  | NamedArg name v => printable parse_f64 v /\ trim name = name /\ no_char "=" name = true
  end.

Definition positional_value (a : CliArg) : option ProtoValue :=
  match a with PositionalArg v => Some (sql_value_to_proto v) | NamedArg _ _ => None end.
Definition named_value (a : CliArg) : option (string * option ProtoValue) :=
  match a with PositionalArg _ => None | NamedArg name v => Some (name, Some (sql_value_to_proto v)) end.

Lemma show_int_not_null i : eq_ignore_ascii_case (show_int i) "null" = false.
Proof.
  unfold show_int. destruct (i <? 0) eqn:E.
  { by change ("-" +++ show_Z (- i)) with (String "-" (show_Z (- i))). }
  zbool. destruct (digit_first i E) as (a & r & -> & Ha).
  by destruct a as [[] [] [] [] [] [] [] []].
Qed.

Lemma printed_value show_f64 parse_f64 v :
  (forall r, parse_f64 (String "x" r) = None) -> printable parse_f64 v ->
  parse_string_to_value parse_f64 (format_sql_value show_f64 v) = Ok (sql_value_to_proto v).
Proof.
  intros Hx Hv. destruct v as [|i|f|t|b]; cbn [printable format_sql_value sql_value_to_proto] in *.
  - done.
  - unfold parse_string_to_value. by rewrite show_int_not_null, parse_i64_show.
  - done.
  - destruct Hv as (_ & Hn & Hi & Hf & Hp). unfold parse_string_to_value. by rewrite Hn, Hi, Hf, Hp.
  - unfold blob_literal, parse_string_to_value.
    change ("x'" +++ hex_encode b +++ "'") with (String "x" (String "'" (hex_encode b +++ "'"))).
    set (r := hex_encode b +++ "'").
    assert (eq_ignore_ascii_case (String "x" (String "'" r)) "null" = false) as -> by reflexivity.
    assert (parse_i64 (String "x" (String "'" r)) = None) as -> by reflexivity.
    assert (strip_prefix "x'" (String "x" (String "'" r)) = Some r) as -> by reflexivity.
    rewrite Hx. subst r. rewrite strip_suffix_app. unfold parse_blob.
    rewrite all_hexdigits, hex_encode_even, decode_encode by done. done.
Qed.

(** Integers and blobs are printed without blanks and without [=]. *)
Definition key_char (a : ascii) : bool := ascii_solid a && negb (Ascii.eqb a "=").

Lemma digit_key a : is_digit a = true -> key_char a = true.
Proof. intros Ha. unfold key_char. by rewrite digit_solid, digit_neq. Qed.

Lemma hexdigit_key a : is_ascii_hexdigit a = true -> key_char a = true.
Proof. destruct a as [[] [] [] [] [] [] [] []]; vm_compute; congruence. Qed.

Lemma show_int_key i : key_ok (show_int i) = true.
Proof.
  unfold key_ok, show_int. change (fun a => ascii_solid a && negb (Ascii.eqb a "=")) with key_char.
  destruct (i <? 0) eqn:E; zbool.
  - change ("-" +++ show_Z (- i)) with (String "-" (show_Z (- i))). cbn [is_empty negb all_chars andb].
    change (key_char "-") with true. cbn [andb].
    eapply all_chars_impl; [apply digit_key|]. apply show_Z_digits. lia.
  - rewrite (all_chars_impl is_digit key_char) by (auto using digit_key, show_Z_digits).
    destruct (digit_first i E) as (a & r & -> & _). done.
Qed.

Lemma blob_key b : Forall is_u8 b -> key_ok (blob_literal b) = true.
Proof.
  intros Hb. unfold key_ok, blob_literal. change (fun a => ascii_solid a && negb (Ascii.eqb a "=")) with key_char.
  change ("x'" +++ hex_encode b +++ "'") with (String "x" (String "'" (hex_encode b +++ "'"))).
  cbn [is_empty negb all_chars andb]. change (key_char "x") with true. change (key_char "'") with true. cbn [andb].
  rewrite all_chars_app. rewrite (all_chars_impl is_ascii_hexdigit key_char) by (auto using hexdigit_key, all_hexdigits).
  done.
Qed.

(** The text of a value is not trimmed, and has no [=] unless it is a text. *)
Lemma printed_trimmed show_f64 parse_f64 v : printable parse_f64 v ->
  trim (format_sql_value show_f64 v) = format_sql_value show_f64 v /\
  ((forall t, v = SqlText t -> no_char "=" t = true) -> no_char "=" (format_sql_value show_f64 v) = true).
Proof.
  assert (Hk : forall k, key_ok k = true -> trim k = k /\ no_char "=" k = true).
  { intros k Hk. split; [by apply key_trim|]. by destruct (key_chars k Hk) as (_ & ? & _). }
  intros Hv. destruct v as [|i|f|t|b]; cbn [printable format_sql_value] in *.
  - by destruct (Hk "NULL" eq_refl).
  - by destruct (Hk _ (show_int_key i)).
  - done.
  - destruct Hv as [Ht _]. auto.
  - by destruct (Hk _ (blob_key b Hv)).
Qed.

Lemma split_once_none c s : no_char c s = true -> split_once c s = None.
Proof.
  intros Hs. destruct (split_once c s) as [[k v]|] eqn:E; [|done].
  apply split_once_Some in E as [-> _]. unfold no_char in Hs. rewrite all_chars_app in Hs. cbn in Hs.
  by rewrite Ascii.eqb_refl, andb_false_r in Hs.
Qed.

Lemma parse_params_args show_f64 parse_f64 args : forall acc,
  (forall r, parse_f64 (String "x" r) = None) -> Forall (arg_ok parse_f64) args ->
  parse_params parse_f64 (map (arg_text show_f64) args) acc =
  Ok (mk_parameters (p_positional acc ++ omap positional_value args) (p_named acc ++ omap named_value args)).
Proof.
  induction args as [|a args IH]; intros acc Hx Ha; cbn [map parse_params].
  { cbn. rewrite !app_nil_r. by destruct acc. }
  apply Forall_cons in Ha as [Ha Hargs]. destruct a as [v|name v]; cbn [arg_text arg_ok] in *.
  - destruct Ha as [Hv Ht]. destruct (printed_trimmed show_f64 parse_f64 v Hv) as [Htr Hno].
    rewrite split_once_none, Htr, printed_value by auto. cbn -[app]. rewrite IH by done. cbn. by rewrite <- app_assoc.
  - destruct Ha as (Hv & Hn & Hno). destruct (printed_trimmed show_f64 parse_f64 v Hv) as [Htr _].
    rewrite split_once_app, Htr, printed_value, Hn by auto. cbn -[app]. rewrite IH by done. cbn. by rewrite <- app_assoc.
Qed.

(** C33. Values that are given to the client as it prints them arrive unchanged, in their order and
    under their names: null, every 64-bit integer, every blob, and every text that has no
    blanks around it, does not itself read as another literal and, unless it follows a name,
    contains no [=]. *)
Theorem literal_round_trip show_f64 parse_f64 args :
  (forall r, parse_f64 (String "x" r) = None) -> args <> [] -> Forall (arg_ok parse_f64) args ->
  parse_cli_parameters parse_f64 (map (arg_text show_f64) args) =
  Ok (Some (mk_parameters (omap positional_value args) (omap named_value args))).
Proof.
  intros Hx Hne Ha. unfold parse_cli_parameters. rewrite (parse_params_args show_f64) by done.
  by destruct args.
Qed.

Lemma literal_round_trip_witness :
  parse_cli_parameters (fun _ => None) ["x'00abff'"; "k=a=b"; "-7"]
  = Ok (Some (mk_parameters [Some (BlobValue [0; 171; 255]); Some (IntValue (-7))]
                            [("k", Some (Some (TextValue "a=b")))])).
Proof.
  apply (literal_round_trip (fun _ => "") (fun _ => None)
           [PositionalArg (SqlBlob [0; 171; 255]); NamedArg "k" (SqlText "a=b"); PositionalArg (SqlInteger (-7))]);
    [done|done|].
  repeat constructor; cbn; try done; unfold is_u8; try lia; by intros.
Defined.

(** A positional text with [=] is taken for a name and a value. *)
Example equals_names_a_parameter :
  parse_cli_parameters (fun _ => None) ["a=b"] = Ok (Some (mk_parameters [] [("a", Some (Some (TextValue "b")))])).
Proof. reflexivity. Qed.

(** ** Scripts split and joined *)

(** The quotes after [s], if no statement ends inside it. *)
Fixpoint scan (q : Quotes) (s : string) : option Quotes :=
  match s with
  | "" => Some q
  | String ch r => if ends_statement q ch then None else scan (next_quotes q ch) r
  end.

(** A statement as SQL is written: plain text, string literals and quoted identifiers.  (A quote
    inside a literal is doubled: such a literal is two of these pieces, one after the other.) *)
Inductive piece :=
| Plain_text (s : string)
| String_literal (s : string)
| Quoted_name (s : string).

Definition piece_text (p : piece) : string :=
  match p with
  | Plain_text s => s
  | String_literal s => "'" +++ s +++ "'"
  | Quoted_name s => String DQUOTE "" +++ s +++ String DQUOTE ""
  end.

Definition piece_ok (p : piece) : Prop :=
  match p with
  | Plain_text s => no_char SQUOTE s = true /\ no_char DQUOTE s = true /\ no_char ";" s = true
  | String_literal s => no_char SQUOTE s = true
  | Quoted_name s => no_char DQUOTE s = true
  end.

Definition statement_text (ps : list piece) : string := fold_right (fun p rest => piece_text p +++ rest) "" ps.

(** No blanks around it, and not empty. *)
Definition statement_ok (ps : list piece) : Prop :=
  Forall piece_ok ps /\ trim (statement_text ps) = statement_text ps /\ statement_text ps <> "".

Lemma split_sql_scan s : forall q q' current rest,
  scan q s = Some q' -> split_sql_go q current (s +++ rest) = split_sql_go q' (current +++ s) rest.
Proof.
  induction s as [|ch s IH]; intros q q' current rest Hs; cbn in Hs.
  - injection Hs as ->. cbn. by rewrite sapp_nil_r.
  - change (String ch s +++ rest) with (String ch (s +++ rest)). cbn [split_sql_go].
    destruct (ends_statement q ch); [done|].
    rewrite (IH _ q') by done. by rewrite sapp_assoc.
Qed.

Lemma scan_app a : forall q b, scan q (a +++ b) = match scan q a with Some q' => scan q' b | None => None end.
Proof. induction a as [|ch a IH]; intros q b; cbn; [done|]. by destruct (ends_statement q ch). Qed.

Lemma scan_plain s :
  no_char SQUOTE s = true -> no_char DQUOTE s = true -> no_char ";" s = true -> scan outside s = Some outside.
Proof.
  unfold no_char. induction s as [|ch s IH]; cbn [all_chars scan]; [done|].
  intros [Hs ?]%andb_true_iff [Hd ?]%andb_true_iff [He ?]%andb_true_iff. apply negb_true_iff in Hs, Hd, He.
  unfold ends_statement, next_quotes. rewrite Hs, Hd, He. by apply IH.
Qed.

Lemma scan_single s : no_char SQUOTE s = true -> scan (mk_quotes true false) s = Some (mk_quotes true false).
Proof.
  unfold no_char. induction s as [|ch s IH]; cbn [all_chars scan]; [done|].
  intros [Hs ?]%andb_true_iff. apply negb_true_iff in Hs. unfold ends_statement, next_quotes. cbn [in_single_quote in_double_quote negb andb].
  rewrite !andb_false_r. rewrite Hs. by apply IH.
Qed.

Lemma scan_double s : no_char DQUOTE s = true -> scan (mk_quotes false true) s = Some (mk_quotes false true).
Proof.
  unfold no_char. induction s as [|ch s IH]; cbn [all_chars scan]; [done|].
  intros [Hs ?]%andb_true_iff. apply negb_true_iff in Hs. unfold ends_statement, next_quotes. cbn [in_single_quote in_double_quote negb andb].
  rewrite !andb_false_r. rewrite Hs. by apply IH.
Qed.

Lemma scan_statement ps : Forall piece_ok ps -> scan outside (statement_text ps) = Some outside.
Proof.
  induction 1 as [|p ps Hp _ IH]; [done|]. cbn [statement_text fold_right]. rewrite scan_app.
  assert (scan outside (piece_text p) = Some outside) as ->; [|exact IH].
  destruct p as [s|s|s]; cbn [piece_text piece_ok] in *.
  - destruct Hp as (? & ? & ?). by apply scan_plain.
  - rewrite scan_app. change (scan outside "'") with (Some (mk_quotes true false)). cbn iota.
    rewrite scan_app, (scan_single s Hp). reflexivity.
  - rewrite scan_app. change (scan outside (String DQUOTE "")) with (Some (mk_quotes false true)). cbn iota.
    rewrite scan_app, (scan_double s Hp). reflexivity.
Qed.

Lemma push_statement_ok ps stmts : statement_ok ps ->
  push_statement (statement_text ps) stmts = bare_statement (statement_text ps) :: stmts.
Proof. intros (_ & Ht & Hne). unfold push_statement. rewrite Ht. by destruct (statement_text ps). Qed.

(** The text of a script: each statement ended by a semicolon. *)
Definition script (stmts : list (list piece)) : string :=
  fold_right (fun ps rest => statement_text ps +++ ";" +++ rest) "" stmts.



(** Every statement of any script is trimmed and not blank. *)
Theorem split_statements_trimmed text s :
  s ∈ split_sql_statements text -> exists part, sql s = trim part /\ sql s <> "".
Proof.
  assert (H : forall q current, s ∈ split_sql_go q current text ->
            exists part, sql s = trim part /\ sql s <> ""); [|apply H].
  assert (Hp : forall current l, s ∈ push_statement current l ->
            (exists part, sql s = trim part /\ sql s <> "") \/ s ∈ l).
  { intros current l. unfold push_statement. destruct (is_empty (trim current)) eqn:E; [by right|].
    intros [-> | Hl]%elem_of_cons; [left|by right]. exists current. split; [done|].
    cbn. intros Ht. by rewrite Ht in E. }
  induction text as [|ch r IH]; intros q current Hin; cbn [split_sql_go] in Hin.
  - destruct (Hp _ _ Hin) as [|Hn]; [done|]. by apply elem_of_nil in Hn.
  - destruct (ends_statement q ch); [|by eapply IH].
    destruct (Hp _ _ Hin) as [|Hn]; [done|]. by eapply IH.
Qed.

(** An apostrophe in a comment opens a quote: the statements after it are not split. *)
Theorem comment_apostrophe_merges :
  split_sql_statements ("DELETE FROM a; -- it's" +++ nl +++ "DELETE FROM b; DELETE FROM c;")
  = [bare_statement "DELETE FROM a";
     bare_statement ("-- it's" +++ nl +++ "DELETE FROM b; DELETE FROM c;")].
Proof. vm_compute. done. Qed.

(** A common table expression is sent to the read path even when it writes. *)
Example with_insert_is_a_query :
  is_query_sql "with x as (select 1) insert into t select * from x" = true.
Proof. vm_compute. done. Qed.

(** ** CSV

    A reader of documents in the format of RFC 4180: records end with a line break, LF or CR
    LF; a field that is not quoted contains no comma, quote, CR or LF. *)
Inductive CsvMode := RecordStart | FieldStart | Unquoted | Quoted | QuoteSeen.

Definition field_then (field : string) (rest : option (list (list string))) : option (list (list string)) :=
  match rest with Some (record :: records) => Some ((field :: record) :: records) | _ => None end.
Definition record_then (field : string) (rest : option (list (list string))) : option (list (list string)) :=
  option_map (cons [field]) rest.

Fixpoint csv_read_go (mode : CsvMode) (cur s : string) : option (list (list string)) :=
  match s with
  | "" => match mode with RecordStart => Some [] | Quoted => None | _ => Some [[cur]] end
  | String a r =>
      match mode with
      | Quoted =>
          if Ascii.eqb a DQUOTE then csv_read_go QuoteSeen cur r
          else csv_read_go Quoted (cur +++ String a "") r
      | _ =>
          if Ascii.eqb a "," then field_then cur (csv_read_go FieldStart "" r)
          else if Ascii.eqb a NL then record_then cur (csv_read_go RecordStart "" r)
          else if Ascii.eqb a CR then
            match r with
            | String b r => if Ascii.eqb b NL then record_then cur (csv_read_go RecordStart "" r) else None
            | "" => None
            end
          else if Ascii.eqb a DQUOTE then
            match mode with
            | RecordStart | FieldStart => csv_read_go Quoted "" r
            | QuoteSeen => csv_read_go Quoted (cur +++ String DQUOTE "") r
            | _ => None
            end
          else
            match mode with
            | QuoteSeen => None
            | _ => csv_read_go Unquoted (cur +++ String a "") r
            end
      end
  end.
Definition csv_read (s : string) : option (list (list string)) := csv_read_go RecordStart "" s.

(** What a document goes on with after a field. *)
Inductive csv_tail : string -> Prop :=
| tail_field r : csv_tail (String "," r)
| tail_record r : csv_tail (String NL r).

Definition csv_after (text rest : string) : option (list (list string)) :=
  match rest with
  | "" => Some [[text]]
  | String a r =>
      if Ascii.eqb a "," then field_then text (csv_read_go FieldStart "" r)
      else record_then text (csv_read_go RecordStart "" r)
  end.

(** A text that can stand without quotes. *)
Definition csv_plain (s : string) : bool := negb (csv_special s) && no_char CR s.

Lemma csv_quoted s : forall cur rest, csv_tail rest ->
  csv_read_go Quoted cur
    (replace_char DQUOTE (String DQUOTE (String DQUOTE "")) s +++ String DQUOTE rest)
  = csv_after (cur +++ s) rest.
Proof.
  induction s as [|a s IH]; intros cur rest Ht; cbn [replace_char].
  - cbn [String.append csv_read_go]. rewrite sapp_nil_r. by destruct Ht.
  - destruct (Ascii.eqb a DQUOTE) eqn:E; cbn [String.append csv_read_go].
    + apply Ascii.eqb_eq in E as ->. change (Ascii.eqb DQUOTE DQUOTE) with true.
      change (Ascii.eqb DQUOTE ",") with false. change (Ascii.eqb DQUOTE NL) with false.
      change (Ascii.eqb DQUOTE CR) with false. cbn [csv_read_go]. change (Ascii.eqb DQUOTE DQUOTE) with true.
      rewrite IH by done. by rewrite sapp_assoc.
    + rewrite E, IH by done. by rewrite sapp_assoc.
Qed.

Lemma csv_plain_cons a s : csv_plain (String a s) = true ->
  (Ascii.eqb a "," = false /\ Ascii.eqb a NL = false /\ Ascii.eqb a CR = false /\ Ascii.eqb a DQUOTE = false) /\
  csv_plain s = true.
Proof.
  unfold csv_plain, csv_special, contains_char, no_char. cbn [all_chars].
  destruct (Ascii.eqb a ","), (Ascii.eqb a DQUOTE), (Ascii.eqb a NL), (Ascii.eqb a CR); cbn;
    rewrite ?orb_true_r; cbn; rewrite ?andb_false_r; done.
Qed.

Lemma csv_unquoted s : forall cur rest, csv_plain s = true -> csv_tail rest ->
  csv_read_go Unquoted cur (s +++ rest) = csv_after (cur +++ s) rest.
Proof.
  induction s as [|a s IH]; intros cur rest Hs Ht; [rewrite sapp_nil_r; by destruct Ht|].
  apply csv_plain_cons in Hs as [(Hc & Hn & Hr & Hq) Hs].
  change (String a s +++ rest) with (String a (s +++ rest)). cbn [csv_read_go].
  rewrite Hc, Hn, Hr, Hq, IH by done. by rewrite sapp_assoc.
Qed.

(** The text of a value as a CSV reader sees it. *)
Definition csv_text (show_f64 : Z -> string) (v : ProtoValue) : string :=
  match proto_value_to_sql v with SqlNull => "" | x => format_sql_value show_f64 x end.

(** A text that the client quotes when it has to. *)
Definition csv_ok (s : string) : Prop := csv_special s = true \/ csv_plain s = true.

Lemma csv_field_read mode s rest : mode = RecordStart \/ mode = FieldStart -> csv_ok s -> csv_tail rest ->
  csv_read_go mode "" ((if csv_special s then csv_quote s else s) +++ rest) = csv_after s rest.
Proof.
  intros Hm Hs Ht. destruct (csv_special s) eqn:Es.
  - unfold csv_quote. rewrite !sapp_assoc.
    change (String DQUOTE "" +++ rest) with (String DQUOTE rest).
    change (String DQUOTE "" +++ ?x) with (String DQUOTE x). cbn [csv_read_go].
    change (Ascii.eqb DQUOTE ",") with false. change (Ascii.eqb DQUOTE NL) with false.
    change (Ascii.eqb DQUOTE CR) with false. change (Ascii.eqb DQUOTE DQUOTE) with true. cbn iota.
    destruct Hm as [-> | ->]; by rewrite csv_quoted.
  - destruct Hs as [Hs|Hs]; [congruence|]. destruct s as [|a s].
    { by destruct Hm as [-> | ->], Ht. }
    apply csv_plain_cons in Hs as [(Hc & Hn & Hr & Hq) Hs].
    change (String a s +++ rest) with (String a (s +++ rest)). cbn [csv_read_go].
    rewrite Hc, Hn, Hr, Hq. destruct Hm as [-> | ->]; by rewrite csv_unquoted.
Qed.

Lemma delimited_field_csv show_f64 v :
  delimited_field show_f64 "," v =
  (if csv_special (csv_text show_f64 v) then csv_quote (csv_text show_f64 v)
   else csv_text show_f64 v).
Proof. unfold delimited_field, csv_text. by destruct (proto_value_to_sql v). Qed.

(** A line of fields [f x], whose texts are [g x], read as one record. *)
Lemma csv_record {A} (f g : A -> string) xs rest :
  (forall x, x ∈ xs -> csv_ok (g x) /\ f x = if csv_special (g x) then csv_quote (g x) else g x) -> xs <> [] ->
  csv_read_go RecordStart "" (String.concat (String "," "") (map f xs) +++ String NL rest) =
  option_map (cons (map g xs)) (csv_read_go RecordStart "" rest).
Proof.
  assert (Hgo : forall xs mode, mode = RecordStart \/ mode = FieldStart -> xs <> [] ->
    (forall x, x ∈ xs -> csv_ok (g x) /\ f x = if csv_special (g x) then csv_quote (g x) else g x) ->
    csv_read_go mode "" (String.concat (String "," "") (map f xs) +++ String NL rest) =
    option_map (cons (map g xs)) (csv_read_go RecordStart "" rest)).
  2: { intros Hx Hne. by apply Hgo; [left|..]. }
  clear xs. induction xs as [|x [|y ys] IH]; intros mode Hm Hne Hx; [done|..];
    destruct (Hx x ltac:(left)) as [Hok Hf].
  - cbn [map String.concat]. rewrite Hf, csv_field_read by (done || constructor). done.
  - change (String.concat (String "," "") (map f (x :: y :: ys)))
      with (f x +++ String "," (String.concat (String "," "") (map f (y :: ys)))).
    rewrite sapp_assoc, Hf. cbn [String.append]. rewrite csv_field_read by (done || constructor).
    cbn [csv_after]. change (Ascii.eqb "," ",") with true. cbn iota.
    rewrite (IH FieldStart) by (first [by right|done|intros z Hz; apply Hx; by right]).
    by destruct (csv_read_go RecordStart "" rest).
Qed.

(** The lines of an output, as they are written. *)
Fixpoint written (out : list Output) : string :=
  match out with
  | [] => ""
  | Line s :: out => s +++ String NL (written out)
  | _ :: out => written out
  end.

(** C35. The CSV output of a query, read by a reader of RFC 4180, gives back the names of the
    columns and the texts of the values (null is the empty text), whatever commas, quotes and
    line feeds the values contain, provided that the column names contain none of these nor a
    carriage return, and a value contains a carriage return only next to one of these. *)
Theorem csv_round_trip show_f64 resp :
  q_columns resp <> [] -> Forall (fun c => csv_plain (col_name c) = true) (q_columns resp) ->
  Forall (fun row => row <> [] /\ Forall (fun v => csv_ok (csv_text show_f64 v)) row) (q_rows resp) ->
  csv_read (written (print_delimited show_f64 resp ",")) =
  Some (map col_name (q_columns resp) :: map (map (csv_text show_f64)) (q_rows resp)).
Proof.
  intros Hc Hcols Hrows. unfold csv_read, print_delimited. cbn [written].
  rewrite Forall_forall in Hcols.
  rewrite (csv_record col_name col_name); [|intros c Hin; specialize (Hcols c Hin); split; [by right|]|done].
  2: { unfold csv_plain in Hcols. apply andb_true_iff in Hcols as [->%negb_true_iff _]. done. }
  assert (csv_read_go RecordStart "" (written (map (fun row => Line (delimited_row show_f64 "," row)) (q_rows resp)))
          = Some (map (map (csv_text show_f64)) (q_rows resp))) as E; [|by rewrite E].
  induction Hrows as [|row rows [Hne Hrow] _ IH]; [done|]. cbn [map written].
  unfold delimited_row at 1. rewrite Forall_forall in Hrow.
  rewrite (csv_record (delimited_field show_f64 ",") (csv_text show_f64));
    [by rewrite IH|intros v Hv; split; [by apply Hrow|apply delimited_field_csv]|done].
Qed.

Lemma csv_round_trip_witness :
  let text := "a," +++ String NL "b" in
  csv_read (written (print_delimited (fun _ => "")
    (mk_query_response [mk_column "k" TypeText "TEXT"; mk_column "v" TypeText "TEXT"]
       [[Some (TextValue text); None]; [Some (IntValue (-7)); Some (TextValue (String DQUOTE "x"))]] 2 1 false) ","))
  = Some [["k"; "v"]; [text; ""]; ["-7"; String DQUOTE "x"]].
Proof.
  intros text. apply (csv_round_trip (fun _ => "")
    (mk_query_response [mk_column "k" TypeText "TEXT"; mk_column "v" TypeText "TEXT"]
       [[Some (TextValue text); None]; [Some (IntValue (-7)); Some (TextValue (String DQUOTE "x"))]] 2 1 false));
    [done|repeat constructor|].
  apply Forall_cons; split; [|apply Forall_cons; split; [|constructor]]; (split; [done|]);
    repeat (apply Forall_cons; split; [unfold csv_ok; vm_compute; auto|]); constructor.
Defined.

(** A carriage return alone is not quoted: at the end of a record a reader takes it for a part of
    the line break, elsewhere it is an error. *)
Theorem csv_carriage_return_lost :
  let resp v := mk_query_response [mk_column "v" TypeText ""] [[Some (TextValue v)]] 1 1 false in
  csv_read (written (print_delimited (fun _ => "") (resp ("a" +++ String CR "")) ",")) = Some [["v"]; ["a"]] /\
  csv_read (written (print_delimited (fun _ => "") (resp ("a" +++ String CR "b")) ",")) = None.
Proof. vm_compute. done. Qed.

(** The header line is not quoted: a column name with a comma reads as two columns. *)
Theorem csv_header_not_quoted :
  let resp := mk_query_response [mk_column "a,b" TypeInteger ""] [[Some (IntValue 1)]] 1 1 false in
  csv_read (written (print_delimited (fun _ => "") resp ",")) = Some [["a"; "b"]; ["1"]].
Proof. vm_compute. done. Qed.

(** ** JSON *)

(** The values of the columns named [name], in order. *)
Fixpoint named_values (columns : list ColumnHeader) (i : Z) (values : Row) (name : string)
  : list ProtoValue :=
  match values with
  | [] => []
  | v :: values =>
      let col_name := match columns with c :: _ => col_name c | [] => "col_" +++ show_Z i end in
      (if String.eqb col_name name then [v] else []) ++ named_values (tail columns) (i + 1) values name
  end.

(** A field of a JSON row is the last value with its name: of two columns with one name
    only the second is printed. *)
Theorem json_row_last is_finite columns values name : forall i obj,
  json_row is_finite columns i values obj !! name =
  match last (named_values columns i values name) with
  | Some v => Some (sql_value_to_json is_finite (proto_value_to_sql v))
  | None => obj !! name
  end.
Proof.
  revert columns. induction values as [|v values IH]; intros columns i obj; [done|].
  cbn [json_row named_values]. rewrite IH.
  set (n := match columns with [] => _ | c :: _ => _ end).
  destruct (String.eqb n name) eqn:E.
  - apply String.eqb_eq in E as ->. cbn [app]. rewrite lookup_insert_eq, last_cons.
    by destruct (last (named_values _ _ _ _)).
  - apply String.eqb_neq in E. cbn [app]. rewrite lookup_insert_ne by done. done.
Qed.
