(* ===== verification/Unified.v ===== *)
(** * Calls of the client (crates/rsqlite-rsync-client/src/client.rs, src/src/gateway/client.rs)

    The operations of [SqlGatewayClient], each a request sent through the retry loop of
    [Client], and the unified client that runs them against a cluster or against an
    engine in the same process.  [execute_at_most_once] composes client, network and
    gateway: a write reaches the engines of the cluster at most once. *)

From S2P Require Import Prelude RustStr Errors Endpoint RustText Ha Auth Engine Server Client CliText.

(** ** Requests *)

Definition consistency_as_i32 (c : ConsistencyLevel) : Z :=
  match c with Strong => 0 | Eventual => 1 end.
Definition batch_mode_as_i32 (m : BatchTransactionMode) : Z :=
  match m with ModeNone => 0 | ModeDeferred => 1 | ModeImmediate => 2 | ModeExclusive => 3 end.

Definition statement_of (sql : string) (parameters : option Parameters) : Statement :=
  match parameters with
  | None => mk_statement sql [] [] false
  | Some p => mk_statement sql (p_positional p) (p_named p) true
  end.

(** The network as the retry loop sees it; an RPC is given the attempt, the endpoint and the
    authorization header. *)
Record RpcNetwork := mk_network {
  net_discover : ClientConfig -> nat -> Result ClientError string;
  net_from_shared : string -> option string;
  net_connect : nat -> string -> option string;
  net_execute : nat -> string -> option string -> string -> Statement -> Result Status ExecuteResponse;
  net_query : nat -> string -> option string -> string -> Statement -> Z -> Z -> Z ->
              Result Status QueryResponse;
  net_stream : nat -> string -> option string -> string -> Statement -> Z -> Z -> Z ->
               Result Status (list (Result Status QueryChunk));   (* the messages of the stream *)
  net_batch : nat -> string -> option string -> string -> list Statement -> Z -> bool ->
              Result Status BatchResponse;
  net_drop : nat -> string -> option string -> string -> Result Status (bool * Z);
  net_status : nat -> string -> option string -> Result Status ClusterStatusResponse;
}.

Section Gateway.
Variable net : RpcNetwork.

Definition rounds (cl : SqlGatewayClient) : nat := Z.to_nat (Z.max 1 (max_retries (config cl))).

(** The retry loop with the rounds it needs ([run_call_ends]: the last case does not arise). *)
Definition run_call {T} (idempotent : bool) (op : nat -> string -> Result Status T)
    (cl : SqlGatewayClient) : Result ClientError T * SqlGatewayClient :=
  match call (net_discover net (config cl)) (net_from_shared net) (net_connect net) op
          (rounds cl) idempotent cl with
  | (Some r, _, cl') => (r, cl')
  | (None, _, cl') => (Err (Discovery "retry loop did not end" None), cl')
  end.

Definition auth_header (cl : SqlGatewayClient) : option string :=
  authorization_header (auth_token (config cl)).

Definition gw_execute (cl : SqlGatewayClient) (database sql : string) (parameters : option Parameters)
  : Result ClientError ExecuteResponse * SqlGatewayClient :=
  run_call false (fun n ep => net_execute net n ep (auth_header cl) database
                                (statement_of sql parameters)) cl.

Definition gw_query (cl : SqlGatewayClient) (database sql : string) (parameters : option Parameters)
    (max_rows : Z) (consistency : ConsistencyLevel)
  : Result ClientError QueryResponse * SqlGatewayClient :=
  run_call true (fun n ep => net_query net n ep (auth_header cl) database
                   (statement_of sql parameters) max_rows 0 (consistency_as_i32 consistency)) cl.

Definition gw_stream_query (cl : SqlGatewayClient) (database sql : string)
    (parameters : option Parameters) (max_rows chunk_size : Z) (consistency : ConsistencyLevel)
  : Result ClientError (list (Result Status QueryChunk)) * SqlGatewayClient :=
  run_call true (fun n ep => net_stream net n ep (auth_header cl) database
                   (statement_of sql parameters) max_rows chunk_size
                   (consistency_as_i32 consistency)) cl.

Definition gw_batch (cl : SqlGatewayClient) (database : string) (statements : list Statement)
    (tx_mode : BatchTransactionMode) (stop_on_error : bool)
  : Result ClientError BatchResponse * SqlGatewayClient :=
  run_call false (fun n ep => net_batch net n ep (auth_header cl) database statements
                                (batch_mode_as_i32 tx_mode) stop_on_error) cl.

Definition gw_drop_database (cl : SqlGatewayClient) (database : string)
  : Result ClientError (bool * Z) * SqlGatewayClient :=
  run_call true (fun n ep => net_drop net n ep (auth_header cl) database) cl.

Definition gw_get_cluster_status (cl : SqlGatewayClient)
  : Result ClientError ClusterStatusResponse * SqlGatewayClient :=
  run_call true (fun n ep => net_status net n ep (auth_header cl)) cl.
End Gateway.

(** ** Errors of the client as errors of the program *)

Definition show_code (c : Code) : string :=
  match c with
  | StatusOk => "Ok" | Cancelled => "Cancelled" | Unknown => "Unknown"
  | InvalidArgument => "InvalidArgument" | DeadlineExceeded => "DeadlineExceeded"
  | StatusNotFound => "NotFound" | AlreadyExists => "AlreadyExists"
  | PermissionDenied => "PermissionDenied" | ResourceExhausted => "ResourceExhausted"
  | FailedPrecondition => "FailedPrecondition" | Aborted => "Aborted"
  | OutOfRange => "OutOfRange" | Unimplemented => "Unimplemented" | Internal => "Internal"
  | Unavailable => "Unavailable" | DataLoss => "DataLoss" | Unauthenticated => "Unauthenticated"
  end.

Fixpoint client_error_to_string (e : ClientError) : string :=
  match e with
  | InvalidEndpoint endpoint source => "invalid endpoint '" +++ endpoint +++ "': " +++ source
  | Connect endpoint source => "failed to connect to '" +++ endpoint +++ "': " +++ source
  | Discovery message _ => "leader discovery failed: " +++ message
  | Rpc st => "gRPC call failed (code: " +++ show_code (code st) +++ "): " +++ Auth.message st
  | RetriesExhausted attempts source =>
      "gave up after " +++ show_Z attempts +++ " attempt(s): " +++ client_error_to_string source
  end.

(** [impl From<ClientError> for SyncError]. *)
Definition sync_error_from (error : ClientError) : SyncError :=
  match error with
  | Connect _ _ => Network (client_error_to_string error)
  | RetriesExhausted _ (Connect _ _) => Network (client_error_to_string error)
  | other => Protocol (client_error_to_string other)
  end.

(** ** The unified client *)

Inductive ClientTarget :=
| TargetRemote (config : ClientConfig)
| TargetLocal (data_dir : string).

Inductive UnifiedClient :=
| Remote (client : SqlGatewayClient)
| Local (data_dir : string).

(** [DatabaseEngine::new] creates the data directory. *)
Definition unified_new (engine_new : string -> SyncResult unit) (target : ClientTarget)
  : SyncResult UnifiedClient :=
  match target with
  | TargetRemote config => Ok (Remote (client_new config))
  | TargetLocal data_dir => let? _ := engine_new data_dir in Ok (Local data_dir)
  end.

Definition is_local (c : UnifiedClient) : bool :=
  match c with Local _ => true | Remote _ => false end.

(** [spawn_blocking(..).await.map_err(join error)?]. *)
Definition from_task {A} (c : Call A) : SyncResult A :=
  match c with
  | Err e => Err (Protocol ("task join error: " +++ e))
  | Ok r => r
  end.

Section Unified.
Variable net : RpcNetwork.
Variable engine : string -> GatewayEngine.      (* of a data directory *)

(** [client.op(..).await.map_err(Into::into)]. *)
Definition remotely {A} (r : Result ClientError A * SqlGatewayClient) : SyncResult A * UnifiedClient :=
  (map_err sync_error_from (fst r), Remote (snd r)).

Definition unified_execute (c : UnifiedClient) (database sql : string)
    (parameters : option Parameters) : SyncResult ExecuteResponse * UnifiedClient :=
  match c with
  | Remote cl => remotely (gw_execute net cl database sql parameters)
  | Local d => (from_task (@engine_execute (engine d) database (statement_of sql parameters) 1), c)
  end.

Definition unified_query (c : UnifiedClient) (database sql : string)
    (parameters : option Parameters) (max_rows : Z) (consistency : ConsistencyLevel)
  : SyncResult QueryResponse * UnifiedClient :=
  match c with
  | Remote cl => remotely (gw_query net cl database sql parameters max_rows consistency)
  | Local d =>
      (from_task (@engine_query (engine d) database (statement_of sql parameters) max_rows 1 false), c)
  end.

Definition unified_batch (c : UnifiedClient) (database : string) (statements : list Statement)
    (tx_mode : BatchTransactionMode) (stop_on_error : bool)
  : SyncResult BatchResponse * UnifiedClient :=
  match c with
  | Remote cl => remotely (gw_batch net cl database statements tx_mode stop_on_error)
  | Local d => (from_task (@engine_batch (engine d) database statements tx_mode stop_on_error 1), c)
  end.

Definition unified_drop_database (c : UnifiedClient) (database : string)
  : SyncResult (bool * Z) * UnifiedClient :=
  match c with
  | Remote cl => remotely (gw_drop_database net cl database)
  | Local d =>
      (match from_task (@engine_drop (engine d) database) with
       | Ok existed => Ok (existed, 1)
       | Err e => Err e
       end, c)
  end.

Definition unified_get_cluster_status (c : UnifiedClient)
  : SyncResult ClusterStatusResponse * UnifiedClient :=
  match c with
  | Remote cl => remotely (gw_get_cluster_status net cl)
  | Local d =>
      (match from_task (@engine_list (engine d)) with
       | Ok databases =>
           Ok (mk_cluster_status "standalone-edge" Writer 1 None "standalone-edge"
                 "local://in-process" databases 0 SERVER_VERSION)
       | Err e => Err e
       end, c)
  end.
End Unified.

(** ** Claims *)

(** The retry loop ends within the rounds a call gives it. *)
Lemma run_call_ends {T} net idem (op : nat -> string -> Result Status T) cl :
  exists r evs cl', run_call net idem op cl = (r, cl') /\
    call (net_discover net (config cl)) (net_from_shared net) (net_connect net) op (rounds cl) idem cl
    = (Some r, evs, cl').
Proof.
  destruct (loop_terminates (net_discover net (config cl)) (net_from_shared net) (net_connect net) op
    idem (rounds cl) 0 (initial_backoff_ms (config cl)) cl) as (r & evs & cl' & H & _);
    [unfold rounds; lia|].
  exists r, evs, cl'. unfold run_call, call. by rewrite H.
Qed.

(** The options of a request survive the wire. *)
Lemma consistency_round_trip c : consistency_try_from (consistency_as_i32 c) = Some c.
Proof. by destruct c. Qed.

Lemma batch_mode_round_trip m : batch_mode_try_from (batch_mode_as_i32 m) = Some m.
Proof. by destruct m. Qed.

(** *** Writes reach an engine at most once *)

Definition attempted (evs : list LoopEvent) : list (nat * string) :=
  omap (fun e => match e with Called n ep _ => Some (n, ep) | Slept _ => None end) evs.

(** What the network does with a request and its answer; the status is the transport's. *)
Inductive Delivery :=
| Answered
| RequestLost (st : Status)
| ReplyLost (st : Status).

Section Cluster.
(** The nodes: their engines, and their shared state and clock at each attempt. *)
Variable engine : string -> GatewayEngine.
Variable node : nat -> string -> HaSharedState * Z.
Variable delivery : nat -> string -> Delivery.

(** The answer of a write request sent to [ep], and the engine calls it caused. *)
Definition execute_at (database : string) (stmt : Statement) (n : nat) (ep : string)
  : Result Status ExecuteResponse * list EngineCall :=
  let '(ha, now) := node n ep in
  let '(answer, made) := @rpc_execute (engine ep) ha now database (Some stmt) in
  match delivery n ep with
  | Answered => (answer, made)
  | RequestLost st => (Err st, [])
  | ReplyLost st => (Err st, made)
  end.

Definition engine_log (database : string) (stmt : Statement) (evs : list LoopEvent)
  : list EngineCall :=
  concat (map (fun '(n, ep) => snd (execute_at database stmt n ep)) (attempted evs)).

(** A status made by the transport is not the gateway's not-leader answer. *)
Definition plain_transport : Prop :=
  forall n ep st, delivery n ep = RequestLost st \/ delivery n ep = ReplyLost st ->
    is_not_leader_status st = false.

Lemma execute_at_length database stmt n ep : (length (snd (execute_at database stmt n ep)) <= 1)%nat.
Proof.
  unfold execute_at, rpc_execute. destruct (node n ep) as [ha now].
  destruct (check_write_access ha now); destruct (delivery n ep); cbn; lia.
Qed.

Lemma not_leader_made_no_call database stmt n ep st :
  plain_transport -> fst (execute_at database stmt n ep) = Err st ->
  is_not_leader_status st = true -> snd (execute_at database stmt n ep) = [].
Proof.
  intros Hp. unfold execute_at, rpc_execute. destruct (node n ep) as [ha now].
  destruct (check_write_access ha now) as [g|st0] eqn:Ec.
  - destruct (delivery n ep) as [|st1|st1] eqn:Ed; cbn; intros E Hn; [|done|].
    + exfalso. unfold joined in E. destruct (engine_execute _ _ _) as [[]|]; simplify_eq; done.
    + injection E as ->. specialize (Hp n ep st (or_intror Ed)). congruence.
  - by destruct (delivery n ep).
Qed.

Lemma execute_at_ok database stmt n ep resp :
  fst (execute_at database stmt n ep) = Ok resp ->
  is_writer (fst (node n ep)) (snd (node n ep)) = true /\
  snd (execute_at database stmt n ep) =
    [CallExecute database stmt (sh_generation (fst (node n ep)))].
Proof.
  unfold execute_at, rpc_execute, check_write_access. destruct (node n ep) as [ha now]. cbn.
  destruct (is_writer ha now); cbn; destruct (delivery n ep); done.
Qed.

Section Loop.
Variable discover : nat -> Result ClientError string.
Variable from_shared : string -> option string.
Variable connect : nat -> string -> option string.
Variables (database : string) (stmt : Statement).
Let op n ep := fst (execute_at database stmt n ep).
Hypothesis Hplain : plain_transport.

(** The log of a loop: at most one call; exactly one, on a writer, when it succeeds. *)
Definition logged_once (r : option (Result ClientError ExecuteResponse)) (evs : list LoopEvent) : Prop :=
  (length (engine_log database stmt evs) <= 1)%nat /\
  forall resp, r = Some (Ok resp) ->
    exists n ep, (n, ep) ∈ attempted evs /\ is_writer (fst (node n ep)) (snd (node n ep)) = true /\
      engine_log database stmt evs =
        [CallExecute database stmt (sh_generation (fst (node n ep)))].

Lemma logged_single n ep f r :
  (forall resp, r = Some (Ok resp) -> op n ep = Ok resp) -> logged_once r [Called n ep f].
Proof.
  intros Hr. unfold logged_once, engine_log. cbn. rewrite app_nil_r.
  split; [apply execute_at_length|]. intros resp E. apply Hr in E.
  destruct (execute_at_ok _ _ _ _ _ E) as [Hw Hc]. exists n, ep. split; [by left|done].
Qed.

Lemma logged_nil r : (forall resp, r <> Some (Ok resp)) -> logged_once r [].
Proof. intros Hr. split; [cbn; lia|]. intros resp E. by destruct (Hr resp). Qed.

Lemma logged_slept r b evs : logged_once r evs -> logged_once r (Slept b :: evs).
Proof. done. Qed.

Lemma logged_refused r n ep st evs :
  op n ep = Err st -> is_not_leader_status st = true ->
  logged_once r evs -> logged_once r (Called n ep (Some st) :: evs).
Proof.
  intros Ho Hn [Hl Hr]. pose proof (not_leader_made_no_call _ _ _ _ _ Hplain Ho Hn) as Hz.
  unfold logged_once, engine_log in *. cbn. rewrite Hz. split; [done|].
  intros resp E. destruct (Hr resp E) as (n' & ep' & Hin & ?). exists n', ep'. split; [by right|done].
Qed.

Lemma loop_logged fuel : forall n b cl r evs cl',
  retry_loop discover from_shared connect op fuel false n b cl = (r, evs, cl') -> logged_once r evs.
Proof.
  induction fuel as [|fuel IH]; intros n b cl r evs cl' H; cbn [retry_loop] in H.
  { injection H as <- <- _. by apply logged_nil. }
  destruct (get_or_connect _ _ _ n cl) as [[ep|e] cl1] eqn:Eg.
  - destruct (op n ep) as [res|st] eqn:Eo.
    { injection H as <- <- _. apply logged_single. by intros resp [= <-]. }
    cbn [andb] in H. rewrite orb_false_r in H.
    destruct (is_not_leader_status st) eqn:En; cbn [negb] in H;
      [|injection H as <- <- _; by apply logged_single].
    destruct (_ <=? _); [injection H as <- <- _; by apply logged_single|].
    destruct (retry_loop _ _ _ _ _ _ _ _ _) as [[r1 evs1] cl2] eqn:El. injection H as <- <- _.
    apply logged_refused, logged_slept; eauto.
  - assert (Hgo : forall r1 evs1, (if max_retries (config cl1) <=? Z.of_nat n + 1
       then (Some (Err (RetriesExhausted (Z.of_nat n + 1) e)), [], cl1)
       else let '(r, evs, cl2) :=
              retry_loop discover from_shared connect op fuel false (S n)
                (next_backoff b (max_backoff_ms (config cl))) (reset_connection cl1) in
            (r, Slept b :: evs, cl2)) = (r1, evs1, cl') -> logged_once r1 evs1).
    { intros r1 evs1. destruct (_ <=? _); [intros [= <- <- _]; by apply logged_nil|].
      destruct (retry_loop _ _ _ _ _ _ _ _ _) as [[r2 evs2] cl2] eqn:El. intros [= <- <- _].
      apply logged_slept. eauto. }
    destruct e; try (by apply Hgo). injection H as <- <- _. by apply logged_nil.
Qed.
End Loop.

(** C7. A write given to the client reaches the engines of the cluster at most once, whatever the
    network loses and however leadership moves; when the call succeeds it reached
    exactly one, on a node that was the writer. *)
Theorem execute_at_most_once discover from_shared connect database stmt fuel cl r evs cl' :
  plain_transport ->
  call discover from_shared connect (fun n ep => fst (execute_at database stmt n ep)) fuel false cl
    = (r, evs, cl') ->
  (length (engine_log database stmt evs) <= 1)%nat /\
  forall resp, r = Some (Ok resp) ->
    exists n ep, (n, ep) ∈ attempted evs /\ is_writer (fst (node n ep)) (snd (node n ep)) = true /\
      engine_log database stmt evs =
        [CallExecute database stmt (sh_generation (fst (node n ep)))].
Proof. intros Hp H. by eapply loop_logged. Qed.
End Cluster.

(** ** Examples *)
Module ClusterExample.
Definition node (_ : nat) (ep : string) : HaSharedState * Z :=
  if String.eqb ep "http://a:50051" then (leader, 10) else (follower, 10).
Definition delivery (_ : nat) (_ : string) : Delivery := Answered.
Definition insert_one : Statement := statement_of "INSERT INTO t VALUES (1)" None.
Definition run := call (fun _ => Ok "http://b:50051") (fun _ => None) (fun _ _ => None)
  (fun n ep => fst (execute_at (fun _ => toy_engine) node delivery "app.db" insert_one n ep)) 5 false
  example_client.
End ClusterExample.

(** The first node redirects, the second executes. *)
Lemma execute_at_most_once_witness :
  let log := engine_log (fun _ => toy_engine) ClusterExample.node ClusterExample.delivery "app.db"
    ClusterExample.insert_one (snd (fst ClusterExample.run)) in
  (length log <= 1)%nat /\ log <> [].
Proof.
  destruct (execute_at_most_once (fun _ => toy_engine) ClusterExample.node ClusterExample.delivery
    (fun _ => Ok "http://b:50051") (fun _ => None) (fun _ _ => None) "app.db"
    ClusterExample.insert_one 5 example_client (fst (fst ClusterExample.run))
    (snd (fst ClusterExample.run)) (snd ClusterExample.run)
    ltac:(intros n ep st [E|E]; discriminate E) ltac:(vm_compute; reflexivity)) as [Hl H].
  split; [exact Hl|].
  destruct (H (mk_execute_response 1 1 3) ltac:(vm_compute; reflexivity)) as (n & ep & _ & _ & E).
  intros Hnil. assert (Hc := eq_trans (eq_sym E) Hnil). discriminate Hc.
Defined.
