(* ===== verification/RemoteTests.v ===== *)
(** * The unit tests of the transports and of the unified client on the model

    (src/src/transport/grpc.rs, stdio.rs, ssh.rs, src/src/snapshot.rs, src/src/error.rs,
    src/src/gateway/client.rs)

    Pipes are the pieces that their reads give, child processes what they answer.  The
    unified client runs over the engine and the SQLite of [GatewayTests], or over a
    network that answers each call with the reply of the mock server. *)

From S2P Require Import Prelude RustStr Errors Hash Messages Db Tuning Instances Transport Ssh Grpc.
From S2P Require Import Endpoint RustText Ha Auth Engine Server GatewayTests Client CliText Unified.

Module RemoteTests.
Import GatewayTests.GatewayTests.
Definition all_hold (tests : list Prop) : Prop := Forall (fun t : Prop => t) tests.
Definition is_err {E A} (r : Result E A) : bool := match r with Err _ => true | Ok _ => false end.
Definition protocol_error {A} (part : string) (r : option (SyncResult A)) : Prop :=
  match r with Some (Err (Protocol message)) => contains part message = true | _ => False end.

(** ** Errors *)

Definition test_sync_error_display_and_constructors : Prop :=
  map SyncError_to_string
    [sqlite 5 "database is locked"; Io (mk_io_error Errors.NotFound "file not found");
     Protocol "bad version"; RemoteLaunch "ssh died"; Network "connection refused";
     PageSizeMismatch 4096 1024; Busy "locked by reader"; Codec "invalid frame"]
  = ["SQLite error (code 5): database is locked"; "I/O error: file not found"; "Protocol error: bad version";
     "Failed to launch remote endpoint: ssh died"; "Network error: connection refused";
     "Page-size mismatch: origin=4096, replica=1024"; "Database busy / locked: locked by reader";
     "Codec error: invalid frame"].
Definition client_rpc_error_maps_to_protocol : Prop :=
  match sync_error_from (Rpc (status Internal "boom")) with
  | Protocol msg => contains "boom" msg = true
  | _ => False
  end.

(** ** gRPC messages *)

Definition fill (b : Z) : PageHash := replicate 32 b.
Definition round_trips (m : Message) : Result SyncError Message := message_try_from (sync_message_from m).
Definition round_trip_all_message_types : Prop :=
  let messages :=
    [Hello 2 4096 100; HelloAck 2 4096 100; GroupHashes 0 [fill 1; fill 2]; GroupsNeedFine [0; 1; 5];
     PageHashes [1; 2; 3] [fill 10; fill 20; fill 30];
     SendPages [mk_page 1 (replicate 4096 123); mk_page 2 (replicate 4096 234)]; PagesAck [1; 2]; Done;
     Error "something went wrong"] in
  map round_trips messages = map Ok messages.
Definition codec_error (r : SyncResult Message) : bool := match r with Err (Codec _) => true | _ => false end.
Definition invalid_group_hashes_length : Prop :=
  codec_error (message_try_from (Some (PGroupHashes 0 (replicate 31 0)))) = true.
Definition invalid_page_hashes_mismatch : Prop :=
  codec_error (message_try_from (Some (PPageHashes [1; 2] (replicate 32 0)))) = true.
Definition empty_payload_rejected : Prop :=
  match message_try_from None with Err (Protocol _) => True | _ => False end.

(** ** Standard streams *)

(** What one end has written, read by the other end in pieces of ten bytes. *)
Fixpoint pieces (fuel : nat) (b : bytes) : list ReadEvent :=
  match fuel, b with
  | S fuel, _ :: _ => Got (take 10 b) :: pieces fuel (drop 10 b)
  | _, _ => []
  end.
Definition written (m : Message) : list ReadEvent :=
  let b := stdio_out (snd (stdio_send (fun _ => None) None m (mk_stdio [] [] []))) in pieces (length b) b.
Definition stdio_transport_round_trip_via_duplex : Prop :=
  fst (stdio_recv (mk_stdio (written (Hello PROTOCOL_VERSION 4096 42)) [] []))
    = Some (Ok (Hello PROTOCOL_VERSION 4096 42)) /\
  fst (stdio_recv (mk_stdio (written Done) [] [])) = Some (Ok Done).
Definition stdio_transport_recv_unexpected_eof : Prop :=
  match fst (stdio_recv (mk_stdio [Got []] [] [])) with Some (Err (Protocol _)) => True | _ => False end.
Definition stdio_transport_send_failure : Prop :=
  match fst (stdio_send (fun _ => Some (mk_io_error OtherKind "broken pipe")) None Done (mk_stdio [] [] [])) with
  | Err (Io _) => True
  | _ => False
  end.

(** ** ssh *)

Definition closed_ssh (buf : bytes) (control_path : option string) (files : list string) : SshTransport :=
  mk_ssh None None buf control_path true files.
Definition send_errors_when_transport_is_closed : Prop :=
  protocol_error "closed" (Some (fst (ssh_send (fun _ => None) Done (closed_ssh [] None [])))).
Definition recv_errors_when_transport_is_closed : Prop :=
  protocol_error "closed" (fst (ssh_recv (closed_ssh [] None []))).
Definition recv_uses_prebuffer_before_reading_stdout : Prop :=
  match encode (Hello PROTOCOL_VERSION 4096 1) with
  | Ok buf => fst (ssh_recv (closed_ssh buf None [])) = Some (Ok (Hello PROTOCOL_VERSION 4096 1))
  | Err _ => False
  end.
Definition recv_reports_unexpected_eof : Prop :=
  protocol_error "closed unexpectedly" (fst (ssh_recv (mk_ssh None (Some [Got []]) [] None true []))).
Definition close_reaps_child_process : Prop :=
  let '(r, t) := ssh_close None (mk_ssh (Some []) (Some []) [] None true []) in
  r = Ok tt /\ ssh_child_running t = false.
Definition has (arg : string) (args : list string) : bool := existsb (String.eqb arg) args.
(** [rendered.windows(2).any(|w| w == ["-o", value])]. *)
Fixpoint has_option (value : string) (args : list string) : bool :=
  match args with
  | a :: (b :: _) as rest => (String.eqb a "-o" && String.eqb b value) || has_option value rest
  | _ => false
  end.
Definition common_options_non_interactive_disables_prompts : Prop :=
  let rendered := build_common_ssh_args [] 10 true None None None in
  has "BatchMode=yes" rendered = true /\ has "NumberOfPasswordPrompts=0" rendered = true.
Definition common_options_interactive_allows_prompts : Prop :=
  let rendered := build_common_ssh_args [] 10 false None None None in
  has "BatchMode=no" rendered = true /\ has "NumberOfPasswordPrompts=3" rendered = true.
Definition common_options_includes_extra_ssh_opts_and_control_path : Prop :=
  let rendered := build_common_ssh_args ["-vvv"; "-4"] 5 true (Some "/tmp/rrs-test.ctl") (Some "auto") (Some "60") in
  take 2 rendered = ["-vvv"; "-4"] /\ has "ConnectTimeout=5" rendered = true /\
  forallb (fun v => has_option v rendered)
    ["ControlMaster=auto"; "ControlPersist=60"; "ControlPath=/tmp/rrs-test.ctl"] = true.
Definition control_path_for_produces_short_socket_path_in_tmp : Prop :=
  let path := control_path_for 4711 1712345678999 "deploy@my-host.example.com:2222" in
  starts_with "/tmp/rrs-" path = true /\ ends_with ".ctl" path = true /\
  (String.length path <? 104)%nat = true /\
  match strip_suffix ".ctl" path with
  | Some stem => existsb (fun c => contains_char c stem) ["@"; "."; ":"]%char = false
  | None => False
  end.
Definition cleanup_control_path_removes_existing_file : Prop :=
  cleanup_control_path (closed_ssh [] (Some "fake.ctl") ["fake.ctl"]) = [].
Definition cleanup_control_path_tolerates_missing_file : Prop :=
  cleanup_control_path (closed_ssh [] (Some "never-created.ctl") []) = [].

(** The fake binary: it succeeds or fails when the command is [true], and otherwise
    gives back what it reads. *)
Definition fake_status (auth_ok : bool) (args : list string) : Result string ExitStatus :=
  Ok (if bool_decide (last args = Some "true") then mk_exit auth_ok "exit status: 255" else mk_exit true "").
Definition fake_spawn (_ : list string) : Result string Child := Ok (mk_child true (Some [])).
Definition fake_connect (auth_ok : bool) : SyncResult SshTransport :=
  connect (fake_status auth_ok) fake_spawn 4711 1712345678999 [] "fakeuser@fakehost" "/remote/db.sqlite"
    "rsqlite-rsync" "--server-origin" [] default_ssh_options.
(** [cat]: the bytes written become the bytes to read. *)
Definition echoed (t : SshTransport) : SshTransport :=
  match ssh_stdin t, ssh_stdout t with
  | Some out, Some evs =>
      mk_ssh (Some []) (Some (evs ++ pieces (length out) out)) (ssh_buf t) (ssh_control_path t)
        (ssh_child_running t) (ssh_files t)
  | _, _ => t
  end.
Definition connect_uses_fake_ssh_binary_and_bridges_stdio : Prop :=
  match fake_connect true with
  | Ok t =>
      let '(sent, t) := ssh_send (fun _ => None) Done t in
      let '(got, t) := ssh_recv (echoed t) in
      sent = Ok tt /\ got = Some (Ok Done) /\ fst (ssh_close None t) = Ok tt
  | Err _ => False
  end.
Definition connect_surfaces_authentication_failure : Prop :=
  match fake_connect false with
  | Err (RemoteLaunch message) => contains "authentication" message = true
  | _ => False
  end.
Definition ssh_connect_options_default : Prop :=
  auth_mode default_ssh_options = NonInteractive /\ connect_timeout_secs default_ssh_options = 10.

(** ** Snapshots: a database of two pages of four bytes *)

Definition open_rw : Connection :=
  mk_conn 4 (fun _ => mk_pragma 0 "" 100 2) (Some [1; 2; 3; 4; 5; 6; 7; 8]) [1; 2; 3; 4; 5; 6; 7; 8] true [].
(** A connection that has or has not a transaction; [BEGIN] within one fails. *)
Definition exec_tx (open : bool) (q : string) : SyncResult unit :=
  if starts_with "BEGIN" q && open then Err (Sqlite 1 "cannot start a transaction within a transaction")
  else if negb (starts_with "BEGIN" q) && negb open then Err (Sqlite 1 "no transaction is active")
  else Ok tt.
Fixpoint tx_open (open : bool) (statements : list string) : bool :=
  match statements with
  | [] => open
  | q :: rest =>
      tx_open (match exec_tx open q with Ok _ => starts_with "BEGIN" q | Err _ => open end) rest
  end.
Definition snapshot_drop_allows_new_snapshot : Prop :=
  let '(begun, s1) := snapshot_begin (exec_tx false) open_rw in
  match begun with
  | Ok snap =>
      let open := tx_open false (s1 ++ snapshot_drop snap) in
      let '(again, s2) := snapshot_begin (exec_tx open) open_rw in
      match again with
      | Ok snap2 => fst (snapshot_commit (exec_tx (tx_open open s2)) snap2) = Ok tt
      | Err _ => False
      end
  | Err _ => False
  end.
Definition snapshot_read_page_zero_errors : Prop :=
  match fst (snapshot_begin (exec_tx false) open_rw) with
  | Ok snap => is_err (snapshot_read_page snap 0) = true
  | Err _ => False
  end.
Definition snapshot_read_page_beyond_page_count_errors : Prop :=
  match fst (snapshot_begin (exec_tx false) open_rw) with
  | Ok snap =>
      (0 <? snap_page_count snap) = true /\ is_err (snapshot_read_page snap (snap_page_count snap + 1000)) = true
  | Err _ => False
  end.
(** ** The unified client *)

Definition local_client : SyncResult UnifiedClient := unified_new (fun _ => Ok tt) (TargetLocal DIR).
Definition no_network : RpcNetwork :=
  let down {A} : Result Status A := Err (status Unavailable "down") in
  mk_network (fun _ _ => Err (Discovery "down" None)) (fun _ => None) (fun _ _ => None)
    (fun _ _ _ _ _ => down) (fun _ _ _ _ _ _ _ _ => down) (fun _ _ _ _ _ _ _ _ => down)
    (fun _ _ _ _ _ _ _ => down) (fun _ _ _ _ => down) (fun _ _ _ => down).
Definition engine_with (w : world) (fs : gset string) (root : option FsNode) (_ : string) : GatewayEngine :=
  engine_on w fs root.
(** [client.execute] and what it leaves in the data directory. *)
Definition local_execute (w : world) (c : UnifiedClient) (q : string) (ps : option Parameters)
  : SyncResult ExecuteResponse * world :=
  (fst (unified_execute no_network (engine_with w ∅ None) c "test.db" q ps),
   snd (eng_execute w "test.db" (statement_of q ps) 1)).
Definition F95_5 : Z := 0x4057E00000000000.
Definition local_drop (c : UnifiedClient) (fs : gset string) : SyncResult (bool * Z) :=
  fst (unified_drop_database no_network (engine_with ∅ fs None) c "test.db").
Definition test_local_client_crud_and_status : Prop :=
  match local_client with
  | Ok client =>
      is_local client = true /\
      (let '(created, w) :=
         local_execute ∅ client "CREATE TABLE users (id INTEGER PRIMARY KEY, name TEXT, score REAL);" None in
       let '(inserted, w) :=
         local_execute w client "INSERT INTO users (name, score) VALUES (?, ?);"
           (Some (mk_parameters [Some (TextValue "Alice"); Some (FloatValue F95_5)] [])) in
       created = Ok (mk_execute_response 0 0 1) /\ inserted = Ok (mk_execute_response 1 1 1) /\
       match fst (unified_query no_network (engine_with w ∅ None) client "test.db"
                    "SELECT id, name, score FROM users;" None 10 Strong) with
       | Ok resp =>
           q_total_rows resp = 1 /\ map col_name (q_columns resp) = ["id"; "name"; "score"] /\
           match q_rows resp with (_ :: v :: _) :: _ => v = Some (TextValue "Alice") | _ => False end
       | Err _ => False
       end /\
       match fst (unified_batch no_network (engine_with w ∅ None) client "test.db"
                    (map stmt ["INSERT INTO users (name, score) VALUES ('Bob', 88.0);";
                               "INSERT INTO users (name, score) VALUES ('Charlie', 72.5);"]) ModeImmediate true) with
       | Ok resp => length (results resp) = 2%nat
       | Err _ => False
       end) /\
      match fst (unified_get_cluster_status no_network
                   (engine_with ∅ ∅ (Some (FsDir "" [file "test.db"]))) client) with
      | Ok status =>
          cs_node_id status = "standalone-edge" /\ cs_role status = Writer /\
          map db_name (cs_databases status) = ["test.db"]
      | Err _ => False
      end /\
      local_drop client {["/data/test.db"]} = Ok (true, 1) /\ local_drop client ∅ = Ok (false, 1)
  | Err _ => False
  end.

(** [MockGateway]: one reply for every call of a kind, or a failure. *)
Definition mock_reply {A} (fail : bool) (what : string) (reply : A) : Result Status A :=
  if fail then Err (status Internal ("mock " +++ what +++ " failure")) else Ok reply.
Definition mock_gateway (fail : bool) : RpcNetwork :=
  mk_network
    (fun c _ => match discovery c with Direct ep => Ok ep | _ => Err (Discovery "not direct" None) end)
    (fun _ => None) (fun _ _ => None)
    (fun _ _ _ _ _ => mock_reply fail "execute" (mk_execute_response 1 42 1))
    (fun _ _ _ _ _ _ _ _ => mock_reply fail "query" (mk_query_response [] [] 0 1 false))
    (fun _ _ _ _ _ _ _ _ => mock_reply fail "stream_query" [Ok (mk_chunk [] [] true 0)])
    (fun _ _ _ _ _ _ _ => mock_reply fail "batch" (mk_batch_response [] 1 true))
    (fun _ _ _ _ => mock_reply fail "drop_database" (true, 1))
    (fun _ _ _ => mock_reply fail "get_cluster_status"
                    (mk_cluster_status "mock-node" Writer 1 None "mock-node" "" [] 0 "mock")).
Definition remote_config (endpoint : string) : ClientConfig :=
  with_max_retries 1 (client_config_new (Direct endpoint)).
Definition remote_client : UnifiedClient := Remote (client_new (remote_config "http://127.0.0.1:40001")).
Definition no_engine : string -> GatewayEngine := engine_with ∅ ∅ None.
Definition test_remote_client_crud_and_status_happy_path : Prop :=
  let net := mock_gateway false in
  unified_new (fun _ => Ok tt) (TargetRemote (remote_config "http://127.0.0.1:40001")) = Ok remote_client /\
  is_local remote_client = false /\
  fst (unified_execute net no_engine remote_client "test.db" "INSERT INTO t VALUES (1);" None)
    = Ok (mk_execute_response 1 42 1) /\
  match fst (unified_query net no_engine remote_client "test.db" "SELECT 1;" None 10 Strong) with
  | Ok resp => q_total_rows resp = 0
  | Err _ => False
  end /\
  match fst (unified_batch net no_engine remote_client "test.db" [stmt "INSERT INTO t VALUES (2);"]
               ModeImmediate true) with
  | Ok resp => committed resp = true
  | Err _ => False
  end /\
  match fst (unified_get_cluster_status net no_engine remote_client) with
  | Ok status => cs_node_id status = "mock-node" /\ cs_role status = Writer
  | Err _ => False
  end /\
  fst (unified_drop_database net no_engine remote_client "test.db") = Ok (true, 1).
Definition test_from_remote_constructs_remote_backend : Prop :=
  is_local remote_client = false /\
  match fst (unified_get_cluster_status (mock_gateway false) no_engine remote_client) with
  | Ok status => cs_node_id status = "mock-node"
  | Err _ => False
  end.
Definition test_remote_client_surfaces_rpc_errors : Prop :=
  let net := mock_gateway true in
  is_err (fst (unified_execute net no_engine remote_client "test.db" "INSERT INTO t VALUES (1);" None)) = true /\
  is_err (fst (unified_query net no_engine remote_client "test.db" "SELECT 1;" None 10 Strong)) = true /\
  is_err (fst (unified_batch net no_engine remote_client "test.db" [stmt "INSERT INTO t VALUES (2);"]
                 ModeImmediate true)) = true /\
  is_err (fst (unified_get_cluster_status net no_engine remote_client)) = true /\
  is_err (fst (unified_drop_database net no_engine remote_client "test.db")) = true.

(** Nothing listens on the port: connecting fails. *)
Definition unreachable_network : RpcNetwork :=
  let down {A} : Result Status A := Err (status Unavailable "down") in
  mk_network (fun _ _ => Ok "http://127.0.0.1:40002") (fun _ => None)
    (fun _ _ => Some "Connection refused (os error 111)")
    (fun _ _ _ _ _ => down) (fun _ _ _ _ _ _ _ _ => down) (fun _ _ _ _ _ _ _ _ => down)
    (fun _ _ _ _ _ _ _ => down) (fun _ _ _ _ => down) (fun _ _ _ => down).
Definition client_connect_error_maps_to_network : Prop :=
  match fst (gw_execute unreachable_network
               (client_new (with_timeout 500 (remote_config "http://127.0.0.1:40002")))
               "app.db" "CREATE TABLE t (id INTEGER)" None) with
  | Err e => match sync_error_from e with Network _ => True | _ => False end
  | Ok _ => False
  end.

Definition remote_tests : list Prop :=
  [test_sync_error_display_and_constructors; client_rpc_error_maps_to_protocol;
   round_trip_all_message_types; invalid_group_hashes_length; invalid_page_hashes_mismatch;
   empty_payload_rejected; stdio_transport_round_trip_via_duplex;
   stdio_transport_recv_unexpected_eof; stdio_transport_send_failure;
   send_errors_when_transport_is_closed; recv_errors_when_transport_is_closed;
   recv_uses_prebuffer_before_reading_stdout; recv_reports_unexpected_eof;
   close_reaps_child_process; common_options_non_interactive_disables_prompts;
   common_options_interactive_allows_prompts;
   common_options_includes_extra_ssh_opts_and_control_path;
   control_path_for_produces_short_socket_path_in_tmp;
   cleanup_control_path_removes_existing_file; cleanup_control_path_tolerates_missing_file;
   connect_uses_fake_ssh_binary_and_bridges_stdio; connect_surfaces_authentication_failure;
   ssh_connect_options_default; snapshot_drop_allows_new_snapshot;
   snapshot_read_page_zero_errors; snapshot_read_page_beyond_page_count_errors;
   test_local_client_crud_and_status; test_remote_client_crud_and_status_happy_path;
   test_from_remote_constructs_remote_backend; test_remote_client_surfaces_rpc_errors;
   client_connect_error_maps_to_network].
End RemoteTests.

(** The unit tests of the transports, of the snapshots, of the errors and of the unified client hold
    of the model. *)
Theorem remote_tests_hold : RemoteTests.all_hold RemoteTests.remote_tests.
Proof.
  unfold RemoteTests.all_hold, RemoteTests.remote_tests.
  repeat (apply Forall_cons; split; [vm_compute; split_and?; (done || congruence)|]). apply Forall_nil_2.
Qed.
