(* ===== verification/Cli.v ===== *)
(** * Command-line client (src/src/cli/client.rs)

    Choice of the target from options and environment, the commands, and the
    interactive shell as a state machine over the lines it reads.  The client is the
    interface [SqlClient]; the unified client is an instance of it. *)

From S2P Require Import Prelude RustStr Errors Endpoint RustText Ha Auth Engine Server Client.
From S2P Require Import CliText Unified.

(** ** Options *)

Inductive CliRuntimeMode := ModeAuto | ModeLocal | ModeCluster.
Inductive CliTxMode := TxDeferred | TxImmediate | TxExclusive | TxNone.
Inductive CliConsistency := CliStrong | CliEventual.

Definition tx_mode_from (m : CliTxMode) : BatchTransactionMode :=
  match m with
  | TxDeferred => ModeDeferred
  | TxImmediate => ModeImmediate
  | TxExclusive => ModeExclusive
  | TxNone => ModeNone
  end.

Definition consistency_from (c : CliConsistency) : ConsistencyLevel :=
  match c with CliStrong => Strong | CliEventual => Eventual end.

Record ClientConnectionArgs := mk_conn_args {
  arg_mode : CliRuntimeMode;
  arg_data_dir : option string;
  arg_endpoint : option string;
  arg_endpoints : list string;
  arg_kube_lease : option string;
  arg_kube_namespace : string;
  arg_kube_service : string;
  arg_kube_context : option string;
  arg_kubeconfig : option string;
  arg_kubectl_path : string;
  arg_grpc_port : Z;
  arg_max_retries : Z;
  arg_timeout : Z;                  (* seconds *)
  arg_token : option string;
}.

(** The lease a resolver reads, and how it names the holder's endpoint. *)
Record KubeLeaseResolver := mk_kube_resolver {
  kr_kubectl_path : string;
  kr_namespace : string;
  kr_lease_name : string;
  kr_context : option string;
  kr_kubeconfig : option string;
  kr_service_name : string;
  kr_grpc_port : Z;
}.

(** [spawned]: the join of the blocking task, and the result of [read_lease] in it. *)
Definition kube_resolve (r : KubeLeaseResolver)
    (spawned : Result string (Result string (option LeaseRecord))) : Result string string :=
  let? lease_result := spawned in
  let? lease := lease_result in
  let? lease := ok_or lease "k8s lease has no active holder" in
  let host :=
    if is_empty (kr_service_name r) then holder_node_id lease
    else holder_node_id lease +++ "." +++ kr_service_name r in
  Ok ("http://" +++ host +++ ":" +++ show_Z (kr_grpc_port r)).

(** [opt.map(str::trim).filter(|s| !s.is_empty())]. *)
Definition trimmed_nonempty (o : option string) : option string :=
  match o with
  | Some s => if is_empty (trim s) then None else Some (trim s)
  | None => None
  end.

Definition valid_endpoints (a : ClientConnectionArgs) : list string :=
  List.filter (fun s => negb (is_empty s)) (map trim (arg_endpoints a)).

(** The configuration, and the resolver its [Custom] discovery calls. *)
Definition to_client_config (a : ClientConnectionArgs) : ClientConfig * option KubeLeaseResolver :=
  let '(discovery, resolver) :=
    match trimmed_nonempty (arg_endpoint a) with
    | Some ep => (Direct ep, None)
    | None =>
        match trimmed_nonempty (arg_kube_lease a) with
        | Some lease_name =>
            (Custom, Some (mk_kube_resolver (arg_kubectl_path a) (arg_kube_namespace a) lease_name
                             (arg_kube_context a) (arg_kubeconfig a) (arg_kube_service a)
                             (arg_grpc_port a)))
        | None =>
            match valid_endpoints a with
            | [] => (Direct "http://127.0.0.1:50051", None)
            | eps => (Candidates eps, None)
            end
        end
    end in
  (mk_client_config discovery (arg_max_retries a) 100 2000 (arg_timeout a * 1000)
     (trimmed_nonempty (arg_token a)), resolver).

Definition NO_DATA_DIR : string :=
  "local mode requires a data directory via --data-dir (-D) or RSQLITE_DATA_DIR".

Definition is_some {A} (o : option A) : bool := match o with Some _ => true | None => false end.

(** [env] is [std::env::var]. *)
Definition to_client_target (env : string -> option string) (a : ClientConnectionArgs)
  : SyncResult ClientTarget :=
  let remote := Ok (TargetRemote (fst (to_client_config a))) in
  match arg_mode a with
  | ModeLocal =>
      match arg_data_dir a with
      | Some data_dir => Ok (TargetLocal data_dir)
      | None =>
          match env "RSQLITE_DATA_DIR" with
          | Some dir =>
              if negb (is_empty (trim dir)) then Ok (TargetLocal (trim dir))
              else Err (Protocol NO_DATA_DIR)
          | None => Err (Protocol NO_DATA_DIR)
          end
      end
  | ModeCluster => remote
  | ModeAuto =>
      let has_endpoint := is_some (trimmed_nonempty (arg_endpoint a)) in
      let has_endpoints := existsb (fun s => negb (is_empty (trim s))) (arg_endpoints a) in
      let has_kube_lease := is_some (trimmed_nonempty (arg_kube_lease a)) in
      if has_endpoint || has_endpoints || has_kube_lease then remote else
      match arg_data_dir a with
      | Some data_dir => Ok (TargetLocal data_dir)
      | None =>
          match env "RSQLITE_DATA_DIR" with
          | Some dir =>
              let set v := is_some (trimmed_nonempty (env v)) in
              if negb (is_empty (trim dir)) && negb (set "RSQLITE_ENDPOINT") &&
                 negb (set "RSQLITE_ENDPOINTS") && negb (set "RSQLITE_KUBE_LEASE")
              then Ok (TargetLocal (trim dir)) else remote
          | None => remote
          end
      end
  end.

Definition to_client (env : string -> option string) (engine_new : string -> SyncResult unit)
    (a : ClientConnectionArgs) : SyncResult UnifiedClient :=
  let? target := to_client_target env a in unified_new engine_new target.

(** ** The client as the commands see it *)
Class SqlClient (C : Type) := {
  c_execute : C -> string -> string -> option Parameters -> SyncResult ExecuteResponse * C;
  c_query : C -> string -> string -> option Parameters -> Z -> ConsistencyLevel ->
            SyncResult QueryResponse * C;
  c_batch : C -> string -> list Statement -> BatchTransactionMode -> bool ->
            SyncResult BatchResponse * C;
  c_drop : C -> string -> SyncResult (bool * Z) * C;
  c_status : C -> SyncResult ClusterStatusResponse * C;
}.

Definition unified_client (net : RpcNetwork) (engine : string -> GatewayEngine)
  : SqlClient UnifiedClient := {|
  c_execute := unified_execute net engine;
  c_query := unified_query net engine;
  c_batch := unified_batch net engine;
  c_drop := unified_drop_database net engine;
  c_status := unified_get_cluster_status net engine;
|}.

(** ** Cluster status *)

(** [NodeRole] on the wire, and its text. *)
Definition role_as_i32 (role : NodeRole) : Z := match role with Writer => 1 | Replica => 2 end.

Definition node_role_str (role : Z) : string :=
  match role with 1 => "writer" | 2 => "replica" | _ => "unspecified" end.

(** Holder, seconds left and expiry of the lease in a status. *)
Definition lease_summary (status : ClusterStatusResponse) (now_secs : Z) : string * Z * bool :=
  match cs_lease status with
  | Some l =>
      (holder_node_id (ls_lease l),
       sat_sub64 (sat_add64 (renewed_at_secs (ls_lease l)) (ttl_secs (ls_lease l))) now_secs,
       ls_is_expired l)
  | None => ("", 0, false)
  end.

Definition database_json (db : DatabaseInfo) : gmap string JsonValue :=
  list_to_map
    [("name", JString (db_name db)); ("file_size_bytes", JInt (file_size_bytes db));
     ("page_size", JInt (db_page_size db)); ("page_count", JInt (db_page_count db));
     ("journal_mode", JString (db_journal_mode db))].

Definition database_cells (db : DatabaseInfo) : list Cell :=
  map (fun t => mk_cell t Plain)
    [db_name db; format_bytes (file_size_bytes db); show_Z (db_page_count db);
     show_Z (db_page_size db) +++ " B"; db_journal_mode db].

Definition print_cluster_status (now_secs : Z) (status : ClusterStatusResponse) (format : OutputFormat)
  : list Output :=
  let role_str := node_role_str (role_as_i32 (cs_role status)) in
  let '(lease_holder, lease_remaining_secs, lease_expired) := lease_summary status now_secs in
  match format with
  | Json =>
      [JsonStatus
         (list_to_map
            [("node_id", JString (cs_node_id status)); ("role", JString role_str);
             ("current_leader_id", JString (cs_leader_id status));
             ("current_leader_endpoint", JString (cs_leader_endpoint status));
             ("local_generation", JInt (cs_local_generation status));
             ("lease_holder", JString lease_holder);
             ("lease_remaining_secs", JInt lease_remaining_secs);
             ("lease_expired", JBool lease_expired);
             ("uptime_secs", JInt (cs_uptime_secs status)); ("version", JString (cs_version status))])
         (map database_json (cs_databases status))]
  | _ =>
      [Line ("Cluster Node: " +++ cs_node_id status); Line ("Role:         " +++ role_str);
       Line ("Generation:   " +++ show_Z (cs_local_generation status));
       Line ("Version:      " +++ cs_version status); Line ("Uptime:       " +++ show_Z (cs_uptime_secs status) +++ "s");
       Line ("Active Leader:" +++ (if is_empty (cs_leader_id status) then "none" else cs_leader_id status))] ++
      (if is_empty (cs_leader_endpoint status) then []
       else [Line ("Leader URL:   " +++ cs_leader_endpoint status)]) ++
      (if is_empty lease_holder then []
       else [Line ("Lease Holder: " +++ lease_holder +++ " (remaining: " +++
                   show_Z lease_remaining_secs +++ "s" +++ (if lease_expired then ", EXPIRED" else "") +++ ")")]) ++
      [Line ""] ++
      (match cs_databases status with
       | [] => [Line "No databases registered."]
       | dbs =>
           [Grid (map (fun t => mk_cell t Cyan) ["Database"; "Size"; "Pages"; "Page Size"; "Journal Mode"])
              (map database_cells dbs)]
       end)
  end.

(** ** The interactive shell *)

(** [dirs_next_history_path], from the variable [HOME]; [join] of [Engine]. *)
Definition dirs_next_history_path (home : option string) : option string :=
  option_map (fun home => join home ".rsqlite_history") home.

Inductive ReadLine :=
| LineRead (s : string)
| Interrupted
| Eof
| ReadlineFailed (text : string).

Record ReplState (C : Type) := mk_repl {
  current_db : string;
  current_format : OutputFormat;
  repl_client : C;
}.
Arguments mk_repl {C}.
Arguments current_db {C}.
Arguments current_format {C}.
Arguments repl_client {C}.

Definition TABLES_SQL : string :=
  "SELECT name FROM sqlite_master WHERE type='table' AND name NOT LIKE 'sqlite_%' ORDER BY name;".
Definition SCHEMA_SQL : string :=
  "SELECT sql FROM sqlite_master WHERE type='table' AND name NOT LIKE 'sqlite_%' ORDER BY name;".
Definition TABLE_SCHEMA_SQL : string := "SELECT sql FROM sqlite_master WHERE type='table' AND name=?;".

Definition HELP : list Output :=
  map Line ["Metacommands:";
            "  .help                   Show this help menu";
            "  .tables                 List tables in the current database";
            "  .schema [TABLE]         Show CREATE statement for table(s)";
            "  .database [NAME]        Show or change active database";
            "  .mode [table|json|csv|tsv|raw]  Change output display format";
            "  .status                 Show cluster leadership & status";
            "  .read <FILE>            Execute SQL script from file";
            "  .quit                   Exit REPL"].

Definition parse_format (s : string) : Result string OutputFormat :=
  let m := to_lowercase s in
  if String.eqb m "table" then Ok Table
  else if String.eqb m "json" then Ok Json
  else if String.eqb m "csv" then Ok Csv
  else if String.eqb m "tsv" then Ok Tsv
  else if String.eqb m "raw" then Ok Raw
  else Err m.

Section Repl.
Context {C : Type} `{!SqlClient C}.
Variable read_file : string -> Result string string.
Variable show_f64 : Z -> string.
Variable is_finite : Z -> bool.
Variable elapsed : string.
Variable now_secs : Z.   (* the clock, when a status is printed *)

Definition with_client (st : ReplState C) (c : C) : ReplState C :=
  mk_repl (current_db st) (current_format st) c.

Definition error_line (prefix : string) (e : SyncError) : Output :=
  ErrLine (prefix +++ SyncError_to_string e).

(** A query printed in the current format. *)
Definition repl_query (st : ReplState C) (sql : string) : list Output * ReplState C :=
  let '(r, c) := c_query (repl_client st) (current_db st) sql None 0 Strong in
  (match r with
   | Ok resp => print_query_response show_f64 is_finite elapsed resp (current_format st)
   | Err e => [error_line "Error: " e]
   end, with_client st c).

Definition repl_execute (st : ReplState C) (sql : string) : list Output * ReplState C :=
  let '(r, c) := c_execute (repl_client st) (current_db st) sql None in
  (match r with
   | Ok resp => print_execute_response elapsed resp
   | Err e => [error_line "Error: " e]
   end, with_client st c).

(** [println!("{sql_text};\n")] for each row whose first value is a text. *)
Definition schema_line (row : Row) : list Output :=
  match row with
  | Some (TextValue sql_text) :: _ => [Line (sql_text +++ ";" +++ nl)]
  | _ => []
  end.

Definition repl_schema (st : ReplState C) (table : option string) : list Output * ReplState C :=
  let '(sql, params) :=
    match table with
    | Some t => (TABLE_SCHEMA_SQL, Some (mk_parameters [Some (TextValue t)] []))
    | None => (SCHEMA_SQL, None)
    end in
  let '(r, c) := c_query (repl_client st) (current_db st) sql params 0 Strong in
  (match r with
   | Ok resp => concat (map schema_line (q_rows resp))
   | Err e => [error_line "Error: " e]
   end, with_client st c).

Definition repl_read (st : ReplState C) (file_path : string) : list Output * ReplState C :=
  match read_file file_path with
  | Err e => ([ErrLine ("Failed to read file '" +++ file_path +++ "': " +++ e)], st)
  | Ok content =>
      let stmts := split_sql_statements content in
      let '(r, c) := c_batch (repl_client st) (current_db st) stmts ModeDeferred true in
      (Line ("Executing " +++ show_Z (zlen stmts) +++ " statements from " +++ file_path +++ "...") ::
       match r with
       | Ok resp => print_batch_response elapsed resp
       | Err e => [error_line "Batch execution failed: " e]
       end, with_client st c)
  end.

Definition repl_mode (st : ReplState C) (mode : option string) : list Output * ReplState C :=
  match mode with
  | Some mode_str =>
      match parse_format mode_str with
      | Ok f => ([Line ("Output mode: " +++ show_format f)],
                 mk_repl (current_db st) f (repl_client st))
      | Err other =>
          ([ErrLine ("Unknown output format: '" +++ other +++ "'. Available: table, json, csv, tsv, raw");
            Line ("Output mode: " +++ show_format (current_format st))], st)
      end
  | None => ([Line ("Current output mode: " +++ show_format (current_format st))], st)
  end.

Definition one_of (name : string) (names : list string) : bool := existsb (String.eqb name) names.

(** The output, whether to leave, and the new state. *)
Definition handle_metacommand (st : ReplState C) (cmd : string)
  : list Output * SyncResult bool * ReplState C :=
  let parts := split_whitespace cmd in
  let name := default "" (head parts) in
  let arg := head (tail parts) in
  let stay '(out, st) := (out, Ok false, st) in
  if one_of name [".quit"; ".exit"; ".q"] then ([], Ok true, st)
  else if one_of name [".help"; ".h"] then (HELP, Ok false, st)
  else if one_of name [".tables"] then stay (repl_query st TABLES_SQL)
  else if one_of name [".schema"] then stay (repl_schema st arg)
  else if one_of name [".database"; ".db"] then
    match arg with
    | Some new_db =>
        ([Line ("Switched active database to '" +++ new_db +++ "'")], Ok false,
         mk_repl new_db (current_format st) (repl_client st))
    | None => ([Line ("Active database: '" +++ current_db st +++ "'")], Ok false, st)
    end
  else if one_of name [".mode"] then stay (repl_mode st arg)
  else if one_of name [".status"] then
    let '(r, c) := c_status (repl_client st) in
    (match r with
     | Ok s => print_cluster_status now_secs s (current_format st)
     | Err e => [error_line "Error querying status: " e]
     end, Ok false, with_client st c)
  else if one_of name [".read"] then
    match arg with
    | Some file_path => stay (repl_read st file_path)
    | None => ([ErrLine "Usage: .read <PATH_TO_SQL_FILE>"], Ok false, st)
    end
  else ([ErrLine ("Unknown metacommand: '" +++ name +++ "'. Type .help for available commands.")],
        Ok false, st).

(** One line: the output, whether to leave, and the new state. *)
Definition repl_line (st : ReplState C) (input : ReadLine)
  : list Output * SyncResult bool * ReplState C :=
  match input with
  | LineRead line =>
      let trimmed := trim line in
      if is_empty trimmed then ([], Ok false, st)
      else if starts_with "." trimmed then handle_metacommand st trimmed
      else
        let '(out, st) :=
          if is_query_sql trimmed then repl_query st trimmed else repl_execute st trimmed in
        (out, Ok false, st)
  | Interrupted => ([Line "^C"], Ok false, st)
  | Eof => ([Line ""], Ok true, st)
  | ReadlineFailed err => ([ErrLine ("Readline error: " +++ err)], Ok true, st)
  end.

(** The loop over the lines read; [None] while the shell waits for the next one. *)
Fixpoint repl_loop (st : ReplState C) (inputs : list ReadLine)
  : list Output * option (SyncResult unit) * ReplState C :=
  match inputs with
  | [] => ([], None, st)
  | input :: inputs =>
      let '(out, r, st) := repl_line st input in
      match r with
      | Err e => (out, Some (Err e), st)
      | Ok true => (out, Some (Ok tt), st)
      | Ok false => let '(rest, r, st) := repl_loop st inputs in (out ++ rest, r, st)
      end
  end.

(** [editor] is the construction of the line editor. *)
Definition run_repl (editor : Result string unit) (client : C) (initial_db : string)
    (initial_format : OutputFormat) (inputs : list ReadLine)
  : list Output * option (SyncResult unit) * C :=
  match editor with
  | Err e => ([], Some (Err (Protocol ("failed to initialize readline: " +++ e))), client)
  | Ok _ =>
      let '(out, r, st) := repl_loop (mk_repl initial_db initial_format client) inputs in
      (Line "rsqlite-rsync SQL Gateway Interactive Shell" ::
       Line "Type .help for instructions, .quit to exit." :: out, r, repl_client st)
  end.
End Repl.

(** ** Commands *)

Inductive ClientCommand :=
| Exec (database sql : string) (params : list string)
| Query (database sql : string) (params : list string) (format : OutputFormat) (max_rows : Z)
    (consistency : CliConsistency)
| Batch (database : string) (file sql : option string) (tx_mode : CliTxMode) (stop_on_error : bool)
| Status (format : OutputFormat)
| Repl (database : string) (format : OutputFormat)
| DropDatabase (database : string) (yes : bool).

(** [flush] of the prompt and the line read from standard input. *)
Definition confirm_drop_database (flush : option string) (input : Result string string)
  : SyncResult bool :=
  match flush with
  | Some e => Err (Protocol ("failed to flush stdout: " +++ e))
  | None =>
      match input with
      | Err e => Err (Protocol ("failed to read confirmation: " +++ e))
      | Ok line =>
          let answer := to_lowercase (trim line) in
          Ok (String.eqb answer "y" || String.eqb answer "yes")
      end
  end.

Section Commands.
Context {C : Type} `{!SqlClient C}.
Variable read_file : string -> Result string string.
Variables (show_f64 : Z -> string) (parse_f64 : string -> option Z) (is_finite : Z -> bool).
Variable elapsed : string.
Variable now_secs : Z.   (* the clock, when a status is printed *)
(** Standard input: the confirmation of a drop, and the lines of the shell. *)
Variables (flush : option string) (confirmation : Result string string).
Variables (editor : Result string unit) (inputs : list ReadLine).

(** What a command leaves: output, result ([None]: the shell is still waiting), client. *)
Definition CommandResult : Type := list Output * option (SyncResult unit) * C.

(** [let resp = client.op(..).await?; print(resp)]. *)
Definition printed {A} (r : SyncResult A * C) (print : A -> list Output) : CommandResult :=
  match r with
  | (Ok resp, c) => (print resp, Some (Ok tt), c)
  | (Err e, c) => ([], Some (Err e), c)
  end.

Definition print_drop (database : string) (resp : bool * Z) : list Output :=
  let '(existed, gen) := resp in
  if existed then [Line ("Dropped database '" +++ database +++ "' (generation " +++ show_Z gen +++ ").")]
  else [Line ("Database '" +++ database +++ "' did not exist.")].

Definition batch_content (file sql : option string) : SyncResult string :=
  match file with
  | Some path =>
      map_err (fun e => Protocol ("failed to read SQL file " +++ path +++ ": " +++ e)) (read_file path)
  | None =>
      ok_or sql (Protocol "either --file or --sql must be provided for batch execution")
  end.

Definition run_client_command (client : C) (cmd : ClientCommand) : CommandResult :=
  match cmd with
  | Exec database sql params =>
      match parse_cli_parameters parse_f64 params with
      | Err e => ([], Some (Err e), client)
      | Ok parameters =>
          printed (c_execute client database sql parameters) (print_execute_response elapsed)
      end
  | Query database sql params format max_rows consistency =>
      match parse_cli_parameters parse_f64 params with
      | Err e => ([], Some (Err e), client)
      | Ok parameters =>
          printed (c_query client database sql parameters max_rows (consistency_from consistency))
            (fun resp => print_query_response show_f64 is_finite elapsed resp format)
      end
  | Batch database file sql tx_mode stop_on_error =>
      match batch_content file sql with
      | Err e => ([], Some (Err e), client)
      | Ok sql_content =>
          match split_sql_statements sql_content with
          | [] => ([Line "No statements to execute."], Some (Ok tt), client)
          | statements =>
              printed (c_batch client database statements (tx_mode_from tx_mode) stop_on_error)
                (print_batch_response elapsed)
          end
      end
  | Status format => printed (c_status client) (fun s => print_cluster_status now_secs s format)
  | Repl database format =>
      run_repl read_file show_f64 is_finite elapsed now_secs editor client database format inputs
  | DropDatabase database yes =>
      let drop := printed (c_drop client database) (print_drop database) in
      if yes then drop else
      match confirm_drop_database flush confirmation with
      | Err e => ([], Some (Err e), client)
      | Ok true => drop
      | Ok false => ([Line "Aborted."], Some (Ok tt), client)
      end
  end.

Definition run_sql_shorthand (client : C) (database sql : string) (format : OutputFormat)
  : CommandResult :=
  if is_query_sql sql
  then printed (c_query client database sql None 0 Strong)
         (fun resp => print_query_response show_f64 is_finite elapsed resp format)
  else printed (c_execute client database sql None) (print_execute_response elapsed).
End Commands.

(** ** Claims *)

(** A client that keeps a record of the operations asked of it. *)
Inductive ClientOp :=
| OpExecute (db sql : string) (p : option Parameters)
| OpQuery (db sql : string) (p : option Parameters) (max_rows : Z) (c : ConsistencyLevel)
| OpBatch (db : string) (ss : list Statement) (m : BatchTransactionMode) (stop : bool)
| OpDrop (db : string)
| OpStatus.

Definition record {A C} (op : ClientOp) (log : list ClientOp) (r : A * C) : A * (C * list ClientOp) :=
  (fst r, (snd r, log ++ [op])).

#[export] Instance recording {C} `{!SqlClient C} : SqlClient (C * list ClientOp) := {|
  c_execute c db sql p := record (OpExecute db sql p) (snd c) (c_execute (fst c) db sql p);
  c_query c db sql p n l := record (OpQuery db sql p n l) (snd c) (c_query (fst c) db sql p n l);
  c_batch c db ss m b := record (OpBatch db ss m b) (snd c) (c_batch (fst c) db ss m b);
  c_drop c db := record (OpDrop db) (snd c) (c_drop (fst c) db);
  c_status c := record OpStatus (snd c) (c_status (fst c));
|}.

(** An operation the shell may ask for: on the given database, never a drop. *)
Definition on_database (db : string) (op : ClientOp) : Prop :=
  match op with
  | OpExecute d _ _ | OpQuery d _ _ _ _ | OpBatch d _ _ _ => d = db
  | OpStatus => True
  | OpDrop _ => False
  end.

(** The lines that end the shell. *)
Definition leaves (input : ReadLine) : bool :=
  match input with
  | LineRead l =>
      starts_with "." (trim l) &&
      one_of (default "" (head (split_whitespace (trim l)))) [".quit"; ".exit"; ".q"]
  | Interrupted => false
  | Eof | ReadlineFailed _ => true
  end.

Section ShellClaims.
Context {C : Type} `{!SqlClient C}.
Variable read_file : string -> Result string string.
Variables (show_f64 : Z -> string) (is_finite : Z -> bool) (elapsed : string).
Variable now_secs : Z.   (* the clock, when a status is printed *)
Let line := repl_line (C := C) read_file show_f64 is_finite elapsed now_secs.

Lemma metacommand_result st cmd :
  snd (fst (handle_metacommand (C := C) read_file show_f64 is_finite elapsed now_secs st cmd))
  = Ok (one_of (default "" (head (split_whitespace cmd))) [".quit"; ".exit"; ".q"]).
Proof.
  unfold handle_metacommand. set (name := default "" _).
  destruct (one_of name [".quit"; ".exit"; ".q"]); [done|]. repeat (case_match; try done).
Qed.

Lemma line_result st input : snd (fst (line st input)) = Ok (leaves input).
Proof.
  destruct input as [l| | |e]; try done. unfold line, repl_line, leaves.
  destruct (is_empty (trim l)) eqn:Ee; [by destruct (trim l)|].
  destruct (starts_with "." (trim l)); [apply metacommand_result|].
  by destruct (if is_query_sql (trim l) then _ else _).
Qed.

(** The shell survives every error: whatever the client, the files and the lines, it never
    ends with an error, and it ends exactly at the first line that asks it to
    (quit, end of input, or a failing terminal). *)
Theorem shell_ends_on_request st inputs :
  snd (fst (repl_loop (C := C) read_file show_f64 is_finite elapsed now_secs st inputs)) =
  if existsb leaves inputs then Some (Ok tt) else None.
Proof.
  revert st. induction inputs as [|i inputs IH]; intros st; [done|]. cbn [repl_loop existsb].
  pose proof (line_result st i) as Hr. unfold line in Hr.
  destruct (repl_line _ _ _ _ _ st i) as [[out r] st']. cbn in Hr. subst r.
  destruct (leaves i); [done|]. cbn [orb]. rewrite <- (IH st').
  by destruct (repl_loop _ _ _ _ _ st' inputs) as [[? ?] ?].
Qed.
End ShellClaims.

Section RecordedClaims.
Context {C : Type} `{!SqlClient C}.
Variable read_file : string -> Result string string.
Variables (show_f64 : Z -> string) (is_finite : Z -> bool) (elapsed : string).
Variable now_secs : Z.   (* the clock, when a status is printed *)

(** What one line asks of the client. *)
Definition one_op (st st' : ReplState (C * list ClientOp)) : Prop :=
  exists ops, snd (repl_client st') = snd (repl_client st) ++ ops /\ (length ops <= 1)%nat /\
    Forall (on_database (current_db st)) ops.

Lemma one_op_none st : one_op st st.
Proof. exists []. rewrite app_nil_r. split; [done|]. split; [cbn; lia|constructor]. Qed.

Lemma one_op_none' st db f : one_op st (mk_repl db f (repl_client st)).
Proof. exists []. cbn. rewrite app_nil_r. split; [done|]. split; [cbn; lia|constructor]. Qed.

Lemma one_op_some st c op : on_database (current_db st) op ->
  one_op st (with_client st (c, snd (repl_client st) ++ [op])).
Proof. intros Ho. exists [op]. split; [done|]. split; [done|]. by repeat constructor. Qed.

Lemma query_op st sql : one_op st (snd (repl_query show_f64 is_finite elapsed st sql)).
Proof. unfold repl_query. cbn. by apply one_op_some. Qed.

Lemma execute_op st sql : one_op st (snd (repl_execute elapsed st sql)).
Proof. unfold repl_execute. cbn. by apply one_op_some. Qed.

Lemma schema_op st t : one_op st (snd (repl_schema st t)).
Proof. unfold repl_schema. destruct t; cbn; by apply one_op_some. Qed.

Lemma read_op st f : one_op st (snd (repl_read read_file elapsed st f)).
Proof. unfold repl_read. destruct (read_file f); cbn; [by apply one_op_some|apply one_op_none]. Qed.

Lemma mode_op st m : one_op st (snd (repl_mode st m)).
Proof.
  unfold repl_mode. destruct m as [m|]; [destruct (parse_format m)|]; cbn;
    auto using one_op_none, one_op_none'.
Qed.

Lemma stay_snd {A B D} (x : A * B) (d : D) : snd (let '(a, b) := x in (a, d, b)) = snd x.
Proof. by destruct x. Qed.

(** A line typed into the shell makes at most one request, and it is addressed to the
    database that is current; no line drops a database. *)
Theorem shell_line_addresses_current_db st input :
  exists ops,
    snd (repl_client (snd (repl_line read_file show_f64 is_finite elapsed now_secs st input))) =
      snd (repl_client st) ++ ops /\
    (length ops <= 1)%nat /\ Forall (on_database (current_db st)) ops.
Proof.
  change (one_op st (snd (repl_line read_file show_f64 is_finite elapsed now_secs st input))).
  destruct input as [l| | |e]; try apply one_op_none. unfold repl_line.
  destruct (is_empty (trim l)); [apply one_op_none|].
  destruct (starts_with "." (trim l)).
  2:{ rewrite stay_snd. destruct (is_query_sql (trim l)); auto using query_op, execute_op. }
  unfold handle_metacommand. set (name := default "" _). set (arg := head _).
  destruct (one_of name _); [apply one_op_none|].
  destruct (one_of name _); [apply one_op_none|].
  destruct (one_of name _); [rewrite stay_snd; apply query_op|].
  destruct (one_of name _); [rewrite stay_snd; apply schema_op|].
  destruct (one_of name _); [destruct arg; cbn; auto using one_op_none, one_op_none'|].
  destruct (one_of name _); [rewrite stay_snd; apply mode_op|].
  destruct (one_of name _); [cbn; by apply one_op_some|].
  destruct (one_of name _); [|apply one_op_none].
  destruct arg; [rewrite stay_snd; apply read_op|apply one_op_none].
Qed.

Variables (parse_f64 : string -> option Z) (flush : option string).
Variables (editor : Result string unit) (inputs : list ReadLine).

(** Without [--yes], a database is dropped only after an explicit "y" or "yes": with any
    other answer, or none, no operation at all is asked of the client. *)
Theorem drop_needs_consent (client client' : C * list ClientOp) db confirmation out r :
  run_client_command read_file show_f64 parse_f64 is_finite elapsed now_secs flush confirmation
    editor inputs client (DropDatabase db false) = (out, r, client') ->
  confirm_drop_database flush confirmation <> Ok true -> client' = client.
Proof.
  cbn. destruct (confirm_drop_database flush confirmation) as [[]|e]; [done|..];
    by intros [= _ _ <-].
Qed.
End RecordedClaims.

(** ** Target selection *)

(** Local mode never opens a network connection; in automatic mode a given endpoint, list of
    endpoints or lease selects the cluster even when a data directory is set, and
    only without all of them the data directory is used.  Within the cluster an
    endpoint precedes a lease, which precedes the candidates. *)
Theorem target_selection env a :
  let named := is_some (trimmed_nonempty (arg_endpoint a)) ||
               existsb (fun s => negb (is_empty (trim s))) (arg_endpoints a) ||
               is_some (trimmed_nonempty (arg_kube_lease a)) in
  (arg_mode a = ModeLocal -> forall c, to_client_target env a <> Ok (TargetRemote c)) /\
  (arg_mode a = ModeAuto -> named = true ->
     to_client_target env a = Ok (TargetRemote (fst (to_client_config a)))) /\
  (arg_mode a = ModeAuto -> named = false -> forall d, arg_data_dir a = Some d ->
     to_client_target env a = Ok (TargetLocal d)) /\
  (forall ep, trimmed_nonempty (arg_endpoint a) = Some ep ->
     discovery (fst (to_client_config a)) = Direct ep) /\
  (trimmed_nonempty (arg_endpoint a) = None -> is_some (trimmed_nonempty (arg_kube_lease a)) = true ->
     discovery (fst (to_client_config a)) = Custom).
Proof.
  intros named. unfold to_client_target, to_client_config. subst named.
  split; [|split; [|split; [|split]]].
  - intros -> c. destruct (arg_data_dir a); [done|]. destruct (env _) as [d|]; [|done].
    by destruct (negb (is_empty (trim d))).
  - by intros -> ->.
  - by intros -> -> d ->.
  - by intros ep ->.
  - intros ->. by destruct (trimmed_nonempty (arg_kube_lease a)).
Qed.

(** The raw form of a parameter: its name, if any. *)
Definition param_name (p : string) : option string := option_map (fun kv => trim (fst kv)) (split_once "=" p).

Lemma parse_params_kept parse_f64 raw : forall acc ps,
  parse_params parse_f64 raw acc = Ok ps ->
  map fst (p_named ps) = map fst (p_named acc) ++ omap param_name raw /\
  (length (p_positional ps) + length (p_named ps) =
   length (p_positional acc) + length (p_named acc) + length raw)%nat.
Proof.
  induction raw as [|p raw IH]; intros acc ps H; cbn [parse_params] in H.
  { injection H as ->. cbn. rewrite app_nil_r. split; [done|lia]. }
  unfold param_name. cbn [omap list_omap]. destruct (split_once "=" p) as [[k v]|]; cbn.
  - destruct (parse_string_to_value _ _); [|done]. apply IH in H as [Hn Hl]. cbn in Hn, Hl.
    rewrite map_app, length_app in *. cbn in *. rewrite <- app_assoc in Hn. split; [exact Hn|lia].
  - destruct (parse_string_to_value _ _); [|done]. apply IH in H as [Hn Hl]. cbn in Hn, Hl.
    rewrite length_app in Hl. cbn in Hl. split; [exact Hn|lia].
Qed.

(** Every parameter of the command line is bound: the named ones keep their names and order,
    and none is lost. *)
Theorem parameters_all_kept parse_f64 raw ps :
  parse_cli_parameters parse_f64 raw = Ok (Some ps) ->
  map fst (p_named ps) = omap param_name raw /\
  (length (p_positional ps) + length (p_named ps) = length raw)%nat.
Proof.
  unfold parse_cli_parameters. destruct raw as [|p raw]; [done|].
  destruct (parse_params _ _ _) as [x|] eqn:E; [|done]. intros [= <-].
  by apply parse_params_kept in E.
Qed.

(** ** Examples *)
Module CliExample.
#[local] Instance offline : SqlClient unit := {|
  c_execute c _ _ _ := (Err (Protocol "offline"), c);
  c_query c _ _ _ _ _ := (Err (Protocol "offline"), c);
  c_batch c _ _ _ _ := (Err (Protocol "offline"), c);
  c_drop c _ := (Ok (true, 1), c);
  c_status c := (Err (Protocol "offline"), c);
|}.
Definition client : unit * list ClientOp := (tt, []).
Definition drop (confirmation : Result string string) :=
  run_client_command (fun _ => Err "no file") (fun _ => "") (fun _ => None) (fun _ => true) "0.00"
    1000 None confirmation (Ok tt) [] client (DropDatabase "app.db" false).
Definition shell (inputs : list ReadLine) :=
  repl_loop (fun _ => Err "no file") (fun _ => "") (fun _ => true) "0.00" 1000
    (mk_repl "app.db" Table client) inputs.

Example drop_confirmed : snd (drop (Ok " Yes ")) = (tt, [OpDrop "app.db"]).
Proof. vm_compute. done. Qed.

Example shell_session :
  snd (repl_client (snd (shell [LineRead "select 1"; LineRead ".db other.db"; LineRead "delete from t";
                                Interrupted; LineRead ".q"])))
  = [OpQuery "app.db" "select 1" None 0 Strong; OpExecute "other.db" "delete from t" None].
Proof. vm_compute. done. Qed.
End CliExample.

Lemma drop_needs_consent_witness : snd (CliExample.drop (Ok "n")) = CliExample.client.
Proof.
  apply (@drop_needs_consent unit CliExample.offline (fun _ => Err "no file") (fun _ => "") (fun _ => true) "0.00"
    1000 (fun _ => None) None (Ok tt) [] CliExample.client
    (snd (CliExample.drop (Ok "n"))) "app.db" (Ok "n") (fst (fst (CliExample.drop (Ok "n"))))
    (snd (fst (CliExample.drop (Ok "n"))))); [reflexivity|vm_compute; discriminate].
Defined.

Lemma parameters_all_kept_witness :
  map fst (p_named (mk_parameters [Some (IntValue 1)] [(":a", Some (Some (TextValue "x")))]))
    = [":a"] /\ (1 + 1 = 2)%nat.
Proof.
  apply (parameters_all_kept (fun _ => None) ["1"; ":a = x"]
    (mk_parameters [Some (IntValue 1)] [(":a", Some (Some (TextValue "x")))])).
  vm_compute. reflexivity.
Defined.
