(* ===== verification/Blocking.v ===== *)
(** * Blocking client and connection pools
    (crates/rsqlite-rsync-client/src/blocking.rs, crates/rsqlite-rsync-pool/src)

    The blocking client runs the calls of [Unified] on a runtime of its own, after a check
    of the calling thread; the pool managers create and check clients with a status
    call.  [None] is a panic. *)

From S2P Require Import Prelude RustStr Errors Ha Auth Engine Server Client CliText Unified.

(** ** The calling thread *)

(** Where a blocking call is made, as the runtime tells: [Handle::try_current] succeeds,
    and a nested [block_on] is allowed. *)
Record ThreadContext := mk_thread { has_handle : bool; may_block : bool }.

Definition plain_thread : ThreadContext := mk_thread false true.
Definition blocking_thread : ThreadContext := mk_thread true true.   (* [spawn_blocking] *)
Definition async_task : ThreadContext := mk_thread true false.

Definition assert_not_in_async_context (ctx : ThreadContext) : option unit :=
  if negb (has_handle ctx) then Some tt else
  if may_block ctx then Some tt else None.

(** ** The blocking client *)

Section Blocking.
Variable net : RpcNetwork.
Variable ctx : ThreadContext.

(** [assert_not_in_async_context(); self.rt.block_on(call)]. *)
Definition block_on {A} (call : A) : option A :=
  match assert_not_in_async_context ctx with Some _ => Some call | None => None end.

(** [runtime] is whether tokio can build a runtime. *)
Definition blocking_new (runtime : bool) (c : ClientConfig) : option SqlGatewayClient :=
  match block_on tt with
  | Some _ => if runtime then Some (client_new c) else None
  | None => None
  end.

Definition blocking_reset_connection (cl : SqlGatewayClient) : SqlGatewayClient :=
  reset_connection cl.
Definition blocking_discover_leader (cl : SqlGatewayClient) : option (Result ClientError string) :=
  block_on (net_discover net (config cl) 0).
Definition blocking_execute (cl : SqlGatewayClient) (database sql : string)
    (parameters : option Parameters) :=
  block_on (gw_execute net cl database sql parameters).
Definition blocking_query (cl : SqlGatewayClient) (database sql : string)
    (parameters : option Parameters) (max_rows : Z) (consistency : ConsistencyLevel) :=
  block_on (gw_query net cl database sql parameters max_rows consistency).
Definition blocking_stream_query (cl : SqlGatewayClient) (database sql : string)
    (parameters : option Parameters) (max_rows chunk_size : Z) (consistency : ConsistencyLevel) :=
  block_on (gw_stream_query net cl database sql parameters max_rows chunk_size consistency).
Definition blocking_batch (cl : SqlGatewayClient) (database : string) (statements : list Statement)
    (tx_mode : BatchTransactionMode) (stop_on_error : bool) :=
  block_on (gw_batch net cl database statements tx_mode stop_on_error).
Definition blocking_drop_database (cl : SqlGatewayClient) (database : string) :=
  block_on (gw_drop_database net cl database).
Definition blocking_get_cluster_status (cl : SqlGatewayClient) :=
  block_on (gw_get_cluster_status net cl).

(** [BlockingStreaming]: the messages still to come. *)
Definition stream_message {T} (s : list (Result Status T))
  : option (Result Status (option T) * list (Result Status T)) :=
  block_on match s with
           | [] => (Ok None, [])
           | Ok v :: s => (Ok (Some v), s)
           | Err e :: s => (Err e, s)
           end.

(** [Iterator::next]; the outer [None] is a panic. *)
Definition stream_next {T} (s : list (Result Status T))
  : option (option (Result Status T) * list (Result Status T)) :=
  match stream_message s with
  | Some (Ok (Some v), s) => Some (Some (Ok v), s)
  | Some (Ok None, s) => Some (None, s)
  | Some (Err e, s) => Some (Some (Err e), s)
  | None => None
  end.

(** [collect] over the iterator; one round per message and one for the end. *)
Fixpoint stream_collect {T} (fuel : nat) (s : list (Result Status T))
  : option (list (Result Status T)) :=
  match fuel with
  | O => None
  | S fuel =>
      match stream_next s with
      | Some (Some v, s) => option_map (cons v) (stream_collect fuel s)
      | Some (None, _) => Some []
      | None => None
      end
  end.
End Blocking.

(** ** Pool managers *)

Section Pools.
Variable net : RpcNetwork.

Record SqlGatewayManager := mk_manager { manager_config : ClientConfig }.

(** A client is handed out once a status call has succeeded on it. *)
Definition pool_connect (m : SqlGatewayManager) : Result ClientError SqlGatewayClient :=
  match gw_get_cluster_status net (client_new (manager_config m)) with
  | (Ok _, client) => Ok client
  | (Err e, _) => Err e
  end.

Definition pool_is_valid (conn : SqlGatewayClient) : Result ClientError unit * SqlGatewayClient :=
  match gw_get_cluster_status net conn with
  | (Ok _, conn) => (Ok tt, conn)
  | (Err e, conn) => (Err e, conn)
  end.

Definition pool_has_broken (_ : SqlGatewayClient) : bool := false.

(** deadpool checks a client when it is given back; a failure is the backend's. *)
Inductive RecycleError := Backend (e : ClientError).
Definition deadpool_create (m : SqlGatewayManager) : Result ClientError SqlGatewayClient :=
  match gw_get_cluster_status net (client_new (manager_config m)) with
  | (Ok _, client) => Ok client
  | (Err e, _) => Err e
  end.
Definition deadpool_recycle (conn : SqlGatewayClient) : Result RecycleError unit * SqlGatewayClient :=
  let '(r, conn) := gw_get_cluster_status net conn in
  (let? _ := map_err Backend r in Ok tt, conn).

(** r2d2 pools blocking clients. *)
Definition r2d2_connect (ctx : ThreadContext) (runtime : bool) (m : SqlGatewayManager)
  : option (Result ClientError SqlGatewayClient) :=
  match blocking_new ctx runtime (manager_config m) with
  | None => None
  | Some client =>
      match blocking_get_cluster_status net ctx client with
      | None => None
      | Some (Ok _, client) => Some (Ok client)
      | Some (Err e, _) => Some (Err e)
      end
  end.

Definition r2d2_is_valid (ctx : ThreadContext) (conn : SqlGatewayClient)
  : option (Result ClientError unit * SqlGatewayClient) :=
  match blocking_get_cluster_status net ctx conn with
  | None => None
  | Some (Ok _, conn) => Some (Ok tt, conn)
  | Some (Err e, conn) => Some (Err e, conn)
  end.
End Pools.

(** ** Properties *)

(** A call that succeeds leaves the client connected to the endpoint that answered. *)
Lemma loop_ok {T} discover from_shared connect (op : nat -> string -> Result Status T) idem v fuel :
  forall n b cl evs cl',
  retry_loop discover from_shared connect op fuel idem n b cl = (Some (Ok v), evs, cl') ->
  config cl' = config cl /\ connected cl' = true /\
  exists k ep, op k ep = Ok v /\ current_endpoint cl' = Some ep.
Proof.
  induction fuel as [|fuel IH]; intros n b cl evs cl' H; [done|]. cbn [retry_loop] in H.
  destruct (get_or_connect _ _ _ n cl) as [[ep|e] cl1] eqn:Eg;
    pose proof (get_or_connect_config _ _ _ _ _ _ _ Eg) as Hc.
  - destruct (op n ep) as [res|st] eqn:Eo.
    + injection H as -> _ <-. split; [done|].
      assert (connected cl1 = true /\ current_endpoint cl1 = Some ep) as [? ?].
      { unfold get_or_connect in Eg. repeat case_match; simplify_eq; done. }
      split; [done|]. by exists n, ep.
    + destruct (negb _); [done|]. destruct (_ <=? _); [done|].
      destruct (retry_loop _ _ _ _ _ _ _ _ _) as [[r evs1] cl2] eqn:E. injection H as -> _ ->.
      apply IH in E. by rewrite process_config, Hc in E.
  - destruct (_ <=? _); [by destruct e|].
    destruct (retry_loop _ _ _ _ _ _ _ _ _) as [[r evs1] cl2] eqn:E.
    destruct e; try done; injection H as -> _ ->; apply IH in E; cbn in E; by rewrite Hc in E.
Qed.

Lemma run_call_ok {T} net idem (op : nat -> string -> Result Status T) cl v cl' :
  run_call net idem op cl = (Ok v, cl') ->
  config cl' = config cl /\ connected cl' = true /\
  exists k ep, op k ep = Ok v /\ current_endpoint cl' = Some ep.
Proof.
  intros H. destruct (run_call_ends net idem op cl) as (r & evs & cl1 & E & Hl).
  rewrite E in H. injection H as -> ->. by apply loop_ok in Hl.
Qed.

(** A pool never hands out a client that has not reached its cluster: the client it creates
    has the configuration of the pool and is connected to an endpoint that answered its
    status call. *)
Theorem pooled_client_answered net m client :
  pool_connect net m = Ok client ->
  config client = manager_config m /\ connected client = true /\
  exists k ep st, net_status net k ep (auth_header client) = Ok st /\
    current_endpoint client = Some ep.
Proof.
  unfold pool_connect. destruct (gw_get_cluster_status _ _) as [[st|] cl] eqn:E; [|done].
  intros [= <-]. apply run_call_ok in E as (Hc & Hcon & k & ep & Hst & He).
  split; [done|]. split; [done|]. exists k, ep, st. split; [|done].
  unfold auth_header in *. by rewrite Hc.
Qed.

(** The three pools agree: r2d2 differs only by the panic in an asynchronous task. *)
Theorem r2d2_agrees net ctx m :
  r2d2_connect net ctx true m =
  match assert_not_in_async_context ctx with
  | Some _ => Some (pool_connect net m)
  | None => None
  end.
Proof.
  unfold r2d2_connect, blocking_new, blocking_get_cluster_status, block_on, pool_connect.
  destruct (assert_not_in_async_context ctx); [|done].
  by destruct (gw_get_cluster_status _ _) as [[] ?].
Qed.

(** The blocking client is usable exactly off the asynchronous tasks; its iterator yields the
    messages of the stream, in order, and ends. *)
Theorem blocking_stream_faithful {T} ctx (s : list (Result Status T)) fuel :
  (length s < fuel)%nat ->
  stream_collect ctx fuel s =
  match assert_not_in_async_context ctx with Some _ => Some s | None => None end.
Proof.
  revert s. induction fuel as [|fuel IH]; intros s Hf; [lia|].
  cbn [stream_collect]. unfold stream_next, stream_message, block_on.
  destruct (assert_not_in_async_context ctx) as [[]|] eqn:Ea; [|done].
  destruct s as [|[v|e] s]; cbn in *; [done|..]; by rewrite IH by lia.
Qed.

Example only_async_tasks_panic :
  map assert_not_in_async_context [plain_thread; blocking_thread; async_task]
  = [Some tt; Some tt; None].
Proof. done. Qed.
