(* ===== verification/DbHandle.v ===== *)
(** * SQLite handles (src/src/db.rs)

    Opening and closing of connections with the guard that keeps a failed open from
    leaking, the life of a handle and its prepared statements as a state machine, and
    the wrappers of the backup and statement calls.  What the C library answers is a
    parameter; the calls that allocate or release are part of the result. *)

From S2P Require Import Prelude RustStr Errors Hash Messages Db Tuning Pages Instances Session Engine.

(** ** Opening *)

Definition SQLITE_OPEN_READONLY : Z := 1.
Definition SQLITE_OPEN_READWRITE : Z := 2.
Definition SQLITE_OPEN_CREATE : Z := 4.

Inductive HandleEvent := Opened | Closed.

(** What the library and the file system answer while a connection is opened.
    [open_handle] is the error text of a non-null handle. *)
Record OpenEnv := mk_open_env {
  path_nul : option string;                    (* a NUL byte in the path *)
  open_rc : Z;
  open_handle : option string;
  busy_timeout_rc : Z;
  pragma_page_size : nat -> PragmaOutcome;
  open_read_fd : option IoError;
  open_write_fd : option IoError;
  env_page_count : nat -> PragmaOutcome;       (* of the connection once open *)
  env_serialize : option bytes;
  env_file : bytes;
}.

Definition close_if (handle : option string) : list HandleEvent :=
  match handle with Some _ => [Closed] | None => [] end.
Definition open_if (handle : option string) : list HandleEvent :=
  match handle with Some _ => [Opened] | None => [] end.

Definition io_result (e : option IoError) : SyncResult unit :=
  match e with Some e => Err (Io e) | None => Ok tt end.

(** The setup after [sqlite3_open_v2], under the guard: the page size and whether there is
    a write descriptor. *)
Definition open_setup (env : OpenEnv) (flags : Z) : SyncResult (Z * bool) :=
  let? _ := check (open_handle env) (busy_timeout_rc env) in
  let? page_size := fst (query_pragma_u32 (pragma_page_size env) "page_size") in
  let? _ := io_result (open_read_fd env) in
  if negb (Z.land flags SQLITE_OPEN_READWRITE =? 0) then
    let? _ := io_result (open_write_fd env) in Ok (page_size, true)
  else Ok (page_size, false).

Definition connection_open (env : OpenEnv) (flags : Z) : SyncResult Connection * list HandleEvent :=
  match path_nul env with
  | Some e => (Err (Protocol e), [])
  | None =>
      let opened := open_if (open_handle env) in
      match check (open_handle env) (open_rc env) with
      | Err e => (Err e, opened ++ close_if (open_handle env))
      | Ok _ =>
          match open_setup env flags with
          | Err e => (Err e, opened ++ close_if (open_handle env))      (* the guard drops *)
          | Ok (page_size, writable) =>
              (Ok (mk_conn page_size (env_page_count env) (env_serialize env) (env_file env)
                     writable []), opened)
          end
      end
  end.

(** ** The life of a handle

    The connection and its statements share the handle through an [Arc]; either may be
    dropped first.  [sqlite3_close] refuses while statements are alive. *)
Record HandleState := mk_handle {
  handle_open : bool;          (* SQLite still holds the connection *)
  pointer_null : bool;         (* [RawDb] after the connection was dropped *)
  live_stmts : nat;            (* statements not finalized *)
}.

Definition handle_new : HandleState := mk_handle true false 0.

(** [PreparedStatement::new] needs a [Connection]; its drop finalizes the statement. *)
Definition prepare_stmt (h : HandleState) : HandleState :=
  mk_handle (handle_open h) (pointer_null h) (S (live_stmts h)).
Definition drop_stmt (h : HandleState) : HandleState :=
  mk_handle (handle_open h) (pointer_null h) (pred (live_stmts h)).

(** [sqlite3_close]: busy while a statement is alive. *)
Definition sqlite3_close (h : HandleState) : Z :=
  if (live_stmts h =? 0)%nat then SQLITE_OK else SQLITE_BUSY.

(** [impl Drop for Connection]: the warning it prints, and the handle after it. *)
Definition drop_connection (h : HandleState) : list string * HandleState :=
  if pointer_null h then ([], h) else
  let rc := sqlite3_close h in
  let closed := rc =? SQLITE_OK in
  ((if closed then [] else ["warning: sqlite3_close returned non-OK status " +++ show_int rc]),
   mk_handle (handle_open h && negb closed) true (live_stmts h)).

(** What a program can do with a connection and its statements. *)
Inductive handle_step : HandleState -> HandleState -> Prop :=
| step_prepare h : pointer_null h = false -> handle_step h (prepare_stmt h)
| step_finalize h : (0 < live_stmts h)%nat -> handle_step h (drop_stmt h)
| step_drop h : handle_step h (snd (drop_connection h)).

(** ** Statements *)

Inductive StepResult := StepRow | StepDone.

(** [PreparedStatement::step]: [rc] of [sqlite3_step]; [errmsg] is absent once the
    connection was dropped. *)
Definition stmt_step (errmsg : option string) (rc : Z) : SyncResult StepResult :=
  if rc =? SQLITE_ROW then Ok StepRow
  else if rc =? SQLITE_DONE then Ok StepDone
  else let? _ := check errmsg rc in Ok StepDone.

(** [as i32] of a [usize]. *)
Definition as_i32 (n : Z) : Z := (n + 2 ^ 31) mod 2 ^ 32 - 2 ^ 31.

(** The length given to [sqlite3_bind_text] and [sqlite3_bind_blob]. *)
Definition bind_length (len : Z) : Z := as_i32 len.

Definition SQLITE_INTEGER : Z := 1.
Definition SQLITE_FLOAT : Z := 2.
Definition SQLITE_TEXT : Z := 3.
Definition SQLITE_BLOB : Z := 4.

Inductive ColumnDataType := CInteger | CFloat | CText | CBlob | CNull.

Definition column_type (type_code : Z) : ColumnDataType :=
  if type_code =? SQLITE_INTEGER then CInteger
  else if type_code =? SQLITE_FLOAT then CFloat
  else if type_code =? SQLITE_TEXT then CText
  else if type_code =? SQLITE_BLOB then CBlob
  else CNull.

(** A column of the current row as the accessors of SQLite return it; the pointer of an
    empty text or blob may be null. *)
Record ColumnCell := mk_column_cell {
  cc_type : Z;
  cc_int64 : Z;
  cc_double : Z;
  cc_text : option string;      (* as [from_utf8_lossy] reads it *)
  cc_blob : option bytes;
}.

Definition column_value (c : ColumnCell) : SqlValue :=
  match column_type (cc_type c) with
  | CNull => SqlNull
  | CInteger => SqlInteger (cc_int64 c)
  | CFloat => SqlFloat (cc_double c)
  | CText => SqlText (default "" (cc_text c))
  | CBlob => SqlBlob (default [] (cc_blob c))
  end.

(** What a column holds after a value was stored in it. *)
Definition stored (v : SqlValue) : ColumnCell :=
  match v with
  | SqlNull => mk_column_cell 5 0 0 None None
  | SqlInteger i => mk_column_cell SQLITE_INTEGER i 0 None None
  | SqlFloat f => mk_column_cell SQLITE_FLOAT 0 f None None
  | SqlText t => mk_column_cell SQLITE_TEXT 0 0 (if is_empty t then None else Some t) None
  | SqlBlob b => mk_column_cell SQLITE_BLOB 0 0 None (match b with [] => None | _ => Some b end)
  end.

Definition column_name (p : option string) : string := default "" p.

Definition column_decltype (p : option string) : option string := p.

(** [sqlite3_stmt_readonly]. *)
Definition is_readonly (flag : Z) : bool := negb (flag =? 0).

(** [reset] and [clear_bindings] report the code of the library. *)
Definition stmt_reset (errmsg : string) (rc : Z) : SyncResult unit := check (Some errmsg) rc.
Definition clear_bindings (errmsg : string) (rc : Z) : SyncResult unit := check (Some errmsg) rc.

(** [sqlite3_changes(db) as u64] of an [i32]; the rowid is an [i64] as it is. *)
Definition changes (n : Z) : Z := n mod 2 ^ 64.
Definition last_insert_rowid (n : Z) : Z := n.

Definition wal_checkpoint (sqlite3_exec : string -> Z * string) (nul_error : string -> option string)
  : SyncResult unit :=
  Db.exec sqlite3_exec nul_error "PRAGMA wal_checkpoint(TRUNCATE)".

(** ** Backup *)

(** [sqlite3_backup_remaining] and [sqlite3_backup_pagecount] of the handle. *)
Record BackupHandle := mk_backup { remaining : Z; pagecount : Z }.

Definition SQLITE_ERROR : Z := 1.

(** [inner]: whether [sqlite3_backup_init] returned an object, else the error text. *)
Definition backup_new (inner : Result string unit) : SyncResult unit :=
  match inner with
  | Err msg => Err (sqlite SQLITE_ERROR msg)
  | Ok _ => Ok tt
  end.

(** [Backup::step] on the result code of [sqlite3_backup_step]. *)
Definition backup_step_result (rc : Z) : SyncResult bool :=
  if rc =? SQLITE_DONE then Ok true
  else if rc =? SQLITE_OK then Ok false
  else Err (sqlite rc "sqlite3_backup_step failed").

Definition backup_finish_result (rc : Z) : SyncResult unit :=
  if (rc =? SQLITE_OK) || (rc =? SQLITE_DONE) then Ok tt
  else Err (sqlite rc "sqlite3_backup_finish failed").

(** ** Claims *)

Definition count (e : HandleEvent) (evs : list HandleEvent) : nat :=
  length (List.filter (fun x => match x, e with Opened, Opened | Closed, Closed => true | _, _ => false end) evs).

(** C37. A failed open leaks nothing: every handle SQLite returned is closed exactly once; a
    successful open closes nothing and has a write descriptor exactly when it was
    asked for read-write access. *)
Theorem open_never_leaks env flags r evs :
  connection_open env flags = (r, evs) ->
  match r with
  | Err _ => count Closed evs = count Opened evs
  | Ok c => count Closed evs = 0%nat /\ write_fd c = negb (Z.land flags SQLITE_OPEN_READWRITE =? 0)
  end.
Proof.
  unfold connection_open. destruct (path_nul env); [by intros [= <- <-]|].
  destruct (check _ (open_rc env)) as [_|e]; [|intros [= <- <-]; by destruct (open_handle env)].
  destruct (open_setup env flags) as [[ps w]|e] eqn:E;
    [|intros [= <- <-]; by destruct (open_handle env)].
  intros [= <- <-]. split; [by destruct (open_handle env)|]. cbn. unfold open_setup in E.
  destruct (check _ (busy_timeout_rc env)); [|done].
  destruct (fst (query_pragma_u32 _ _)); [|done]. destruct (io_result (open_read_fd env)); [|done].
  destruct (negb _); [|by simplify_eq]. destruct (io_result (open_write_fd env)); by simplify_eq.
Qed.

Lemma open_never_leaks_witness :
  let env := mk_open_env None SQLITE_OK (Some "not an error") SQLITE_OK (Example.pages_row 4096) None
               (Some (mk_io_error OtherKind "permission denied")) (Example.pages_row 1) None [] in
  count Closed (snd (connection_open env 6)) = count Opened (snd (connection_open env 6)).
Proof.
  intros env.
  apply (open_never_leaks env 6 (Err (Io (mk_io_error OtherKind "permission denied")))
           (snd (connection_open env 6))).
  vm_compute. reflexivity.
Defined.

(** The handle is held as long as the connection lives. *)
Lemma handle_alive h : rtc handle_step handle_new h -> pointer_null h = false -> handle_open h = true.
Proof.
  intros Hr. cut (pointer_null h = true \/ handle_open h = true); [intros [E|E]; congruence|].
  assert (Hi : pointer_null handle_new = true \/ handle_open handle_new = true) by (by right).
  induction Hr as [h|a b c Hs _ IH]; [done|]. apply IH.
  destruct Hs as [h Hp|h Hp|h]; cbn; [tauto|tauto|].
  unfold drop_connection. destruct (pointer_null h) eqn:E; cbn; [by left|by left].
Qed.

Lemma dropped_stays h h' : pointer_null h = true -> handle_step h h' ->
  pointer_null h' = true /\ handle_open h' = handle_open h.
Proof.
  intros Hp Hs. destruct Hs as [h Hn|h _|h]; cbn; [congruence|done|].
  unfold drop_connection. by rewrite Hp.
Qed.

(** A connection dropped after its statements closes its handle; one dropped while a
    statement is alive does not, and nothing the program does later closes it. *)
Theorem drop_order_decides h :
  rtc handle_step handle_new h -> pointer_null h = false ->
  if (live_stmts h =? 0)%nat
  then handle_open (snd (drop_connection h)) = false
  else forall h', rtc handle_step (snd (drop_connection h)) h' -> handle_open h' = true.
Proof.
  intros Hr Hp. pose proof (handle_alive h Hr Hp) as Ho. unfold drop_connection, sqlite3_close.
  rewrite Hp. destruct (live_stmts h =? 0)%nat; cbn; [by rewrite Ho|].
  rewrite Ho. cbn. intros h' Hr'.
  remember (mk_handle true true (live_stmts h)) as h0 eqn:E0.
  assert (Hi : pointer_null h0 = true /\ handle_open h0 = true) by (by subst).
  clear E0 Hr Hp Ho. induction Hr' as [h0|a b c Hs _ IH]; [apply Hi|].
  destruct Hi as [Hn Ha]. destruct (dropped_stays _ _ Hn Hs). apply IH. split; congruence.
Qed.

(** The statement is finalized after the connection was dropped. *)
Lemma drop_order_decides_witness :
  handle_open (drop_stmt (snd (drop_connection (prepare_stmt handle_new)))) = true.
Proof.
  apply (drop_order_decides (prepare_stmt handle_new)); [|reflexivity|].
  - apply rtc_once, step_prepare. reflexivity.
  - apply rtc_once, step_finalize. cbn. lia.
Defined.

(** A value stored in a column is read back, empty texts and blobs included. *)
Theorem column_round_trip v : column_value (stored v) = v.
Proof. destruct v as [|i|f|[|a t]|[|b bs]]; reflexivity. Qed.

(** The length of a bound text or blob is exact below 2^31 bytes, and negative from there to
    2^32: SQLite then looks for a terminating zero. *)
Theorem bind_length_exact len : 0 <= len < 2 ^ 32 ->
  (bind_length len = len <-> len < 2 ^ 31) /\ (2 ^ 31 <= len -> bind_length len < 0).
Proof.
  intros Hl. unfold bind_length, as_i32. destruct (decide (len < 2 ^ 31)).
  - rewrite Z.mod_small by lia. split; lia.
  - replace (len + 2 ^ 31) with ((len - 2 ^ 31) + 1 * 2 ^ 32) by lia.
    rewrite Z.mod_add, Z.mod_small by lia. split; lia.
Qed.

(** Any code but a row or the end of the rows is an error of a step, unless it is success. *)
Theorem stmt_step_result errmsg rc r : stmt_step errmsg rc = Ok r ->
  (r = StepRow /\ rc = SQLITE_ROW) \/ (r = StepDone /\ (rc = SQLITE_DONE \/ rc = SQLITE_OK)).
Proof.
  unfold stmt_step, check.
  destruct (rc =? SQLITE_ROW) eqn:E1; [intros [= <-]; zbool; by left|].
  destruct (rc =? SQLITE_DONE) eqn:E2; [intros [= <-]; zbool; right; split; [done|by left]|].
  destruct (rc =? SQLITE_OK) eqn:E3; cbn; [|done]. intros [= <-]. zbool. right. split; [done|by right].
Qed.

(** The row count of a statement is exact up to the range of SQLite's counter; a counter that
    has overflowed is reported as a number over 2^63. *)
Theorem changes_exact n : - 2 ^ 31 <= n < 2 ^ 31 ->
  if decide (0 <= n) then changes n = n else 2 ^ 63 < changes n.
Proof.
  unfold changes. intros Hn. case_decide.
  - apply Z.mod_small. lia.
  - rewrite <- (Z.mod_add n 1) by lia. rewrite Z.mod_small; lia.
Qed.
