(* ===== verification/Batch.v ===== *)
(** * Batch synchronisation (src/src/batch.rs, [run_batch_mode] of src/src/main.rs)

    Manifest validation, the retry policy of one entry, and the pool that keeps up
    to [jobs] entries in flight.  What an attempt meets (the outcome of the sync it
    calls, the timer, the clock) is an [Attempt]; which entry in flight finishes
    next is a [pick].  The entries are polled inline by the task that runs the batch,
    so a sync that panics unwinds all of it: [None] stands for such a panic, from
    [perform] up to [run_batch_mode].  The serde parsers are parameters. *)

From stdpp Require Import sorting.
From S2P Require Import Prelude RustStr Errors Hash Messages Proc Db Tuning Pages Instances.
From S2P Require Import Origin Replica Session SyncLocal Engine Endpoint.

(** ** Data *)

Inductive ManifestFormat := FormatAuto | FormatJson | FormatYaml | FormatToml.

(** [BatchSyncSpec], and [BatchEntryWire]: the same fields before validation. *)
Record BatchSyncSpec := mk_spec {
  name : option string;
  spec_origin : string;
  spec_replica : string;
  dry_run : option bool;
  retries : option Z;
  timeout_secs : option Z;
  retry_backoff_ms : option Z;
  retry_backoff_max_ms : option Z;
  spec_jitter_pct : option Z;
  spec_auth_token : option string;
}.

(** Durations are whole milliseconds ([default_timeout]: seconds).  The ssh options
    and the tuning are handed on to the syncs and are not looked at here. *)
Record BatchRuntimeOptions := mk_batch_options {
  jobs : Z;
  default_dry_run : bool;
  default_retries : Z;
  default_timeout : option Z;
  retry_backoff_base : option Z;
  retry_backoff_max : option Z;
  retry_jitter_pct : Z;
  grpc_auth_token : option string;
}.

Definition identifier (s : BatchSyncSpec) : string :=
  match name s with
  | Some n => n
  | None => spec_origin s +++ " -> " +++ spec_replica s
  end.

Record BatchItemResult := mk_item {
  item_index : Z;
  id : string;
  error : option string;
}.
Definition item_success (r : BatchItemResult) : bool :=
  match error r with None => true | Some _ => false end.

Record BatchRunReport := mk_report {
  total : Z;
  succeeded : Z;
  failed : Z;
  report_results : list BatchItemResult;
}.
Definition any_failed (r : BatchRunReport) : bool := 0 <? failed r.

(** ** Manifest *)

(** An entry of a manifest, as serde reads it: what is absent is [None]. *)
Record BatchEntryWire := mk_entry {
  entry_name : option string;
  entry_origin : string;
  entry_replica : string;
  entry_dry_run : option bool;
  entry_retries : option Z;
  entry_timeout_secs : option Z;
  entry_backoff_ms : option Z;
  entry_backoff_max_ms : option Z;
  entry_jitter_pct : option Z;
  entry_auth_token : option string;
}.

Record BatchManifest := mk_manifest {
  manifest_version : option Z;
  syncs : list BatchEntryWire;
}.

(** [Path::extension] of the last component. *)
Definition extension (path : string) : option string :=
  match last (components path) with
  | Some (Normal file) =>
      match rsplit_once "." file with
      | Some ("", _) | None => None
      | Some (_, after) => Some after
      end
  | _ => None
  end.

Definition check_entry (path : string) (idx : Z) (e : BatchEntryWire) : SyncResult BatchSyncSpec :=
  let bad what := Err (Protocol ("batch manifest " +++ path +++ " entry " +++ show_Z idx +++ what)) in
  if is_empty (trim (entry_origin e)) then bad " has empty origin"
  else if is_empty (trim (entry_replica e)) then bad " has empty replica"
  else if bool_decide (entry_timeout_secs e = Some 0) then bad " timeout_secs must be greater than 0"
  else if (match entry_jitter_pct e with Some pct => 100 <? pct | None => false end)
  then bad " retry_jitter_pct must be between 0 and 100"
  else if (match entry_backoff_ms e, entry_backoff_max_ms e with
           | Some base, Some max => (0 <? max) && (max <? base)
           | _, _ => false
           end) then bad " retry_backoff_max_ms must be >= retry_backoff_ms"
  else Ok (mk_spec (entry_name e) (entry_origin e) (entry_replica e) (entry_dry_run e)
             (entry_retries e) (entry_timeout_secs e) (entry_backoff_ms e) (entry_backoff_max_ms e)
             (entry_jitter_pct e) (entry_auth_token e)).

Fixpoint check_entries (path : string) (idx : Z) (es : list BatchEntryWire)
  : SyncResult (list BatchSyncSpec) :=
  match es with
  | [] => Ok []
  | e :: rest =>
      let? s := check_entry path idx e in
      let? specs := check_entries path (idx + 1) rest in
      Ok (s :: specs)
  end.

Section Manifest.
(** [serde_json], [serde_yaml] and [toml] on the manifest text: the manifest or the
    text of the error. *)
Variables (serde_json serde_yaml serde_toml : string -> Result string BatchManifest).

Definition parse_as (format : string) (serde : string -> Result string BatchManifest)
    (path text : string) : Result string BatchManifest :=
  map_err (fun e => "failed parsing batch manifest " +++ path +++ " as " +++ format +++ ": " +++ e)
    (serde text).
Definition parse_json := parse_as "json" serde_json.
Definition parse_yaml := parse_as "yaml" serde_yaml.
Definition parse_toml := parse_as "toml" serde_toml.

Definition parse_any (path text : string) : SyncResult BatchManifest :=
  match parse_json path text with
  | Ok m => Ok m
  | Err json_error =>
      match parse_yaml path text with
      | Ok m => Ok m
      | Err yaml_error =>
          match parse_toml path text with
          | Ok m => Ok m
          | Err toml_error =>
              Err (Protocol ("failed parsing batch manifest " +++ path +++
                             " with auto format detection; json error: " +++ json_error +++
                             "; yaml error: " +++ yaml_error +++ "; toml error: " +++ toml_error))
          end
      end
  end.

Definition parse_manifest (path text : string) (format : ManifestFormat)
  : SyncResult BatchManifest :=
  match format with
  | FormatJson => map_err Protocol (parse_json path text)
  | FormatYaml => map_err Protocol (parse_yaml path text)
  | FormatToml => map_err Protocol (parse_toml path text)
  | FormatAuto =>
      match option_map to_ascii_lowercase (extension path) with
      | Some "json" => map_err Protocol (parse_json path text)
      | Some "yaml" | Some "yml" => map_err Protocol (parse_yaml path text)
      | Some "toml" => map_err Protocol (parse_toml path text)
      | _ => parse_any path text
      end
  end.

Definition load_manifest (path : string) (read_to_string : Result IoError string)
    (format : ManifestFormat) : SyncResult (list BatchSyncSpec) :=
  match read_to_string with
  | Err e => Err (Protocol ("failed reading batch manifest " +++ path +++ ": " +++ io_text e))
  | Ok manifest_text =>
      let? manifest := parse_manifest path manifest_text format in
      match syncs manifest with
      | [] => Err (Protocol ("batch manifest " +++ path +++ " has no sync entries"))
      | _ => check_entries path 0 (syncs manifest)
      end
  end.
End Manifest.

(** ** One attempt *)

Inductive SyncCall :=
| SyncLocalCall (origin replica : string)
| PushCall (origin user_host path : string)
| PullCall (user_host path replica : string)
| GrpcPushCall (origin url database : string) (auth_token : option string)
| GrpcPullCall (replica url database : string) (auth_token : option string).

(** What one attempt meets. *)
Record Attempt := mk_attempt {
  perform : SyncCall -> option (SyncResult unit); (* the sync entry points of the library; [None]: a panic *)
  open_readonly : string -> SyncResult Connection;
  path_exists : string -> bool;
  timer_fires : Z -> bool;                    (* the limit elapses before the sync ends *)
  now_nanos : Z;                              (* clock when the retry delay is computed *)
}.

Definition dry_run_local (w : Attempt) (origin replica : string) : SyncResult unit :=
  let? o := open_readonly w origin in
  if path_exists w replica then
    let? r := open_readonly w replica in
    if negb (page_size o =? page_size r)
    then Err (PageSizeMismatch (page_size o) (page_size r)) else Ok tt
  else Ok tt.

Definition or_else {A} (a b : option A) : option A := match a with Some _ => a | None => b end.

Definition run_one_inner (spec : BatchSyncSpec) (dry : bool) (options : BatchRuntimeOptions)
    (w : Attempt) : option (SyncResult unit) :=
  let auth_token := or_else (spec_auth_token spec) (grpc_auth_token options) in
  match parse (spec_origin spec), parse (spec_replica spec) with
  | LocalEndpoint o, LocalEndpoint r =>
      if negb dry then perform w (SyncLocalCall o r) else Some (dry_run_local w o r)
  | LocalEndpoint o, RemoteEndpoint user_host path =>
      if dry then Some (Ok tt) else perform w (PushCall o user_host path)
  | RemoteEndpoint user_host path, LocalEndpoint r =>
      if dry then Some (Ok tt) else perform w (PullCall user_host path r)
  | LocalEndpoint o, GrpcEndpoint url database =>
      if dry then Some (Ok tt) else perform w (GrpcPushCall o url database auth_token)
  | GrpcEndpoint url database, LocalEndpoint r =>
      if dry then Some (Ok tt) else perform w (GrpcPullCall r url database auth_token)
  | RemoteEndpoint _ _, RemoteEndpoint _ _
  | RemoteEndpoint _ _, GrpcEndpoint _ _
  | GrpcEndpoint _ _, RemoteEndpoint _ _ =>
      Some (Err (Protocol "at least one of ORIGIN or REPLICA must be local"))
  | GrpcEndpoint _ _, GrpcEndpoint _ _ =>
      Some (Err (Protocol "gRPC to gRPC sync not supported"))
  end.

(** ** Retry delays *)

Definition U128_MAX : Z := 2 ^ 128 - 1.
Definition sat_mul128 (a b : Z) : Z := Z.min (a * b) U128_MAX.
Definition sat_add128 (a b : Z) : Z := Z.min (a + b) U128_MAX.
(** [as i128]: the two's complement reading. *)
Definition as_i128 (z : Z) : Z := (z + 2 ^ 127) mod 2 ^ 128 - 2 ^ 127.
Definition as_u128 (z : Z) : Z := z mod 2 ^ 128.

(** [base * 2^(attempt - 1)], cut at the maximum, in milliseconds. *)
Definition nominal_delay (base : Z) (max : option Z) (attempt : Z) : Z :=
  let exponent := Z.min (Z.max (attempt - 1) 0) 31 in
  let factor := Z.shiftl 1 exponent in
  let delay_ms := sat_mul128 base factor in
  match max with Some max => Z.min delay_ms max | None => delay_ms end.

Definition jittered (delay_ms jitter_pct entropy_nanos : Z) : Z :=
  if 0 <? jitter_pct then
    let jitter_span := sat_mul128 delay_ms jitter_pct / 100 in
    if 0 <? jitter_span then
      let range := sat_add128 (sat_mul128 jitter_span 2) 1 in
      if 0 <? range then
        let offset := as_i128 (as_i128 (entropy_nanos mod range) - as_i128 jitter_span) in
        as_u128 (Z.max (as_i128 (as_i128 delay_ms + offset)) 0)
      else delay_ms
    else delay_ms
  else delay_ms.

Definition retry_delay_for_attempt_core (base : Z) (max : option Z)
    (jitter_pct attempt entropy_nanos : Z) : option Z :=
  let delay_ms := nominal_delay base max attempt in
  if delay_ms =? 0 then None
  else Some (Z.min (jittered delay_ms jitter_pct entropy_nanos) U64_MAX).

Definition retry_delay_for_attempt (base max : option Z) (jitter_pct attempt now_nanos : Z)
  : option Z :=
  match base with
  | None => None
  | Some base => retry_delay_for_attempt_core base max jitter_pct attempt now_nanos
  end.

(** ** One entry *)

Inductive AttemptEvent := Attempted (attempt : Z) | Slept (ms : Z).

Definition positive_ms (o : option Z) : option Z :=
  match o with Some ms => if 0 <? ms then Some ms else None | None => None end.

(** The settings of an entry: its own values first, then the defaults. *)
Definition effective_timeout (spec : BatchSyncSpec) (o : BatchRuntimeOptions) : option Z :=
  or_else (timeout_secs spec) (default_timeout o).
Definition effective_dry_run (spec : BatchSyncSpec) (o : BatchRuntimeOptions) : bool :=
  default (default_dry_run o) (dry_run spec).
Definition backoff_base (spec : BatchSyncSpec) (o : BatchRuntimeOptions) : option Z :=
  positive_ms (or_else (retry_backoff_ms spec) (option_map u64 (retry_backoff_base o))).
Definition backoff_max (spec : BatchSyncSpec) (o : BatchRuntimeOptions) : option Z :=
  positive_ms (or_else (retry_backoff_max_ms spec) (option_map u64 (retry_backoff_max o))).
Definition backoff_jitter_pct (spec : BatchSyncSpec) (o : BatchRuntimeOptions) : Z :=
  default (retry_jitter_pct o) (spec_jitter_pct spec).
(** [retries.saturating_add(1)]. *)
Definition attempt_count (spec : BatchSyncSpec) (o : BatchRuntimeOptions) : Z :=
  Z.min (default (default_retries o) (retries spec) + 1) U32_MAX.

Definition attempt_outcome (spec : BatchSyncSpec) (o : BatchRuntimeOptions) (w : Attempt)
  : option (SyncResult unit) :=
  let inner := run_one_inner spec (effective_dry_run spec o) o w in
  match effective_timeout spec o with
  | Some limit =>
      if timer_fires w limit
      then Some (Err (Protocol ("sync attempt timed out after " +++ show_Z limit +++ "s"))) else inner
  | None => inner
  end.

(** The sleep between a failed attempt and the next one. *)
Definition pause_after (spec : BatchSyncSpec) (o : BatchRuntimeOptions) (attempt : Z) (w : Attempt)
  : list AttemptEvent :=
  if attempt <? attempt_count spec o then
    match retry_delay_for_attempt (backoff_base spec o) (backoff_max spec o)
            (backoff_jitter_pct spec o) attempt (now_nanos w) with
    | Some backoff => [Slept backoff]
    | None => []
    end
  else [].

(** How the loop over the attempts ends: by the [return] of a success, by running out
    of attempts, or by a panic. *)
Inductive LoopEnd := Succeeded | Exhausted (last_error : option SyncError) | Unwound.

(** The [for attempt in 1..=attempt_count] loop over the attempts [ns] that are left. *)
Fixpoint attempt_loop (spec : BatchSyncSpec) (o : BatchRuntimeOptions) (world : Z -> Attempt)
    (ns : list Z) (last_error : option SyncError) : LoopEnd * list AttemptEvent :=
  match ns with
  | [] => (Exhausted last_error, [])
  | attempt :: rest =>
      match attempt_outcome spec o (world attempt) with
      | None => (Unwound, [Attempted attempt])
      | Some (Ok _) => (Succeeded, [Attempted attempt])
      | Some (Err error) =>
          let '(r, evs) := attempt_loop spec o world rest (Some error) in
          (r, Attempted attempt :: pause_after spec o attempt (world attempt) ++ evs)
      end
  end.

Definition run_one (index : Z) (spec : BatchSyncSpec) (o : BatchRuntimeOptions)
    (world : Z -> Attempt) : option BatchItemResult * list AttemptEvent :=
  let count := attempt_count spec o in
  let after := "after " +++ show_Z count +++ " attempt(s): " in
  let '(r, evs) := attempt_loop spec o world (range_incl 1 count) None in
  let item error := Some (mk_item index (identifier spec) error) in
  (match r with
   | Unwound => None
   | Succeeded => item None
   | Exhausted (Some err) => item (Some (after +++ SyncError_to_string err))
   | Exhausted None => item (Some (after +++ "unknown batch error"))
   end, evs).

(** ** The pool *)

Record Pool := mk_pool {
  pending : list (Z * BatchSyncSpec);
  in_flight : list (Z * BatchSyncSpec);
  results : list BatchItemResult;
}.

(** The first [while] loop: start entries until [max_in_flight] are running. *)
Definition fill (max_in_flight : nat) (specs : list BatchSyncSpec) : Pool :=
  mk_pool (drop max_in_flight (enumerate specs)) (take max_in_flight (enumerate specs)) [].

(** [in_flight.next()] gives the entry at position [k], which ends with [r]; the next
    pending entry takes its place. *)
Definition finish_one (k : nat) (r : BatchItemResult) (p : Pool) : Pool :=
  let rest := take k (in_flight p) ++ drop (S k) (in_flight p) in
  match pending p with
  | next :: pending => mk_pool pending (rest ++ [next]) (results p ++ [r])
  | [] => mk_pool [] rest (results p ++ [r])
  end.

(** [pick t] and [world t index] decide step [t]: which entry ends, and how; a panic of
    an entry unwinds through [in_flight.next()]. *)
Fixpoint run_pool (fuel : nat) (o : BatchRuntimeOptions) (pick : nat -> nat)
    (world : nat -> Z -> Z -> Attempt) (t : nat) (p : Pool) : option Pool :=
  match fuel with
  | O => Some p
  | S fuel =>
      let k := (pick t mod length (in_flight p))%nat in
      match in_flight p !! k with
      | None => Some p
      | Some (index, spec) =>
          match fst (run_one index spec o (world t index)) with
          | None => None
          | Some r => run_pool fuel o pick world (S t) (finish_one k r p)
          end
      end
  end.

(** [sort_by_key(|item| item.index)]: stable. *)
Fixpoint insert_by_index (r : BatchItemResult) (l : list BatchItemResult) : list BatchItemResult :=
  match l with
  | [] => [r]
  | x :: rest =>
      if item_index r <=? item_index x then r :: l else x :: insert_by_index r rest
  end.
Definition sort_by_index (l : list BatchItemResult) : list BatchItemResult :=
  foldr insert_by_index [] l.

Definition run_batch_sync (specs : list BatchSyncSpec) (o : BatchRuntimeOptions)
    (pick : nat -> nat) (world : nat -> Z -> Z -> Attempt) : option BatchRunReport :=
  let max_in_flight := Z.to_nat (Z.max (jobs o) 1) in
  match run_pool (length specs) o pick world 0 (fill max_in_flight specs) with
  | None => None
  | Some final =>
      let results := sort_by_index (results final) in
      let total := zlen results in
      let succeeded := zlen (List.filter item_success results) in
      Some (mk_report total succeeded (Z.max (total - succeeded) 0) results)
  end.

(** ** Batch mode of the binary *)

Record BatchArgs := mk_batch_args {
  ha : bool;
  any_server_flag : bool;                  (* --server, --server-origin, --server-replica *)
  positional_given : bool;                 (* ORIGIN or REPLICA *)
  batch_jobs : Z;
  batch_retries : Z;
  batch_timeout_secs : Z;
  batch_retry_backoff_ms : Z;
  batch_retry_backoff_max_ms : Z;
  batch_retry_jitter_pct : Z;
  batch_dry_run : bool;
  batch_auth_token : option string;
}.

Definition check_batch_args (a : BatchArgs) : SyncResult unit :=
  if ha a then Err (Protocol "--batch-manifest cannot be used with --ha")
  else if any_server_flag a then
    Err (Protocol "--batch-manifest cannot be used with --server flags")
  else if positional_given a then
    Err (Protocol "batch mode does not accept ORIGIN/REPLICA positional arguments")
  else if batch_jobs a =? 0 then Err (Protocol "--batch-jobs must be greater than 0")
  else if 100 <? batch_retry_jitter_pct a then
    Err (Protocol "--batch-retry-jitter-pct must be between 0 and 100")
  else if (0 <? batch_retry_backoff_max_ms a) && (0 <? batch_retry_backoff_ms a)
          && (batch_retry_backoff_max_ms a <? batch_retry_backoff_ms a) then
    Err (Protocol "--batch-retry-backoff-max-ms must be >= --batch-retry-backoff-ms")
  else Ok tt.

Definition batch_options (a : BatchArgs) : BatchRuntimeOptions :=
  let then_some z := if 0 <? z then Some z else None in
  mk_batch_options (batch_jobs a) (batch_dry_run a) (batch_retries a)
    (then_some (batch_timeout_secs a)) (then_some (batch_retry_backoff_ms a))
    (then_some (batch_retry_backoff_max_ms a)) (batch_retry_jitter_pct a) (batch_auth_token a).

(** [manifest] is the outcome of [load_manifest] on the given path. *)
Definition run_batch_mode (a : BatchArgs) (manifest : SyncResult (list BatchSyncSpec))
    (pick : nat -> nat) (world : nat -> Z -> Z -> Attempt) : option (SyncResult unit) :=
  match (let? _ := check_batch_args a in manifest) with
  | Err e => Some (Err e)
  | Ok specs =>
      match run_batch_sync specs (batch_options a) pick world with
      | None => None
      | Some report =>
          Some (if any_failed report
                then Err (Protocol ("batch sync completed with " +++ show_Z (failed report) +++
                                    " failed entries"))
                else Ok tt)
      end
  end.

(** ** A single sync from the command line

    The last part of [run] in main.rs, from the two endpoints on; [None] is a panic:
    of the sync, or the [unreachable!()] of the last arm. *)

Record SyncArgs := mk_sync_args {
  arg_origin : string;
  arg_replica : string;
  arg_dry_run : bool;
  arg_auth_token : option string;
  arg_ha_auth_token : option string;
}.

(** [dry_run_local] of main.rs also reads the page count of the origin. *)
Definition main_dry_run_local (w : Attempt) (origin replica : string) : SyncResult unit :=
  let? o := open_readonly w origin in
  let? _ :=
    if path_exists w replica then
      let? r := open_readonly w replica in
      if negb (page_size o =? page_size r)
      then Err (PageSizeMismatch (page_size o) (page_size r)) else Ok tt
    else Ok tt in
  let? _ := page_count o in
  Ok tt.

Definition run_endpoints (a : SyncArgs) (w : Attempt) : option (SyncResult unit) :=
  let origin_ep := parse (arg_origin a) in
  let replica_ep := parse (arg_replica a) in
  let dry := arg_dry_run a in
  let auth_token := or_else (arg_auth_token a) (arg_ha_auth_token a) in
  if is_remote origin_ep && is_remote replica_ep then
    Some (Err (Protocol "at least one of ORIGIN or REPLICA must be local"))
  else
    match origin_ep, replica_ep with
    | LocalEndpoint o, LocalEndpoint r =>
        if negb dry then perform w (SyncLocalCall o r) else Some (main_dry_run_local w o r)
    | LocalEndpoint o, RemoteEndpoint user_host path =>
        if dry then Some (Ok tt) else perform w (PushCall o user_host path)
    | RemoteEndpoint user_host path, LocalEndpoint r =>
        if dry then Some (Ok tt) else perform w (PullCall user_host path r)
    | LocalEndpoint o, GrpcEndpoint url database =>
        if dry then Some (Ok tt) else perform w (GrpcPushCall o url database auth_token)
    | GrpcEndpoint url database, LocalEndpoint r =>
        if dry then Some (Ok tt) else perform w (GrpcPullCall r url database auth_token)
    | _, _ => None
    end.

(** The last arm is not reached: only a sync panics. *)
Lemma run_endpoints_reachable a w :
  (forall call, is_Some (perform w call)) -> is_Some (run_endpoints a w).
Proof.
  intros Hp. unfold run_endpoints.
  destruct (parse (arg_origin a)), (parse (arg_replica a)), (arg_dry_run a); cbn; eauto.
Qed.

(** ** Delays *)

Lemma as_i128_id z : - 2 ^ 127 <= z < 2 ^ 127 -> as_i128 z = z.
Proof. intros H. unfold as_i128. rewrite Z.mod_small; lia. Qed.

(** The nominal delay of an attempt: doubled from [base] on, capped by [max]. *)
Definition nominal_spec (base : Z) (max : option Z) (attempt : Z) : Z :=
  let d := base * 2 ^ Z.min (attempt - 1) 31 in
  match max with Some max => Z.min d max | None => d end.

Lemma nominal_delay_spec base max attempt :
  0 <= base < 2 ^ 64 -> 1 <= attempt ->
  (forall m, max = Some m -> 0 <= m) ->
  nominal_delay base max attempt = nominal_spec base max attempt /\
  0 <= nominal_spec base max attempt < 2 ^ 95.
Proof.
  intros Hb Ha Hm. unfold nominal_delay, nominal_spec, sat_mul128, U128_MAX.
  rewrite (Z.max_l (attempt - 1)) by lia. rewrite Z.shiftl_1_l.
  assert (0 < 2 ^ Z.min (attempt - 1) 31 <= 2 ^ 31)
    by (split; [apply Z.pow_pos_nonneg|apply Z.pow_le_mono_r]; lia).
  assert (0 <= base * 2 ^ Z.min (attempt - 1) 31 < 2 ^ 95) by nia.
  rewrite Z.min_l by lia. split; [done|].
  destruct max as [m|]; [specialize (Hm m eq_refl); lia|lia].
Qed.

Lemma jittered_near d pct entropy :
  0 < d < 2 ^ 95 -> 0 <= pct <= 100 -> 0 <= entropy ->
  exists offset, jittered d pct entropy = d + offset /\ - (d * pct / 100) <= offset <= d * pct / 100.
Proof.
  intros Hd Hp He. unfold jittered, sat_mul128, sat_add128, U128_MAX.
  assert (0 <= d * pct <= 100 * d) by nia. rewrite (Z.min_l (d * pct)) by lia.
  set (span := d * pct / 100). assert (0 <= span <= d).
  { unfold span. split; [apply Z.div_pos; lia|apply Z.div_le_upper_bound; lia]. }
  destruct (0 <? pct); [|exists 0; lia]. destruct (0 <? span) eqn:Es; zbool; [|exists 0; lia].
  rewrite (Z.min_l (span * 2)), (Z.min_l (span * 2 + 1)) by lia. zdec (0 <? span * 2 + 1) true.
  pose proof (Z.mod_pos_bound entropy (span * 2 + 1) ltac:(lia)) as Hm.
  rewrite !as_i128_id by (rewrite ?as_i128_id; rewrite ?as_i128_id; lia).
  exists (entropy mod (span * 2 + 1) - span). split; [|lia].
  unfold as_u128. rewrite Z.mod_small; lia.
Qed.

(** The pause after a failed attempt is the doubled base delay, capped by the maximum,
    and off by at most the jitter percentage; there is none exactly when that delay is
    zero.  No step of the computation overflows. *)
Theorem retry_delay_near_nominal base max pct attempt entropy :
  0 <= base < 2 ^ 64 -> (forall m, max = Some m -> 0 <= m) -> 0 <= pct <= 100 ->
  1 <= attempt -> 0 <= entropy ->
  let d := nominal_spec base max attempt in
  match retry_delay_for_attempt_core base max pct attempt entropy with
  | None => d = 0
  | Some ms => 0 < d /\ exists offset,
      ms = Z.min (d + offset) U64_MAX /\ - (d * pct / 100) <= offset <= d * pct / 100
  end.
Proof.
  intros Hb Hm Hp Ha He. cbn zeta.
  destruct (nominal_delay_spec base max attempt Hb Ha Hm) as [E Hd].
  unfold retry_delay_for_attempt_core. rewrite E.
  destruct (nominal_spec base max attempt =? 0) eqn:Ez; zbool; [done|].
  destruct (jittered_near (nominal_spec base max attempt) pct entropy) as (off & Ej & Ho); [lia..|].
  split; [lia|]. exists off. by rewrite Ej.
Qed.

(** ** One entry *)

Definition attempted (evs : list AttemptEvent) : list Z :=
  omap (fun e => match e with Attempted n => Some n | Slept _ => None end) evs.

Section RunOne.
Context (spec : BatchSyncSpec) (o : BatchRuntimeOptions) (world : Z -> Attempt).

Lemma attempted_step n w evs :
  attempted (Attempted n :: pause_after spec o n w ++ evs) = n :: attempted evs.
Proof. unfold pause_after. by repeat case_match. Qed.

Lemma attempt_loop_fails ns le :
  (forall n, n ∈ ns -> exists e, attempt_outcome spec o (world n) = Some (Err e)) ->
  let '(r, evs) := attempt_loop spec o world ns le in
  attempted evs = ns /\
  r = Exhausted match last ns with
                | Some n => match attempt_outcome spec o (world n) with Some (Err e) => Some e | _ => None end
                | None => le
                end.
Proof.
  revert le. induction ns as [|n ns IH]; intros le Hf; cbn [attempt_loop]; [done|].
  destruct (Hf n ltac:(set_solver)) as [e He]. rewrite He.
  specialize (IH (Some e) ltac:(set_solver)).
  destruct (attempt_loop spec o world ns (Some e)) as [r evs]. destruct IH as [Hev ->]. split.
  - by rewrite attempted_step, Hev.
  - destruct ns as [|n' ns]; [cbn; by rewrite He|].
    change (last (n :: n' :: ns)) with (last (n' :: ns)).
    destruct (last (n' :: ns)) eqn:El; [done|]. by apply last_None in El.
Qed.

(** An attempt that does not fail ends the loop. *)
Lemma attempt_loop_stops pre n post le end_ :
  (forall m, m ∈ pre -> exists e, attempt_outcome spec o (world m) = Some (Err e)) ->
  match attempt_outcome spec o (world n) with
  | None => end_ = Unwound
  | Some (Ok _) => end_ = Succeeded
  | Some (Err _) => False
  end ->
  let '(r, evs) := attempt_loop spec o world (pre ++ n :: post) le in
  attempted evs = pre ++ [n] /\ r = end_.
Proof.
  revert le. induction pre as [|m pre IH]; intros le Hf Hn; cbn [attempt_loop app];
    [by repeat case_match|].
  destruct (Hf m ltac:(set_solver)) as [e He]. rewrite He.
  specialize (IH (Some e) ltac:(set_solver) Hn).
  destruct (attempt_loop spec o world _ (Some e)) as [r evs]. destruct IH as [Hev ->].
  split; [|done]. by rewrite attempted_step, Hev.
Qed.

(** Either there is a first attempt that does not fail, or all fail. *)
Lemma first_stop ns :
  (exists pre n post, ns = pre ++ n :: post /\
     (forall e, attempt_outcome spec o (world n) <> Some (Err e)) /\
     forall m, m ∈ pre -> exists e, attempt_outcome spec o (world m) = Some (Err e)) \/
  (forall m, m ∈ ns -> exists e, attempt_outcome spec o (world m) = Some (Err e)).
Proof.
  induction ns as [|n ns IH]; [right; set_solver|].
  destruct (attempt_outcome spec o (world n)) as [[[]|e]|] eqn:E.
  - left. exists [], n, ns. rewrite E. set_solver.
  - destruct IH as [(pre & m & post & -> & Hm & Hp)|Hall].
    + left. exists (n :: pre), m, post. split; [done|]. split; [done|].
      intros x [->|Hx]%elem_of_cons; eauto.
    + right. intros x [->|Hx]%elem_of_cons; eauto.
  - left. exists [], n, ns. rewrite E. set_solver.
Qed.
End RunOne.

Lemma range_incl_split a b pre n post :
  range_incl a b = pre ++ n :: post -> pre ++ [n] = range_incl a n /\ a <= n <= b.
Proof.
  intros E. assert (Hn : n ∈ range_incl a b) by (rewrite E; set_solver).
  apply elem_of_range_incl in Hn. split; [|done].
  rewrite !range_incl_range in *. rewrite (range_app a (n + 1) (b + 1)) in E by lia.
  rewrite (range_app a n (n + 1)) by lia. rewrite (range_app a n (n + 1)) in E by lia.
  rewrite (range_cons n), (range_empty (n + 1) (n + 1)) in * by lia.
  assert (length pre = length (range a n)) as Hl.
  { destruct (decide (length pre = length (range a n))) as [|Hne]; [done|exfalso].
    pose proof (NoDup_range_incl a b) as Hnd. rewrite range_incl_range in Hnd.
    rewrite (range_app a (n + 1) (b + 1)), (range_app a n (n + 1)), (range_cons n),
      (range_empty (n + 1) (n + 1)) in Hnd by lia.
    apply Hne. eapply NoDup_lookup; [exact Hnd| |].
    - rewrite E, lookup_app_r, Nat.sub_diag by lia. done.
    - rewrite <- app_assoc, lookup_app_r, Nat.sub_diag by lia. done. }
  rewrite <- app_assoc in E. apply app_inj_1 in E as [-> _]; [done|lia].
Qed.

(** An entry is attempted until its first success and at most [retries + 1] times: it
    succeeds exactly when one of these attempts does, and otherwise reports the error of
    the last one; an attempt that panics ends it without a result. *)
Theorem run_one_retries index spec o world :
  1 <= attempt_count spec o ->
  let '(item, evs) := run_one index spec o world in
  let outcome n := attempt_outcome spec o (world n) in
  (exists n, 1 <= n <= attempt_count spec o /\
     (forall m, 1 <= m < n -> exists e, outcome m = Some (Err e)) /\
     (outcome n = Some (Ok tt) /\ item = Some (mk_item index (identifier spec) None) \/
      outcome n = None /\ item = None) /\
     attempted evs = range_incl 1 n) \/
  (exists e, outcome (attempt_count spec o) = Some (Err e) /\
     (forall m, 1 <= m <= attempt_count spec o -> exists e, outcome m = Some (Err e)) /\
     item = Some (mk_item index (identifier spec)
              (Some ("after " +++ show_Z (attempt_count spec o) +++ " attempt(s): " +++
                     SyncError_to_string e))) /\
     attempted evs = range_incl 1 (attempt_count spec o)).
Proof.
  intros Hc. unfold run_one.
  destruct (first_stop spec o world (range_incl 1 (attempt_count spec o)))
    as [(pre & n & post & E & Hn & Hp)|Hall].
  - rewrite E.
    assert (exists end_, match attempt_outcome spec o (world n) with
      | None => end_ = Unwound | Some (Ok _) => end_ = Succeeded | Some (Err _) => False end) as [end_ He].
    { destruct (attempt_outcome spec o (world n)) as [[|e]|]; [by eexists|by edestruct Hn|by eexists]. }
    pose proof (attempt_loop_stops spec o world pre n post None end_ Hp He) as Hl.
    destruct (attempt_loop _ _ _ _ _) as [r evs]. destruct Hl as [Hev ->].
    apply range_incl_split in E as [Epre Hr]. left. exists n. rewrite Hev, Epre.
    split; [done|]. split; [|split; [|done]].
    + intros m Hm. apply Hp.
      assert (Hin : m ∈ pre ++ [n]) by (rewrite Epre; apply elem_of_range_incl; lia).
      apply elem_of_app in Hin as [|Hin]; [done|]. apply list_elem_of_singleton in Hin. exfalso; lia.
    + destruct (attempt_outcome spec o (world n)) as [[[]|e]|]; [|done|]; subst end_; auto.
  - pose proof (attempt_loop_fails spec o world _ None Hall) as Hl.
    destruct (attempt_loop _ _ _ _ _) as [r evs]. destruct Hl as [Hev ->].
    assert (Hm : forall m, 1 <= m <= attempt_count spec o ->
      exists e, attempt_outcome spec o (world m) = Some (Err e))
      by (intros m Hm; apply Hall, elem_of_range_incl; lia).
    destruct (Hm (attempt_count spec o) ltac:(lia)) as [e He]. right. exists e.
    assert (last (range_incl 1 (attempt_count spec o)) = Some (attempt_count spec o)) as ->.
    { rewrite range_incl_range, (range_app 1 (attempt_count spec o)) by lia.
      rewrite (range_cons (attempt_count spec o)), (range_empty (_ + 1)) by lia. apply last_snoc. }
    rewrite He. do 2 (split; [done|]). split; [|done]. by rewrite !sapp_assoc.
Qed.

(** What a missing and a successful result say about the attempts. *)
Lemma run_one_ends index spec o world :
  match fst (run_one index spec o world) with
  | None => exists n, 1 <= n <= attempt_count spec o /\ attempt_outcome spec o (world n) = None
  | Some item => item_index item = index /\
      (item_success item = true ->
       exists n, 1 <= n <= attempt_count spec o /\ attempt_outcome spec o (world n) = Some (Ok tt))
  end.
Proof.
  unfold run_one. destruct (first_stop spec o world (range_incl 1 (attempt_count spec o)))
    as [(pre & n & post & E & Hn & Hp)|Hall].
  - rewrite E. apply range_incl_split in E as [_ Hr].
    destruct (attempt_outcome spec o (world n)) as [[[]|e]|] eqn:En; [|by edestruct Hn|].
    + pose proof (attempt_loop_stops spec o world pre n post None Succeeded Hp) as Hl.
      rewrite En in Hl. specialize (Hl eq_refl). destruct (attempt_loop _ _ _ _ _) as [r evs].
      destruct Hl as [_ ->]. cbn. eauto.
    + pose proof (attempt_loop_stops spec o world pre n post None Unwound Hp) as Hl.
      rewrite En in Hl. specialize (Hl eq_refl). destruct (attempt_loop _ _ _ _ _) as [r evs].
      destruct Hl as [_ ->]. cbn. eauto.
  - pose proof (attempt_loop_fails spec o world _ None Hall) as Hl.
    destruct (attempt_loop _ _ _ _ _) as [r evs]. destruct Hl as [_ ->].
    by destruct (match last _ with Some _ => _ | None => _ end).
Qed.

(** A dry run changes nothing: whatever the sync operations would do, they are not
    called, and the outcome of the entry does not depend on them. *)
Theorem dry_run_performs_nothing index spec o w w' :
  effective_dry_run spec o = true ->
  (forall n, w' n = mk_attempt (perform (w' n)) (open_readonly (w n)) (path_exists (w n))
                      (timer_fires (w n)) (now_nanos (w n))) ->
  run_one index spec o w' = run_one index spec o w.
Proof.
  intros Hd Hw.
  assert (Ho : forall n, attempt_outcome spec o (w' n) = attempt_outcome spec o (w n)).
  { intros n. rewrite (Hw n). unfold attempt_outcome, run_one_inner, dry_run_local. rewrite Hd.
    cbn. by repeat case_match. }
  assert (Hl : forall ns le, attempt_loop spec o w' ns le = attempt_loop spec o w ns le).
  { induction ns as [|n ns IH]; intros le; cbn [attempt_loop]; [done|]. rewrite Ho.
    destruct (attempt_outcome spec o (w n)) as [[|]|]; [done| |done]. rewrite IH.
    assert (pause_after spec o n (w' n) = pause_after spec o n (w n)) as ->; [|done].
    unfold pause_after. by rewrite (Hw n). }
  unfold run_one. by rewrite Hl.
Qed.

(** ** The pool *)

Section Pool.
Context (specs : list BatchSyncSpec) (o : BatchRuntimeOptions) (world : nat -> Z -> Z -> Attempt).

(** A result that the retry loop of an entry gives at some step of the run. *)
Definition result_of (e : Z * BatchSyncSpec) (r : BatchItemResult) : Prop :=
  exists t, fst (run_one (fst e) (snd e) o (world t (fst e))) = Some r.

(** Some attempt of some entry panics. *)
Definition panicked : Prop :=
  exists t i spec n, (i, spec) ∈ enumerate specs /\ 1 <= n <= attempt_count spec o /\
    attempt_outcome spec o (world t i n) = None.

(** Every entry is pending, in flight or finished; nothing waits while nothing runs. *)
Record pool_inv (p : Pool) : Prop := {
  pool_entries : exists finished,
    pending p ++ in_flight p ++ finished ≡ₚ enumerate specs /\ Forall2 result_of finished (results p);
  pool_busy : in_flight p = [] -> pending p = [];
}.

Definition pool_load (p : Pool) : nat := (length (pending p) + length (in_flight p))%nat.

Lemma finish_one_inv k e r p :
  pool_inv p -> in_flight p !! k = Some e -> result_of e r ->
  pool_inv (finish_one k r p) /\ pool_load p = S (pool_load (finish_one k r p)).
Proof.
  intros [(fin & Hperm & Hres) Hbusy] Hk Hr.
  pose proof (take_drop_middle _ _ _ Hk) as Hsplit.
  assert (Hlen : length (in_flight p) = S (length (take k (in_flight p) ++ drop (S k) (in_flight p)))).
  { rewrite <- Hsplit at 1. rewrite !length_app. cbn. lia. }
  assert (Hres' : Forall2 result_of (fin ++ [e]) (results p ++ [r]))
    by (apply Forall2_app; [done|by constructor]).
  assert (Hin : in_flight p ≡ₚ e :: (take k (in_flight p) ++ drop (S k) (in_flight p)))
    by (rewrite <- Hsplit at 1; by rewrite Permutation_middle).
  rewrite Hin in Hperm.
  unfold finish_one, pool_load. destruct (pending p) as [|next rest] eqn:Ep; cbn.
  - split; [|lia]. split; [|done]. exists (fin ++ [e]). split; [|done]. cbn.
    rewrite <- Hperm. cbn. solve_Permutation.
  - split; [|rewrite length_app; cbn; lia]. split.
    + exists (fin ++ [e]). split; [|done]. cbn. rewrite <- Hperm. cbn. solve_Permutation.
    + intros [_ [=]]%app_eq_nil.
Qed.

Lemma run_pool_drains pick fuel : forall t p,
  pool_inv p -> pool_load p = fuel ->
  match run_pool fuel o pick world t p with
  | Some p' => pool_inv p' /\ pool_load p' = 0%nat
  | None => panicked
  end.
Proof.
  induction fuel as [|fuel IH]; intros t p Hi Hl; cbn [run_pool]; [done|].
  destruct (in_flight p) as [|e0 l] eqn:Ef.
  { unfold pool_load in Hl. rewrite Ef, (pool_busy _ Hi Ef) in Hl. done. }
  assert (Hlt : (pick t mod length (in_flight p) < length (in_flight p))%nat)
    by (apply Nat.mod_upper_bound; rewrite Ef; done).
  rewrite <- Ef. apply lookup_lt_is_Some_2 in Hlt as [[i s] Hk]. rewrite Hk.
  destruct (fst (run_one i s o (world t i))) as [r|] eqn:Er.
  - destruct (finish_one_inv _ _ r _ Hi Hk) as [Hi' Hl']; [by exists t|]. apply IH; [done|lia].
  - pose proof (run_one_ends i s o (world t i)) as He. rewrite Er in He. destruct He as (n & Hn & Ho).
    exists t, i, s, n. split; [|done]. destruct (pool_entries _ Hi) as (fin & <- & _).
    apply list_elem_of_lookup_2 in Hk. set_solver.
Qed.

Lemma fill_inv n : (0 < n)%nat -> pool_inv (fill n specs) /\ pool_load (fill n specs) = length specs.
Proof.
  intros Hn. assert (Hlen : length (enumerate specs) = length specs).
  { unfold enumerate. rewrite length_zip_with. pose proof (zlen_range 0 (zlen specs)) as Hz.
    unfold zlen in *. lia. }
  split.
  - split.
    + exists []. cbn. rewrite app_nil_r. split; [|by constructor].
      rewrite Permutation_app_comm. by rewrite take_drop.
    + cbn. intros E. apply (f_equal length) in E. rewrite length_take in E. cbn in E.
      apply drop_ge. lia.
  - unfold pool_load. cbn. rewrite length_drop, length_take. lia.
Qed.
End Pool.

(** ** The report *)

Definition index_lt (a b : BatchItemResult) : Prop := item_index a < item_index b.

#[local] Instance index_lt_antisymm : AntiSymm (=) index_lt.
Proof. intros x y. unfold index_lt. lia. Qed.

Lemma insert_by_index_perm r l : insert_by_index r l ≡ₚ r :: l.
Proof.
  induction l as [|x l IH]; cbn; [done|]. destruct (item_index r <=? item_index x); [done|].
  rewrite IH. apply Permutation_swap.
Qed.

Lemma sort_by_index_perm l : sort_by_index l ≡ₚ l.
Proof. induction l as [|r l IH]; cbn; [done|]. by rewrite insert_by_index_perm, IH. Qed.

Lemma insert_by_index_sorted r l :
  StronglySorted index_lt l -> item_index r ∉ map item_index l ->
  StronglySorted index_lt (insert_by_index r l).
Proof.
  induction 1 as [|x l Hs IH Hx]; cbn; intros Hn; [by repeat constructor|].
  assert (item_index r <> item_index x) by set_solver.
  destruct (item_index r <=? item_index x) eqn:E; zbool.
  - constructor; [by constructor|]. unfold index_lt. constructor; [lia|].
    eapply Forall_impl; [exact Hx|]. unfold index_lt. intros y Hy. cbn in *. lia.
  - constructor; [apply IH; set_solver|]. rewrite insert_by_index_perm. constructor; [|done].
    unfold index_lt. lia.
Qed.

Lemma sort_by_index_sorted l :
  NoDup (map item_index l) -> StronglySorted index_lt (sort_by_index l).
Proof.
  induction l as [|r l IH]; cbn; [constructor|]. intros [Hn Hd]%NoDup_cons.
  apply insert_by_index_sorted; [by apply IH|]. by rewrite sort_by_index_perm.
Qed.

Lemma indexed_sorted (l : list BatchItemResult) : forall a b,
  map item_index l = range a b -> StronglySorted index_lt l.
Proof.
  induction l as [|r l IH]; intros a b E; [constructor|].
  destruct (decide (a < b)) as [Hlt|]; [|by rewrite range_empty in E by lia].
  rewrite range_cons in E by done. injection E as Er El. constructor; [by eapply IH|].
  apply Forall_forall. intros x Hx. apply (list_elem_of_fmap_2 item_index) in Hx.
  change (item_index <$> l) with (map item_index l) in Hx. rewrite El in Hx.
  apply elem_of_range in Hx. unfold index_lt. lia.
Qed.

(** The sorted results of a permutation of indexed results. *)
Lemma sort_by_index_unique l l' a b :
  map item_index l' = range a b -> l ≡ₚ l' -> sort_by_index l = l'.
Proof.
  intros Hi Hp. apply (StronglySorted_unique index_lt).
  - apply sort_by_index_sorted. rewrite Hp, Hi.
    pose proof (NoDup_range_incl a (b - 1)) as Hn. rewrite range_incl_range in Hn.
    by replace (b - 1 + 1) with b in Hn by lia.
  - by eapply indexed_sorted.
  - by rewrite sort_by_index_perm.
Qed.

Lemma result_indices o world es rs :
  Forall2 (result_of o world) es rs -> map item_index rs = map fst es.
Proof.
  induction 1 as [|[i s] r es rs [t Hr] _ IH]; cbn in *; [done|]. rewrite IH.
  pose proof (run_one_ends i s o (world t i)) as He. rewrite Hr in He. by destruct He as [-> _].
Qed.

Lemma enumerate_fst {A} (l : list A) : map fst (enumerate l) = range 0 (zlen l).
Proof.
  unfold enumerate. apply fst_zip. pose proof (zlen_range 0 (zlen l)) as Hz.
  pose proof (zlen_nonneg l). unfold zlen in *. lia.
Qed.

Section BatchClaims.
Context (pick : nat -> nat) (world : nat -> Z -> Z -> Attempt).

(** What a report says about the entries of the manifest. *)
Definition reports (specs : list BatchSyncSpec) (o : BatchRuntimeOptions) (report : BatchRunReport) : Prop :=
  Forall2 (result_of o world) (enumerate specs) (report_results report) /\
  map item_index (report_results report) = range 0 (zlen specs) /\
  total report = zlen specs /\ succeeded report + failed report = total report /\
  failed report = zlen (List.filter (fun r => negb (item_success r)) (report_results report)).

Lemma counters_add_up (l : list BatchItemResult) :
  zlen (List.filter item_success l) + zlen (List.filter (fun r => negb (item_success r)) l) = zlen l.
Proof. induction l as [|r l IH]; [done|]. cbn. unfold zlen in *. destruct (item_success r); cbn; lia. Qed.

(** What every run of the pool leaves, sorted. *)
Lemma pool_results specs o final :
  pool_inv specs o world final -> pool_load final = 0%nat ->
  Forall2 (result_of o world) (enumerate specs) (sort_by_index (results final)).
Proof.
  intros [(fin & Hperm & Hres) _] Hload. unfold pool_load in Hload.
  destruct (pending final) eqn:Ep; [|done]. destruct (in_flight final) eqn:Ef; [|done].
  cbn in Hperm. apply (Permutation_Forall2 Hperm) in Hres as (rs & Hp & Hrs).
  erewrite sort_by_index_unique; [exact Hrs| |exact Hp].
  rewrite (result_indices o world _ _ Hrs). apply enumerate_fst.
Qed.

(** The report of a run, entry by entry, and its counters. *)
Lemma batch_report_spec specs o :
  match run_batch_sync specs o pick world with
  | Some report => reports specs o report
  | None => panicked specs o world
  end.
Proof.
  unfold run_batch_sync. set (n := Z.to_nat (Z.max (jobs o) 1)).
  destruct (fill_inv specs o world n) as [Hi Hl]; [lia|].
  pose proof (run_pool_drains specs o world pick (length specs) 0 (fill n specs) Hi Hl) as Hd.
  destruct (run_pool _ _ _ _ _ _) as [final|]; [|done]. destruct Hd as [Hf Hload].
  pose proof (pool_results specs o final Hf Hload) as Hr.
  pose proof (result_indices o world _ _ Hr) as Hx. rewrite enumerate_fst in Hx.
  assert (Ht : zlen (sort_by_index (results final)) = zlen specs).
  { apply (f_equal zlen) in Hx. unfold zlen in Hx at 1. rewrite length_map in Hx. unfold zlen at 1.
    rewrite Hx. pose proof (zlen_nonneg specs). rewrite zlen_range by lia. lia. }
  unfold reports. cbn [total succeeded failed report_results].
  pose proof (counters_add_up (sort_by_index (results final))) as Hc.
  pose proof (zlen_nonneg (List.filter (fun r => negb (item_success r)) (sort_by_index (results final)))).
  split; [done|]. split; [done|]. split; [done|]. split; lia.
Qed.

(** C36. A batch run in which no attempt panics returns a report, and the report has every
    manifest entry exactly once and in manifest order, with a result of the entry's own
    retry loop, whatever the number of jobs and whichever entries in flight finish
    first; the counters add up.  The only way not to report is a panic of an attempt. *)
Theorem batch_reports_every_entry specs o :
  match run_batch_sync specs o pick world with
  | Some report =>
      Forall2 (result_of o world) (enumerate specs) (report_results report) /\
      map item_index (report_results report) = range 0 (zlen specs) /\
      total report = zlen specs /\ succeeded report + failed report = total report /\
      failed report = zlen (List.filter (fun r => negb (item_success r)) (report_results report))
  | None => panicked specs o world
  end.
Proof. apply batch_report_spec. Qed.
End BatchClaims.

(** The pools of a run. *)
Inductive pool_reachable (n : nat) (specs : list BatchSyncSpec) : Pool -> Prop :=
| pool_started : pool_reachable n specs (fill n specs)
| pool_stepped k r p :
    pool_reachable n specs p -> (k < length (in_flight p))%nat ->
    pool_reachable n specs (finish_one k r p).

(** Never more than [n] entries run at a time. *)
Lemma pool_never_exceeds_jobs n specs p :
  pool_reachable n specs p -> (length (in_flight p) <= n)%nat.
Proof.
  induction 1 as [|k r p _ IH Hk]; [cbn; rewrite length_take; lia|].
  unfold finish_one. destruct (pending p); cbn; rewrite !length_app, length_take, length_drop; cbn; lia.
Qed.

(** The settings an entry of an accepted manifest can have. *)
Definition valid_spec (s : BatchSyncSpec) : Prop :=
  trim (spec_origin s) <> "" /\ trim (spec_replica s) <> "" /\ timeout_secs s <> Some 0 /\
  (forall pct, spec_jitter_pct s = Some pct -> pct <= 100) /\
  (forall base max, retry_backoff_ms s = Some base -> retry_backoff_max_ms s = Some max ->
     0 < max -> base <= max).

Lemma check_entry_ok path idx e s : check_entry path idx e = Ok s -> valid_spec s.
Proof.
  unfold check_entry, valid_spec. intros H. repeat case_test; try done. injection H as <-.
  cbn [spec_origin spec_replica timeout_secs spec_jitter_pct retry_backoff_ms retry_backoff_max_ms]. split_and!.
  - by destruct (trim (entry_origin e)).
  - by destruct (trim (entry_replica e)).
  - by case_bool_decide.
  - intros pct Hp. rewrite Hp in *. by zbool.
  - intros base max Hb Hm Hpos. rewrite Hb, Hm in *.
    destruct (max <? base) eqn:E; zbool; [|lia].
    assert ((0 <? max) = true) as Hp by (apply Z.ltb_lt; lia). by rewrite Hp in *.
Qed.

Lemma check_entries_ok path es : forall idx specs,
  check_entries path idx es = Ok specs -> length specs = length es /\ Forall valid_spec specs.
Proof.
  induction es as [|e es IH]; intros idx specs; cbn; [intros [= <-]; by split|].
  destruct (check_entry path idx e) as [s|] eqn:Ee; [|done].
  destruct (check_entries path (idx + 1) es) as [ss|] eqn:Es; [|done]. intros [= <-].
  apply check_entry_ok in Ee. apply IH in Es as [<- Hvs]. split; [done|]. by constructor.
Qed.

(** When batch mode reports success, the manifest had entries, each with valid settings,
    and each of them was synchronised by one of its attempts. *)
Theorem batch_mode_ok json yaml toml path text format a pick world :
  run_batch_mode a (load_manifest json yaml toml path text format) pick world = Some (Ok tt) ->
  exists specs, load_manifest json yaml toml path text format = Ok specs /\
    specs <> [] /\ Forall valid_spec specs /\
    forall i spec, (i, spec) ∈ enumerate specs ->
      exists t n, 1 <= n <= attempt_count spec (batch_options a) /\
        attempt_outcome spec (batch_options a) (world t i n) = Some (Ok tt).
Proof.
  unfold run_batch_mode. intros H.
  destruct (check_batch_args a); [|done]. cbn in H.
  destruct (load_manifest json yaml toml path text format) as [specs|] eqn:El; [|done].
  exists specs. split; [done|].
  assert (Hv : specs <> [] /\ Forall valid_spec specs).
  { unfold load_manifest in El. destruct text as [text|]; [|done].
    destruct (parse_manifest _ _ _ _ _ _) as [[v [|e es]]|]; [done| |done].
    apply check_entries_ok in El as [Hl Hv]. split; [by intros ->|done]. }
  destruct Hv as [Hne Hv]. do 2 (split; [done|]). intros i spec Hin.
  pose proof (batch_report_spec pick world specs (batch_options a)) as Hrep.
  destruct (run_batch_sync _ _ _ _) as [report|]; [|done].
  destruct Hrep as (Hr & _ & _ & _ & Hf).
  destruct (any_failed _) eqn:Ea; [done|]. unfold any_failed in Ea. zbool.
  apply list_elem_of_lookup in Hin as [k Hk].
  destruct (Forall2_lookup_l _ _ _ _ _ Hr Hk) as (r & Hrk & t & Ht). exists t. cbn in Ht.
  pose proof (run_one_ends i spec (batch_options a) (world t i)) as He. rewrite Ht in He.
  apply He. destruct (item_success r) eqn:Es; [done|exfalso].
  assert (r ∈ List.filter (fun r => negb (item_success r)) (report_results report)) as Hi.
  { apply list_elem_of_In, filter_In. split; [|by rewrite Es].
    by apply list_elem_of_In, list_elem_of_lookup; exists k. }
  rewrite Hf in Ea. destruct (List.filter _ _); [by apply elem_of_nil in Hi|].
  unfold zlen in Ea. cbn in Ea. lia.
Qed.

(** An entry whose first attempt panics leaves the whole batch without a report. *)
Lemma panic_loses_report specs o pick world i spec :
  (i, spec) ∈ enumerate specs -> 1 <= attempt_count spec o ->
  (forall t, attempt_outcome spec o (world t i 1) = None) ->
  run_batch_sync specs o pick world = None.
Proof.
  intros Hin Hc Hp. pose proof (batch_report_spec pick world specs o) as H.
  destruct (run_batch_sync specs o pick world) as [report|]; [exfalso|done].
  destruct H as [Hr _]. apply list_elem_of_lookup in Hin as [k Hk].
  destruct (Forall2_lookup_l _ _ _ _ _ Hr Hk) as (r & _ & t & Ht). cbn in Ht.
  unfold run_one in Ht. rewrite range_incl_range, range_cons in Ht by lia. cbn [attempt_loop] in Ht.
  by rewrite Hp in Ht.
Qed.

Section LargerReplica.
Context `{!Digests, !Rayon, !HashSetDebug}.

(** One manifest entry whose replica file has more pages than its origin costs the whole
    batch: the sync of that entry panics (on every schedule, with enough scheduling
    steps), so no entry is reported, whatever the other entries are, how many run at a
    time and which of them finish first. *)
Theorem larger_replica_loses_batch specs opts pick i spec o r oc rc_conn conn_exec tuning ps pc rc image :
  (i, spec) ∈ enumerate specs -> 1 <= attempt_count spec opts ->
  parse (spec_origin spec) = LocalEndpoint o -> parse (spec_replica spec) = LocalEndpoint r ->
  effective_dry_run spec opts = false ->
  origin_ok ps pc image oc -> replica_ok ps rc rc_conn -> pc < rc ->
  no_collision ps pc rc image (file rc_conn) -> conn_exec "BEGIN DEFERRED" = Ok tt ->
  exists n, forall fuel world, (n <= fuel)%nat ->
    (forall t, perform (world t i 1) (SyncLocalCall o r) =
       lo_result (sync_local_with_tuning (Ok oc) (Ok rc_conn) conn_exec tuning fuel)) ->
    (forall t limit, timer_fires (world t i 1) limit = false) ->
    run_batch_sync specs opts pick world = None.
Proof.
  intros Hin Hc Ho Hr Hd Hoc Hrc Hlt NC Hb.
  destruct (sync_local_larger_panics oc rc_conn conn_exec tuning ps pc rc image Hoc Hrc Hlt NC Hb)
    as [n Hn].
  exists n. intros fuel world Hfuel Hperf Htimer. apply (panic_loses_report _ _ _ _ i spec Hin Hc).
  intros t. unfold attempt_outcome, run_one_inner. rewrite Ho, Hr, Hd. cbn [negb].
  rewrite Hperf. destruct (Hn fuel Hfuel) as [-> _].
  destruct (effective_timeout spec opts); [by rewrite Htimer|done].
Qed.
End LargerReplica.

(** ** Examples *)

Definition example_spec : BatchSyncSpec :=
  mk_spec None "a.db" "b.db" None (Some 2) None (Some 100) (Some 150) (Some 50) None.
Definition example_options : BatchRuntimeOptions := mk_batch_options 2 false 0 None None None 0 None.

(** The sync of an attempt succeeds from attempt [n] on. *)
Definition succeeds_from (n attempt : Z) : Attempt :=
  mk_attempt (fun _ => Some (if n <=? attempt then Ok tt else Err (Busy "locked"))) (fun _ => Err (Busy "locked"))
    (fun _ => true) (fun _ => false) (100 * attempt).

Example run_one_third_attempt :
  run_one 0 example_spec example_options (succeeds_from 3) =
  (Some (mk_item 0 "a.db -> b.db" None),
   [Attempted 1; Slept 150; Attempted 2; Slept 124; Attempted 3]).
Proof. vm_compute. reflexivity. Qed.

(** The jitter is applied after the cap: the pause can exceed the configured maximum. *)
Example jitter_exceeds_max : retry_delay_for_attempt_core 100 (Some 150) 50 2 150 = Some 225.
Proof. reflexivity. Qed.

Lemma retry_delay_near_nominal_witness :
  nominal_spec 100 (Some 150) 2 = 150 /\
  exists offset, 225 = Z.min (150 + offset) U64_MAX /\ -75 <= offset <= 75.
Proof.
  split; [reflexivity|].
  apply (retry_delay_near_nominal 100 (Some 150) 50 2 150); [lia| |lia..]. intros m [= <-]. lia.
Defined.

Lemma run_one_retries_witness :
  exists n, 1 <= n <= 3 /\ attempt_outcome example_spec example_options (succeeds_from 3 n) = Some (Ok tt) /\
    attempted [Attempted 1; Slept 150; Attempted 2; Slept 124; Attempted 3] = range_incl 1 n.
Proof.
  pose proof (run_one_retries 0 example_spec example_options (succeeds_from 3) ltac:(vm_compute; done)) as H.
  rewrite run_one_third_attempt in H.
  destruct H as [(n & Hn & _ & [[Hok _]|[_ [=]]] & Ha)|(e & _ & _ & He & _)]; [|done].
  exists n. split; [exact Hn|]. by split.
Defined.

Definition dry_options : BatchRuntimeOptions := mk_batch_options 2 true 0 None None None 0 None.

Lemma dry_run_performs_nothing_witness :
  run_one 0 example_spec dry_options
    (fun n => mk_attempt (fun _ => None) (fun _ => Err (Busy "locked")) (fun _ => true)
                (fun _ => false) (100 * n)) =
  run_one 0 example_spec dry_options (succeeds_from 3).
Proof.
  apply (dry_run_performs_nothing 0 example_spec dry_options (succeeds_from 3)); reflexivity.
Defined.

Definition example_args : BatchArgs := mk_batch_args false false false 2 0 0 0 0 0 false None.

Definition example_entry : BatchEntryWire :=
  mk_entry None "a.db" "b.db" None (Some 2) None (Some 100) (Some 150) (Some 50) None.
Definition example_manifest : BatchManifest := mk_manifest None [example_entry; example_entry].

Lemma batch_mode_ok_witness :
  exists specs, specs <> [] /\ Forall valid_spec specs /\
    load_manifest (fun _ => Ok example_manifest) (fun _ => Err "no") (fun _ => Err "no")
      "m.json" (Ok "[]") FormatAuto = Ok specs.
Proof.
  destruct (batch_mode_ok (fun _ => Ok example_manifest) (fun _ => Err "no")
              (fun _ => Err "no") "m.json" (Ok "[]") FormatAuto example_args
              (fun t => t) (fun _ _ => succeeds_from 2)) as (specs & Hl & Hne & Hv & _);
    [vm_compute; reflexivity|].
  exists specs. split; [exact Hne|]. split; [exact Hv|exact Hl].
Defined.

(** Entries that finish out of order are reported in manifest order. *)
Example batch_out_of_order :
  option_map (fun report => map (fun r => (item_index r, error r)) (report_results report))
    (run_batch_sync [example_spec; example_spec; example_spec] example_options
       (fun t => S t) (fun _ i => succeeds_from (i + 2))) =
  Some [(0, None); (1, None); (2, Some "after 3 attempt(s): Database busy / locked: locked")].
Proof. vm_compute. reflexivity. Qed.

(** The sync of each attempt is the local sync of the example databases. *)
Definition syncs_locally (fuel : nat) (t : nat) (index attempt : Z) : Attempt :=
  mk_attempt (fun _ => lo_result (sync_local_with_tuning (Ok example_origin)
                (Ok (if index =? 1 then Example.larger else Example.stale)) (fun _ => Ok tt) default_tuning fuel))
    (fun _ => Err (Busy "locked")) (fun _ => true) (fun _ => false) 0.

Lemma larger_replica_loses_batch_witness :
  exists n, forall fuel, (n <= fuel)%nat ->
    run_batch_sync [example_spec; example_spec; example_spec] example_options (fun t => t)
      (syncs_locally fuel) = None.
Proof.
  destruct (larger_replica_loses_batch [example_spec; example_spec; example_spec] example_options
    (fun t => t) 1 example_spec "a.db" "b.db" example_origin Example.larger (fun _ => Ok tt) default_tuning
    2 3 4 [1; 2; 3; 4; 5; 6]) as [n Hn];
    [by vm_compute; right; left|by vm_compute|reflexivity|reflexivity|reflexivity
    |exact example_origin_ok|exact larger_ok|lia|exact Example.larger_free|reflexivity|].
  exists n. intros fuel Hf. apply (Hn fuel); [exact Hf|reflexivity|reflexivity].
Defined.
