(* ===== verification/Remote.v ===== *)
(** * Remote synchronisation (src/src/lib.rs, src/src/main.rs, src/src/gateway/replication.rs)

    The two ends of a remote synchronisation as processes: [push_sync_with_tuning]
    and [pull_sync_with_tuning] with the server modes the ssh command starts, and
    the gRPC entry points with the session the replication service spawns.  Opening
    a database, the ssh child processes, dialling and closing are parameters; statements run
    on the origin's transaction are part of a result.

    A timer of tokio can only fire at an await: [timeout (Some n) p] is [p] abandoned
    at its [n]-th await. *)

From S2P Require Import Prelude RustStr Errors Hash Messages Proc Db Tuning Pages Instances.
From S2P Require Import Transport Origin Replica Session SyncLocal Faults Ssh Auth Ha Engine Server.

Section Remote.
Context `{!Digests, !Rayon, !HashSetDebug}.

(** What follows the session on the side that holds the snapshot. *)
Definition settle (conn_exec : string -> SyncResult unit) (snap : Snapshot) (stmts : list string)
    (r : SyncResult unit) : SyncResult unit * list string :=
  match r with
  | Err e => (Err e, stmts ++ snapshot_drop snap)
  | Ok _ => let '(r, cs) := snapshot_commit conn_exec snap in (r, stmts ++ cs)
  end.

(** [run_result?; close_result?]. *)
Definition both (run_result close_result : SyncResult unit) : SyncResult unit :=
  match run_result with Err e => Err e | Ok _ => close_result end.

(** What launching ssh depends on: the children, the process id, the clock and the files
    of the system, then the arguments of the entry points. *)
Record SshTarget := mk_ssh_target {
  run_status : list string -> Result string ExitStatus;
  spawn : list string -> Result string Child;
  ssh_pid : Z;
  ssh_ts : Z;
  ssh_tmp_files : list string;
  user_host : string;
  remote_path : string;
  remote_exe : string;
  ssh_opts : list string;
  ssh_options : SshConnectOptions;
}.

Definition ssh_connect (t : SshTarget) (server_flag : string) : SyncResult SshTransport :=
  connect (run_status t) (spawn t) (ssh_pid t) (ssh_ts t) (ssh_tmp_files t) (user_host t)
    (remote_path t) (remote_exe t) server_flag (ssh_opts t) (ssh_options t).

Definition push_sync_with_tuning (open : SyncResult Connection)
    (conn_exec : string -> SyncResult unit) (target : SshTarget)
    (try_wait : option IoError) (tuning : SyncTuning) : proc (SyncResult unit * list string) :=
  match open with
  | Err e => Ret (Err e, [])
  | Ok origin_conn =>
      match snapshot_begin conn_exec origin_conn with
      | (Err e, stmts) => Ret (Err e, stmts)
      | (Ok snap, stmts) =>
          match ssh_connect target "--server-replica" with
          | Err e => Ret (Err e, stmts ++ snapshot_drop snap)
          | Ok transport =>
              await run_result := Origin.run_with_tuning snap tuning in
              let close_result := fst (ssh_close try_wait transport) in
              Ret (settle conn_exec snap stmts (both run_result close_result))
          end
      end
  end.

Definition push_sync (open : SyncResult Connection) (conn_exec : string -> SyncResult unit)
    (target : SshTarget) (try_wait : option IoError)
    (var : string -> option string) : proc (SyncResult unit * list string) :=
  push_sync_with_tuning open conn_exec target try_wait (from_env var).

Definition pull_sync_with_tuning (open : SyncResult Connection)
    (target : SshTarget) (try_wait : option IoError) (tuning : SyncTuning)
  : proc (SyncResult unit) :=
  match open with
  | Err e => Ret (Err e)
  | Ok replica_conn =>
      match ssh_connect target "--server-origin" with
      | Err e => Ret (Err e)
      | Ok transport =>
          await run_result := Replica.run_with_tuning replica_conn tuning in
          Ret (both run_result (fst (ssh_close try_wait transport)))
      end
  end.

Definition pull_sync (open : SyncResult Connection) (target : SshTarget)
    (try_wait : option IoError) (var : string -> option string) : proc (SyncResult unit) :=
  pull_sync_with_tuning open target try_wait (from_env var).

(** The modes of the binary on the remote machine. *)
Definition server_origin_mode (open : SyncResult Connection)
    (conn_exec : string -> SyncResult unit) (tuning : SyncTuning)
  : proc (SyncResult unit * list string) :=
  match open with
  | Err e => Ret (Err e, [])
  | Ok origin_conn =>
      match snapshot_begin conn_exec origin_conn with
      | (Err e, stmts) => Ret (Err e, stmts)
      | (Ok snap, stmts) =>
          await r := Origin.run_with_tuning snap tuning in
          Ret (settle conn_exec snap stmts r)
      end
  end.

Definition server_replica_mode (open : SyncResult Connection) (tuning : SyncTuning)
  : proc (SyncResult unit) :=
  match open with
  | Err e => Ret (Err e)
  | Ok replica_conn => Replica.run_with_tuning replica_conn tuning
  end.

(** ** gRPC *)

(** Schemes of the command line as the ones tonic expects. *)
Definition normalize_grpc_url (url : string) : string :=
  match strip_prefix "grpcs://" url with
  | Some rest => "https://" +++ rest
  | None =>
      match strip_prefix "grpc://" url with
      | Some rest => "http://" +++ rest
      | None => url
      end
  end.

(** What tonic and the channel answer while a stream is set up. *)
Record GrpcDial := mk_dial {
  from_shared : string -> Result string unit;
  tls_config : Result string unit;
  dial : Result string unit;
  send_init : Result string unit;
  metadata_value : string -> Result string string;
}.

Definition network_err {A} (text : string) (r : Result string A) : SyncResult A :=
  map_err (fun e => Network (text +++ e)) r.

Definition ORIGIN_ROLE : Z := 2.
Definition REPLICA_ROLE : Z := 1.

(** From the URL to the established stream.  [sync_call] is the RPC: it is given the
    first message and the authorization header. *)
Definition grpc_open_stream (d : GrpcDial) (sync_call : SyncInit -> option string -> Result string unit)
    (url database : string) (auth_token : option string) (role : Z) : SyncResult unit :=
  let normalized := normalize_grpc_url url in
  let? _ := network_err "invalid gRPC URL: " (from_shared d normalized) in
  let? _ :=
    if starts_with "https://" normalized
    then network_err "failed to configure TLS: " (tls_config d) else Ok tt in
  let? _ := network_err "failed to connect to gRPC server: " (dial d) in
  let init := mk_sync_init database role (default "" auth_token) in
  let? _ := network_err "failed to send SyncInit: " (send_init d) in
  let? authorization :=
    match auth_token with
    | Some token =>
        let? v := map_err (fun e => Protocol ("invalid auth token: " +++ e))
                    (metadata_value d ("Bearer " +++ token)) in
        Ok (Some v)
    | None => Ok None
    end in
  network_err "failed to establish gRPC stream: " (sync_call init authorization).

Definition grpc_push_sync_with_tuning (open : SyncResult Connection)
    (conn_exec : string -> SyncResult unit) (d : GrpcDial)
    (sync_call : SyncInit -> option string -> Result string unit)
    (url database : string) (auth_token : option string) (tuning : SyncTuning)
  : proc (SyncResult unit * list string) :=
  match open with
  | Err e => Ret (Err e, [])
  | Ok origin_conn =>
      match snapshot_begin conn_exec origin_conn with
      | (Err e, stmts) => Ret (Err e, stmts)
      | (Ok snap, stmts) =>
          match grpc_open_stream d sync_call url database auth_token ORIGIN_ROLE with
          | Err e => Ret (Err e, stmts ++ snapshot_drop snap)
          | Ok _ =>
              await run_result := Origin.run_with_tuning snap tuning in
              let close_result := Ok tt in  (* GrpcTransport::close never fails *)
              Ret (settle conn_exec snap stmts (both run_result close_result))
          end
      end
  end.

Definition grpc_pull_sync_with_tuning (open : SyncResult Connection) (d : GrpcDial)
    (sync_call : SyncInit -> option string -> Result string unit)
    (url database : string) (auth_token : option string) (tuning : SyncTuning)
  : proc (SyncResult unit) :=
  match open with
  | Err e => Ret (Err e)
  | Ok replica_conn =>
      match grpc_open_stream d sync_call url database auth_token REPLICA_ROLE with
      | Err e => Ret (Err e)
      | Ok _ =>
          await run_result := Replica.run_with_tuning replica_conn tuning in
          let close_result := Ok tt in
          Ret (both run_result close_result)
      end
  end.

Definition grpc_push_sync (open : SyncResult Connection) (conn_exec : string -> SyncResult unit)
    (d : GrpcDial) (sync_call : SyncInit -> option string -> Result string unit)
    (url database : string) (auth_token : option string) (var : string -> option string)
  : proc (SyncResult unit * list string) :=
  grpc_push_sync_with_tuning open conn_exec d sync_call url database auth_token (from_env var).

Definition grpc_pull_sync (open : SyncResult Connection) (d : GrpcDial)
    (sync_call : SyncInit -> option string -> Result string unit)
    (url database : string) (auth_token : option string) (var : string -> option string)
  : proc (SyncResult unit) :=
  grpc_pull_sync_with_tuning open d sync_call url database auth_token (from_env var).

(** ** The session of the replication service, after admission *)

Definition DEFAULT_REPLICATION_TIMEOUT_SECS : Z := 120.
Definition POST_TIMEOUT_GRACE_SECS : Z := 5.

Fixpoint timeout_after {A} (n : nat) (p : proc A) {struct p} : proc (option A) :=
  match p with
  | Ret a => Ret (Some a)
  | Panic => Panic
  | Send m k => match n with O => Ret None | S n => Send m (fun r => timeout_after n (k r)) end
  | Recv k => match n with O => Ret None | S n => Recv (fun r => timeout_after n (k r)) end
  | Write i d k => match n with O => Ret None | S n => Write i d (fun r => timeout_after n (k r)) end
  end.

(** [tokio::time::timeout]: [None] when the timer does not fire. *)
Definition timeout {A} (timer : option nat) (p : proc A) : proc (option A) :=
  match timer with
  | None => await a := p in Ret (Some a)
  | Some n => timeout_after n p
  end.

(** Send an [Error] message, its result ignored. *)
Definition send_error (message : string) : proc unit :=
  await _ := send (Error message) in Ret tt.

(** The same under [POST_TIMEOUT_GRACE]. *)
Definition send_error_grace (grace : option nat) (message : string) : proc unit :=
  await _ := timeout grace (send (Error message)) in Ret tt.

(** The report on the outcome of a session. *)
Definition report (grace : option nat) (run_res : option (SyncResult unit)) : proc unit :=
  match run_res with
  | Some (Ok _) => Ret tt
  | Some (Err e) => send_error_grace grace (SyncError_to_string e)
  | None => send_error_grace grace "replication session timed out"
  end.

(** The client is the replica: the server reads its database.  Returns the outcome of
    the session and the statements run on the transaction. *)
Definition serve_origin (open : SyncResult Connection) (conn_exec : string -> SyncResult unit)
    (tuning : SyncTuning) (timer grace : option nat)
  : proc (option (SyncResult unit) * list string) :=
  match open with
  | Err e => await _ := send_error (SyncError_to_string e) in Ret (Some (Err e), [])
  | Ok origin_conn =>
      match snapshot_begin conn_exec origin_conn with
      | (Err e, stmts) => await _ := send_error (SyncError_to_string e) in Ret (Some (Err e), stmts)
      | (Ok snap, stmts) =>
          await run_res := timeout timer (Origin.run_with_tuning snap tuning) in
          await _ := report grace run_res in
          Ret (run_res, stmts ++ snd (snapshot_commit conn_exec snap))
      end
  end.

(** The client is the origin: the server writes its database, first under the lock of
    the database, then, the lock released, it reports. *)
Definition serve_replica_locked (open : SyncResult Connection) (tuning : SyncTuning)
    (timer : option nat) : proc (Result SyncError (option (SyncResult unit))) :=
  match open with
  | Err e => Ret (Err e)
  | Ok replica_conn =>
      await run_res := timeout timer (Replica.run_with_tuning replica_conn tuning) in
      Ret (Ok run_res)
  end.

Definition serve_replica_unlocked (grace : option nat)
    (r : Result SyncError (option (SyncResult unit))) : proc (option (SyncResult unit)) :=
  match r with
  | Err e => await _ := send_error (SyncError_to_string e) in Ret (Some (Err e))
  | Ok run_res => await _ := report grace run_res in Ret run_res
  end.

Definition serve_replica (open : SyncResult Connection) (tuning : SyncTuning)
    (timer grace : option nat) : proc (option (SyncResult unit)) :=
  await r := serve_replica_locked open tuning timer in
  serve_replica_unlocked grace r.
End Remote.

(** ** Sessions inside larger processes *)

Definition bind_origin {A A' B} (f : A -> proc A') (c : config_of A B) : config_of A' B :=
  mk_config (pbind (origin c) f) (replica c) (to_origin c) (to_replica c) (conn c)
    (origin_sent c) (replica_sent c).
Definition bind_replica {A B B'} (g : B -> proc B') (c : config_of A B) : config_of A B' :=
  mk_config (origin c) (pbind (replica c) g) (to_origin c) (to_replica c) (conn c)
    (origin_sent c) (replica_sent c).

Lemma step_bind_origin {A A' B} (f : A -> proc A') (c d : config_of A B) :
  step c d -> step (bind_origin f c) (bind_origin f d).
Proof. destruct 1; constructor. Qed.

Lemma step_bind_replica {A B B'} (g : B -> proc B') (c d : config_of A B) :
  step c d -> step (bind_replica g c) (bind_replica g d).
Proof. destruct 1; constructor. Qed.

Lemma nsteps_map {S S'} (R : S -> S -> Prop) (R' : S' -> S' -> Prop) (f : S -> S') n c d :
  (forall c d, R c d -> R' (f c) (f d)) -> nsteps R n c d -> nsteps R' n (f c) (f d).
Proof. intros H. induction 1; econstructor; eauto. Qed.

Section Follow.
Context {A B : Type} (okA : A -> bool) (okB : B -> bool).

Lemma ofollows_bind p T (f : A -> proc B) :
  (forall a, okA a = false -> quiet okB (f a)) -> (forall a, okA a = true -> exists b, f a = Ret b) ->
  ofollows okA p T -> ofollows okB (pbind p f) T.
Proof.
  intros Hq Hr. induction 1 as [p T H|a|m k T He H IH|m k T He Ht H IH|n d p T H IH]; cbn.
  - apply of_quiet. by eapply quiet_bind.
  - destruct (okA a) eqn:E; [destruct (Hr a E) as [b ->]; apply of_ret|by apply of_quiet, Hq].
  - apply of_send; eauto using quiet_bind.
  - apply of_recv; eauto using quiet_bind.
  - by apply of_skip.
Qed.

Lemma rfollows_bind p T (f : A -> proc B) :
  (forall a, okA a = false -> quiet okB (f a)) -> (forall a, okA a = true -> exists b, f a = Ret b) ->
  rfollows okA p T -> rfollows okB (pbind p f) T.
Proof.
  intros Hq Hr. induction 1 as [p T H|a|m k T He H IH|m k T He Ht H IH|n d k T He H IH]; cbn.
  - apply rf_quiet. by eapply quiet_bind.
  - destruct (okA a) eqn:E; [destruct (Hr a E) as [b ->]; apply rf_ret|by apply rf_quiet, Hq].
  - apply rf_send; eauto using quiet_bind.
  - apply rf_recv; eauto using quiet_bind.
  - apply rf_write; eauto using quiet_bind.
Qed.
End Follow.

(** ** Timers *)
Section Timers.
Context {A : Type} (ok : A -> bool).

Definition ok_in_time (o : option A) : bool := match o with Some a => ok a | None => false end.

Lemma quiet_timeout_after n p : quiet ok p -> quiet ok_in_time (timeout_after n p).
Proof.
  revert n. induction p as [a| |m k IH|k IH|]; intros [|n] Hp; cbn in *; auto; destruct m; auto.
Qed.

Lemma ofollows_timeout_after n p T : ofollows ok p T -> ofollows ok_in_time (timeout_after n p) T.
Proof.
  intros Hp. revert n.
  induction Hp as [p T H|a|m k T He H IH|m k T He Ht H IH|i d p T H IH]; intros n.
  - auto using of_quiet, quiet_timeout_after.
  - apply of_ret.
  - destruct n; cbn; [by apply of_quiet|]. apply of_send; auto using quiet_timeout_after.
  - destruct n; cbn; [by apply of_quiet|]. apply of_recv; auto using quiet_timeout_after.
  - apply of_skip. auto.
Qed.

Lemma rfollows_timeout_after n p T : rfollows ok p T -> rfollows ok_in_time (timeout_after n p) T.
Proof.
  intros Hp. revert n.
  induction Hp as [p T H|a|m k T He H IH|m k T He Ht H IH|i d k T He H IH]; intros n.
  - auto using rf_quiet, quiet_timeout_after.
  - apply rf_ret.
  - destruct n; cbn; [by apply rf_quiet|]. apply rf_send; auto using quiet_timeout_after.
  - destruct n; cbn; [by apply rf_quiet|]. apply rf_recv; auto using quiet_timeout_after.
  - destruct n; cbn; [by apply rf_quiet|]. apply rf_write; auto using quiet_timeout_after.
Qed.

(** A timer can only turn success into failure. *)
Lemma ofollows_timeout timer p T : ofollows ok p T -> ofollows ok_in_time (timeout timer p) T.
Proof.
  destruct timer as [n|]; [apply ofollows_timeout_after|].
  apply ofollows_bind; intros a Ha; [done|by eexists].
Qed.

Lemma rfollows_timeout timer p T : rfollows ok p T -> rfollows ok_in_time (timeout timer p) T.
Proof.
  destruct timer as [n|]; [apply rfollows_timeout_after|].
  apply rfollows_bind; intros a Ha; [done|by eexists].
Qed.
End Timers.

(** ** The end of an ssh child

    [SshTransport::close] of a push drops the pipes and kills the ssh child that is still
    running ([reap_child]): from then on whatever the remote process has not yet read can be
    lost, and its next receive or send can fail. *)
Section Hangup.
Context {A B : Type}.

Inductive ssh_push_step : config_of A B -> config_of A B -> Prop :=
| ssh_carries c d : step c d -> ssh_push_step c d
| killed_before_recv a k qo qr c os rs e :
    ssh_push_step (mk_config (Ret a) (Recv k) qo qr c os rs) (mk_config (Ret a) (k (Err e)) qo qr c os rs)
| killed_before_send a m k qo qr c os rs e :
    ssh_push_step (mk_config (Ret a) (Send m k) qo qr c os rs) (mk_config (Ret a) (k (Err e)) qo qr c os rs).

Lemma ssh_push_lossy c d : rtc ssh_push_step c d -> rtc lossy_step c d.
Proof.
  induction 1 as [|x y z [c d Hs| |] _ IH]; [apply rtc_refl|..]; (eapply rtc_l; [|exact IH]);
    [by apply link_works|by apply replica_recv_fails|by apply replica_send_fails].
Qed.

(** Once the pushing process has returned, only the remote one moves, down its tree. *)
Lemma returned_step a (c d : config_of A B) : origin c = Ret a -> ssh_push_step c d -> origin d = Ret a.
Proof. intros E Hs. destruct Hs as [c d Hs| |]; [destruct Hs|..]; cbn in *; by simplify_eq. Qed.

Lemma returned_run a (c d : config_of A B) : rtc step c d -> origin c = Ret a -> origin d = Ret a.
Proof. induction 1 as [|x y z Hs _ IH]; [done|]. intros E. eapply IH, returned_step; [done|by apply ssh_carries]. Qed.

Lemma returned_sn a (r : proc B) : forall qo qr c os rs, sn ssh_push_step (mk_config (Ret a) r qo qr c os rs).
Proof.
  induction r as [b| |m k IH|k IH|n d k IH]; intros qo qr c os rs; constructor; intros x Hx; unfold flip in Hx;
    inversion Hx as [? ? Hs| |]; subst; try inversion Hs; subst; apply IH.
Qed.

Lemma session_sn n : forall (c d : config_of A B), nsteps step n c d -> nf step d -> sn ssh_push_step c.
Proof.
  induction n as [n IH] using lt_wf_ind. intros c d Hn Hnf. constructor. intros x Hx. unfold flip in Hx.
  destruct Hx as [c x Hs|a k qo qr cn os rs e|a m k qo qr cn os rs e]; [|apply returned_sn..].
  destruct (diamond_uniform step step_diamond n c d Hn Hnf 1 x) as [Hle Hrest]; [by eapply nsteps_once|].
  by eapply (IH (n - 1)%nat); [lia|..].
Qed.

(** Before the kill the run is one of the session; after it the result is known. *)
Lemma ssh_push_run n a b (c d : config_of A B) f :
  nsteps step n c f -> nf step f -> origin f = Ret a -> replica f = Ret b ->
  rtc ssh_push_step c d -> rtc step c d \/ origin d = Ret a.
Proof.
  intros Hn Hnf Ha Hb Hrun. revert d Hrun.
  apply (rtc_ind_r (fun d => rtc step c d \/ origin d = Ret a)); [by left; apply rtc_refl|].
  intros x y _ Hs [IH|IH]; [|right; by eapply returned_step].
  assert (Hret : forall a', origin x = Ret a' -> a' = a).
  { intros a' Hx. apply rtc_nsteps in IH as [m Hm].
    destruct (diamond_uniform step step_diamond n c f Hn Hnf m x Hm) as [_ Hrest].
    apply rtc_nsteps_2, (returned_run a') in Hrest; [|done]. congruence. }
  destruct Hs as [x y Hs|a' k qo qr cn os rs e|a' m k qo qr cn os rs e];
    [left; by eapply rtc_r|right; cbn; by rewrite (Hret a' eq_refl)..].
Qed.

(** A remote process that does not panic has returned at the end. *)
Definition replica_sound (c : config_of A B) : Prop := never_panics (replica c).

Lemma replica_sound_step c d : ssh_push_step c d -> replica_sound c -> replica_sound d.
Proof. unfold replica_sound. intros Hs. destruct Hs as [c d Hs| |]; [destruct Hs|..]; cbn; auto. Qed.

Lemma replica_sound_run c d : rtc ssh_push_step c d -> replica_sound c -> replica_sound d.
Proof. induction 1; eauto using replica_sound_step. Qed.

Lemma ssh_push_end n a b (c d : config_of A B) f :
  nsteps step n c f -> nf step f -> origin f = Ret a -> replica f = Ret b -> replica_sound c ->
  rtc ssh_push_step c d -> nf ssh_push_step d -> origin d = Ret a /\ exists b', replica d = Ret b'.
Proof.
  intros Hn Hnf Ha Hb Hs Hrun Hend.
  pose proof (replica_sound_run c d Hrun Hs) as Hd.
  destruct (ssh_push_run n a b c d f Hn Hnf Ha Hb Hrun) as [Hst|Ho].
  - assert (d = f) as ->; [|eauto]. apply rtc_nsteps in Hst as [m Hm].
    destruct (diamond_uniform step step_diamond n c f Hn Hnf m d Hm) as [_ Hrest].
    inversion Hrest as [|? ? x]; subst; [done|]. destruct Hend. exists x. by apply ssh_carries.
  - split; [done|]. destruct d as [o r qo qr cn os rs]. cbn in *. subst o.
    destruct r as [b'| |m k|k|i dt k]; [by eauto|done|..]; destruct Hend; eexists.
    + apply ssh_carries, replica_sends.
    + by apply (killed_before_recv a k qo qr cn os rs (Protocol "connection closed unexpectedly")).
    + apply ssh_carries, replica_writes.
Qed.
End Hangup.

(** ** Claims *)
Section Claims.
Context `{!Digests, !Rayon, !HashSetDebug}.
Context (oc rconn : Connection) (conn_exec : string -> SyncResult unit) (ps pc rc : Z) (image : bytes).
Context (Horigin : origin_ok ps pc image oc) (Hreplica : replica_ok ps rc rconn) (Hle : rc <= pc).
Context (NC : no_collision ps pc rc image (file rconn)).
Context (Hbegin : conn_exec "BEGIN DEFERRED" = Ok tt).

Let snap := mk_snap image ps pc.

Lemma taken_snapshot : snapshot_ok snap.
Proof. by destruct Horigin as (_ & _ & _ & ? & ? & ?). Qed.

(** The two handlers inside processes [F] that return after them. *)
Lemma bound_session {A B} ot rt (F : config -> config_of A B) a b :
  (forall c d, step c d -> step (F c) (F d)) ->
  (forall qo qr c os rs, F (mk_config (Ret (Ok tt)) (Ret (Ok tt)) qo qr c os rs) =
                         mk_config (Ret a) (Ret b) qo qr c os rs) ->
  exists n, forall fuel, (n <= fuel)%nat ->
    let final := drive fuel (F (start snap rconn ot rt)) in
    origin final = Ret a /\ replica final = Ret b /\ file (conn final) = image.
Proof.
  intros HF Hend. destruct (sync_end snap rconn ot rt rc taken_snapshot Hreplica Hle NC)
    as (n & [o r qo qr c os rs] & Hn & _ & [Hfo Hfr] & Hfile).
  exists n. intros fuel Hfuel. apply (nsteps_map step step F) in Hn; [|done].
  cbn in Hfo, Hfr. subst o r. rewrite Hend in Hn.
  by rewrite (drive_complete n _ _ fuel Hn (ret_nf _ _ _ _ _ _ _) Hfuel).
Qed.

Definition remote_session {A B} (o : proc A) (r : proc B) : config_of A B :=
  mk_config o r [] [] rconn [] [].

Definition committed : list string := ["BEGIN DEFERRED"; "COMMIT"].

Lemma push_unfold target transport tw t :
  ssh_connect target "--server-replica" = Ok transport ->
  push_sync_with_tuning (Ok oc) conn_exec target tw t =
  pbind (Origin.run_with_tuning snap t) (fun r =>
    Ret (settle conn_exec snap ["BEGIN DEFERRED"] (both r (fst (ssh_close tw transport))))).
Proof. intros Hc. unfold push_sync_with_tuning. by rewrite (snapshot_begin_ok _ ps pc image), Hc. Qed.

Lemma pull_unfold target transport tw t :
  ssh_connect target "--server-origin" = Ok transport ->
  pull_sync_with_tuning (Ok rconn) target tw t =
  pbind (Replica.run_with_tuning rconn t) (fun r => Ret (both r (fst (ssh_close tw transport)))).
Proof. intros Hc. unfold pull_sync_with_tuning. by rewrite Hc. Qed.

(** The process that runs the remote replica mode does not panic. *)
Lemma server_replica_sound t : never_panics (server_replica_mode (Ok rconn) t).
Proof.
  destruct Hreplica as (Hps & Hc & Hser & Hlen & Hf & _). cbn.
  destruct Horigin as (_ & _ & _ & Hpos & _).
  apply (Replica.run_no_panic _ _ rc); [done|done|lia|].
  intros b. unfold serialize. rewrite Hser. intros [= <-]. lia.
Qed.

(** A pull over ssh from the origin mode of the remote binary ends while its connection stands:
    both processes return [Ok] and the local file is the remote image.  (The local process
    kills its ssh child when it has returned from the session; what the remote one then has
    left to do is not part of this.) *)
Theorem pull_delivers target transport ot rt :
  ssh_connect target "--server-origin" = Ok transport -> conn_exec "COMMIT" = Ok tt ->
  exists n, forall fuel, (n <= fuel)%nat ->
    let final := drive fuel (remote_session
      (server_origin_mode (Ok oc) conn_exec ot)
      (pull_sync_with_tuning (Ok rconn) target None rt)) in
    origin final = Ret (Ok tt, committed) /\ replica final = Ret (Ok tt) /\
    file (conn final) = image.
Proof.
  intros Ht Hc. rewrite (pull_unfold _ transport) by done. unfold server_origin_mode. rewrite (snapshot_begin_ok _ ps pc image) by done.
  apply (bound_session ot rt (fun c => bind_replica _ (bind_origin _ c)));
    [auto using step_bind_origin, step_bind_replica|].
  intros. unfold bind_replica, bind_origin, settle, snapshot_commit. cbn. by rewrite Hc.
Qed.

Definition ok_fst {A} (x : SyncResult unit * A) : bool := is_ok (fst x).

Lemma settle_failed stmts e : ok_fst (settle conn_exec snap stmts (Err e)) = false.
Proof. done. Qed.

Lemma push_follows target transport tw t :
  ssh_connect target "--server-replica" = Ok transport ->
  ofollows ok_fst (push_sync_with_tuning (Ok oc) conn_exec target tw t)
    (session_trace ps pc rc image (file rconn)).
Proof.
  intros Ht. rewrite (push_unfold _ transport) by done. eapply (ofollows_bind is_ok); [|by eexists|
    apply (origin_follows snap rconn t rc taken_snapshot Hreplica Hle)].
  by intros [].
Qed.

Lemma server_origin_follows t :
  ofollows ok_fst (server_origin_mode (Ok oc) conn_exec t)
    (session_trace ps pc rc image (file rconn)).
Proof.
  unfold server_origin_mode. rewrite (snapshot_begin_ok _ ps pc image) by done.
  eapply (ofollows_bind is_ok); [|by eexists|
    apply (origin_follows snap rconn t rc taken_snapshot Hreplica Hle)].
  by intros [].
Qed.

Lemma pull_follows target transport tw t :
  ssh_connect target "--server-origin" = Ok transport ->
  rfollows is_ok (pull_sync_with_tuning (Ok rconn) target tw t)
    (session_trace ps pc rc image (file rconn)).
Proof.
  intros Ht. rewrite (pull_unfold _ transport) by done. eapply (rfollows_bind is_ok); [|by eexists|
    apply (replica_follows snap rconn t rc taken_snapshot Hreplica Hle)].
  by intros [].
Qed.

(** Success of one end of any two processes that follow the session. *)
Lemma remote_safe {A B} (okA : A -> bool) (okB : B -> bool) o r d :
  ofollows okA o (session_trace ps pc rc image (file rconn)) ->
  rfollows okB r (session_trace ps pc rc image (file rconn)) ->
  rtc lossy_step (remote_session o r) d ->
  (forall a, origin d = Ret a -> okA a = true -> file (conn d) = image) /\
  (forall b, replica d = Ret b -> okB b = true -> file (conn d) = image).
Proof.
  intros Ho Hr Hrun.
  destruct (session_writes snap rconn rc taken_snapshot Hreplica Hle NC) as (c' & Hf & Hw).
  destruct (lossy_safe okA okB c' _ _ _ _ _ _ _ Ho Hr (acked_session _ _ _ _ _) Hw Hrun) as [Ha Hb].
  change image with (snap_bytes snap). rewrite <- Hf.
  split; intros ? E ?; f_equal; [by eapply Ha|by eapply Hb].
Qed.

(** C4. A push over ssh to the replica mode of the remote binary ends, whatever the schedule, and
    although the push kills its ssh child as soon as it has sent its last message: the
    pushing process returns [Ok] with its transaction committed, the remote file is the
    origin's image, and the remote process returns, with [Ok] or, when the kill was faster
    than its last receive, with an error. *)
Theorem push_delivers target transport ot rt :
  ssh_connect target "--server-replica" = Ok transport -> conn_exec "COMMIT" = Ok tt ->
  let start := remote_session (push_sync_with_tuning (Ok oc) conn_exec target None ot)
                              (server_replica_mode (Ok rconn) rt) in
  sn ssh_push_step start /\
  forall final, rtc ssh_push_step start final -> nf ssh_push_step final ->
    origin final = Ret (Ok tt, committed) /\ file (conn final) = image /\
    exists r, replica final = Ret r.
Proof.
  intros Ht Hc start.
  destruct (sync_end snap rconn ot rt rc taken_snapshot Hreplica Hle NC)
    as (n & [o r qo qr c os rs] & Hn & _ & [Hfo Hfr] & _). cbn in Hfo, Hfr. subst o r.
  assert (Hs : nsteps step n start (mk_config (Ret (Ok tt, committed)) (Ret (Ok tt)) qo qr c os rs)).
  { unfold start. rewrite (push_unfold _ transport) by done.
    set (f := fun r => Ret _).
    apply (nsteps_map step step (bind_origin f)) in Hn; [|apply step_bind_origin].
    match type of Hn with nsteps _ _ _ ?e =>
      assert (e = mk_config (Ret (Ok tt, committed)) (Ret (Ok tt)) qo qr c os rs) as <-; [|exact Hn] end.
    unfold bind_origin, f, settle, snapshot_commit. cbn. by rewrite Hc. }
  match type of Hs with nsteps _ _ _ ?e => assert (Hnf : nf step e) by apply ret_nf end.
  split; [by eapply session_sn|].
  intros final Hrun Hend.
  destruct (ssh_push_end n _ _ _ final _ Hs Hnf eq_refl eq_refl (server_replica_sound rt) Hrun Hend) as [Ho Hr].
  split_and!; [done| |done]. apply ssh_push_lossy in Hrun.
  eapply (remote_safe ok_fst is_ok) in Hrun as [Hx _]; [by eapply Hx|by eapply push_follows|].
  apply (replica_follows snap rconn rt rc taken_snapshot Hreplica Hle).
Qed.

(** C20. Over ssh, with failures of any transport or disk operation at any time: a push that
    reports success has made the remote file the image, and so has a pull its own. *)
Theorem ssh_success_means_identical target pusher puller tw ot rt :
  ssh_connect target "--server-replica" = Ok pusher ->
  ssh_connect target "--server-origin" = Ok puller ->
  (forall d stmts,
     rtc lossy_step (remote_session (push_sync_with_tuning (Ok oc) conn_exec target tw ot)
                                    (server_replica_mode (Ok rconn) rt)) d ->
     origin d = Ret (Ok tt, stmts) -> file (conn d) = image) /\
  (forall d,
     rtc lossy_step (remote_session (server_origin_mode (Ok oc) conn_exec ot)
                                    (pull_sync_with_tuning (Ok rconn) target tw rt)) d ->
     replica d = Ret (Ok tt) -> file (conn d) = image).
Proof.
  intros Hpush Hpull. split.
  - intros d stmts Hrun E. eapply (remote_safe ok_fst is_ok) in Hrun as [Hx _];
      [by eapply Hx|by eapply push_follows|].
    apply (replica_follows snap rconn rt rc taken_snapshot Hreplica Hle).
  - intros d Hrun E. eapply (remote_safe ok_fst is_ok) in Hrun as [_ Hx];
      [by eapply Hx|apply server_origin_follows|by eapply pull_follows].
Qed.

(** *** Over gRPC *)

Definition ok_session (x : option (SyncResult unit) * list string) : bool := ok_in_time is_ok (fst x).

(** A failed session reports and returns. *)
Lemma report_quiet {A} (ok : A -> bool) grace run_res a :
  ok_in_time is_ok run_res = false -> ok a = false ->
  quiet ok (await _ := report grace run_res in Ret a).
Proof.
  intros Hr Ha. destruct run_res as [[[]|e]|]; [done|..];
    destruct grace as [[|n]|]; cbn; auto.
Qed.

Lemma serve_replica_follows t timer grace :
  rfollows (ok_in_time is_ok) (serve_replica (Ok rconn) t timer grace)
    (session_trace ps pc rc image (file rconn)).
Proof.
  unfold serve_replica, serve_replica_locked.
  eapply (rfollows_bind (fun r => match r with Ok o => ok_in_time is_ok o | Err _ => false end)).
  - intros [o|e] Ho; [by apply report_quiet|by cbn].
  - intros [[[[]|e]|]|e] Ho; try done. by eexists.
  - eapply (rfollows_bind (ok_in_time is_ok)); [by intros|by eexists|].
    apply rfollows_timeout, (replica_follows snap rconn t rc taken_snapshot Hreplica Hle).
Qed.

Lemma serve_origin_follows t timer grace :
  ofollows ok_session (serve_origin (Ok oc) conn_exec t timer grace)
    (session_trace ps pc rc image (file rconn)).
Proof.
  unfold serve_origin. rewrite (snapshot_begin_ok _ ps pc image) by done.
  eapply (ofollows_bind (ok_in_time is_ok)).
  - intros o Ho. by apply report_quiet.
  - intros [[[]|e]|] Ho; try done. by eexists.
  - apply ofollows_timeout, (origin_follows snap rconn t rc taken_snapshot Hreplica Hle).
Qed.

Lemma grpc_push_unfold d call url db tok t :
  grpc_open_stream d call url db tok ORIGIN_ROLE = Ok tt ->
  grpc_push_sync_with_tuning (Ok oc) conn_exec d call url db tok t =
  pbind (Origin.run_with_tuning snap t) (fun r =>
    Ret (settle conn_exec snap ["BEGIN DEFERRED"] (both r (Ok tt)))).
Proof.
  intros Hs. unfold grpc_push_sync_with_tuning.
  by rewrite (snapshot_begin_ok _ ps pc image), Hs.
Qed.

(** C21. Over gRPC the same holds for any timers of the server: a push or a pull that reports
    success has made the two files identical. *)
Theorem grpc_success_means_identical dl call url db tok ot rt timer grace :
  (forall role, grpc_open_stream dl call url db tok role = Ok tt) ->
  (forall d stmts,
     rtc lossy_step (remote_session
       (grpc_push_sync_with_tuning (Ok oc) conn_exec dl call url db tok ot)
       (serve_replica (Ok rconn) rt timer grace)) d ->
     origin d = Ret (Ok tt, stmts) -> file (conn d) = image) /\
  (forall d,
     rtc lossy_step (remote_session
       (serve_origin (Ok oc) conn_exec ot timer grace)
       (grpc_pull_sync_with_tuning (Ok rconn) dl call url db tok rt)) d ->
     replica d = Ret (Ok tt) -> file (conn d) = image).
Proof.
  intros Hs. split.
  - intros d stmts Hrun E. rewrite grpc_push_unfold in Hrun by done.
    eapply (remote_safe ok_fst (ok_in_time is_ok)) in Hrun as [Hx _];
      [by eapply Hx| |apply serve_replica_follows].
    eapply (ofollows_bind is_ok); [by intros []|by eexists|].
    apply (origin_follows snap rconn ot rc taken_snapshot Hreplica Hle).
  - intros d Hrun E. unfold grpc_pull_sync_with_tuning in Hrun. rewrite Hs in Hrun.
    eapply (remote_safe ok_session is_ok) in Hrun as [_ Hx];
      [by eapply Hx|apply serve_origin_follows|].
    eapply (rfollows_bind is_ok); [by intros []|by eexists|].
    apply (replica_follows snap rconn rt rc taken_snapshot Hreplica Hle).
Qed.

(** Every step of dialling succeeds. *)
Definition dials (dl : GrpcDial) (url tok : string) : Prop :=
  from_shared dl (normalize_grpc_url url) = Ok tt /\ tls_config dl = Ok tt /\
  dial dl = Ok tt /\ send_init dl = Ok tt /\
  metadata_value dl ("Bearer " +++ tok) = Ok ("Bearer " +++ tok).

(** The RPC as the replication service answers it. *)
Definition sync_rpc (show : Status -> string) (auth : AuthConfig)
    (resolve : string -> SyncResult string) (ha_state : option HaSharedState) (now : Z)
    (init : SyncInit) (authorization : option string) : Result string unit :=
  match admit_sync auth authorization resolve ha_state now (Init init) with
  | Ok _ => Ok tt
  | Err st => Err (show st)
  end.

(** The token of the server opens the stream for a push into a node that is not writing. *)
Lemma push_admitted dl show resolve ha now url db tok path :
  dials dl url tok -> is_empty tok = false -> resolve db = Ok path ->
  (forall s, ha = Some s -> is_writer s now = false) ->
  grpc_open_stream dl (sync_rpc show (required tok) resolve ha now) url db (Some tok) ORIGIN_ROLE
  = Ok tt.
Proof.
  intros (Hf & Ht & Hd & Hi & Hm) Htok Hres Hw. unfold grpc_open_stream.
  rewrite Hf, Ht, Hd, Hi, Hm. cbn [network_err map_err default].
  assert (Hauth : check_request_or_token (required tok) (Some ("Bearer " +++ tok)) (Some tok) = Ok tt).
  { unfold check_request_or_token. cbn [token required]. rewrite Htok.
    rewrite (proj2 (constant_time_eq_spec (as_bytes tok) (as_bytes tok)) eq_refl).
    by destruct (match to_str _ with Some _ => _ | None => _ end). }
  unfold sync_rpc, admit_sync. cbn [init_auth_token init_database init_client_role default].
  change (id tok) with tok. rewrite Hauth, Hres. cbn.
  destruct ha as [s|]; [rewrite (Hw s eq_refl)|];
    by destruct (starts_with "https://" (normalize_grpc_url url)).
Qed.

(** C22. A gRPC push with the server's token into a node that is not the writer is admitted, and
    the session runs to its end: client and server return [Ok], the server's file is the
    client's image and the client's transaction is committed. *)
Theorem grpc_push_delivers dl show resolve ha now url db tok path ot rt grace :
  conn_exec "COMMIT" = Ok tt ->
  dials dl url tok -> is_empty tok = false -> resolve db = Ok path ->
  (forall s, ha = Some s -> is_writer s now = false) ->
  exists n, forall fuel, (n <= fuel)%nat ->
    let final := drive fuel (remote_session
      (grpc_push_sync_with_tuning (Ok oc) conn_exec dl
         (sync_rpc show (required tok) resolve ha now) url db (Some tok) ot)
      (serve_replica (Ok rconn) rt None grace)) in
    origin final = Ret (Ok tt, committed) /\ replica final = Ret (Some (Ok tt)) /\
    file (conn final) = image.
Proof.
  intros Hc Hd Htok Hres Hw.
  rewrite grpc_push_unfold by (by eapply push_admitted).
  unfold serve_replica, serve_replica_locked, timeout.
  apply (bound_session ot rt (fun c => bind_replica _ (bind_replica _ (bind_replica _ (bind_origin _ c)))));
    [auto using step_bind_origin, step_bind_replica|].
  intros. unfold bind_replica, bind_origin, settle, snapshot_commit. cbn. by rewrite Hc.
Qed.

(** *** Failures of the remote end *)

Definition rolled_back : list string := ["BEGIN DEFERRED"; "ROLLBACK"].

(** When the remote database cannot be opened the push fails, whatever the order of
    events: the transaction is rolled back and nothing is written. *)
Theorem remote_open_failure target transport tw ot rt e d r stmts :
  ssh_connect target "--server-replica" = Ok transport ->
  rtc lossy_step (remote_session (push_sync_with_tuning (Ok oc) conn_exec target tw ot)
                                 (server_replica_mode (Err e) rt)) d ->
  origin d = Ret (r, stmts) ->
  (exists e', r = Err e') /\ stmts = rolled_back /\ conn d = rconn.
Proof.
  intros Ht. rewrite (push_unfold _ transport) by done. unfold remote_session. cbn. intros Hrun E.
  apply rtc_inv in Hrun as [<-|(c1 & Hs & Hrun)]; [done|].
  assert (exists e1, c1 = mk_config (Ret (Err e1, rolled_back)) (Ret (Err e)) [] [] rconn [] []) as [e1 ->].
  { inversion Hs as [? ? Hs'| | | | |]; subst; [inversion Hs'|by eexists]. }
  assert (d = mk_config (Ret (Err e1, rolled_back)) (Ret (Err e)) [] [] rconn [] []) as ->.
  { apply rtc_inv in Hrun as [<-|(c2 & Hs2 & _)]; [done|].
    inversion Hs2 as [? ? Hs'| | | | |]; subst. inversion Hs'. }
  cbn in E. injection E as <- <-. split; [by eexists|done].
Qed.

(** The replication service reports such a failure to its client: a gRPC push into a database
    that cannot be opened returns the text of the server's error. *)
Theorem grpc_open_error_reported dl call url db tok ot rt timer grace e :
  grpc_open_stream dl call url db tok ORIGIN_ROLE = Ok tt ->
  let final := drive 2 (remote_session
    (grpc_push_sync_with_tuning (Ok oc) conn_exec dl call url db tok ot)
    (serve_replica (Err e) rt timer grace)) in
  origin final = Ret (Err (Protocol (SyncError_to_string e)), rolled_back) /\
  replica final = Ret (Some (Err e)) /\ conn final = rconn.
Proof. intros Hs. by rewrite grpc_push_unfold. Qed.
End Claims.

(** No page is written once the lock of the database is released. *)
Fixpoint no_writes {A} (p : proc A) : Prop :=
  match p with
  | Ret _ | Panic => True
  | Send _ k => forall r, no_writes (k r)
  | Recv k => forall r, no_writes (k r)
  | Write _ _ _ => False
  end.

Theorem writes_hold_the_lock grace r : no_writes (serve_replica_unlocked grace r).
Proof.
  destruct r as [[[[]|e]|]|e]; cbn; try done; by destruct grace as [[|n]|].
Qed.

(** ** Examples *)
Module RemoteExample.
Definition target : SshTarget :=
  mk_ssh_target (fun _ => Ok (mk_exit true "exit status: 0"))
    (fun _ => Ok (mk_child true (Some []))) 42 0 [] "deploy@db1" "app.db" "rsqlite-rsync" []
    default_ssh_options.
(** What connecting returns: both pipes, no control socket. *)
Definition pushing : SshTransport := mk_ssh (Some []) (Some []) [] None true [].
Definition exec_ok (_ : string) : SyncResult unit := Ok tt.
Definition dial_ok : GrpcDial := mk_dial (fun _ => Ok tt) (Ok tt) (Ok tt) (Ok tt) Ok.
Definition call_ok (_ : SyncInit) (_ : option string) : Result string unit := Ok tt.
Definition resolve (db : string) : SyncResult string := Ok ("/data/" +++ db).
Definition broken : config_of (SyncResult unit * list string) (SyncResult unit) :=
  cut_replica (Protocol "connection closed unexpectedly")
    (drive 17 (remote_session Example.stale 
      (push_sync_with_tuning (Ok example_origin) exec_ok target None default_tuning)
                 (server_replica_mode (Ok Example.stale) default_tuning))).
Definition pulled : config_of (SyncResult unit * list string) (SyncResult unit) :=
  drive 18 (remote_session Example.stale (server_origin_mode (Ok example_origin) exec_ok default_tuning)
              (pull_sync_with_tuning (Ok Example.stale) target None default_tuning)).
End RemoteExample.
Import RemoteExample.

Lemma push_delivers_witness :
  let start := remote_session Example.stale
    (push_sync_with_tuning (Ok example_origin) exec_ok target None default_tuning)
    (server_replica_mode (Ok Example.stale) default_tuning) in
  sn ssh_push_step start /\
  forall final, rtc ssh_push_step start final -> nf ssh_push_step final ->
    origin final = Ret (Ok tt, committed) /\ file (conn final) = [1; 2; 3; 4; 5; 6] /\
    exists r, replica final = Ret r.
Proof.
  apply (push_delivers example_origin Example.stale exec_ok 2 3 2) with (transport := pushing);
    [exact example_origin_ok|exact stale_ok|lia|exact Example.stale_free|reflexivity..].
Defined.

(** The remote process of a push that succeeds can miss [Done] and fail. *)
Theorem remote_can_miss_done : exists final e,
  rtc ssh_push_step (remote_session Example.stale
    (push_sync_with_tuning (Ok example_origin) exec_ok target None default_tuning)
    (server_replica_mode (Ok Example.stale) default_tuning)) final /\
  origin final = Ret (Ok tt, committed) /\ replica final = Ret (Err e).
Proof.
  pose (eof := Protocol "connection closed unexpectedly").
  set (start := remote_session _ _ _).
  assert (Hc : match drive 17 start with
    | mk_config (Ret a) (Recv k) _ _ _ _ _ => a = (Ok tt, committed) /\ k (Err eof) = Ret (Err eof)
    | _ => False end) by (vm_compute; split; reflexivity).
  pose proof (drive_steps 17 start) as Hr. destruct (drive 17 start) as [o r qo qr c os rs].
  destruct o as [a| | | |]; try done. destruct r as [| | |k|]; try done. destruct Hc as [-> Hk].
  exists (mk_config (Ret (Ok tt, committed)) (k (Err eof)) qo qr c os rs), eof. split_and!; [|done|exact Hk].
  etrans; [eapply rtc_subrel; [|exact Hr]; apply ssh_carries|].
  apply rtc_once, killed_before_recv.
Qed.

Lemma pull_delivers_witness :
  exists n, forall fuel, (n <= fuel)%nat ->
    let final := drive fuel (remote_session Example.stale
      (server_origin_mode (Ok example_origin) exec_ok default_tuning)
      (pull_sync_with_tuning (Ok Example.stale) target None default_tuning)) in
    origin final = Ret (Ok tt, committed) /\ replica final = Ret (Ok tt) /\
    file (conn final) = [1; 2; 3; 4; 5; 6].
Proof.
  apply (pull_delivers example_origin Example.stale exec_ok 2 3 2) with (transport := pushing);
    [exact example_origin_ok|exact stale_ok|lia|exact Example.stale_free|reflexivity..].
Defined.

(** The link breaks before the remote side sees [Done]; the push still succeeded. *)
Lemma ssh_success_means_identical_witness :
  file (conn broken) = [1; 2; 3; 4; 5; 6] /\ file (conn pulled) = [1; 2; 3; 4; 5; 6].
Proof.
  destruct (ssh_success_means_identical example_origin Example.stale exec_ok 2 3 2
    [1; 2; 3; 4; 5; 6] example_origin_ok stale_ok ltac:(lia) Example.stale_free eq_refl
    target pushing pushing None default_tuning default_tuning eq_refl eq_refl) as [Hpush Hpull].
  split.
  - apply (Hpush broken committed); [|vm_compute; reflexivity].
    etrans; [apply drive_sound|apply cut_replica_sound].
  - apply (Hpull pulled); [apply drive_sound|vm_compute; reflexivity].
Defined.

Lemma grpc_success_means_identical_witness :
  let d := drive 30 (remote_session Example.stale
    (grpc_push_sync_with_tuning (Ok example_origin) exec_ok dial_ok call_ok
       "grpc://h:1/db" "db" None default_tuning)
    (serve_replica (Ok Example.stale) default_tuning (Some 20%nat) None)) in
  file (conn d) = [1; 2; 3; 4; 5; 6].
Proof.
  destruct (grpc_success_means_identical example_origin Example.stale exec_ok 2 3 2
    [1; 2; 3; 4; 5; 6] example_origin_ok stale_ok ltac:(lia) Example.stale_free eq_refl
    dial_ok call_ok "grpc://h:1/db" "db" None default_tuning default_tuning (Some 20%nat) None
    ltac:(intros role; vm_compute; reflexivity)) as [Hpush _].
  apply (Hpush _ committed); [apply drive_sound|vm_compute; reflexivity].
Defined.

Lemma grpc_push_delivers_witness :
  exists n, forall fuel, (n <= fuel)%nat ->
    let final := drive fuel (remote_session Example.stale
      (grpc_push_sync_with_tuning (Ok example_origin) exec_ok dial_ok
         (sync_rpc message (required "s3cret") resolve (Some follower) 10)
         "grpcs://node-2:50051" "app.db" (Some "s3cret") default_tuning)
      (serve_replica (Ok Example.stale) default_tuning None None)) in
    origin final = Ret (Ok tt, committed) /\ replica final = Ret (Some (Ok tt)) /\
    file (conn final) = [1; 2; 3; 4; 5; 6].
Proof.
  apply (grpc_push_delivers example_origin Example.stale exec_ok 2 3 2)
    with (path := "/data/app.db");
    [exact example_origin_ok|exact stale_ok|lia|exact Example.stale_free|reflexivity|reflexivity
    |repeat split; reflexivity|reflexivity|reflexivity|intros s [= <-]; reflexivity].
Defined.

Lemma remote_open_failure_witness :
  let eof := Protocol "SSH connection closed unexpectedly" in
  let d := cut_origin eof (remote_session Example.stale
    (push_sync_with_tuning (Ok example_origin) exec_ok target None default_tuning)
    (server_replica_mode (Err (Protocol "cannot open")) default_tuning)) in
  (exists e', Err eof = Err e' :> SyncResult unit) /\ rolled_back = rolled_back /\
  conn d = Example.stale.
Proof.
  intros eof d.
  apply (remote_open_failure example_origin Example.stale exec_ok 2 3 [1; 2; 3; 4; 5; 6]
    example_origin_ok eq_refl target pushing None default_tuning default_tuning
    (Protocol "cannot open") d (Err eof));
    [reflexivity|apply cut_origin_sound|vm_compute; reflexivity].
Defined.

Lemma grpc_open_error_reported_witness :
  let final := drive 2 (remote_session Example.stale
    (grpc_push_sync_with_tuning (Ok example_origin) exec_ok dial_ok call_ok
       "grpc://h:1/db" "db" None default_tuning)
    (serve_replica (Err (Protocol "locked")) default_tuning None None)) in
  origin final = Ret (Err (Protocol "Protocol error: locked"), rolled_back) /\
  replica final = Ret (Some (Err (Protocol "locked"))) /\ conn final = Example.stale.
Proof.
  apply (grpc_open_error_reported example_origin Example.stale exec_ok 2 3 [1; 2; 3; 4; 5; 6]
    example_origin_ok eq_refl dial_ok call_ok "grpc://h:1/db" "db" None default_tuning
    default_tuning None None (Protocol "locked")).
  reflexivity.
Defined.

(** A push into a node writes its pages into the database file one by one, under the lock of
    the database; a query takes no lock.  So a node that accepts pushes and serves replica
    reads can answer a query from a file that is neither the old nor the new database. *)
Definition half_pushed : config_of (SyncResult unit) (option (SyncResult unit)) :=
  drive 13 (remote_session Example.stale (Origin.run_with_tuning Example.snap default_tuning)
              (serve_replica (Ok Example.stale) default_tuning None None)).

Theorem push_exposes_partial_image :
  rtc step (remote_session Example.stale (Origin.run_with_tuning Example.snap default_tuning)
              (serve_replica (Ok Example.stale) default_tuning None None)) half_pushed /\
  file Example.stale = [1; 2; 9; 9] /\ file (conn half_pushed) = [1; 2; 3; 4] /\
  snap_bytes Example.snap = [1; 2; 3; 4; 5; 6] /\
  admit_sync disabled None resolve (Some follower) 105 (Init (mk_sync_init "app.db" 2 "")) =
    Ok (RoleOrigin, "/data/app.db") /\
  forall s, snd (rpc_query follower 105 "app.db" (Some s) 0 1) = [CallQuery "app.db" s 0 (sh_generation follower) true].
Proof. split; [apply drive_steps|]. split_and!; vm_compute; reflexivity. Qed.
