(* ===== verification/Main.v ===== *)
(** * The binary (src/src/main.rs)

    The command line, the choice of the mode, and HA mode from its options to its
    shutdown: settings, lease source, readiness endpoint, gateway, startup fence, and
    the turns of [HaLoop] in between.  Files, clock, kubectl, sockets and the server
    tasks are parameters, indexed by the turn in which they are used (turn 0 is the
    startup fence). *)

From S2P Require Import Prelude RustStr Errors KvText Ha HaLoop Auth Ssh Endpoint Engine CliText Cli Batch.

(** ** Command line *)

Inductive CliCommandGroup :=
| GroupClient (connection : ClientConnectionArgs) (command : ClientCommand)
| GroupSql (connection : ClientConnectionArgs) (database sql : string) (format : OutputFormat).

Inductive CliSshAuthMode := CliNonInteractive | CliInteractive.
Inductive HaLeaseSource := SourceFile | SourceKubernetes.
Inductive HaStartupFenceMode := Permissive | RequireWriter.

Definition ssh_auth_from (m : CliSshAuthMode) : SshAuthMode :=
  match m with CliNonInteractive => NonInteractive | CliInteractive => Interactive end.

(** The [--ha-*] options. *)
Record HaArgs := mk_ha_args {
  ha_node_id : option string;
  ha_lease_file : option string;
  ha_lease_source : HaLeaseSource;
  ha_kube_lease_name : option string;
  ha_kube_namespace : string;
  ha_kube_context : option string;
  ha_kubeconfig : option string;
  ha_kubectl_path : string;
  ha_freshness_file : option string;
  ha_role_state_file : option string;
  ha_audit_log_file : option string;
  ha_readiness_file : option string;
  ha_readiness_http_bind : option string;
  ha_grpc_bind : option string;
  ha_grpc_auth_token : option string;
  ha_grpc_insecure_no_auth : bool;
  ha_data_dir : option string;
  ha_allow_replica_reads : bool;
  ha_service_name : string;
  ha_grpc_port : Z;
  ha_tick_interval_ms : Z;
  ha_min_source_generation : Z;
  ha_max_freshness_age_secs : Z;
  ha_max_future_skew_secs : Z;
  ha_continue_on_error : bool;
  ha_startup_fence_mode : HaStartupFenceMode;
}.

Record Args := mk_args {
  a_command : option CliCommandGroup;
  a_origin : option string;
  a_replica : option string;
  a_verbose : bool;
  a_dry_run : bool;
  a_exe : string;
  a_ssh_opts : list string;
  a_ssh_auth : CliSshAuthMode;
  a_ssh_connect_timeout : Z;
  a_grpc_auth_token : option string;
  a_batch_manifest : option string;
  a_batch_format : ManifestFormat;
  a_batch_jobs : Z;
  a_batch_retries : Z;
  a_batch_timeout_secs : Z;
  a_batch_retry_backoff_ms : Z;
  a_batch_retry_backoff_max_ms : Z;
  a_batch_retry_jitter_pct : Z;
  a_server : bool;
  a_server_origin : bool;
  a_server_replica : bool;
  a_ha : bool;
  a_ha_args : HaArgs;
}.

(** What a run of the binary does. *)
Inductive Mode :=
| ClientMode (connection : ClientConnectionArgs) (command : ClientCommand)
| SqlMode (connection : ClientConnectionArgs) (database sql : string) (format : OutputFormat)
| BatchMode (manifest : string) (format : ManifestFormat) (a : BatchArgs)
| HaMode (a : HaArgs)
| ServerReplicaMode (origin : string)
| ServerOriginMode (origin : string)
| SyncMode (a : SyncArgs) (options : SshConnectOptions).

Definition batch_args (a : Args) : BatchArgs :=
  mk_batch_args (a_ha a) (a_server a || a_server_origin a || a_server_replica a)
    (is_some (a_origin a) || is_some (a_replica a))
    (a_batch_jobs a) (a_batch_retries a) (a_batch_timeout_secs a) (a_batch_retry_backoff_ms a)
    (a_batch_retry_backoff_max_ms a) (a_batch_retry_jitter_pct a) (a_dry_run a)
    (a_grpc_auth_token a).

(** [run]: the mode, or the error of a missing operand. *)
Definition select_mode (a : Args) : SyncResult Mode :=
  match a_command a with
  | Some (GroupClient connection command) => Ok (ClientMode connection command)
  | Some (GroupSql connection database sql format) => Ok (SqlMode connection database sql format)
  | None =>
      match a_batch_manifest a with
      | Some manifest => Ok (BatchMode manifest (a_batch_format a) (batch_args a))
      | None =>
          if a_ha a then Ok (HaMode (a_ha_args a)) else
          let? origin :=
            ok_or (a_origin a)
              (Protocol "ORIGIN is required unless --ha or a client subcommand is set") in
          if a_server_replica a then Ok (ServerReplicaMode origin) else
          if a_server a || a_server_origin a then Ok (ServerOriginMode origin) else
          let ssh_options :=
            mk_ssh_options (ssh_auth_from (a_ssh_auth a)) (Z.max (a_ssh_connect_timeout a) 1) in
          let? replica :=
            ok_or (a_replica a) (Protocol "REPLICA is required unless --server is set") in
          Ok (SyncMode (mk_sync_args origin replica (a_dry_run a) (a_grpc_auth_token a)
                          (ha_grpc_auth_token (a_ha_args a))) ssh_options)
      end
  end.

(** The exit code and the line on standard error of [main]. *)
Definition exit_code (r : SyncResult unit) : bool * list string :=
  match r with Ok _ => (true, []) | Err e => (false, ["error: " +++ SyncError_to_string e]) end.

(** ** Readiness endpoint *)

(** What the loop of the server selects; the flags and the clock are read at each request. *)
Inductive HttpEvent :=
| ShutdownChanged (changed_ok value : bool)
| AcceptFailed
| Accepted (request : option string) (ready : bool) (last_tick now : Z).

(** The responses written until the shutdown.  [None] is a request that did not arrive in
    time, failed or was empty. *)
Fixpoint run_readiness_http_server (stale_after : Z) (evs : list HttpEvent) : list string :=
  match evs with
  | [] => []
  | ShutdownChanged true true :: _ => []
  | Accepted (Some request) ready last_tick now :: evs =>
      readiness_response request ready last_tick now stale_after ::
      run_readiness_http_server stale_after evs
  | _ :: evs => run_readiness_http_server stale_after evs
  end.

(** ** HA mode *)

Definition debug_decision (d : ReconcileDecision) : string :=
  match d with
  | KeepReplica => "KeepReplica"
  | PromoteToWriter g => "PromoteToWriter { generation: " +++ show_Z g +++ " }"
  | DecideKeepWriter => "KeepWriter"
  | DemoteToReplica r => "DemoteToReplica { reason: " +++ debug_reason r +++ " }"
  end.

Inductive LeaseSource :=
| LeaseFile (path : string)
| LeaseKubernetes (reader : KubectlLeaseReader).

Definition lease_source (a : HaArgs) : SyncResult LeaseSource :=
  match ha_lease_source a with
  | SourceFile =>
      let? path := ok_or (ha_lease_file a)
                     (Protocol "--ha-lease-file is required when --ha-lease-source=file") in
      Ok (LeaseFile path)
  | SourceKubernetes =>
      let? lease_name :=
        ok_or (ha_kube_lease_name a)
          (Protocol "--ha-kube-lease-name is required when --ha-lease-source=kubernetes") in
      Ok (LeaseKubernetes
            (set_kubeconfig (ha_kubeconfig a)
               (set_kube_context (ha_kube_context a)
                  (kubectl_new (ha_kubectl_path a) (ha_kube_namespace a) lease_name))))
  end.

Definition unix_now_secs (now : Result string Z) : SyncResult Z :=
  map_err (fun e => Protocol ("system clock before unix epoch: " +++ e)) now.

(** The world of a run: what each turn reads, the outcomes of the executor's file operations,
    and how the servers start and end. *)
Record HaEnv := mk_ha_env {
  fs_read : nat -> string -> Result IoError string;
  kubectl : nat -> string -> list string -> Result string Ha.Output;
  clock : nat -> Result string Z;
  role_file_script : list (option IoError);
  readiness_file_script : list (option IoError);
  bind_http : string -> option string;
  engine_new : string -> SyncResult unit;
  parse_addr : string -> option string;
  http_task : Result string (SyncResult unit);
  grpc_task : Result string (SyncResult unit);
}.

Record GrpcServer := mk_grpc_server { gs_auth : AuthConfig; gs_data_dir : string; gs_addr : string }.

Record HaRunning := mk_ha_running {
  run_source : LeaseSource;
  run_state : LoopState;
  run_http : bool;
  run_grpc : option GrpcServer;
}.

Section HaModeDefs.
(** [serde_json::from_str] and the timestamps of RFC 3339. *)
Context (from_str : string -> Result string Value) (parse_from_rfc3339 : string -> Result string Z).
Variables (env : HaEnv) (a : HaArgs).

Definition turn_input (source : LeaseSource) (n : nat) : TurnInput :=
  mk_turn (option_map (fun path => read_freshness_ledger path (fs_read env n path)) (ha_freshness_file a))
    (unix_now_secs (clock env n))
    match source with
    | LeaseFile path => FileReader (mk_file_lease_reader (fs_read env n path))
    | LeaseKubernetes r =>
        KubernetesReader (fun _ => kubectl_read_lease from_str parse_from_rfc3339 (kubectl env n) r)
    end.

Definition start_http : SyncResult bool :=
  match ha_readiness_http_bind a with
  | None => Ok false
  | Some addr =>
      match bind_http env addr with
      | Some e => Err (Protocol ("failed binding readiness endpoint " +++ addr +++ ": " +++ e))
      | None => Ok true
      end
  end.

Definition start_grpc : SyncResult (option GrpcServer) :=
  match ha_grpc_bind a with
  | None => Ok None
  | Some addr =>
      let? auth := auth_from_args (ha_grpc_auth_token a) (ha_grpc_insecure_no_auth a) in
      let data_dir := default "." (ha_data_dir a) in
      let? _ := engine_new env data_dir in
      match parse_addr env addr with
      | Some e => Err (Protocol ("invalid gRPC bind address '" +++ addr +++ "': " +++ e))
      | None => Ok (Some (mk_grpc_server auth data_dir addr))
      end
  end.

(** [run_ha_mode] up to the loop. *)
Definition ha_setup : SyncResult HaRunning :=
  let? node_id := ok_or (ha_node_id a) (Protocol "--ha-node-id is required with --ha") in
  let? _ := ok_or (ha_role_state_file a) (Protocol "--ha-role-state-file is required with --ha") in
  let? _ := ok_or (ha_audit_log_file a) (Protocol "--ha-audit-log-file is required with --ha") in
  let start :=
    loop_start node_id (mk_promotion_config (ha_max_freshness_age_secs a) (ha_max_future_skew_secs a))
      (ha_min_source_generation a) (negb (ha_continue_on_error a)) (ha_allow_replica_reads a)
      (is_some (ha_readiness_file a)) (role_file_script env) (readiness_file_script env) in
  let? source := lease_source a in
  let '(initial, x) := initialize_not_ready (executor start) in
  let? _ := map_err (fun e => Protocol ("failed writing initial readiness state: " +++ io_text e))
              initial in
  let st := mk_loop (controller start) x (last_tick_secs start) in
  let? http := start_http in
  let? grpc := start_grpc in
  let? st :=
    match ha_startup_fence_mode a with
    | Permissive => Ok st
    | RequireWriter =>
        let i := turn_input source 0 in
        startup_fence debug_decision (in_fresh i) (in_now i) (in_reader i) st
    end in
  Ok (mk_ha_running source st http grpc).

Definition join_server (failed joined : string) (task : Result string (SyncResult unit)) : SyncResult unit :=
  match task with
  | Ok (Ok _) => Ok tt
  | Ok (Err e) => Err (Protocol (failed +++ SyncError_to_string e))
  | Err e => Err (Protocol (joined +++ e))
  end.

(** After ctrl-c: the servers are told to stop and are joined. *)
Definition shutdown (h : HaRunning) : SyncResult unit :=
  let? _ := if run_http h
            then join_server "readiness http server failed: "
                   "readiness http server task join failed: " (http_task env)
            else Ok tt in
  match run_grpc h with
  | Some _ => join_server "gRPC server failed: " "gRPC server task join failed: " (grpc_task env)
  | None => Ok tt
  end.

(** The inputs of the first [n] turns. *)
Definition turn_inputs (source : LeaseSource) (n : nat) : list TurnInput :=
  map (turn_input source) (seq 1 n).

(** HA mode, interrupted after turn [S n]. *)
Definition run_ha_mode (n : nat) : SyncResult unit :=
  let? h := ha_setup in
  let? _ := run_turns (ha_service_name a) (ha_grpc_port a) (turn_inputs (run_source h) (S n))
              (run_state h) in
  shutdown h.
End HaModeDefs.

(** ** The executor leaves the published lease alone *)

Lemma andThen_keeps {X E V} (f : X -> V) (p q : X -> Result E unit * X) :
  (forall x, f (snd (p x)) = f x) -> (forall x, f (snd (q x)) = f x) ->
  forall x, f (snd (andThen p q x)) = f x.
Proof.
  intros Hp Hq x. unfold andThen. specialize (Hp x). destruct (p x) as [[] x1]; cbn in *; [|done].
  by rewrite Hq.
Qed.

(** The node and the lease the gateway is told. *)
Definition published (x : ReadinessAwareExecutor) : string * option LeaseRecord :=
  (sh_node_id (ha_state x), lease_record (ha_state x)).

Lemma on_inner_published f x : published (snd (on_inner f x)) = published x.
Proof. unfold on_inner. by destruct (f (ra_inner x)). Qed.

Lemma write_readiness_published b x : published (snd (write_readiness b x)) = published x.
Proof. unfold write_readiness. destruct (readiness_path x); [|done]. by destruct (next_io _) as [[] ?]. Qed.

Lemma execute_published act x : published (snd (execute_action act x)) = published x.
Proof.
  destruct act; cbn;
    (apply andThen_keeps; [apply on_inner_published|]);
    (apply andThen_keeps; [apply write_readiness_published|done]).
Qed.

Lemma execute_all_published stop acts x : published (snd (execute_actions stop acts x)) = published x.
Proof.
  revert x. induction acts as [|act acts IH]; intros x; cbn; [done|].
  pose proof (execute_published act x) as Hx.
  destruct (execute_action act x) as [[]  x1]; cbn in *; [by rewrite IH|].
  destruct stop; cbn; [done|]. specialize (IH x1). destruct (execute_actions _ _ x1). cbn in *. congruence.
Qed.

(** The tick of the startup fence publishes nothing. *)
Lemma fence_published debug fresh now reader st st' :
  startup_fence debug fresh now reader st = Ok st' ->
  published (executor st') = published (executor st).
Proof.
  unfold startup_fence, tick_with_reader. destruct (load_freshness _ _) as [c|]; [|done].
  destruct now as [t|]; [|done].
  destruct (read_lease reader) as [nl|e].
  - destruct (tick_plan t nl c (executor st)) as (fs & x & -> & Hx).
    pose proof (execute_all_published (controller_stop_on_error c)
                  (actions (fst (plan_tick t nl c))) (executor st)) as Hp. rewrite Hx in Hp.
    destruct (decision _); try done; destruct (negb _); try done; by intros [= <-].
  - by destruct (tick_plan t None c (executor st)) as (fs & x & -> & _).
Qed.

Lemma turn_published service port i st st' :
  ha_loop_turn service port (in_fresh i) (in_now i) (in_reader i) st = Ok st' ->
  published (executor st') = (fst (published (executor st)), lease_read (in_reader i)).
Proof.
  intros (c & t & fs & x & _ & _ & Hx & ->)%turn_spec.
  pose proof (execute_all_published (controller_stop_on_error c)
                (actions (fst (plan_tick t (lease_read (in_reader i)) c))) (executor st)) as Hp.
  rewrite Hx in Hp. cbn in Hp. rewrite <- Hp. unfold published. cbn [executor set_ha_state ha_state fst].
  destruct (publish_fields service port (lease_read (in_reader i)) (ha_state x)) as (-> & _ & _ & ->).
  done.
Qed.

Lemma run_turns_snoc service port ins i st st' :
  run_turns service port (ins ++ [i]) st = Ok st' ->
  exists st1, run_turns service port ins st = Ok st1 /\
    ha_loop_turn service port (in_fresh i) (in_now i) (in_reader i) st1 = Ok st'.
Proof.
  revert st. induction ins as [|j ins IH]; intros st; cbn.
  - destruct (ha_loop_turn _ _ _ _ _ st) as [st1|] eqn:E; [|done]. intros [= <-]. by exists st.
  - destruct (ha_loop_turn _ _ _ _ _ st) as [st1|]; [|done]. apply IH.
Qed.

Section HaModeClaims.
Context (from_str : string -> Result string Value) (parse_from_rfc3339 : string -> Result string Z).
Variables (env : HaEnv) (a : HaArgs).
Abbreviation setup := (ha_setup from_str parse_from_rfc3339 env a).
Abbreviation input := (turn_input from_str parse_from_rfc3339 env a).
Abbreviation inputs := (turn_inputs from_str parse_from_rfc3339 env a).

(** After the setup the gateway knows its node and no lease. *)
Lemma setup_published h :
  setup = Ok h -> exists id, ha_node_id a = Some id /\ published (executor (run_state h)) = (id, None).
Proof.
  unfold ha_setup. destruct (ha_node_id a) as [id|]; [|done]. cbn.
  destruct (ha_role_state_file a); [|done]. destruct (ha_audit_log_file a); [|done]. cbn.
  destruct (lease_source a) as [source|]; [|done]. cbn.
  match goal with |- context [initialize_not_ready ?x] =>
    pose proof (write_readiness_published false x) as Hi;
    change (write_readiness false x) with (initialize_not_ready x) in Hi;
    destruct (initialize_not_ready x) as [[]  x1] end; [|done]. cbn in *.
  destruct (start_http env a); [|done]. destruct (start_grpc env a); [|done]. cbn.
  destruct (ha_startup_fence_mode a); cbn; [intros [= <-]; by exists id|].
  destruct (startup_fence _ _ _ _ _) as [st|] eqn:E; [|done]. intros [= <-].
  apply fence_published in E. exists id. cbn in *. by rewrite E.
Qed.

(** C6. Whole runs of HA mode, whatever fails in them: the gateway accepts writes only from the
    first turn on (the startup fence alone does not open it), and after turn [n], at any
    later instant, only under the lease that turn read, which names the node of the
    command line and is unexpired then. *)
Theorem ha_mode_writes_need_lease h service port n st t :
  setup = Ok h ->
  run_turns service port (inputs (run_source h) n) (run_state h) = Ok st ->
  is_writer (ha_state (executor st)) t = true ->
  (0 < n)%nat /\
  exists l, read_lease (in_reader (input (run_source h) n)) = Ok (Some l) /\
    ha_node_id a = Some (holder_node_id l) /\ is_expired l t = false.
Proof.
  intros (id & Hid & Hp)%setup_published Hrun (_ & l & Hl & He & Hh & _)%is_writer_true.
  assert (Hpub : forall m st1, run_turns service port (inputs (run_source h) m) (run_state h) = Ok st1 ->
    published (executor st1) =
      (id, match m with O => None | S _ => lease_read (in_reader (input (run_source h) m)) end)).
  { induction m as [|m IH]; intros st1; unfold turn_inputs; [by intros [= <-]|].
    rewrite seq_S, map_app. intros (st0 & H0 & H1)%run_turns_snoc.
    apply IH in H0. apply turn_published in H1. by rewrite H1, H0. }
  apply Hpub in Hrun. unfold published in Hrun. injection Hrun as Hn Hlr.
  rewrite Hl in Hlr. destruct n as [|n]; [done|]. split; [lia|]. exists l.
  rewrite Hid, Hh, Hn. split; [|done].
  unfold lease_read in Hlr. destruct (read_lease _); [by rewrite <- Hlr|done].
Qed.

(** A gateway is never started without authentication unless the command line asks for it. *)
Theorem gateway_authenticated h g :
  setup = Ok h -> run_grpc h = Some g ->
  is_disabled (gs_auth g) = true <-> (ha_grpc_auth_token a = None /\ ha_grpc_insecure_no_auth a = true).
Proof.
  unfold ha_setup, start_grpc. intros H Hg.
  repeat (case_match; cbn in H; try done); simplify_eq; cbn in Hg; simplify_eq; cbn.
  all: by apply auth_never_open_by_default.
Qed.
(** The state a permissive setup starts the loop in, when no file operation fails. *)
Lemma setup_start h id :
  role_file_script env = [] -> readiness_file_script env = [] ->
  ha_startup_fence_mode a = Permissive -> ha_node_id a = Some id -> setup = Ok h ->
  coherent (run_state h) /\ role (runtime (controller (run_state h))) = Replica /\
  policy (run_state h) =
    (id, ha_min_source_generation a,
     mk_promotion_config (ha_max_freshness_age_secs a) (ha_max_future_skew_secs a)).
Proof.
  intros Hrs Hfs Hm Hid. unfold ha_setup. rewrite Hid, Hm, Hrs, Hfs. cbn.
  destruct (ha_role_state_file a); [|done]. destruct (ha_audit_log_file a); [|done]. cbn.
  destruct (lease_source a) as [source|]; [|done]. cbn.
  unfold initialize_not_ready, write_readiness. cbn.
  destruct (is_some (ha_readiness_file a)); cbn;
    destruct (start_http env a); [|done| |done]; destruct (start_grpc env a); try done;
    intros [= <-]; repeat split; done.
Qed.

(** C12. Takeover of a fresh node: started without the startup fence, with working files, the node is
    the writer after its first turn, and stays it, as long as every turn finds it the
    holder of one lease generation with fresh data; interrupting it then returns what
    the servers return. *)
Theorem ha_mode_takeover h id g n :
  role_file_script env = [] -> readiness_file_script env = [] ->
  ha_startup_fence_mode a = Permissive -> ha_node_id a = Some id -> setup = Ok h ->
  (forall k, (1 <= k <= S n)%nat ->
     leading_turn id g (ha_min_source_generation a)
       (mk_promotion_config (ha_max_freshness_age_secs a) (ha_max_future_skew_secs a))
       (input (run_source h) k)) ->
  run_ha_mode from_str parse_from_rfc3339 env a n = shutdown env h /\
  exists st, run_turns (ha_service_name a) (ha_grpc_port a) (inputs (run_source h) (S n)) (run_state h)
             = Ok st /\
    is_writer (ha_state (executor st)) (last_tick_secs st) = true.
Proof.
  intros Hrs Hfs Hm Hid Hset Hlead.
  destruct (setup_start h id Hrs Hfs Hm Hid Hset) as (Hc & Hr & Hp).
  destruct (settled_run_leads (ha_service_name a) (ha_grpc_port a)
    (input (run_source h) 1) (map (input (run_source h)) (seq 2 n)) (run_state h) id g _ _ Hc Hp)
    as (st & Hrun & _ & Hw).
  { intros Hw. by rewrite Hr in Hw. }
  { change (Forall (leading_turn id g (ha_min_source_generation a)
      (mk_promotion_config (ha_max_freshness_age_secs a) (ha_max_future_skew_secs a)))
      (map (input (run_source h)) (seq 1 (S n)))).
    apply List.Forall_map, List.Forall_forall. intros k Hk. apply Hlead. apply in_seq in Hk. lia. }
  split; [|by exists st]. unfold run_ha_mode. rewrite Hset. cbn [turn_inputs map seq].
  unfold turn_inputs. cbn [map seq] in *. by rewrite Hrun.
Qed.
End HaModeClaims.

(** A sync of two databases is chosen only without a subcommand, a manifest, HA mode and the
    server flags, with both operands, and ssh is given at least a second to connect. *)
Theorem sync_mode_chosen args sa options :
  select_mode args = Ok (SyncMode sa options) ->
  a_command args = None /\ a_batch_manifest args = None /\ a_ha args = false /\
  a_server args = false /\ a_server_origin args = false /\ a_server_replica args = false /\
  a_origin args = Some (arg_origin sa) /\ a_replica args = Some (arg_replica sa) /\
  arg_dry_run sa = a_dry_run args /\ 1 <= connect_timeout_secs options.
Proof.
  unfold select_mode. intros H.
  repeat (case_match; cbn in H; try done); simplify_eq; cbn;
    repeat match goal with E : _ || _ = false |- _ => apply orb_false_iff in E as [? ?] end;
    repeat split; try done; try lia.
  all: unfold ok_or in *; by repeat case_match; simplify_eq.
Qed.

(** The readiness server answers every request that arrives before the shutdown, whatever
    other clients do. *)
Definition answered (stale : Z) (e : HttpEvent) : option string :=
  match e with
  | Accepted (Some request) ready last_tick now =>
      Some (readiness_response request ready last_tick now stale)
  | _ => None
  end.

Theorem readiness_server_answers stale evs after :
  Forall (fun e => e <> ShutdownChanged true true) evs ->
  run_readiness_http_server stale (evs ++ ShutdownChanged true true :: after) = omap (answered stale) evs.
Proof.
  induction 1 as [|e evs He _ IH]; [done|].
  destruct e as [[] []| |[r|] ? ? ?]; cbn in *; try done; by rewrite IH.
Qed.

(** ** Examples *)
Module MainExample.
Definition no_json (_ : string) : Result string Value := Err "no json".
Definition no_time (_ : string) : Result string Z := Err "no time".
Definition args : HaArgs :=
  mk_ha_args (Some "a") (Some "lease") SourceFile None "default" None None "kubectl" (Some "fresh")
    (Some "role") (Some "audit") (Some "ready") None (Some "0.0.0.0:50051") (Some "secret") false
    None true "svc" 50051 1000 0 10 2 false Permissive.
Definition files (n : nat) (path : string) : Result IoError string :=
  if String.eqb path "lease" then Ok (serialize_lease_record (mk_lease "a" 3 (100 + Z.of_nat n) 10))
  else Ok ("source_node_id=b" +++ nl +++ "source_generation=2" +++ nl +++
           "synced_at_secs=" +++ show_Z (100 + Z.of_nat n) +++ nl).
Definition env : HaEnv :=
  mk_ha_env files (fun _ _ _ => Err "no kubectl") (fun n => Ok (102 + Z.of_nat n)) [] []
    (fun _ => None) (fun _ => Ok tt) (fun _ => None) (Ok (Ok tt)) (Ok (Ok tt)).
Definition running : HaRunning :=
  match ha_setup no_json no_time env args with
  | Ok h => h
  | Err _ => mk_ha_running (LeaseFile "") example_start false None
  end.
Definition after (n : nat) : LoopState :=
  match run_turns "svc" 50051 (turn_inputs no_json no_time env args (LeaseFile "lease") n)
          (run_state running) with
  | Ok st => st
  | Err _ => example_start
  end.
End MainExample.

Lemma ha_mode_writes_need_lease_witness :
  (0 < 2)%nat /\
  exists l, read_lease (in_reader (turn_input MainExample.no_json MainExample.no_time MainExample.env
                                     MainExample.args (LeaseFile "lease") 2)) = Ok (Some l) /\
    ha_node_id MainExample.args = Some (holder_node_id l) /\ is_expired l 106 = false.
Proof.
  apply (ha_mode_writes_need_lease MainExample.no_json MainExample.no_time MainExample.env
           MainExample.args MainExample.running "svc" 50051 2 (MainExample.after 2) 106);
    vm_compute; reflexivity.
Defined.

Lemma ha_mode_takeover_witness :
  run_ha_mode MainExample.no_json MainExample.no_time MainExample.env MainExample.args 1
    = shutdown MainExample.env MainExample.running /\
  exists st, run_turns "svc" 50051
      (turn_inputs MainExample.no_json MainExample.no_time MainExample.env MainExample.args
         (LeaseFile "lease") 2) (run_state MainExample.running) = Ok st /\
    is_writer (ha_state (executor st)) (last_tick_secs st) = true.
Proof.
  apply (ha_mode_takeover MainExample.no_json MainExample.no_time MainExample.env MainExample.args
           MainExample.running "a" 3 1); try reflexivity.
  intros k Hk. assert (k = 1%nat \/ k = 2%nat) as [-> | ->] by lia;
    (eexists _, _, _; split; [vm_compute; reflexivity|]; split; [vm_compute; reflexivity|];
     split; [vm_compute; reflexivity|]; vm_compute;
     split; [reflexivity|]; split; [reflexivity|]; split; [reflexivity|];
     eexists; split; [reflexivity|]; done).
Defined.
