(* ===== verification/ToolTests.v ===== *)
(** * The unit tests of the tools on the model

    (src/src/endpoint.rs, kv_text.rs, batch.rs, lib.rs, main.rs, src/src/gateway/auth.rs,
    src/src/cli/client.rs and src/crates/rsqlite-rsync-client/src/)

    Each definition is a unit test: its calls and its assertions about the definitions of
    the model; [tool_tests_hold] proves them all.  Where a test writes a file, the file is
    a value; where it parses JSON, YAML or TOML, the parser is given by what it returns on
    the text of the test; command lines are given as parsed. *)

From S2P Require Import Prelude RustStr Errors KvText Db Tuning Auth Engine Server Client Endpoint CliText Cli.
From S2P Require Import Ha HaLoop Batch Unified Remote Main.

Module ToolTests.
Definition all_hold (tests : list Prop) : Prop := Forall (fun t : Prop => t) tests.
Definition err_contains {A} (part : string) (r : Result string A) : Prop :=
  match r with Err e => contains part e = true | Ok _ => False end.
Definition fails_with {A} (part : string) (r : SyncResult A) : Prop :=
  match r with Err e => contains part (SyncError_to_string e) = true | Ok _ => False end.

(** ** Endpoints *)

Definition parse_grpc_paths : Prop :=
  parse "grpc://127.0.0.1:50051/app.db" = GrpcEndpoint "http://127.0.0.1:50051" "app.db" /\
  parse "grpcs://secure.leader.internal:443/tenant/db.sqlite"
    = GrpcEndpoint "https://secure.leader.internal:443" "tenant/db.sqlite" /\
  parse "http://localhost:50051/test.db" = GrpcEndpoint "http://localhost:50051" "test.db" /\
  is_remote (parse "grpc://127.0.0.1:50051/app.db") = true /\
  is_grpc (parse "grpc://127.0.0.1:50051/app.db") = true.
Definition parse_local_paths : Prop :=
  let paths := ["/var/lib/sqlite/db.sqlite"; "relative/path/db.sqlite"; "C:\data\test.db"; "d:/database.db"] in
  map parse paths = map LocalEndpoint paths.
Definition parse_remote_paths : Prop :=
  parse "user@example.com:/data/origin.db" = RemoteEndpoint "user@example.com" "/data/origin.db" /\
  parse "db.internal.net:/var/db/app.db" = RemoteEndpoint "db.internal.net" "/var/db/app.db" /\
  parse "localhost:/data/test.db" = RemoteEndpoint "localhost" "/data/test.db" /\
  parse "192.168.1.50:/data/test.db" = RemoteEndpoint "192.168.1.50" "/data/test.db".
Definition parse_bare_token_colon_treated_as_local : Prop :=
  parse "somedir:file.db" = LocalEndpoint "somedir:file.db".
Definition parse_bracketed_ipv6_with_content_is_remote : Prop :=
  parse "[fe80::1]:/data/db.sqlite" = RemoteEndpoint "fe80::1" "/data/db.sqlite".
Definition is_local (e : Endpoint) : bool := match e with LocalEndpoint _ => true | _ => false end.
Definition is_ssh (e : Endpoint) : bool := match e with RemoteEndpoint _ _ => true | _ => false end.
Definition parse_host_starting_with_dot_is_local : Prop := is_local (parse ".hidden:path") = true.
Definition parse_bracketed_ipv6_with_empty_host_or_path_falls_through : Prop :=
  is_local (parse "[]:/data/db.sqlite") = true /\ is_local (parse "[fe80::1]:") = true.
Definition is_remote_predicate : Prop :=
  is_remote (LocalEndpoint "foo") = false /\ is_remote (RemoteEndpoint "host" "path") = true.
Definition endpoint_parser_treats_common_local_colon_paths_as_local : Prop :=
  forallb (fun p => is_local (parse p))
    ["./data:2026.db"; ".hidden:2026.db"; "data:2026.db"; "./relative:withcolon"; "C:\tmp\db.sqlite"] = true.
Definition endpoint_parser_accepts_remote_shapes : Prop :=
  forallb (fun p => is_ssh (parse p))
    ["user@example.com:/tmp/db.sqlite"; "localhost:/tmp/db.sqlite"; "127.0.0.1:/tmp/db.sqlite";
     "[fe80::1]:/tmp/db.sqlite"; "fe80::1:/tmp/db.sqlite";
     "user@example.com:/tmp/path:withcolon.sqlite"] = true.

(** ** Key-value text *)

Definition lines_of (ls : list string) : string := String.concat "" (map (fun l => l +++ nl) ls).
Definition parse_kv_lines_accepts_known_keys : Prop :=
  match parse_kv_lines "test" (lines_of ["a=1"; "b=2"]) ["a"; "b"] with
  | Ok map => map !! "a" = Some "1" /\ map !! "b" = Some "2"
  | Err _ => False
  end.
Definition parse_kv_lines_skips_blank_lines : Prop :=
  match parse_kv_lines "test" (lines_of ["a=1"; ""; "  "; "b=2"]) ["a"; "b"] with
  | Ok map => size map = 2%nat
  | Err _ => False
  end.
Definition parse_kv_lines_rejects_missing_equals : Prop :=
  err_contains "invalid test line" (parse_kv_lines "test" (lines_of ["not-a-pair"]) ["a"]).
Definition parse_kv_lines_rejects_unknown_key : Prop :=
  err_contains "unknown test key: c" (parse_kv_lines "test" (lines_of ["c=1"]) ["a"; "b"]).
Definition require_u64_reports_missing_and_invalid : Prop :=
  match parse_kv_lines "test" (lines_of ["a=xyz"]) ["a"] with
  | Ok map => err_contains "invalid a" (require_u64 map "a") /\ err_contains "missing b" (require_u64 map "b")
  | Err _ => False
  end.
Definition require_non_empty_rejects_blank_value : Prop :=
  match parse_kv_lines "test" (lines_of ["a="]) ["a"] with
  | Ok map => err_contains "must not be empty" (require_non_empty map "a")
  | Err _ => False
  end.
Definition absent : Result IoError string :=
  Err (mk_io_error NotFound "No such file or directory (os error 2)").
Definition read_optional_kv_text_treats_missing_empty_and_none_as_absent : Prop :=
  read_optional_kv_text absent = Ok None /\ read_optional_kv_text (Ok nl) = Ok None /\
  read_optional_kv_text (Ok (lines_of ["none"])) = Ok None /\
  read_optional_kv_text (Ok (lines_of ["  a=1  "])) = Ok (Some "a=1").
Definition read_optional_kv_text_propagates_non_not_found_errors : Prop :=
  match read_optional_kv_text (Err (mk_io_error OtherKind "Is a directory (os error 21)")) with
  | Err e => io_kind e <> NotFound
  | Ok _ => False
  end.

(** ** Authentication *)

Definition refused_unauthenticated {A} (r : Result Auth.Status A) : Prop :=
  match r with Err st => code st = Unauthenticated | Ok _ => False end.
Definition disabled_accepts_requests_without_any_header : Prop :=
  is_disabled disabled = true /\ Auth.check disabled None = Ok tt.
Definition required_rejects_missing_header : Prop :=
  is_disabled (required "secret") = false /\ refused_unauthenticated (Auth.check (required "secret") None).
Definition required_rejects_non_utf8_header_value : Prop :=
  refused_unauthenticated (Auth.check (required "secret")
    (Some (String (Ascii.ascii_of_nat 255) (String (Ascii.ascii_of_nat 254) "")))).
Definition required_rejects_wrong_scheme : Prop :=
  refused_unauthenticated (Auth.check (required "secret") (Some "Basic secret")).
Definition required_rejects_wrong_token : Prop :=
  refused_unauthenticated (Auth.check (required "secret") (Some "Bearer wrong")).
Definition required_accepts_matching_token : Prop :=
  Auth.check (required "secret") (Some "Bearer secret") = Ok tt.
Definition check_token_tests : Prop :=
  is_ok (check_token (required "secret") "secret") = true /\
  is_ok (check_token (required "secret") "wrong") = false /\
  is_ok (check_token disabled "anything") = true /\ is_ok (check_token disabled "") = true.
Definition check_request_or_token_tests : Prop :=
  let ok header token := is_ok (check_request_or_token (required "secret") header token) in
  ok None (Some "secret") = true /\ ok None (Some "wrong") = false /\ ok None None = false /\
  ok (Some "Bearer secret") None = true /\ ok (Some "Bearer wrong") None = false /\
  ok (Some "Bearer wrong") (Some "secret") = true.
Definition constant_time_eq_matches_partial_eq_semantics : Prop :=
  constant_time_eq (as_bytes "abc") (as_bytes "abc") = true /\
  constant_time_eq (as_bytes "abc") (as_bytes "abd") = false /\
  constant_time_eq (as_bytes "abc") (as_bytes "ab") = false /\ constant_time_eq [] [] = true.
(** ** Client library *)

Definition next_backoff_doubles_until_clamped_at_max : Prop :=
  map (fun ms => next_backoff ms 2000) [100; 200; 400; 800; 1600; 2000]
    = [200; 400; 800; 1600; 2000; 2000].
Definition next_backoff_saturates_instead_of_overflowing : Prop :=
  next_backoff U64_MAX 2000 = 2000 /\ next_backoff (U64_MAX / 2 + 1) 2000 = 2000.
Definition test_sql_gateway_client_clone : Prop :=
  current_endpoint (client_new (client_config_new (Direct "http://127.0.0.1:50051"))) = None.
Definition discover (valid : string -> bool) (resolver : Result string string) (m : DiscoveryMode)
  : Result ClientError string :=
  discover_leader (fun ep => if valid ep then None else Some "invalid uri character") (fun _ => false)
    resolver m.
Definition test_client_discover_leader_direct : Prop :=
  discover (fun _ => true) (Err "") (Direct "127.0.0.1:50051") = Ok "http://127.0.0.1:50051".
Definition test_authorized_request : Prop :=
  authorization_header None = None /\
  authorization_header (Some "token123") = Some "Bearer token123" /\
  authorization_header (Some ("token" +++ nl +++ "with" +++ nl +++ "invalid" +++
                              String (Ascii.ascii_of_nat 0) "chars")) = None.

(** A connected client meets a status with these headers. *)
Definition after_status (headers : list (string * string)) : SqlGatewayClient :=
  process_leader_header (mk_status Unknown "test" headers)
    (mk_client (client_config_new (Direct "http://127.0.0.1:50051")) (Some "http://old.endpoint") true).
Definition test_process_leader_header_present_and_non_empty : Prop :=
  let client := after_status [(HEADER_RSQLITE_LEADER_ENDPOINT, "http://new.endpoint")] in
  current_endpoint client = Some "http://new.endpoint" /\ connected client = false.
Definition test_process_leader_header_present_but_empty : Prop :=
  let client := after_status [(HEADER_RSQLITE_LEADER_ENDPOINT, "")] in
  current_endpoint client = None /\ connected client = false.
Definition test_process_leader_header_absent : Prop :=
  let client := after_status [] in current_endpoint client = None /\ connected client = false.

Definition normalize_endpoint_adds_http_scheme_when_missing : Prop :=
  normalize_endpoint "127.0.0.1:50051" = "http://127.0.0.1:50051".
Definition normalize_endpoint_preserves_http_and_https_schemes : Prop :=
  normalize_endpoint "http://host:1" = "http://host:1" /\
  normalize_endpoint "https://host:1" = "https://host:1".
Definition normalize_endpoint_trims_whitespace : Prop :=
  normalize_endpoint "  127.0.0.1:1  " = "http://127.0.0.1:1".
Definition normalize_endpoint_prefixes_non_http_schemes : Prop :=
  normalize_endpoint "unix:/run/x" = "http://unix:/run/x".

(** The URL parser refuses the candidates with spaces in them. *)
Definition no_space (ep : string) : bool := negb (contains " " ep).
Definition test_discover_leader_invalid_candidate_url_skips_and_falls_back_to_valid : Prop :=
  discover no_space (Err "") (Candidates ["://invalid url without scheme/host"; "127.0.0.1:50051"])
    = Ok "http://127.0.0.1:50051".
Definition test_discover_leader_all_invalid_candidates_returns_error : Prop :=
  match discover no_space (Err "") (Candidates ["://invalid url 1"; "://invalid url 2"]) with
  | Err (Discovery message _) => contains "no syntactically valid candidates" message = true
  | _ => False
  end.
Definition test_discover_leader_custom_resolver : Prop :=
  discover no_space (Ok "127.0.0.1:60000") Custom = Ok "http://127.0.0.1:60000".

Definition not_leader : Auth.Status :=
  mk_status FailedPrecondition "node is not the active writer" [(HEADER_RSQLITE_CODE, CODE_NOT_LEADER)].
Definition client_error_accessors_expose_code_and_not_leader_through_wrapper : Prop :=
  let err := RetriesExhausted 3 (Rpc not_leader) in
  error_code err = Some FailedPrecondition /\ is_not_leader err = true /\ is_retryable err = true.
Definition non_rpc_errors_have_no_status_or_code : Prop :=
  let err := Discovery "no candidates configured for discovery" None in
  error_status err = None /\ error_code err = None /\ is_not_leader err = false /\ is_retryable err = false.

Definition client_config_default_matches_documented_values : Prop :=
  default_client_config = mk_client_config (Direct "http://127.0.0.1:50051") 5 100 2000 15000 None.
Definition new_and_builder_setters_override_only_requested_fields : Prop :=
  let config :=
    with_auth_token "secret" (with_timeout 3000 (with_max_backoff 500 (with_initial_backoff 50
      (with_max_retries 9 (client_config_new (Direct "http://x:1")))))) in
  max_retries config = 9 /\ initial_backoff_ms config = 50 /\ max_backoff_ms config = 500 /\
  timeout_ms config = 3000 /\ auth_token config = Some "secret".

(** ** Tuning and URLs *)

Definition env_vars (threads pages groups : string) (v : string) : option string :=
  if String.eqb v "RSQLITE_RSYNC_MAX_HASH_THREADS" then Some threads
  else if String.eqb v "RSQLITE_RSYNC_PARALLEL_MIN_PAGES" then Some pages
  else if String.eqb v "RSQLITE_RSYNC_HASH_CHUNK_GROUPS" then Some groups else None.
Definition sync_tuning_from_env_falls_back_to_default_on_invalid_values : Prop :=
  from_env (env_vars "not-a-number" "0" "-1") = default_tuning.
Definition test_sync_tuning_should_parallelize : Prop :=
  let tuning := mk_tuning None 100 16 in
  should_parallelize tuning 100 = true /\ should_parallelize tuning 101 = true /\
  should_parallelize tuning 99 = false.
Definition test_sync_tuning_from_env : Prop :=
  from_env (env_vars "4" "200" "32") = mk_tuning (Some 4) 200 32.
Definition test_normalize_grpc_url_grpcs : Prop :=
  normalize_grpc_url "grpcs://example.com:443" = "https://example.com:443".
Definition test_normalize_grpc_url_grpc : Prop :=
  normalize_grpc_url "grpc://example.com:50051" = "http://example.com:50051".
Definition test_normalize_grpc_url_https_passthrough : Prop :=
  normalize_grpc_url "https://example.com:443" = "https://example.com:443".
Definition test_normalize_grpc_url_http_passthrough : Prop :=
  normalize_grpc_url "http://example.com:50051" = "http://example.com:50051".
(** ** Command-line client *)

Definition default_test_args : ClientConnectionArgs :=
  mk_conn_args ModeAuto None None [] None "default" "sqlite-ha" None None "kubectl" 50051 5 15 None.
Definition with_target (mode : CliRuntimeMode) (data_dir endpoint : option string)
    (a : ClientConnectionArgs) : ClientConnectionArgs :=
  mk_conn_args mode data_dir endpoint (arg_endpoints a) (arg_kube_lease a) (arg_kube_namespace a)
    (arg_kube_service a) (arg_kube_context a) (arg_kubeconfig a) (arg_kubectl_path a) (arg_grpc_port a)
    (arg_max_retries a) (arg_timeout a) (arg_token a).
Definition no_env (_ : string) : option string := None.
Definition is_remote_target (r : SyncResult ClientTarget) : bool :=
  match r with Ok (TargetRemote _) => true | _ => false end.
Definition is_err {E A} (r : Result E A) : bool := match r with Err _ => true | Ok _ => false end.

Definition test_client_target_resolution_modes : Prop :=
  to_client_target no_env (with_target ModeLocal (Some "/tmp/edge-data") None default_test_args)
    = Ok (TargetLocal "/tmp/edge-data") /\
  is_err (to_client_target no_env (with_target ModeLocal None None default_test_args)) = true /\
  to_client_target no_env (with_target ModeAuto (Some "/var/data") None default_test_args)
    = Ok (TargetLocal "/var/data") /\
  is_remote_target (to_client_target no_env
    (with_target ModeAuto (Some "/var/data") (Some "http://127.0.0.1:50051") default_test_args)) = true /\
  match to_client_target no_env
          (mk_conn_args ModeCluster None (Some "http://10.0.0.1:50051") [] None "default" "sqlite-ha"
             None None "kubectl" 50051 3 10 (Some "secret")) with
  | Ok (TargetRemote config) =>
      discovery config = Direct "http://10.0.0.1:50051" /\ auth_token config = Some "secret" /\
      max_retries config = 3
  | _ => False
  end /\
  is_remote_target (to_client_target no_env default_test_args) = true.

Definition test_tx_mode_and_consistency_conversions : Prop :=
  map tx_mode_from [TxDeferred; TxImmediate; TxExclusive; TxNone]
    = [ModeDeferred; ModeImmediate; ModeExclusive; ModeNone] /\
  map consistency_from [CliStrong; CliEventual] = [Strong; Eventual].

(** Floats by their bits: 3.5, 1.5, 12.34 and a NaN, with the texts of the tests. *)
Definition F3_5 : Z := 0x400C000000000000.
Definition F1_5 : Z := 0x3FF8000000000000.
Definition F12_34 : Z := 0x4028AE147AE147AE.
Definition NAN : Z := 0x7FF8000000000000.
Definition show_float (bits : Z) : string := if bits =? F3_5 then "3.5" else "NaN".
Definition parse_float (s : string) : option Z := if String.eqb s "12.34" then Some F12_34 else None.
Definition finite (bits : Z) : bool := negb (Z.land (Z.shiftr bits 52) 0x7FF =? 0x7FF).

Definition test_formatting_helpers : Prop :=
  map (format_sql_value show_float)
    [SqlNull; SqlInteger 42; SqlFloat F3_5; SqlText "hello"; SqlBlob [0xde; 0xad; 0xbe; 0xef]]
    = ["NULL"; "42"; "3.5"; "hello"; "x'deadbeef'"] /\
  map (sql_value_to_json finite)
    [SqlNull; SqlInteger 100; SqlFloat F1_5; SqlFloat NAN; SqlText "abc"; SqlBlob [1; 2]]
    = [JNull; JInt 100; JFloat F1_5; JNull; JString "abc"; JString "x'0102'"] /\
  hex_encode [] = "" /\ hex_encode [0x0a; 0xff] = "0aff" /\
  map format_bytes [500; 2048; 5 * 1024 * 1024; 3 * 1024 * 1024 * 1024]
    = ["500 B"; "2.0 KB"; "5.0 MB"; "3.00 GB"].

Definition test_parse_string_to_value : Prop :=
  map (parse_string_to_value parse_float)
    ["null"; "NULL"; "12345"; "12.34"; "x'cafebabe'"; "x''"; "plain string"]
  = map (fun v => Ok (Some v))
    [NullValue true; NullValue true; IntValue 12345; FloatValue F12_34;
     BlobValue [0xca; 0xfe; 0xba; 0xbe]; BlobValue []; TextValue "plain string"].
Definition test_parse_string_to_value_rejects_malformed_hex_blob : Prop :=
  fails_with "odd number of hex digits" (parse_string_to_value parse_float "x'abc'") /\
  fails_with "non-hex characters" (parse_string_to_value parse_float "x'zz'") /\
  fails_with "non-hex characters" (parse_string_to_value parse_float "x'ca0g'").
Definition test_parse_cli_parameters : Prop :=
  parse_cli_parameters parse_float [] = Ok None /\
  match parse_cli_parameters parse_float ["123"; "name=alice"; "null"] with
  | Ok (Some parsed) =>
      length (p_positional parsed) = 2%nat /\ map fst (p_named parsed) = ["name"]
  | _ => False
  end.
Definition test_parse_cli_parameters_propagates_malformed_hex_error : Prop :=
  fails_with "non-hex characters" (parse_cli_parameters parse_float ["x'zz'"]) /\
  fails_with "odd number of hex digits" (parse_cli_parameters parse_float ["k=x'abc'"]).

(** A text between double quotes. *)
Definition dquoted (s : string) : string := String DQUOTE (s +++ String DQUOTE "").
Definition test_split_sql_statements : Prop :=
  map sql (split_sql_statements
    ("CREATE TABLE t (id INT); INSERT INTO t VALUES ('semi;colon', " +++ dquoted "quoted;col" +++ "); ;"))
    = ["CREATE TABLE t (id INT)"; "INSERT INTO t VALUES ('semi;colon', " +++ dquoted "quoted;col" +++ ")"] /\
  map sql (split_sql_statements "SELECT 1; SELECT 2") = ["SELECT 1"; "SELECT 2"].
Definition test_is_query_sql : Prop :=
  forallb is_query_sql
    ["SELECT 1;"; "  select * from t"; "PRAGMA table_info(t);"; "EXPLAIN SELECT 1;";
     "WITH cte AS (SELECT 1) SELECT * FROM cte;"] = true /\
  existsb is_query_sql
    ["INSERT INTO t VALUES (1);"; "UPDATE t SET id = 2;"; "DELETE FROM t;"; "CREATE TABLE t (id INT);"] = false.
Definition test_node_role_str : Prop :=
  node_role_str (role_as_i32 Writer) = "writer" /\ node_role_str (role_as_i32 Replica) = "replica" /\
  node_role_str 999 = "unspecified".

Definition test_discovery_config_branches : Prop :=
  discovery (fst (to_client_config
    (mk_conn_args ModeAuto None None [] (Some "sqlite-lease") "default" "sqlite-ha" (Some "ctx")
       (Some "/path/to/config") "kubectl" 50051 5 15 None))) = Custom /\
  match discovery (fst (to_client_config
    (mk_conn_args ModeAuto None None ["http://10.0.0.1:50051"] None "default" "sqlite-ha" None None
       "kubectl" 50051 5 15 None))) with
  | Candidates _ => True
  | _ => False
  end.
Definition test_dirs_next_history_path : Prop :=
  dirs_next_history_path (Some "/tmp/mockhome") = Some "/tmp/mockhome/.rsqlite_history" /\
  dirs_next_history_path None = None.

(** The metacommands of the test, with a client whose answers are errors: the shell
    prints them and goes on.  One file, [batch.sql], can be read. *)
Definition read_batch_file (path : string) : Result string string :=
  if String.eqb path "batch.sql" then Ok "INSERT INTO users VALUES (4, 'david');"
  else Err "No such file or directory (os error 2)".
Definition metacommand (st : ReplState unit) (cmd : string) : SyncResult bool * ReplState unit :=
  let '(_, r, st) :=
    @handle_metacommand unit CliExample.offline read_batch_file show_float finite "0.00" 1000 st cmd in (r, st).
Definition stays (st : ReplState unit) (cmd : string) : option (ReplState unit) :=
  match metacommand st cmd with (Ok false, st') => Some st' | _ => None end.
Definition run_metacommands (st : ReplState unit) (cmds : list string) : option (ReplState unit) :=
  fold_left (fun st cmd => match st with Some st => stays st cmd | None => None end) cmds (Some st).
Definition test_local_client_commands_and_metacommands : Prop :=
  let start := mk_repl "app.db" Table tt in
  map (fun cmd => fst (metacommand start cmd)) [".quit"; ".exit"; ".q"] = [Ok true; Ok true; Ok true] /\
  run_metacommands start [".help"; ".tables"; ".schema"; ".schema users"; ".database"; ".database new.db"]
    = Some (mk_repl "new.db" Table tt) /\
  map (fun cmd => stays (mk_repl "new.db" Table tt) cmd)
    [".mode"; ".mode json"; ".mode csv"; ".mode tsv"; ".mode raw"; ".mode table"; ".mode invalid"]
    = map (fun f => Some (mk_repl "new.db" f tt)) [Table; Json; Csv; Tsv; Raw; Table; Table] /\
  run_metacommands (mk_repl "new.db" Table tt)
    [".status"; ".read batch.sql"; ".read non_existent.sql"; ".read"; ".unknown"]
    = Some (mk_repl "new.db" Table tt).

Definition data_dir_env (dir : string) (v : string) : option string :=
  if String.eqb v "RSQLITE_DATA_DIR" then Some dir else None.
Definition env_args (mode : CliRuntimeMode) : ClientConnectionArgs :=
  mk_conn_args mode None None [] None "default" "" None None "kubectl" 50051 0 5 None.
Definition test_client_target_resolution_env_vars : Prop :=
  let env := data_dir_env "/tmp/rsqlite-test-env" in
  to_client_target env (env_args ModeLocal) = Ok (TargetLocal "/tmp/rsqlite-test-env") /\
  to_client_target env (env_args ModeAuto) = Ok (TargetLocal "/tmp/rsqlite-test-env") /\
  is_err (to_client_target (data_dir_env "   ") (env_args ModeLocal)) = true /\
  is_err (to_client_target no_env (env_args ModeLocal)) = true.
Definition test_single_endpoint_discovery_config : Prop :=
  let config := fst (to_client_config
    (mk_conn_args ModeCluster None (Some "http://sqlite-ha-writer:50051") [] None "default" "" None None
       "kubectl" 50051 3 10 (Some "secret-token"))) in
  discovery config = Direct "http://sqlite-ha-writer:50051" /\ auth_token config = Some "secret-token" /\
  timeout_ms config = 10000 /\ max_retries config = 3.
Definition test_empty_and_whitespace_args_fallback : Prop :=
  let config := fst (to_client_config
    (mk_conn_args ModeAuto None (Some "   ") [""; "   "] (Some "") "default" "" None None
       "kubectl" 50051 5 15 (Some "   "))) in
  discovery config = Direct "http://127.0.0.1:50051" /\ auth_token config = None /\
  discovery (fst (to_client_config
    (mk_conn_args ModeAuto None (Some "") ["http://node1:50051"; " http://node2:50051 "] None "default" ""
       None None "kubectl" 50051 5 15 None))) = Candidates ["http://node1:50051"; "http://node2:50051"].
(** ** Batch *)

Definition default_runtime_options : BatchRuntimeOptions := mk_batch_options 1 false 0 None None None 0 None.
Definition spec (origin replica : string) (dry_run : bool) : BatchSyncSpec :=
  mk_spec None origin replica (Some dry_run) (Some 0) None None None None None.
Definition with_timeout_default (o : BatchRuntimeOptions) (secs : Z) : BatchRuntimeOptions :=
  mk_batch_options (jobs o) (default_dry_run o) (default_retries o) (Some secs) (retry_backoff_base o)
    (retry_backoff_max o) (Batch.retry_jitter_pct o) (Batch.grpc_auth_token o).

Definition identifier_falls_back_to_origin_arrow_replica_when_unnamed : Prop :=
  identifier (spec "origin.db" "replica.db" false) = "origin.db -> replica.db" /\
  identifier (mk_spec (Some "custom-name") "origin.db" "replica.db" (Some false) (Some 0)
                None None None None None) = "custom-name".

(** A manifest as the parsers answer for it: its entries under one format, an error
    under the others. *)
Definition entry (origin replica : string) : BatchEntryWire :=
  mk_entry None origin replica None None None None None None None.
Definition answers (yes : bool) (entries : list BatchEntryWire) (_ : string)
  : Result string BatchManifest := if yes then Ok (mk_manifest None entries) else Err "parse error".
Definition load (json yaml toml : bool) (entries : list BatchEntryWire) (path : string)
    (format : ManifestFormat) : SyncResult (list BatchSyncSpec) :=
  load_manifest (answers json entries) (answers yaml entries) (answers toml entries) path (Ok "manifest") format.
Definition a_b : list BatchEntryWire := [entry "a" "b"].
Definition a_b_specs : list BatchSyncSpec := [mk_spec None "a" "b" None None None None None None None].

Definition load_manifest_missing_file_reports_read_error : Prop :=
  fails_with "failed reading batch manifest"
    (load_manifest (answers true []) (answers true []) (answers true []) "does-not-exist.json"
       (Err (mk_io_error Errors.NotFound "No such file or directory (os error 2)")) FormatJson).
Definition load_manifest_explicit_json_format_parses : Prop :=
  load true true false a_b "manifest.dat" FormatJson = Ok a_b_specs.
Definition load_manifest_explicit_yaml_format_parses : Prop :=
  load false true false a_b "manifest.dat" FormatYaml = Ok a_b_specs.
Definition load_manifest_explicit_toml_format_parses : Prop :=
  load false false true a_b "manifest.dat" FormatToml = Ok a_b_specs.
Definition load_manifest_explicit_yaml_format_reports_parse_error : Prop :=
  fails_with "as yaml" (load false false false [] "manifest.dat" FormatYaml).
Definition load_manifest_explicit_toml_format_reports_parse_error : Prop :=
  fails_with "as toml" (load false false false [] "manifest.dat" FormatToml).
Definition load_manifest_auto_detects_json_without_recognized_extension : Prop :=
  load true true false a_b "manifest" FormatAuto = Ok a_b_specs.
Definition load_manifest_auto_falls_back_to_yaml_without_recognized_extension : Prop :=
  load false true false a_b "manifest" FormatAuto = Ok a_b_specs.
Definition load_manifest_auto_falls_back_to_toml_without_recognized_extension : Prop :=
  load false false true a_b "manifest" FormatAuto = Ok a_b_specs.
Definition load_manifest_auto_reports_all_format_errors_when_none_match : Prop :=
  let r := load false false false [] "manifest" FormatAuto in
  fails_with "json error" r /\ fails_with "yaml error" r /\ fails_with "toml error" r.
Definition load_manifest_rejects_empty_syncs_list : Prop :=
  fails_with "no sync entries" (load true false false [] "manifest.json" FormatJson).
Definition load_manifest_rejects_blank_origin : Prop :=
  fails_with "empty origin" (load true false false [entry "   " "b"] "manifest.json" FormatJson).
Definition load_manifest_rejects_blank_replica : Prop :=
  fails_with "empty replica" (load true false false [entry "a" ""] "manifest.json" FormatJson).
Definition load_manifest_explicit_json_error_path : Prop :=
  match load false false false [] "manifest.json" FormatJson with Err (Protocol _) => True | _ => False end.
Definition load_manifest_auto_format_extensions : Prop :=
  load false true false a_b "manifest.yaml" FormatAuto = Ok a_b_specs /\
  load false true false a_b "manifest.yml" FormatAuto = Ok a_b_specs /\
  load false false true a_b "manifest.toml" FormatAuto = Ok a_b_specs.

(** The databases that [seed_db] has made, by name and page size; the sync calls succeed. *)
Definition conn_of (page_size : Z) : Connection := mk_conn page_size (fun _ => mk_pragma 0 "" 100 2) None [] false [].
Fixpoint page_size_in (dbs : list (string * Z)) (path : string) : option Z :=
  match dbs with
  | [] => None
  | (p, n) :: dbs => if String.eqb path p then Some n else page_size_in dbs path
  end.
Definition seeded (dbs : list (string * Z)) (timer : bool) : Attempt :=
  mk_attempt (fun _ => Some (Ok tt))
    (fun path => match page_size_in dbs path with
                 | Some n => Ok (conn_of n)
                 | None => Err (Sqlite 14 "unable to open database file")
                 end)
    (fun path => is_some (page_size_in dbs path)) (fun _ => timer) 0.

Definition run_batch_sync_handles_more_job_slots_than_entries : Prop :=
  match run_batch_sync
      [spec "origin_a.db" "replica_a.db" true; spec "origin_b.db" "replica_b.db" true]
      (mk_batch_options 5 false 0 None None None 0 None) (fun _ => O)
      (fun _ _ _ => seeded [("origin_a.db", 4096); ("origin_b.db", 4096)] false) with
  | Some report =>
      total report = 2 /\ succeeded report = 2 /\ failed report = 0 /\ any_failed report = false
  | None => False
  end.
Definition run_one_succeeds_within_a_generous_timeout : Prop :=
  option_map item_success (fst (run_one 0 (spec "origin.db" "replica.db" true)
    (with_timeout_default default_runtime_options 30)
    (fun _ => seeded [("origin.db", 4096)] false))) = Some true.
Definition run_one_reports_timeout_error_when_attempt_exceeds_deadline : Prop :=
  match option_map error (fst (run_one 0 (spec "origin.db" "localhost:/tmp/replica.db" false)
    (with_timeout_default default_runtime_options 0) (fun _ => seeded [("origin.db", 4096)] true))) with
  | Some (Some e) => contains "timed out" e = true
  | _ => False
  end.
Definition inner_dry_run (origin replica : string) (dbs : list (string * Z)) : option (SyncResult unit) :=
  run_one_inner (spec origin replica true) true default_runtime_options (seeded dbs false).
Definition run_one_inner_local_dry_run_uses_dry_run_local : Prop :=
  inner_dry_run "origin.db" "replica.db" [("origin.db", 4096)] = Some (Ok tt).
Definition run_one_inner_push_dry_run_returns_immediately : Prop :=
  inner_dry_run "/tmp/origin.db" "example.com:/remote/replica.db" [] = Some (Ok tt).
Definition run_one_inner_pull_dry_run_returns_immediately : Prop :=
  inner_dry_run "example.com:/remote/origin.db" "/tmp/replica.db" [] = Some (Ok tt).
Definition dry_run_local_ok_when_replica_missing : Prop :=
  dry_run_local (seeded [("origin.db", 4096)] false) "origin.db" "replica.db" = Ok tt.
Definition dry_run_local_ok_when_page_sizes_match : Prop :=
  dry_run_local (seeded [("origin.db", 4096); ("replica.db", 4096)] false) "origin.db" "replica.db" = Ok tt.
Definition dry_run_local_errors_on_page_size_mismatch : Prop :=
  dry_run_local (seeded [("origin.db", 4096); ("replica.db", 8192)] false) "origin.db" "replica.db"
    = Err (PageSizeMismatch 4096 8192).
Definition test_run_one_fallback_backoff_max : Prop :=
  option_map item_success (fst (run_one 0
    (mk_spec None "origin.db" "replica.db" (Some false) (Some 1) None (Some 1) None None None)
    (mk_batch_options 1 false 0 None None (Some 10) 0 None)
    (fun _ => seeded [("origin.db", 4096)] false))) = Some true.
Definition test_run_one_inner_dry_run_modes : Prop :=
  let dbs := [("origin.db", 4096); ("replica.db", 4096)] in
  map (fun '(o, r) => run_one_inner (mk_spec None o r (Some true) None None None None None None) true default_runtime_options (seeded dbs false))
    [("origin.db", "replica.db"); ("origin.db", "user@host:/remote/path.db");
     ("user@host:/remote/path.db", "replica.db")] = [Some (Ok tt); Some (Ok tt); Some (Ok tt)].

Definition retry_delay_grows_exponentially_without_jitter : Prop :=
  map (fun n => retry_delay_for_attempt_core 10 None 0 n 0) [1; 2; 3] = [Some 10; Some 20; Some 40].
Definition retry_delay_respects_max_cap : Prop :=
  map (fun n => retry_delay_for_attempt_core 100 (Some 250) 0 n 0) [1; 2; 3] = [Some 100; Some 200; Some 250].
Definition within (low high : Z) (d : option Z) : bool :=
  match d with Some d => (low <=? d) && (d <=? high) | None => false end.
Definition retry_delay_jitter_stays_within_expected_bounds : Prop :=
  forallb (fun entropy => within 85 115 (retry_delay_for_attempt_core 100 None 15 1 entropy)) [0; U128_MAX] = true.
Definition retry_delay_zero_base_yields_no_delay : Prop :=
  retry_delay_for_attempt_core 0 None 0 1 0 = None.
Definition retry_delay_zero_jitter_span_skips_jitter_adjustment : Prop :=
  retry_delay_for_attempt_core 1 None 1 1 0 = Some 1.
(** ** The binary *)

Definition no_ha_args : HaArgs :=
  mk_ha_args None None SourceFile None "default" None None "kubectl" None None None None None None None
    false None false "sqlite-ha" 50051 1000 0 10 2 false Permissive.
(** The parsed command line, with the defaults of the options that are not given. *)
Definition args (origin replica batch_manifest : option string) (server ha : bool) (h : HaArgs) : Args :=
  mk_args None origin replica false false "rsqlite-rsync" [] CliNonInteractive 10 None batch_manifest
    FormatAuto 1 0 0 0 0 0 server false false ha h.
Definition no_mode_and_no_origin_is_rejected : Prop :=
  fails_with "ORIGIN is required" (select_mode (args None None None false false no_ha_args)).
Definition normal_mode_requires_replica : Prop :=
  fails_with "REPLICA is required" (select_mode (args (Some "/tmp/origin.db") None None false false no_ha_args)).

Definition main_parse_freshness_ledger_accepts_valid_input : Prop :=
  parse_freshness_ledger (lines_of ["source_node_id=node-a"; "source_generation=9"; "synced_at_secs=123"])
    = Ok (mk_freshness "node-a" 9 123).
Definition main_parse_freshness_ledger_rejects_missing_fields : Prop :=
  err_contains "missing source_generation"
    (parse_freshness_ledger (lines_of ["source_node_id=node-a"; "synced_at_secs=123"])).
Definition read_freshness_ledger_returns_none_for_missing_empty_and_none : Prop :=
  map (read_freshness_ledger "freshness.txt")
    [Err (mk_io_error Errors.NotFound "No such file or directory (os error 2)"); Ok nl; Ok (lines_of ["none"])]
    = [Ok None; Ok None; Ok None].
Definition read_freshness_ledger_rejects_invalid_content : Prop :=
  fails_with "invalid freshness file"
    (read_freshness_ledger "freshness.txt" (Ok (lines_of ["source_node_id=node-a"; "source_generation=abc"]))).

(** The run of HA mode that a command line selects, from its set-up on. *)
Definition setup_of (h : HaArgs) : SyncResult HaRunning :=
  match select_mode (args None None None false true h) with
  | Ok (HaMode h) => ha_setup MainExample.no_json MainExample.no_time MainExample.env h
  | Ok _ => Err (Protocol "another mode")
  | Err e => Err e
  end.
Definition ha_args (node_id lease_file : option string) (source : HaLeaseSource) : HaArgs :=
  mk_ha_args node_id lease_file source None "default" None None "kubectl" None (Some "/tmp/role.txt")
    (Some "/tmp/audit.log") None None None None false None false "sqlite-ha" 50051 1000 0 10 2 false Permissive.
Definition ha_mode_requires_node_id : Prop :=
  fails_with "--ha-node-id is required" (setup_of (ha_args None (Some "/tmp/lease.txt") SourceFile)).
Definition ha_mode_file_source_requires_lease_file : Prop :=
  fails_with "--ha-lease-file is required" (setup_of (ha_args (Some "node-a") None SourceFile)).
Definition ha_mode_kubernetes_source_requires_lease_name : Prop :=
  fails_with "--ha-kube-lease-name is required" (setup_of (ha_args (Some "node-a") None SourceKubernetes)).

Definition test_lease_from_observation : Prop :=
  let lease := mk_lease "node-1" 2 100 30 in
  map lease_from_observation
    [Missing; Acquired lease; Renewed lease; Replaced lease; Unchanged lease; Transferred lease lease]
    = [None; Some lease; Some lease; Some lease; Some lease; Some lease].

(** The result of a step of the executor with the flag, the file, the role and the
    generation that it leaves. *)
Definition observed (p : Result IoError unit * ReadinessAwareExecutor)
  : Result IoError unit * bool * option string * NodeRole * Z :=
  let '(r, x) := p in
  (r, readiness_state x, readiness_file x, sh_role (ha_state x), sh_generation (ha_state x)).
Definition test_readiness_aware_executor_lifecycle : Prop :=
  let not_ready := Some (lines_of ["not-ready"]) in
  let ready := Some (lines_of ["ready"]) in
  let start :=
    mk_readiness (mk_tracing (mk_file_exec None "" []) "test" []) true None [] false
      (shared_new "node-1" false) in
  let s0 := initialize_not_ready start in
  let s1 := enable_writer 5 (snd s0) in
  let s2 := keep_writer (snd s1) in
  let s3 := disable_writer (FenceViolation FenceLeaseExpired) (snd s2) in
  let s4 := ensure_replica (snd s3) in
  let s5 := record_promotion_denied (TargetGenerationMismatch 5 4) (snd s4) in
  map observed [s0; s1; s2; s3; s4; s5]
    = [(Ok tt, false, not_ready, Replica, 0); (Ok tt, true, ready, Writer, 5);
       (Ok tt, true, ready, Writer, 5); (Ok tt, false, not_ready, Replica, 5);
       (Ok tt, false, not_ready, Replica, 5); (Ok tt, false, not_ready, Replica, 5)].

(** The server of the test, one request after the other, at time 1000. *)
Definition get_endpoint (path : string) (ready : bool) (last_tick : Z) : HttpEvent :=
  Accepted (Some ("GET " +++ path +++ " HTTP/1.1" +++ crlf +++ "Host: localhost" +++ crlf +++ crlf))
    ready last_tick 1000.
Fixpoint ends_with (part s : string) : bool :=
  String.eqb part s || match s with "" => false | String _ s => ends_with part s end.
Definition answered_with (head body response : string) : bool :=
  starts_with head response && ends_with (crlf +++ crlf +++ body +++ nl) response.
Definition test_readiness_http_server_endpoints : Prop :=
  let responses :=
    run_readiness_http_server 5
      [get_endpoint "/live" false 0; get_endpoint "/ready" false 0; get_endpoint "/ready" true 0;
       get_endpoint "/healthz" true 0; get_endpoint "/healthz" true 1000; get_endpoint "/healthz" true 900;
       get_endpoint "/unknown" true 900; ShutdownChanged true true] in
  let expected :=
    [("HTTP/1.1 200 OK", "live"); ("HTTP/1.1 503 Service Unavailable", "not-ready");
     ("HTTP/1.1 200 OK", "ready"); ("HTTP/1.1 503 Service Unavailable", "initializing");
     ("HTTP/1.1 200 OK", "healthy"); ("HTTP/1.1 503 Service Unavailable", "stale");
     ("HTTP/1.1 404 Not Found", "not-found")] in
  length responses = 7%nat /\
  forallb (fun '(r, (head, body)) => answered_with head body r) (zip responses expected) = true.

(** [run_batch_mode] on a command line whose manifest names nothing. *)
Definition batch_mode (a : BatchArgs) : option (SyncResult unit) :=
  run_batch_mode a (Ok []) (fun _ => O) (fun _ _ _ => seeded [] false).
Definition batch_fails_with (part : string) (r : option (SyncResult unit)) : Prop :=
  match r with Some r => fails_with part r | None => False end.
Definition manifest_args (origin : option string) (server ha : bool) : BatchArgs :=
  batch_args (args origin None (Some "manifest.json") server ha no_ha_args).
Definition test_batch_mode_validation_errors : Prop :=
  batch_fails_with "--batch-manifest cannot be used with --ha" (batch_mode (manifest_args None false true)) /\
  batch_fails_with "--batch-manifest cannot be used with --server" (batch_mode (manifest_args None true false)) /\
  batch_fails_with "batch mode does not accept ORIGIN/REPLICA"
    (batch_mode (manifest_args (Some "origin.db") false false)) /\
  batch_fails_with "--batch-jobs must be greater than 0"
    (batch_mode (mk_batch_args false false false 0 0 0 0 0 0 false None)) /\
  batch_fails_with "--batch-retry-jitter-pct must be between 0 and 100"
    (batch_mode (mk_batch_args false false false 1 0 0 0 0 150 false None)) /\
  batch_fails_with "--batch-retry-backoff-max-ms must be >= --batch-retry-backoff-ms"
    (batch_mode (mk_batch_args false false false 1 0 0 500 100 0 false None)).
Definition test_batch_mode_execution_success : Prop :=
  run_batch_mode (manifest_args None false false)
    (load true true false [entry "db1.db" "db1_rep.db"] "manifest.json" FormatAuto) (fun _ => O)
    (fun _ _ _ => seeded [("db1.db", 4096)] false) = Some (Ok tt).
(** A database without content has page size 4096 too. *)
Definition test_dry_run_local_execution : Prop :=
  main_dry_run_local (seeded [("orig.db", 4096)] false) "orig.db" "repl.db" = Ok tt /\
  main_dry_run_local (seeded [("orig.db", 4096); ("repl.db", 4096)] false) "orig.db" "repl.db" = Ok tt.

Definition tool_tests : list Prop :=
  [parse_grpc_paths; parse_local_paths; parse_remote_paths;
   parse_bare_token_colon_treated_as_local; parse_bracketed_ipv6_with_content_is_remote;
   parse_host_starting_with_dot_is_local;
   parse_bracketed_ipv6_with_empty_host_or_path_falls_through; is_remote_predicate;
   endpoint_parser_treats_common_local_colon_paths_as_local;
   endpoint_parser_accepts_remote_shapes; parse_kv_lines_accepts_known_keys;
   parse_kv_lines_skips_blank_lines; parse_kv_lines_rejects_missing_equals;
   parse_kv_lines_rejects_unknown_key; require_u64_reports_missing_and_invalid;
   require_non_empty_rejects_blank_value;
   read_optional_kv_text_treats_missing_empty_and_none_as_absent;
   read_optional_kv_text_propagates_non_not_found_errors;
   disabled_accepts_requests_without_any_header; required_rejects_missing_header;
   required_rejects_non_utf8_header_value; required_rejects_wrong_scheme;
   required_rejects_wrong_token; required_accepts_matching_token; check_token_tests;
   check_request_or_token_tests; constant_time_eq_matches_partial_eq_semantics;
   next_backoff_doubles_until_clamped_at_max; next_backoff_saturates_instead_of_overflowing;
   test_sql_gateway_client_clone; test_client_discover_leader_direct; test_authorized_request;
   test_process_leader_header_present_and_non_empty;
   test_process_leader_header_present_but_empty; test_process_leader_header_absent;
   normalize_endpoint_adds_http_scheme_when_missing;
   normalize_endpoint_preserves_http_and_https_schemes; normalize_endpoint_trims_whitespace;
   normalize_endpoint_prefixes_non_http_schemes;
   test_discover_leader_invalid_candidate_url_skips_and_falls_back_to_valid;
   test_discover_leader_all_invalid_candidates_returns_error;
   test_discover_leader_custom_resolver;
   client_error_accessors_expose_code_and_not_leader_through_wrapper;
   non_rpc_errors_have_no_status_or_code; client_config_default_matches_documented_values;
   new_and_builder_setters_override_only_requested_fields;
   sync_tuning_from_env_falls_back_to_default_on_invalid_values;
   test_sync_tuning_should_parallelize; test_sync_tuning_from_env;
   test_normalize_grpc_url_grpcs; test_normalize_grpc_url_grpc;
   test_normalize_grpc_url_https_passthrough; test_normalize_grpc_url_http_passthrough;
   test_client_target_resolution_modes; test_tx_mode_and_consistency_conversions;
   test_formatting_helpers; test_parse_string_to_value;
   test_parse_string_to_value_rejects_malformed_hex_blob; test_parse_cli_parameters;
   test_parse_cli_parameters_propagates_malformed_hex_error; test_split_sql_statements;
   test_is_query_sql; test_node_role_str; test_discovery_config_branches;
   test_dirs_next_history_path; test_local_client_commands_and_metacommands;
   test_client_target_resolution_env_vars; test_single_endpoint_discovery_config;
   test_empty_and_whitespace_args_fallback;
   identifier_falls_back_to_origin_arrow_replica_when_unnamed;
   load_manifest_missing_file_reports_read_error; load_manifest_explicit_json_format_parses;
   load_manifest_explicit_yaml_format_parses; load_manifest_explicit_toml_format_parses;
   load_manifest_explicit_yaml_format_reports_parse_error;
   load_manifest_explicit_toml_format_reports_parse_error;
   load_manifest_auto_detects_json_without_recognized_extension;
   load_manifest_auto_falls_back_to_yaml_without_recognized_extension;
   load_manifest_auto_falls_back_to_toml_without_recognized_extension;
   load_manifest_auto_reports_all_format_errors_when_none_match;
   load_manifest_rejects_empty_syncs_list; load_manifest_rejects_blank_origin;
   load_manifest_rejects_blank_replica; load_manifest_explicit_json_error_path;
   load_manifest_auto_format_extensions; run_batch_sync_handles_more_job_slots_than_entries;
   run_one_succeeds_within_a_generous_timeout;
   run_one_reports_timeout_error_when_attempt_exceeds_deadline;
   run_one_inner_local_dry_run_uses_dry_run_local;
   run_one_inner_push_dry_run_returns_immediately;
   run_one_inner_pull_dry_run_returns_immediately; dry_run_local_ok_when_replica_missing;
   dry_run_local_ok_when_page_sizes_match; dry_run_local_errors_on_page_size_mismatch;
   test_run_one_fallback_backoff_max; test_run_one_inner_dry_run_modes;
   retry_delay_grows_exponentially_without_jitter; retry_delay_respects_max_cap;
   retry_delay_jitter_stays_within_expected_bounds; retry_delay_zero_base_yields_no_delay;
   retry_delay_zero_jitter_span_skips_jitter_adjustment; no_mode_and_no_origin_is_rejected;
   normal_mode_requires_replica; main_parse_freshness_ledger_accepts_valid_input;
   main_parse_freshness_ledger_rejects_missing_fields;
   read_freshness_ledger_returns_none_for_missing_empty_and_none;
   read_freshness_ledger_rejects_invalid_content; ha_mode_requires_node_id;
   ha_mode_file_source_requires_lease_file; ha_mode_kubernetes_source_requires_lease_name;
   test_lease_from_observation; test_readiness_aware_executor_lifecycle;
   test_readiness_http_server_endpoints; test_batch_mode_validation_errors;
   test_batch_mode_execution_success; test_dry_run_local_execution].
End ToolTests.

(** The unit tests of the endpoint parser, of the key-value texts, of the gateway's
    authentication, of the client library, of the command-line client, of the batch mode and of
    the binary hold of the model. *)
Theorem tool_tests_hold : ToolTests.all_hold ToolTests.tool_tests.
Proof.
  unfold ToolTests.all_hold, ToolTests.tool_tests.
  repeat (apply Forall_cons; split; [vm_compute; split_and?; (done || congruence)|]). apply Forall_nil_2.
Qed.
