(* ===== verification/Cluster.v ===== *)
(** * A cluster of nodes under one lease service (src/src/main.rs, src/src/ha.rs, src/src/gateway/server.rs)

    Several processes in HA mode: each runs the turns of [HaLoop] one action at a time,
    while its gateway answers requests between any two actions.  The lease service is
    external, a parameter of the cluster.  The leases a node reads may be old, clocks are off
    by at most [skew], processes die and start at any time.

    [generations_fence_writes]: what the program relies on is a service whose leases pass to
    another holder, or to another generation, only when they have been expired for a margin
    that covers the skew, and whose renewals do not shorten them ([may_issue]).  Then the
    writes the gateways admit carry generations that never go back, and one node per
    generation.  A smaller margin does not do ([short_margin_lets_two_write]), and the lease
    updater among the examples of the repository is not such a service
    ([shipped_updater_lets_two_write]).  The handlers check the fence and then hand the
    statement to a blocking task: [delayed_write_runs_late] shows what the check does not
    cover. *)

From Stdlib Require Import Sorting.Sorted.
From S2P Require Import Prelude RustStr Errors KvText Ha HaLoop Auth Engine Server Main.

(** ** One node *)

(** A process between two turns, or inside a turn with the actions it has still to
    execute and the lease it has to publish. *)
Inductive node :=
| Sleeping (st : LoopState)
| Acting (st : LoopState) (acts : list HaAction) (current : option LeaseRecord) (now_secs : Z).

Definition node_loop (n : node) : LoopState :=
  match n with Sleeping st | Acting st _ _ _ => st end.

(** What the gateway of the node sees. *)
Definition node_shared (n : node) : HaSharedState := ha_state (executor (node_loop n)).

(** The part of a turn before its first action. *)
Definition begin_turn (i : TurnInput) (st : LoopState) : SyncResult node :=
  let? c := load_freshness (in_fresh i) (controller st) in
  let? now_secs := in_now i in
  let current := lease_read (in_reader i) in
  let '(plan, c) := plan_tick now_secs current c in
  Ok (Acting (mk_loop c (executor st) (last_tick_secs st)) (actions plan) current now_secs).

(** One action of [execute_controller_plan]. *)
Definition act (st : LoopState) (a : HaAction) (rest : list HaAction) (current : option LeaseRecord)
    (now_secs : Z) : node :=
  let '(r, x) := execute_action a (executor st) in
  Acting (mk_loop (controller st) x (last_tick_secs st))
    (match r with
     | Ok _ => rest
     | Err _ => if controller_stop_on_error (controller st) then [] else rest
     end) current now_secs.

(** The end of a turn: the lease is published and the tick recorded. *)
Definition end_turn (service : string) (port : Z) (st : LoopState) (current : option LeaseRecord)
    (now_secs : Z) : node :=
  let x := executor st in
  Sleeping (mk_loop (controller st) (set_ha_state x (publish_lease service port current (ha_state x)))
              now_secs).

Section Node.
Context (service : string) (port : Z) (reads : TurnInput -> Prop).

Inductive node_step : node -> node -> Prop :=
| node_begins i st n : reads i -> begin_turn i st = Ok n -> node_step (Sleeping st) n
| node_acts st a rest current t : node_step (Acting st (a :: rest) current t) (act st a rest current t)
| node_ends st current t : node_step (Acting st [] current t) (end_turn service port st current t).

Lemma acting_steps acts : forall st fs x current t,
  execute_actions (controller_stop_on_error (controller st)) acts (executor st) = (fs, x) ->
  rtc node_step (Acting st acts current t)
    (Acting (mk_loop (controller st) x (last_tick_secs st)) [] current t).
Proof.
  induction acts as [|a acts IH]; intros [c x0 tk] fs x current t; cbn [execute_actions executor controller].
  { intros [= <- <-]. apply rtc_refl. }
  intros He. eapply rtc_l; [apply node_acts|]. unfold act. cbn [executor controller last_tick_secs].
  destruct (execute_action a x0) as [[[]|e] x1].
  - by apply (IH (mk_loop c x1 tk) fs).
  - destruct (controller_stop_on_error c) eqn:Es.
    + injection He as <- <-. apply rtc_refl.
    + destruct (execute_actions false acts x1) as [fs' x'] eqn:Ea. injection He as <- <-.
      apply (IH (mk_loop c x1 tk) fs'). cbn. by rewrite Es.
Qed.

(** The steps of a turn are the turn of the loop. *)
Lemma turn_steps i st st' :
  reads i -> ha_loop_turn service port (in_fresh i) (in_now i) (in_reader i) st = Ok st' ->
  rtc node_step (Sleeping st) (Sleeping st').
Proof.
  intros Hi (c & t & fs & x & Hc & Ht & Hx & ->)%turn_spec.
  destruct (plan_tick t (lease_read (in_reader i)) c) as [plan c'] eqn:Ep. cbn [fst snd] in Hx |- *.
  assert (Hs : controller_stop_on_error c' = controller_stop_on_error c).
  { rewrite plan_tick_eq in Ep. by injection Ep as _ <-. }
  eapply rtc_l.
  { apply (node_begins i). { exact Hi. } unfold begin_turn. rewrite Hc, Ht. cbn. by rewrite Ep. }
  eapply rtc_r; [|apply (node_ends (mk_loop c' x (last_tick_secs st)))].
  apply (acting_steps (actions plan) (mk_loop c' (executor st) (last_tick_secs st)) fs x). cbn. by rewrite Hs.
Qed.
End Node.

(** ** The cluster *)

Inductive request :=
| ReqExecute (db : string) (stmt : option Statement)
| ReqQuery (db : string) (stmt : option Statement) (max_rows consistency : Z)
| ReqStream (db : string) (stmt : option Statement) (max_rows chunk_size consistency : Z)
| ReqBatch (db : string) (ss : list Statement) (mode : Z) (stop_on_error : bool)
| ReqDrop (db : string).

(** The engine calls a request leads to. *)
Definition calls_of `{!GatewayEngine} (ha : HaSharedState) (now : Z) (r : request) : list EngineCall :=
  match r with
  | ReqExecute db stmt => snd (rpc_execute ha now db stmt)
  | ReqQuery db stmt max_rows c => snd (rpc_query ha now db stmt max_rows c)
  | ReqStream db stmt max_rows size c => snd (rpc_stream_query ha now db stmt max_rows size c)
  | ReqBatch db ss mode stop => snd (rpc_batch ha now db ss mode stop)
  | ReqDrop db => snd (rpc_drop_database ha now db)
  end.

(** A write a gateway admitted: the node, its generation and the engine call. *)
Record admission := mk_admission { adm_node : string; adm_generation : Z; adm_call : EngineCall }.

Definition admissions `{!GatewayEngine} (ha : HaSharedState) (now : Z) (r : request) : list admission :=
  map (mk_admission (sh_node_id ha) (sh_generation ha)) (List.filter Server.writes (calls_of ha now r)).

(** The writes go through a blocking task each: [in_flight] until it has run, then
    [applied].  The other lists have the newest first. *)
Record cluster := mk_cluster {
  c_now : Z;
  issued : list LeaseRecord;
  nodes : gmap string node;
  admitted : list admission;
  in_flight : list admission;
  applied : list admission;
}.

Definition deadline (l : LeaseRecord) : Z := sat_add64 (renewed_at_secs l) (ttl_secs l).

(** Same holder, same generation, at least as long. *)
Definition renews (l l' : LeaseRecord) : Prop :=
  holder_node_id l' = holder_node_id l /\ generation l' = generation l /\ deadline l <= deadline l'.

(** A service with exclusive leases: the lease is renewed for its holder, or passes on with a
    higher generation after it has been expired for [margin] seconds. *)
Definition may_issue (margin now : Z) (issued : list LeaseRecord) (l' : LeaseRecord) : Prop :=
  match issued with
  | [] => True
  | l :: _ => renews l l' \/ (is_expired l (now - margin) = true /\ generation l < generation l')
  end.

Section Cluster.
Context `{!GatewayEngine} (from_str : string -> Result string Value)
  (parse_from_rfc3339 : string -> Result string Z) (skew : Z).
(** The leases that the lease service can issue next. *)
Context (issues : cluster -> LeaseRecord -> Prop).

(** A turn reads no lease, or one that was issued at some time. *)
Definition reads_issued (ls : list LeaseRecord) (i : TurnInput) : Prop :=
  forall l, lease_read (in_reader i) = Some l -> l ∈ ls.

Inductive cluster_step : cluster -> cluster -> Prop :=
| time_passes t t' ls ns ad fl ap :
    t <= t' -> cluster_step (mk_cluster t ls ns ad fl ap) (mk_cluster t' ls ns ad fl ap)
| lease_issued l t ls ns ad fl ap :
    issues (mk_cluster t ls ns ad fl ap) l -> cluster_step (mk_cluster t ls ns ad fl ap) (mk_cluster t (l :: ls) ns ad fl ap)
| process_starts env a h id t ls ns ad fl ap :
    ha_setup from_str parse_from_rfc3339 env a = Ok h -> ha_node_id a = Some id -> ns !! id = None ->
    cluster_step (mk_cluster t ls ns ad fl ap)
      (mk_cluster t ls (<[id := Sleeping (run_state h)]> ns) ad fl ap)
| process_dies id t ls ns ad fl ap :
    cluster_step (mk_cluster t ls ns ad fl ap) (mk_cluster t ls (delete id ns) ad (filter (fun a => adm_node a <> id) fl) ap)
| process_steps service port id n n' t ls ns ad fl ap :
    ns !! id = Some n -> node_step service port (reads_issued ls) n n' ->
    cluster_step (mk_cluster t ls ns ad fl ap) (mk_cluster t ls (<[id := n']> ns) ad fl ap)
| gateway_answers id n clock r t ls ns ad fl ap :
    ns !! id = Some n -> Z.abs (clock - t) <= skew ->
    cluster_step (mk_cluster t ls ns ad fl ap)
      (let new := admissions (node_shared n) clock r in
       mk_cluster t ls ns (new ++ ad) (fl ++ new) ap)
| task_runs a fl1 fl2 t ls ns ad ap :
    cluster_step (mk_cluster t ls ns ad (fl1 ++ a :: fl2) ap)
      (mk_cluster t ls ns ad (fl1 ++ fl2) (a :: ap)).

Definition cluster_start (t : Z) : cluster := mk_cluster t [] ∅ [] [] [].
Definition cluster_reachable (s : cluster) : Prop := exists t, rtc cluster_step (cluster_start t) s.

(** A turn of a node as steps of the cluster. *)
Lemma cluster_turn service port i id st st' t ls ns ad fl ap :
  ns !! id = Some (Sleeping st) -> reads_issued ls i ->
  ha_loop_turn service port (in_fresh i) (in_now i) (in_reader i) st = Ok st' ->
  rtc cluster_step (mk_cluster t ls ns ad fl ap) (mk_cluster t ls (<[id := Sleeping st']> ns) ad fl ap).
Proof.
  intros Hid Hi Ht. pose proof (turn_steps service port (reads_issued ls) i st st' Hi Ht) as Hr.
  clear Ht. revert ns Hid. induction Hr as [n|n1 n2 n3 Hs _ IH]; intros ns Hid.
  - rewrite insert_id by done. apply rtc_refl.
  - eapply rtc_l; [by eapply process_steps|]. rewrite <- (insert_insert_eq ns id n3 n2).
    apply IH. apply lookup_insert_eq.
Qed.

(** ** The invariant *)
Context (margin : Z).

(** What an issued lease is to an older one at a given time. *)
Definition later (now : Z) (l l' : LeaseRecord) : Prop :=
  renews l' l \/ (generation l' < generation l /\ is_expired l' (now - margin) = true).

Definition pending (n : node) : option LeaseRecord :=
  match n with Sleeping _ => None | Acting _ _ current _ => current end.

Definition node_inv (ls : list LeaseRecord) (id : string) (n : node) : Prop :=
  sh_node_id (node_shared n) = id /\
  (forall l, lease_record (node_shared n) = Some l -> l ∈ ls) /\
  (forall l, pending n = Some l -> l ∈ ls).

Definition admitted_under (ls : list LeaseRecord) (a : admission) : Prop :=
  exists l, l ∈ ls /\ holder_node_id l = adm_node a /\ generation l = adm_generation a.

Definition not_older (new old : admission) : Prop := adm_generation old <= adm_generation new.

Record cluster_inv (s : cluster) : Prop := {
  ci_issued : StronglySorted (later (c_now s)) (issued s);
  ci_nodes : forall id n, nodes s !! id = Some n -> node_inv (issued s) id n;
  ci_admitted : Forall (admitted_under (issued s)) (admitted s);
  ci_order : StronglySorted not_older (admitted s);
}.

Lemma expired_mono l t t' : t <= t' -> is_expired l t = true -> is_expired l t' = true.
Proof. unfold is_expired. intros. zbool. lia. Qed.

Lemma later_mono t t' l l' : t <= t' -> later t l l' -> later t' l l'.
Proof.
  intros Ht [Hr|[Hg He]]; [by left|right]. split; [done|]. eapply expired_mono; [|exact He]. lia.
Qed.

Lemma later_renewed t l l' l'' : renews l l' -> later t l l'' -> later t l' l''.
Proof.
  intros (Hh & Hg & Hd) [(Hh' & Hg' & Hd')|[Hg' He]].
  - left. split_and!; [congruence..|lia].
  - right. split; [lia|done].
Qed.

Lemma later_acquired t l l' l'' :
  is_expired l (t - margin) = true -> generation l < generation l' -> later t l l'' -> later t l' l''.
Proof.
  intros He Hg [(Hh' & Hg' & Hd')|[Hg' He']]; right; (split; [lia|]); [|done].
  unfold is_expired, deadline in *. zbool. lia.
Qed.

Lemma issue_sorted t ls l :
  may_issue margin t ls l -> StronglySorted (later t) ls -> StronglySorted (later t) (l :: ls).
Proof.
  intros Hm Hs. constructor; [done|]. destruct ls as [|l0 ls]; [constructor|].
  apply StronglySorted_inv in Hs as [_ Hf]. destruct Hm as [Hr|[He Hg]].
  - constructor; [by left|]. eapply Forall_impl; [exact Hf|]. intros. by eapply later_renewed.
  - constructor; [by right|]. eapply Forall_impl; [exact Hf|]. intros. by eapply later_acquired.
Qed.

Lemma sorted_mono {A} (R R' : A -> A -> Prop) l :
  (forall x y, R x y -> R' x y) -> StronglySorted R l -> StronglySorted R' l.
Proof. intros HR. induction 1; constructor; [done|]. eapply Forall_impl; eauto. Qed.

Lemma sorted_pair {A} (R : A -> A -> Prop) l x y :
  StronglySorted R l -> x ∈ l -> y ∈ l -> x = y \/ R x y \/ R y x.
Proof.
  induction 1 as [|z l Hs IH Hf]; intros Hx Hy; [by apply list_elem_of_In in Hx|].
  rewrite Forall_forall in Hf. apply list_elem_of_In in Hx, Hy. destruct Hx as [->|Hx%list_elem_of_In], Hy as [->|Hy%list_elem_of_In]; naive_solver.
Qed.

(** An unexpired lease has the latest generation. *)
Lemma unexpired_latest t ls l l' :
  StronglySorted (later t) ls -> l ∈ ls -> l' ∈ ls -> is_expired l (t - margin) = false ->
  generation l' <= generation l.
Proof.
  intros Hs Hl Hl' Hx. destruct (sorted_pair _ _ l l' Hs Hl Hl') as [->|[[(_ & Hg & _)|[Hg _]]|[(_ & Hg & _)|[Hg He]]]];
    [lia..|congruence].
Qed.

(** A generation has one holder. *)
Lemma generation_holder t ls l l' :
  StronglySorted (later t) ls -> l ∈ ls -> l' ∈ ls -> generation l = generation l' ->
  holder_node_id l = holder_node_id l'.
Proof.
  intros Hs Hl Hl' Hg.
  destruct (sorted_pair _ _ l l' Hs Hl Hl') as [->|[[(Hh & _ & _)|[? _]]|[(Hh & _ & _)|[? _]]]];
    [done|done|lia|done|lia].
Qed.

(** *** The turns of a node *)
Lemma node_step_inv service port ls id n n' :
  node_step service port (reads_issued ls) n n' -> node_inv ls id n -> node_inv ls id n'.
Proof.
  intros Hs (Hid & Hl & Hp). destruct Hs as [i st n Hi Hb|st a rest current t|st current t].
  - unfold begin_turn in Hb. destruct (load_freshness _ _) as [c|]; [|done].
    destruct (in_now i) as [t|]; [|done]. cbn in Hb. destruct (plan_tick _ _ c) as [plan c'].
    injection Hb as <-. split_and!; [done|done|]. intros l. apply Hi.
  - unfold act. pose proof (execute_published a (executor st)) as He.
    destruct (execute_action a (executor st)) as [r x]. unfold published in He. cbn in He.
    injection He as He1 He2. unfold node_inv, node_shared in *. cbn in *. by rewrite He1, He2.
  - unfold node_inv, node_shared, end_turn in *. cbn in *.
    destruct (publish_fields service port current (ha_state (executor st))) as (-> & _ & _ & ->).
    split_and!; [done|done|by intros].
Qed.

Lemma node_inv_more ls l id n : node_inv ls id n -> node_inv (l :: ls) id n.
Proof. unfold node_inv. intros (? & ? & ?). split_and!; [done|set_solver..]. Qed.

Lemma start_inv env a h id ls :
  ha_setup from_str parse_from_rfc3339 env a = Ok h -> ha_node_id a = Some id ->
  node_inv ls id (Sleeping (run_state h)).
Proof.
  intros (id' & Hid & Hp)%setup_published Ha. unfold published in Hp. injection Hp as Hn Hl.
  unfold node_inv, node_shared. cbn. rewrite Hl, Hn. split_and!; [congruence|by intros..].
Qed.

(** *** What a gateway admits *)
Lemma admissions_fenced ha now r a :
  a ∈ admissions ha now r ->
  is_writer ha now = true /\ adm_node a = sh_node_id ha /\ adm_generation a = sh_generation ha.
Proof.
  intros (c & -> & Hc)%list_elem_of_fmap. apply list_elem_of_In, filter_In in Hc as [Hc Hw].
  split; [|done]. destruct (is_writer ha now) eqn:E; [done|exfalso].
  destruct r; cbn in Hc; unfold rpc_execute, rpc_query, rpc_stream_query, rpc_batch, rpc_drop_database,
    check_write_access in Hc; rewrite ?E in Hc; cbn in Hc; try done;
    destruct (check_read_access _ _ _) as [[]|]; [|done| |done]; destruct stmt; cbn in Hc; try done;
    destruct Hc as [<-|[]]; done.
Qed.

(** *** Steps keep the invariant *)
Context (Hskew : skew <= margin) (Hservice : forall s l, issues s l -> may_issue margin (c_now s) (issued s) l).

(** A gateway open for writes holds the latest generation. *)
Lemma open_gateway t ls id n clock :
  StronglySorted (later t) ls -> node_inv ls id n -> Z.abs (clock - t) <= skew ->
  is_writer (node_shared n) clock = true ->
  exists l, l ∈ ls /\ holder_node_id l = id /\ generation l = sh_generation (node_shared n) /\
    forall l', l' ∈ ls -> generation l' <= generation l.
Proof.
  intros Hs (Hid & Hl & _) Hc (_ & l & El & Hx & Hh & Hg)%is_writer_true.
  exists l. split; [by apply Hl|]. split; [congruence|]. split; [done|].
  intros l' Hl'. eapply (unexpired_latest t); [done|by apply Hl|done|].
  destruct (is_expired l (t - margin)) eqn:E; [|done].
  rewrite (expired_mono l (t - margin) clock) in Hx; [done|lia|done].
Qed.

Lemma admit_order t ls id n clock r ad :
  StronglySorted (later t) ls -> node_inv ls id n -> Z.abs (clock - t) <= skew ->
  Forall (admitted_under ls) ad -> StronglySorted not_older ad ->
  Forall (admitted_under ls) (admissions (node_shared n) clock r ++ ad) /\
  StronglySorted not_older (admissions (node_shared n) clock r ++ ad).
Proof.
  intros Hs Hn Hc Had Ho.
  assert (Hnew : forall a, a ∈ admissions (node_shared n) clock r ->
    admitted_under ls a /\ forall b, admitted_under ls b -> adm_generation b <= adm_generation a).
  { intros a (Hw & Ha1 & Ha2)%admissions_fenced.
    destruct (open_gateway t ls id n clock Hs Hn Hc Hw) as (l & Hl & Hh & Hg & Hmax).
    rewrite Ha2, <- Hg. split; [|intros b (l' & Hl' & _ & <-); by apply Hmax].
    exists l. rewrite Ha1, Ha2. destruct Hn as (Hid & _). split_and!; congruence. }
  induction (admissions (node_shared n) clock r) as [|a new IH]; [done|].
  destruct IH as [IHf IHs]; [set_solver|]. destruct (Hnew a ltac:(set_solver)) as [Ha Hmax].
  cbn. split; constructor; try done. eapply Forall_impl; [exact IHf|exact Hmax].
Qed.

Lemma cluster_step_inv s s' : cluster_step s s' -> cluster_inv s -> cluster_inv s'.
Proof.
  intros Hst [Hi Hn Had Ho].
  destruct Hst as [t t' ls ns ad fl ap Hle|l t ls ns ad fl ap Hm|env a h id t ls ns ad fl ap Hset Hid Hno
    |id t ls ns ad fl ap|service port id n n' t ls ns ad fl ap En Hs|id n clock r t ls ns ad fl ap En Hc
    |a fl1 fl2 t ls ns ad ap]; cbn in *.
  - constructor; cbn; try done. eapply sorted_mono; [|exact Hi]. intros. by eapply later_mono.
  - constructor; cbn; try done; [by apply issue_sorted; [apply Hservice in Hm|]|intros; apply node_inv_more; eauto|].
    eapply Forall_impl; [exact Had|]. intros a (l' & ? & ? & ?). exists l'. set_solver.
  - constructor; cbn; try done. intros id' n'. rewrite lookup_insert_Some.
    intros [[<- <-]|[_ ?]]; [by eapply start_inv|eauto].
  - constructor; cbn; try done. intros id' n' [_ ?]%lookup_delete_Some. eauto.
  - constructor; cbn; try done. intros id' n1. rewrite lookup_insert_Some.
    intros [[<- <-]|[_ ?]]; [eapply node_step_inv; eauto|eauto].
  - destruct (admit_order t ls id n clock r ad Hi (Hn _ _ En) Hc Had Ho) as [Hf Hs].
    by constructor.
  - by constructor.
Qed.

Lemma reachable_cluster s : cluster_reachable s -> cluster_inv s.
Proof.
  intros [t Hr]. remember (cluster_start t) as s0 eqn:E.
  assert (H0 : cluster_inv s0) by (subst; split; [constructor|done|constructor..]).
  clear E. induction Hr as [|s0 s1 s2 Hst _ IH]; [done|]. apply IH. by eapply cluster_step_inv.
Qed.

End Cluster.

Section Claims.
Context `{!GatewayEngine} (from_str : string -> Result string Value)
  (parse_from_rfc3339 : string -> Result string Z) (margin skew : Z).
Context (issues : cluster -> LeaseRecord -> Prop).
Hypothesis margin_covers_skew : skew <= margin.
Hypothesis exclusive_service : forall s l, issues s l -> may_issue margin (c_now s) (issued s) l.

Abbreviation reachable := (cluster_reachable from_str parse_from_rfc3339 skew issues).

(** C5. Fencing in a whole cluster, whatever is read late, fails, dies and restarts, under a
    lease service that passes a lease on only with a higher generation and only when it has
    been expired for a margin that covers the skew of the clocks: the generations of the
    writes that the gateways admit never go back, and a generation belongs to one node. *)
Theorem generations_fence_writes s :
  reachable s ->
  StronglySorted (fun new old => adm_generation old <= adm_generation new) (admitted s) /\
  (forall a b, a ∈ admitted s -> b ∈ admitted s ->
     adm_generation a = adm_generation b -> adm_node a = adm_node b).
Proof.
  intros Hr. destruct (reachable_cluster _ _ _ _ margin margin_covers_skew exclusive_service s Hr) as [Hi Hn Had Ho].
  split; [done|]. rewrite Forall_forall in Had. intros a b Ha Hb E.
  destruct (Had a Ha) as (l & Hl & <- & Hg), (Had b Hb) as (l' & Hl' & <- & Hg').
  eapply generation_holder; [done..|congruence].
Qed.

(** C19. Under such a lease service, while the gateway of a node is open for writes, the gateway
    of every other node is closed, by whatever clocks the two read within the skew. *)
Theorem one_open_gateway s id1 id2 n1 n2 t1 t2 :
  reachable s -> id1 <> id2 ->
  nodes s !! id1 = Some n1 -> nodes s !! id2 = Some n2 ->
  Z.abs (t1 - c_now s) <= skew -> Z.abs (t2 - c_now s) <= skew ->
  is_writer (node_shared n1) t1 = true -> is_writer (node_shared n2) t2 = false.
Proof.
  intros Hr Hne E1 E2 H1 H2 W1.
  destruct (reachable_cluster _ _ _ _ margin margin_covers_skew exclusive_service s Hr) as [Hi Hn _ _].
  destruct (is_writer (node_shared n2) t2) eqn:W2; [|done]. destruct Hne.
  destruct (open_gateway skew margin margin_covers_skew _ _ id1 n1 t1 Hi (Hn _ _ E1) H1 W1) as (l1 & Hl1 & <- & _ & Hm1).
  destruct (open_gateway skew margin margin_covers_skew _ _ id2 n2 t2 Hi (Hn _ _ E2) H2 W2) as (l2 & Hl2 & <- & _ & Hm2).
  eapply generation_holder; [done..|]. specialize (Hm1 _ Hl2). specialize (Hm2 _ Hl1). lia.
Qed.
End Claims.

Lemma rtc_transitive' {A} (R : relation A) x y z : rtc R x y -> rtc R y z -> rtc R x z.
Proof. intros; by etrans. Qed.

(** ** Runs of a cluster of two nodes *)
Module ClusterExample.
Definition args_of (id : string) : HaArgs :=
  mk_ha_args (Some id) (Some "lease") SourceFile None "default" None None "kubectl" (Some "fresh")
    (Some "role") (Some "audit") (Some "ready") None (Some "0.0.0.0:50051") (Some "secret") false
    None true "svc" 50051 1000 0 10 2 false Permissive.
Definition started (id : string) : HaRunning :=
  match ha_setup MainExample.no_json MainExample.no_time MainExample.env (args_of id) with
  | Ok h => h
  | Err _ => mk_ha_running (LeaseFile "") example_start false None
  end.
Definition turn (l : LeaseRecord) (t : Z) : TurnInput := mk_turn (fresh_at t) (Ok t) (example_reader l).
Definition next_turn (l : LeaseRecord) (t : Z) (st : LoopState) : LoopState :=
  match ha_loop_turn "svc" 50051 (fresh_at t) (Ok t) (example_reader l) st with
  | Ok st => st
  | Err _ => example_start
  end.
Definition after_turn (id : string) (l : LeaseRecord) (t : Z) : LoopState :=
  next_turn l t (run_state (started id)).
Definition insert_one : request := ReqExecute "app.db" (Some (mk_statement "INSERT" [] [] false)).

(** First "a" holds the lease, from 113 on "b". *)
Definition lease_a : LeaseRecord := mk_lease "a" 3 100 10.
Definition lease_b (t : Z) : LeaseRecord := mk_lease "b" 4 t 10.

Definition exclusive (margin : Z) (s : cluster) (l : LeaseRecord) : Prop :=
  may_issue margin (c_now s) (issued s) l.
Abbreviation step margin skew := (cluster_step MainExample.no_json MainExample.no_time skew (exclusive margin)).
Definition nodes_a : gmap string node := <["a" := Sleeping (after_turn "a" lease_a 101)]> ∅.
Definition nodes_ab (t : Z) : gmap string node :=
  <["b" := Sleeping (after_turn "b" (lease_b t) t)]> nodes_a.
Definition call : EngineCall := CallExecute "app.db" (mk_statement "INSERT" [] [] false) 3.

(** "a" has taken the lease. *)
Lemma a_leads margin skew : rtc (step margin skew) (cluster_start 101) (mk_cluster 101 [lease_a] nodes_a [] [] []).
Proof.
  eapply rtc_l; [apply (lease_issued _ _ _ _ lease_a); exact I|].
  eapply rtc_l; [apply (process_starts _ _ _ _ MainExample.env (args_of "a") (started "a") "a"); by vm_compute|].
  unfold nodes_a. rewrite <- (insert_insert_eq ∅ "a" (Sleeping (after_turn "a" lease_a 101)) (Sleeping (run_state (started "a")))).
  apply (cluster_turn _ _ _ _ "svc" 50051 (turn lease_a 101) "a" (run_state (started "a")));
    [by vm_compute| |by vm_compute].
  intros l [= <-]. set_solver.
Qed.

(** When its lease has been expired for the margin, "b" takes over. *)
Lemma b_leads margin skew t ad fl ap :
  110 < t - margin -> t = 111 \/ t = 113 ->
  rtc (step margin skew) (mk_cluster 101 [lease_a] nodes_a ad fl ap)
    (mk_cluster t [lease_b t; lease_a] (nodes_ab t) ad fl ap).
Proof.
  intros Hm Ht.
  eapply rtc_l; [apply (time_passes _ _ _ _ 101 t); lia|].
  eapply rtc_l; [apply (lease_issued _ _ _ _ (lease_b t)); right; split; [by apply Z.ltb_lt|cbn; lia]|].
  eapply rtc_l; [apply (process_starts _ _ _ _ MainExample.env (args_of "b") (started "b") "b"); by vm_compute|].
  unfold nodes_ab. rewrite <- (insert_insert_eq nodes_a "b" (Sleeping (after_turn "b" (lease_b t) t)) (Sleeping (run_state (started "b")))).
  apply (cluster_turn _ _ _ _ "svc" 50051 (turn (lease_b t) t) "b" (run_state (started "b")));
    [by vm_compute| |by destruct Ht as [-> | ->]; vm_compute].
  intros l Hl. assert (l = lease_b t) as ->; [|set_solver].
  destruct Ht as [-> | ->]; by injection Hl as <-.
Qed.

Definition by_a : admission := mk_admission "a" 3 call.
Definition by_b : admission :=
  mk_admission "b" 4 (CallExecute "app.db" (mk_statement "INSERT" [] [] false) 4).

Abbreviation reaches margin skew :=
  (cluster_reachable MainExample.no_json MainExample.no_time skew (exclusive margin)).

(** "a" and then "b" admit a write; the write of "a" runs last. *)
Lemma handover : reaches 2 2
  (mk_cluster 113 [lease_b 113; lease_a] (nodes_ab 113) [by_b; by_a] [] [by_a; by_b]).
Proof.
  exists 101. eapply rtc_transitive'; [apply a_leads|].
  eapply rtc_l; [apply (gateway_answers _ _ _ _ "a" (Sleeping (after_turn "a" lease_a 101)) 101 insert_one);
    [by vm_compute|lia]|].
  eapply rtc_transitive'; [apply (b_leads 2 2 113); lia|].
  eapply rtc_l; [apply (gateway_answers _ _ _ _ "b" (Sleeping (after_turn "b" (lease_b 113) 113)) 113 insert_one);
    [by vm_compute|lia]|].
  eapply rtc_l; [apply (task_runs _ _ _ _ by_b [by_a] [])|].
  apply rtc_once. apply (task_runs _ _ _ _ by_a [] []).
Qed.
End ClusterExample.

Lemma generations_fence_writes_witness :
  StronglySorted (fun new old => adm_generation old <= adm_generation new)
    [ClusterExample.by_b; ClusterExample.by_a] /\
  (forall a b, a ∈ [ClusterExample.by_b; ClusterExample.by_a] ->
     b ∈ [ClusterExample.by_b; ClusterExample.by_a] ->
     adm_generation a = adm_generation b -> adm_node a = adm_node b).
Proof.
  apply (generations_fence_writes MainExample.no_json MainExample.no_time 2 2 (ClusterExample.exclusive 2)
           ltac:(lia) (fun _ _ H => H) _ ClusterExample.handover).
Defined.

(** After the handover "b" is open; "a" is closed even by a clock two seconds late. *)
Lemma one_open_gateway_witness :
  is_writer (node_shared (Sleeping (ClusterExample.after_turn "a" ClusterExample.lease_a 101))) 111 = false.
Proof.
  refine (one_open_gateway MainExample.no_json MainExample.no_time 2 2 (ClusterExample.exclusive 2)
            ltac:(lia) (fun _ _ H => H) _ "b" "a"
            (Sleeping (ClusterExample.after_turn "b" (ClusterExample.lease_b 113) 113))
            (Sleeping (ClusterExample.after_turn "a" ClusterExample.lease_a 101)) 115 111
            ClusterExample.handover _ _ _ _ _ _);
    [discriminate|vm_compute; reflexivity|vm_compute; reflexivity|vm_compute; congruence|vm_compute; congruence
    |vm_compute; reflexivity].
Defined.

(** With a margin below the skew of the clocks the fence does not hold: "a", whose clock is
    five seconds late, admits a write of generation 3 after "b" has admitted one of
    generation 4. *)
Theorem short_margin_lets_two_write : exists s,
  cluster_reachable MainExample.no_json MainExample.no_time 5 (ClusterExample.exclusive 0) s /\
  map (fun a => (adm_node a, adm_generation a)) (admitted s) = [("a", 3); ("b", 4)].
Proof.
  eexists. split.
  - exists 101. eapply rtc_transitive'; [apply ClusterExample.a_leads|].
    eapply rtc_transitive'; [apply (ClusterExample.b_leads 0 5 111); lia|].
    eapply rtc_l; [apply (gateway_answers _ _ _ _ "b"
      (Sleeping (ClusterExample.after_turn "b" (ClusterExample.lease_b 111) 111)) 111
      ClusterExample.insert_one); [by vm_compute|lia]|].
    apply rtc_once. apply (gateway_answers _ _ _ _ "a"
      (Sleeping (ClusterExample.after_turn "a" ClusterExample.lease_a 101)) 106 ClusterExample.insert_one);
      [by vm_compute|lia].
  - by vm_compute.
Qed.

(** C31. The fence is checked when a write is admitted and not when its task runs: in a cluster
    whose margin covers the skew, a write of generation 3 is applied after one of
    generation 4. *)
Theorem delayed_write_runs_late : exists s,
  cluster_reachable MainExample.no_json MainExample.no_time 2 (ClusterExample.exclusive 2) s /\
  map (fun a => (adm_node a, adm_generation a)) (applied s) = [("a", 3); ("b", 4)].
Proof. eexists. split; [exact ClusterExample.handover|done]. Qed.

(** ** The lease updater of the examples

    [lease-updater.sh] of src/examples/k8s/k3s-ha-stack.yaml runs beside every node.  When the
    role file of its node does not say that it is the writer it claims a lease that is
    missing, or one that has expired; when it does, it writes itself into the lease, whoever
    holds it, under the higher of its own and the observed generation. *)

Definition writer_generation (n : node) : option Z :=
  f ← role_state (inner (ra_inner (executor (node_loop n))));
  g ← strip_prefix "writer:" f;
  parse_u64 (trim g).

Inductive updater_issues (s : cluster) : LeaseRecord -> Prop :=
| claim_missing id n ttl :
    nodes s !! id = Some n -> writer_generation n = None -> issued s = [] ->
    updater_issues s (mk_lease id 0 (c_now s) ttl)
| claim_expired id n l ls ttl :
    nodes s !! id = Some n -> writer_generation n = None -> issued s = l :: ls ->
    renewed_at_secs l + ttl_secs l < c_now s ->
    updater_issues s (mk_lease id (generation l + 1) (c_now s) ttl)
| patch_as_writer id n g ttl :
    nodes s !! id = Some n -> writer_generation n = Some g ->
    updater_issues s (mk_lease id (from_option (fun l => Z.max g (generation l)) g (head (issued s))) (c_now s) ttl).

Module UpdaterExample.
Import ClusterExample.
Definition claim_a : LeaseRecord := mk_lease "a" 0 101 10.
Definition claim_b : LeaseRecord := mk_lease "b" 1 112 10.
Definition patch_a : LeaseRecord := mk_lease "a" 1 112 10.
Definition a0 : LoopState := run_state (started "a").
Definition a1 : LoopState := next_turn claim_a 101 a0.
Definition a2 : LoopState := next_turn patch_a 112 a1.
Definition a3 : LoopState := next_turn patch_a 112 a2.
Definition b0 : LoopState := run_state (started "b").
Definition b1 : LoopState := next_turn claim_b 112 b0.
Definition both (a b : LoopState) : gmap string node := <["b" := Sleeping b]> (<["a" := Sleeping a]> ∅).
Definition at_time (t : Z) (ls : list LeaseRecord) (a b : LoopState) : cluster :=
  mk_cluster t ls (both a b) [] [] [].

Abbreviation step := (cluster_step MainExample.no_json MainExample.no_time 0 updater_issues).

Lemma both_start : rtc step (cluster_start 101) (at_time 101 [] a0 b0).
Proof.
  eapply rtc_l; [apply (process_starts _ _ _ _ MainExample.env (args_of "a") (started "a") "a"); by vm_compute|].
  apply rtc_once. apply (process_starts _ _ _ _ MainExample.env (args_of "b") (started "b") "b"); by vm_compute.
Qed.

(** A turn of "a" or of "b" that reads an issued lease. *)
Lemma a_turns l t ls a b :
  l ∈ ls -> lease_read (example_reader l) = Some l ->
  is_ok (ha_loop_turn "svc" 50051 (fresh_at t) (Ok t) (example_reader l) a) = true ->
  rtc step (at_time t ls a b) (at_time t ls (next_turn l t a) b).
Proof.
  intros Hl Hr Ht. unfold at_time, next_turn.
  destruct (ha_loop_turn "svc" 50051 (fresh_at t) (Ok t) (example_reader l) a) as [a'|] eqn:E; [|done].
  replace (both a' b) with (<["a" := Sleeping a']> (both a b)).
  - apply (cluster_turn _ _ _ _ "svc" 50051 (turn l t) "a" a); [done| |done].
    intros l' Hl'. cbn in Hl'. congruence.
  - unfold both. rewrite insert_insert_ne by done. by rewrite insert_insert_eq.
Qed.

Lemma b_turns l t ls a b :
  l ∈ ls -> lease_read (example_reader l) = Some l ->
  is_ok (ha_loop_turn "svc" 50051 (fresh_at t) (Ok t) (example_reader l) b) = true ->
  rtc step (at_time t ls a b) (at_time t ls a (next_turn l t b)).
Proof.
  intros Hl Hr Ht. unfold at_time, next_turn.
  destruct (ha_loop_turn "svc" 50051 (fresh_at t) (Ok t) (example_reader l) b) as [b'|] eqn:E; [|done].
  replace (both a b') with (<["b" := Sleeping b']> (both a b)) by (unfold both; by rewrite insert_insert_eq).
  apply (cluster_turn _ _ _ _ "svc" 50051 (turn l t) "b" b); [done| |done].
  intros l' Hl'. cbn in Hl'. congruence.
Qed.

Lemma two_writers : rtc step (cluster_start 101) (at_time 112 [patch_a; claim_b; claim_a] a3 b1).
Proof.
  eapply rtc_transitive'; [apply both_start|].
  eapply rtc_l; [apply (lease_issued _ _ _ _ claim_a), (claim_missing (at_time 101 [] a0 b0) "a" (Sleeping a0) 10); by vm_compute|].
  eapply rtc_transitive'; [apply (a_turns claim_a); [set_solver|by vm_compute..]|].
  eapply rtc_l; [apply (time_passes _ _ _ _ 101 112); lia|].
  eapply rtc_l; [apply (lease_issued _ _ _ _ claim_b),
    (claim_expired (at_time 112 [claim_a] a1 b0) "b" (Sleeping b0) claim_a [] 10); by vm_compute|].
  eapply rtc_transitive'; [apply (b_turns claim_b); [set_solver|by vm_compute..]|].
  eapply rtc_l; [apply (lease_issued _ _ _ _ patch_a),
    (patch_as_writer (at_time 112 [claim_b; claim_a] a1 b1) "a" (Sleeping a1) 0 10); by vm_compute|].
  eapply rtc_transitive'; [apply (a_turns patch_a); [set_solver|by vm_compute..]|].
  apply (a_turns patch_a); [set_solver|by vm_compute..].
Qed.
End UpdaterExample.

(** With this updater the fence does not hold, even by exact clocks: a node whose lease has
    expired, and which has not noticed, writes itself into the lease of its successor under
    the generation of this; after two turns of its own its gateway is open, and so is that
    of the successor, under one generation. *)
Theorem shipped_updater_lets_two_write : exists s a b,
  cluster_reachable MainExample.no_json MainExample.no_time 0 updater_issues s /\
  nodes s !! "a" = Some a /\ nodes s !! "b" = Some b /\
  is_writer (node_shared a) (c_now s) = true /\ is_writer (node_shared b) (c_now s) = true /\
  sh_generation (node_shared a) = sh_generation (node_shared b).
Proof.
  exists (UpdaterExample.at_time 112 [UpdaterExample.patch_a; UpdaterExample.claim_b; UpdaterExample.claim_a]
            UpdaterExample.a3 UpdaterExample.b1), (Sleeping UpdaterExample.a3), (Sleeping UpdaterExample.b1).
  split; [exists 101; exact UpdaterExample.two_writers|]. split_and!; by vm_compute.
Qed.
