(* ===== verification/Demo.v ===== *)
(** * The example program (src/examples/client_demo.rs)

    The walkthrough of the client starts a server as a child process, waits until it is
    ready, and then makes every kind of call, printing what comes back.  Its server is
    HA mode of [Main] with the options of [start_demo_server]; its calls are those of
    [Client] and [Unified]; the node behind them is [Server] over [Engine].

    [demo_never_succeeds]: the options name a gateway address but neither a token nor
    [--ha-grpc-insecure-no-auth], so the server refuses to start, the walkthrough waits in
    vain and panics; and when the environment supplies a token, every call is refused,
    since the client has none. *)

From S2P Require Import Prelude RustStr Errors RustText KvText Ha HaLoop Auth Engine Server Client CliText Unified.
From S2P Require Import GatewayTests Main.

Module Walkthrough.

(** ** The server *)

Definition lease_text (node_id : string) (now : Z) : string :=
  "holder_node_id=" +++ node_id +++ nl +++ "generation=1" +++ nl +++
  "renewed_at_secs=" +++ show_Z now +++ nl +++ "ttl_secs=86400" +++ nl.

Definition freshness_text (node_id : string) (now : Z) : string :=
  "source_node_id=" +++ node_id +++ nl +++ "source_generation=1" +++ nl +++
  "synced_at_secs=" +++ show_Z now +++ nl.

(** [wait_until]: [clock] gives the time at each turn of the loop, the first reading sets the
    deadline.  [None] is the end of the fuel. *)
Fixpoint wait_loop (fuel : nat) (deadline : Z) (clock : nat -> Z) (predicate : nat -> bool) (n : nat)
  : option bool :=
  match fuel with
  | O => None
  | S fuel =>
      if clock n <? deadline then
        if predicate n then Some true else wait_loop fuel deadline clock predicate (S n)
      else Some (predicate n)
  end.
Definition wait_until (fuel : nat) (timeout : Z) (clock : nat -> Z) (predicate : nat -> bool) : option bool :=
  wait_loop fuel (clock O + timeout) clock predicate 1.

Definition http_request (path : string) : string :=
  "GET " +++ path +++ " HTTP/1.1" +++ crlf +++ "Host: localhost" +++ crlf +++
  "Connection: close" +++ crlf +++ crlf.

(** [exchange] is what connecting, writing the request and reading the response gives, if
    they succeed. *)
Definition http_status_code (exchange : string -> option string) (path : string) : option Z :=
  response ← exchange (http_request path);
  line ← head (lines response);
  word ← split_whitespace line !! 1%nat;
  parse_unsigned (2 ^ 16 - 1) word.

(** The options of the command; [env_token] is [RSQLITE_GRPC_AUTH_TOKEN], which the child
    inherits. *)
Definition demo_args (temp readiness_bind grpc_bind : string) (env_token : option string) (insecure : bool)
  : HaArgs :=
  mk_ha_args (Some "demo-node") (Some (join temp "lease.txt")) SourceFile None "default" None None "kubectl"
    (Some (join temp "freshness.txt")) (Some (join temp "role_state.txt")) (Some (join temp "audit.log")) None
    (Some readiness_bind) (Some grpc_bind) env_token insecure (Some (join temp "data")) true "sqlite-ha" 50051
    50 0 10 2 false Permissive.

(** [start_demo_server] once the child runs: the endpoint, or the panic. *)
Definition start_demo_server (fuel : nat) (clock : nat -> Z) (exchange : nat -> string -> option string)
    (grpc_bind : string) : option (Result string string) :=
  match wait_until fuel 10000 clock (fun n => bool_decide (http_status_code (exchange n) "/ready" = Some 200)) with
  | None => None
  | Some true => Some (Ok ("http://" +++ grpc_bind))
  | Some false => Some (Err "demo server never became ready")
  end.

(** ** Values and output *)

Definition val_text (s : string) : ProtoValue := Some (TextValue s).
Definition val_int (i : Z) : ProtoValue := Some (IntValue i).
Definition val_null : ProtoValue := Some (NullValue true).
Definition positional (values : list ProtoValue) : Parameters := mk_parameters values [].
Definition named (pairs : list (string * ProtoValue)) : Parameters :=
  mk_parameters [] (map (fun '(name, value) => (name, Some value)) pairs).

Definition section (n : Z) (title : string) : list Output :=
  [Line ""; Line ("=== " +++ show_Z n +++ ". " +++ title +++ " ===")].

Section Print.
Variable show_f64 : Z -> string.
(** The elapsed milliseconds of a response, with two decimals. *)
Variable elapsed : string.

Definition format_value (v : ProtoValue) : string :=
  match v with
  | None | Some (NullValue _) => "NULL"
  | Some (IntValue i) => show_int i
  | Some (FloatValue f) => show_f64 f
  | Some (TextValue s) => s
  | Some (BlobValue b) => "<" +++ show_Z (zlen b) +++ " byte blob>"
  end.

Definition print_rows (resp : QueryResponse) : list Output :=
  [Grid (map (fun c => mk_cell (col_name c) Plain) (q_columns resp))
     (map (map (fun v => mk_cell (format_value v) Plain)) (q_rows resp));
   Line ("(" +++ show_Z (q_total_rows resp) +++ " row(s), " +++ elapsed +++ " ms)")].
End Print.

Definition describe_statement_result (i : nat) (result : StatementResult) : Output :=
  let prefix := "  [" +++ show_Z (Z.of_nat i) +++ "] " in
  match result with
  | Err e => if is_empty e then Line (prefix +++ "(no result)") else Line (prefix +++ "error: " +++ e)
  | Ok (ExecuteResult exec) => Line (prefix +++ "execute: rows_affected=" +++ show_int (rows_affected exec))
  | Ok (QueryResult q) => Line (prefix +++ "query: total_rows=" +++ show_Z (q_total_rows q))
  end.

Definition describe_database (db : DatabaseInfo) : Output :=
  Line ("  database: " +++ db_name db +++ " (" +++ show_Z (db_page_count db) +++ " pages x " +++
        show_Z (db_page_size db) +++ " bytes = " +++ show_Z (file_size_bytes db) +++
        " bytes total, journal_mode=" +++ db_journal_mode db +++ ")").

Definition show_bool (b : bool) : string := if b then "true" else "false".
Definition debug_code (c : option Code) : string :=
  match c with Some c => "Some(" +++ show_code c +++ ")" | None => "None" end.
Definition describe_error (err : ClientError) : list Output :=
  [Line ("execute() failed as expected: " +++ client_error_to_string err);
   Line ("  code=" +++ debug_code (error_code err) +++ " is_not_leader=" +++ show_bool (is_not_leader err) +++
         " is_retryable=" +++ show_bool (is_retryable err))].

(** ** The walkthrough *)

(** The calls of a client against a world of servers: the answer, the client and the world
    afterwards. *)
Class GatewayCalls (W : Type) := {
  call_discover_leader : SqlGatewayClient -> W -> Result ClientError string;
  call_execute : SqlGatewayClient -> string -> string -> option Parameters -> W ->
    Result ClientError ExecuteResponse * SqlGatewayClient * W;
  call_query : SqlGatewayClient -> string -> string -> option Parameters -> Z -> ConsistencyLevel -> W ->
    Result ClientError QueryResponse * SqlGatewayClient * W;
  call_stream_query : SqlGatewayClient -> string -> string -> option Parameters -> Z -> Z -> ConsistencyLevel ->
    W -> Result ClientError (list (Result Status QueryChunk)) * SqlGatewayClient * W;
  call_batch : SqlGatewayClient -> string -> list Statement -> BatchTransactionMode -> bool -> W ->
    Result ClientError BatchResponse * SqlGatewayClient * W;
  call_drop_database : SqlGatewayClient -> string -> W -> Result ClientError (bool * Z) * SqlGatewayClient * W;
  call_get_cluster_status : SqlGatewayClient -> W ->
    Result ClientError ClusterStatusResponse * SqlGatewayClient * W;
}.

(** What [?] boxes. *)
Inductive DemoError := ClientFailed (e : ClientError) | ChunkFailed (st : Status).

Section Main.
Context {W : Type} `{!GatewayCalls W}.
Context (show_f64 : Z -> string) (elapsed : string).

(** The async main: what it printed, its result, and the world. *)
Definition Demo (A : Type) : Type := W -> list Output * Result DemoError A * W.
Definition ret {A} (a : A) : Demo A := fun w => ([], Ok a, w).
Definition bind {A B} (m : Demo A) (k : A -> Demo B) : Demo B := fun w =>
  match m w with
  | (out, Ok a, w) => let '(out', r, w) := k a w in (out ++ out', r, w)
  | (out, Err e, w) => (out, Err e, w)
  end.
Definition say (out : list Output) : Demo unit := fun w => (out, Ok tt, w).
(** [client.op(..).await?]. *)
Definition ask_for {A} (op : W -> Result ClientError A * SqlGatewayClient * W) : Demo (A * SqlGatewayClient) := fun w =>
  match op w with
  | (Ok a, cl, w) => ([], Ok (a, cl), w)
  | (Err e, _, w) => ([], Err (ClientFailed e), w)
  end.
Notation "'let+' x ':=' m 'in' k" := (bind m (fun x => k))
  (at level 10, x pattern, m at level 100, k at level 200).
Notation "m ;;; k" := (bind m (fun _ => k)) (at level 100, right associativity).

Definition DB_NAME : string := "demo.db".

(** Sections 1 and 2. *)
Definition construct_and_discover (endpoint : string) : Demo SqlGatewayClient :=
  say (section 1 "Client construction (ClientConfig builder)");;;
  let client := client_new (with_timeout 5000 (with_max_retries 5 (client_config_new (Direct endpoint)))) in
  say [Line ("Built SqlGatewayClient with DiscoveryMode::Direct(" +++ endpoint +++ ")")];;;
  say (section 2 "discover_leader()");;;
  (fun w => match call_discover_leader client w with
            | Ok leader => ([Line ("Current writer: " +++ leader)], Ok client, w)
            | Err e => ([], Err (ClientFailed e), w)
            end).

(** Sections 3 and 4. *)
Definition create_and_insert (cl : SqlGatewayClient) : Demo SqlGatewayClient :=
  say (section 3 "execute() — DDL");;;
  let+ (created, cl) := ask_for (call_execute cl DB_NAME
    "CREATE TABLE users (id INTEGER PRIMARY KEY, name TEXT NOT NULL, age INTEGER, bio TEXT)" None) in
  say [Line ("CREATE TABLE -> generation " +++ show_Z (e_generation created))];;;
  say (section 4 "execute() — positional and named parameters");;;
  let+ (inserted, cl) := ask_for (call_execute cl DB_NAME "INSERT INTO users (name, age, bio) VALUES (?, ?, ?)"
    (Some (positional [val_text "alice"; val_int 30; val_null]))) in
  say [Line ("positional insert -> rows_affected=" +++ show_int (rows_affected inserted) +++
             ", last_insert_rowid=" +++ show_int (last_insert_rowid inserted))];;;
  let+ (inserted_named, cl) := ask_for (call_execute cl DB_NAME
    "INSERT INTO users (name, age, bio) VALUES (:name, :age, :bio)"
    (Some (named [(":name", val_text "bob"); (":age", val_int 41); (":bio", val_text "likes gRPC")]))) in
  say [Line ("named insert -> rows_affected=" +++ show_int (rows_affected inserted_named) +++
             ", last_insert_rowid=" +++ show_int (last_insert_rowid inserted_named))];;;
  ret cl.

(** Sections 5 and 6. *)
Definition query_twice (cl : SqlGatewayClient) : Demo SqlGatewayClient :=
  say (section 5 "query() — CONSISTENCY_LEVEL_STRONG");;;
  let+ (rows, cl) := ask_for (call_query cl DB_NAME "SELECT id, name, age, bio FROM users ORDER BY id" None 0 Strong) in
  say (print_rows show_f64 elapsed rows);;;
  say (section 6 "query() — CONSISTENCY_LEVEL_EVENTUAL");;;
  say [Line "Eventual consistency permits reading from a local replica instead of the";
       Line "writer; on this single-node demo it is served identically."];;;
  let+ (rows, cl) := ask_for (call_query cl DB_NAME "SELECT COUNT(*) AS n FROM users" None 0 Eventual) in
  say (print_rows show_f64 elapsed rows);;;
  ret cl.

(** Section 7. *)
Definition insert_num (i : Z) : string := "INSERT INTO nums (v) VALUES (" +++ show_Z i +++ ")".
Fixpoint insert_nums (range : list Z) (cl : SqlGatewayClient) : Demo SqlGatewayClient :=
  match range with
  | [] => ret cl
  | i :: range => let+ (_, cl) := ask_for (call_execute cl DB_NAME (insert_num i) None) in insert_nums range cl
  end.
Fixpoint print_chunks (chunk_no : Z) (stream : list (Result Status QueryChunk)) : Demo unit :=
  match stream with
  | [] => ret tt
  | Err st :: _ => fun w => ([], Err (ChunkFailed st), w)
  | Ok chunk :: stream =>
      let chunk_no := chunk_no + 1 in
      say [Line ("chunk " +++ show_Z chunk_no +++ ": " +++ show_Z (zlen (chunk_rows chunk)) +++
                 " row(s), is_last=" +++ show_bool (is_last chunk) +++ ", total_rows=" +++
                 show_Z (chunk_total_rows chunk))];;;
      print_chunks chunk_no stream
  end.
Definition stream_numbers (cl : SqlGatewayClient) : Demo SqlGatewayClient :=
  say (section 7 "stream_query()");;;
  let+ (_, cl) := ask_for (call_execute cl DB_NAME "CREATE TABLE nums (v INTEGER)" None) in
  let+ cl := insert_nums (seqZ 0 25) cl in
  let+ (stream, cl) := ask_for (call_stream_query cl DB_NAME "SELECT v FROM nums ORDER BY v" None 0 10 Strong) in
  print_chunks 0 stream;;;
  ret cl.

(** Sections 8 and 9. *)
Definition plain (sql : string) : Statement := mk_statement sql [] [] false.
Definition batches (cl : SqlGatewayClient) : Demo SqlGatewayClient :=
  say (section 8 "batch() — happy path (IMMEDIATE, stop_on_error=true)");;;
  let+ (batch_ok, cl) := ask_for (call_batch cl DB_NAME
    [plain "INSERT INTO users (name, age) VALUES ('carol', 22)"; plain "SELECT COUNT(*) AS n FROM users"]
    ModeImmediate true) in
  say [Line ("committed=" +++ show_bool (committed batch_ok))];;;
  say (imap describe_statement_result (results batch_ok));;;
  say (section 9 "batch() — failure path (bad statement mid-batch, stop_on_error=true)");;;
  let+ (batch_err, cl) := ask_for (call_batch cl DB_NAME
    [plain "INSERT INTO users (name, age) VALUES ('dave', 19)"; plain "INSERT INTO no_such_table (x) VALUES (1)";
     plain "INSERT INTO users (name, age) VALUES ('erin', 27)"] ModeImmediate true) in
  say [Line ("committed=" +++ show_bool (committed batch_err) +++
             " (stop_on_error aborted the transaction: " +++ show_Z (zlen (results batch_err)) +++
             " statement(s) even attempted)")];;;
  say (imap describe_statement_result (results batch_err));;;
  ret cl.

(** Sections 10 and 11. *)
Definition debug_role (r : NodeRole) : string := match r with Writer => "Writer" | Replica => "Replica" end.
Definition describe_status (s : ClusterStatusResponse) : list Output :=
  Line ("node_id=" +++ cs_node_id s +++ " role=" +++ debug_role (cs_role s) +++ " local_generation=" +++
        show_Z (cs_local_generation s)) ::
  match cs_lease s with
  | Some l =>
      [Line ("lease: held=" +++ show_bool (ls_is_held l) +++ " holder=" +++ holder_node_id (ls_lease l) +++
             " generation=" +++ show_Z (generation (ls_lease l)) +++ " ttl_secs=" +++ show_Z (ttl_secs (ls_lease l)))]
  | None => []
  end ++ map describe_database (cs_databases s).
Definition status_and_drop (cl : SqlGatewayClient) : Demo SqlGatewayClient :=
  say (section 10 "get_cluster_status()");;;
  let+ (status, cl) := ask_for (call_get_cluster_status cl) in
  say (describe_status status);;;
  say (section 11 "drop_database() — idempotency");;;
  let+ (first, cl) := ask_for (call_drop_database cl DB_NAME) in
  say [Line ("first drop -> existed=" +++ show_bool (fst first))];;;
  let+ (second, cl) := ask_for (call_drop_database cl DB_NAME) in
  say [Line ("second drop -> existed=" +++ show_bool (fst second) +++ " (already absent)")];;;
  ret cl.

(** Section 12. *)
Definition introspect (cl : SqlGatewayClient) : Demo SqlGatewayClient :=
  say (section 12 "Error introspection");;;
  (fun w => match call_execute cl DB_NAME "THIS IS NOT VALID SQL" None w with
            | (Ok _, cl, w) => ([Line "(unexpected success)"], Ok cl, w)
            | (Err err, cl, w) => (describe_error err, Ok cl, w)
            end).

(** Section 13: two more clients; the resolver of the second answers with the endpoint. *)
Definition other_discovery (endpoint : string) : Demo unit :=
  say (section 13 "Alternate discovery modes");;;
  let+ (status, _) := ask_for (call_get_cluster_status (client_new (client_config_new (Candidates [endpoint])))) in
  say [Line ("DiscoveryMode::Candidates([...]) resolved to writer node_id=" +++ cs_node_id status)];;;
  let+ (status, _) := ask_for (call_get_cluster_status (client_new (client_config_new Custom))) in
  say [Line ("DiscoveryMode::Custom(resolver closure) resolved to writer node_id=" +++ cs_node_id status)].

(** Sections 14 and 15. *)
Definition reset_and_stop (cl : SqlGatewayClient) : Demo unit :=
  say (section 14 "reset_connection()");;;
  let+ (status, _) := ask_for (call_get_cluster_status (reset_connection cl)) in
  say [Line ("Reconnected after reset_connection(); node_id=" +++ cs_node_id status)];;;
  say (section 15 "Teardown");;;
  say [Line "Walkthrough complete. Stopping demo server..."].

Definition walkthrough (endpoint : string) : Demo unit :=
  say [Line ("Server ready at " +++ endpoint)];;;
  let+ cl := construct_and_discover endpoint in
  let+ cl := create_and_insert cl in
  let+ cl := query_twice cl in
  let+ cl := stream_numbers cl in
  let+ cl := batches cl in
  let+ cl := status_and_drop cl in
  let+ cl := introspect cl in
  other_discovery endpoint;;;
  reset_and_stop cl.

(** [main]: it panics when the server does not become ready. *)
Inductive Exit := Panicked (msg : string) | Finished (r : Result DemoError unit).
Definition main (server : option (Result string string)) (w : W) : option (list Output * Exit) :=
  let intro := [Line "rsqlite-rsync client API walkthrough";
                Line "Starting a self-contained single-writer demo server..."] in
  match server with
  | None => None
  | Some (Err msg) => Some (intro, Panicked msg)
  | Some (Ok endpoint) => let '(out, r, _) := walkthrough endpoint w in Some (intro ++ out, Finished r)
  end.

(** A computation that fails and leaves the world alone. *)
Definition fails {A} (m : Demo A) (w : W) (e : DemoError) : Prop := exists out, m w = (out, Err e, w).

Lemma fails_first {A B} (m : Demo A) (k : A -> Demo B) w e : fails m w e -> fails (bind m k) w e.
Proof. intros [out H]. exists out. unfold bind. by rewrite H. Qed.

Lemma fails_then {A B} (m : Demo A) (k : A -> Demo B) w a out e :
  m w = (out, Ok a, w) -> fails (k a) w e -> fails (bind m k) w e.
Proof. intros H [out' H']. exists (out ++ out'). unfold bind. by rewrite H, H'. Qed.

Lemma fails_said {B} out (k : unit -> Demo B) w e : fails (k tt) w e -> fails (bind (say out) k) w e.
Proof. by apply fails_then with (out := out). Qed.
End Main.

(** ** The node behind the calls

    One node that answers at one address, with its authentication in front of the handlers of
    [Server]; its engine is that of the world [w], which the calls it makes change. *)
Section Node.
Context {W : Type} (engine : W -> GatewayEngine) (apply_call : W -> EngineCall -> W).
Context (auth : AuthConfig) (ha : HaSharedState) (now uptime_secs : Z) (endpoint : string).

Definition guarded {A} (authorization : option string) (r : Result Status A * list EngineCall)
  : Result Status A * list EngineCall :=
  match check auth authorization with Err st => (Err st, []) | Ok _ => r end.

Definition at_execute (w : W) (header : option string) (db : string) (s : Statement) :=
  guarded header (@rpc_execute (engine w) ha now db (Some s)).
Definition at_query (w : W) (header : option string) (db : string) (s : Statement) (max_rows consistency : Z) :=
  guarded header (@rpc_query (engine w) ha now db (Some s) max_rows consistency).
Definition at_stream (w : W) (header : option string) (db : string) (s : Statement) (max_rows chunk_size consistency : Z)
  : Result Status (list (Result Status QueryChunk)) :=
  let? chunks := fst (guarded header
    (@rpc_stream_query (engine w) ha now db (Some s) max_rows chunk_size consistency)) in
  Ok (map Ok chunks).
Definition at_batch (w : W) (header : option string) (db : string) (ss : list Statement) (mode : Z) (stop : bool) :=
  guarded header (@rpc_batch (engine w) ha now db ss mode stop).
Definition at_drop (w : W) (header : option string) (db : string) :=
  guarded header (@rpc_drop_database (engine w) ha now db).
Definition at_status (w : W) (header : option string) : Result Status ClusterStatusResponse :=
  fst (guarded header (@rpc_get_cluster_status (engine w) ha now uptime_secs, [])).

(** A probe of a candidate: it connects, and the node says that it is the writer. *)
Definition connects (ep : string) : bool := String.eqb ep (normalize_endpoint endpoint).
Definition probe (w : W) (token : option string) (ep : string) : bool :=
  connects ep && match at_status w (authorization_header token) with
                 | Ok s => bool_decide (cs_role s = Writer)
                 | Err _ => false
                 end.

Definition node_network (w : W) : RpcNetwork :=
  mk_network
    (fun config _ => discover_leader (fun _ => None) (probe w (auth_token config)) (Ok endpoint) (discovery config))
    (fun _ => None) (fun _ ep => if connects ep then None else Some "connection refused")
    (fun _ _ header db s => fst (at_execute w header db s))
    (fun _ _ header db s max_rows _ consistency => fst (at_query w header db s max_rows consistency))
    (fun _ _ header db s max_rows chunk_size consistency => at_stream w header db s max_rows chunk_size consistency)
    (fun _ _ header db ss mode stop => fst (at_batch w header db ss mode stop))
    (fun _ _ header db => fst (at_drop w header db))
    (fun _ _ header => at_status w header).

(** Whether a call of this client gets through to the node. *)
Definition reaches (w : W) (cl : SqlGatewayClient) : bool :=
  let net := node_network w in
  is_ok (fst (get_or_connect (net_discover net (config cl)) (net_from_shared net) (net_connect net) 0 cl)).
Definition changed {A} (w : W) (cl : SqlGatewayClient) (r : Result Status A * list EngineCall) : W :=
  if reaches w cl then fold_left apply_call (snd r) w else w.

#[export] Instance node_calls : GatewayCalls W := {|
  call_discover_leader cl w := net_discover (node_network w) (config cl) 0;
  call_execute cl db sql p w :=
    (gw_execute (node_network w) cl db sql p,
     changed w cl (at_execute w (auth_header cl) db (statement_of sql p)));
  call_query cl db sql p max_rows c w := (gw_query (node_network w) cl db sql p max_rows c, w);
  call_stream_query cl db sql p max_rows chunk_size c w :=
    (gw_stream_query (node_network w) cl db sql p max_rows chunk_size c, w);
  call_batch cl db ss m stop w :=
    (gw_batch (node_network w) cl db ss m stop,
     changed w cl (at_batch w (auth_header cl) db ss (batch_mode_as_i32 m) stop));
  call_drop_database cl db w :=
    (gw_drop_database (node_network w) cl db, changed w cl (at_drop w (auth_header cl) db));
  call_get_cluster_status cl w := (gw_get_cluster_status (node_network w) cl, w);
|}.

(** A node that wants a token refuses the walkthrough at its first call. *)
Definition no_header : Status := unauthenticated "missing authorization header".

Lemma refused_execute db sql p w :
  is_disabled auth = false ->
  let cl := client_new (with_timeout 5000 (with_max_retries 5 (client_config_new (Direct endpoint)))) in
  exists cl', call_execute cl db sql p w = (Err (Rpc no_header), cl', w).
Proof.
  intros Ha cl. assert (Hc : check auth None = Err no_header).
  { unfold check, is_disabled in *. by destruct (token auth). }
  assert (He : connects (normalize_endpoint endpoint) = true) by (unfold connects; apply String.eqb_refl).
  assert (Hr : get_or_connect (net_discover (node_network w) (config cl)) (net_from_shared (node_network w))
                 (net_connect (node_network w)) 0 cl =
               (Ok (normalize_endpoint endpoint), mk_client (config cl) (Some (normalize_endpoint endpoint)) true)).
  { unfold get_or_connect. cbn -[normalize_endpoint]. by rewrite He. }
  eexists. cbn [call_execute node_calls]. unfold changed, reaches, gw_execute, run_call, call.
  change (rounds cl) with 5%nat. cbn [retry_loop]. rewrite !Hr.
  change (net_execute (node_network w) 0 (normalize_endpoint endpoint) (auth_header cl) db (statement_of sql p))
    with (fst (at_execute w (auth_header cl) db (statement_of sql p))).
  unfold at_execute, guarded. change (auth_header cl) with (@None string). rewrite Hc. reflexivity.
Qed.

Lemma refused_walkthrough show_f64 elapsed w :
  is_disabled auth = false -> fails (walkthrough show_f64 elapsed endpoint) w (ClientFailed (Rpc no_header)).
Proof.
  intros Ha. unfold walkthrough. apply fails_said. eapply fails_then; [reflexivity|]. apply fails_first.
  unfold create_and_insert. apply fails_said, fails_first.
  match goal with |- fails (ask_for (call_execute _ ?db ?q ?p)) _ _ =>
    destruct (refused_execute db q p w Ha) as [cl' H] end.
  exists []. unfold ask_for. by rewrite H.
Qed.
End Node.

(** ** Waiting for the server *)

(** The loop ends, for a poll takes 25 ms at least; it returns [true] only when a poll did. *)
Lemma wait_loop_ends deadline clock predicate : forall fuel n,
  (forall m, (1 <= m)%nat -> clock O + 25 * (Z.of_nat m - 1) <= clock m) -> (1 <= n)%nat ->
  deadline <= clock O + 25 * (Z.of_nat (n + fuel) - 2) -> (0 < fuel)%nat ->
  exists b, wait_loop fuel deadline clock predicate n = Some b /\
    (b = true -> exists m, (n <= m)%nat /\ predicate m = true).
Proof.
  intros fuel. induction fuel as [|fuel IH]; intros n Hc Hn Hd Hf; [lia|]. cbn.
  destruct (Z.ltb_spec (clock n) deadline) as [Hlt|Hge]; [|by exists (predicate n); eauto].
  destruct (predicate n) eqn:Ep; [by exists true; eauto|].
  pose proof (Hc n Hn). destruct (IH (S n)) as (b & Hb & Hm); [done|lia|..].
  - replace (S n + fuel)%nat with (n + S fuel)%nat by lia. done.
  - destruct fuel; [lia|lia].
  - exists b. split; [done|]. intros Ht. destruct (Hm Ht) as (m & ? & ?). exists m. split; [lia|done].
Qed.

Lemma wait_until_ends fuel timeout clock predicate :
  (forall m, (1 <= m)%nat -> clock O + 25 * (Z.of_nat m - 1) <= clock m) ->
  0 <= timeout <= 25 * (Z.of_nat fuel - 1) ->
  exists b, wait_until fuel timeout clock predicate = Some b /\ (b = true -> exists m, predicate m = true).
Proof.
  intros Hc Ht. destruct (wait_loop_ends (clock O + timeout) clock predicate fuel 1 Hc)
    as (b & Hb & Hm); [lia|lia|lia|].
  exists b. split; [done|]. intros E. destruct (Hm E) as (m & _ & Hp). eauto.
Qed.

(** What the server process answers to a request of its readiness endpoint: nothing before it
    listens and after it exits, and otherwise the flag as the setup or the last turn left
    it. *)
Inductive binary_answer (from_str : string -> Result string Value) (rfc3339 : string -> Result string Z)
    (env : HaEnv) (a : HaArgs) (request : string) : option string -> Prop :=
| answer_none : binary_answer from_str rfc3339 env a request None
| answer_starting now :
    start_http env a = Ok true ->
    binary_answer from_str rfc3339 env a request
      (Some (readiness_response request false 0 now (healthz_stale_after_secs (ha_tick_interval_ms a))))
| answer_running h n st now :
    ha_setup from_str rfc3339 env a = Ok h -> run_http h = true ->
    run_turns (ha_service_name a) (ha_grpc_port a) (turn_inputs from_str rfc3339 env a (run_source h) n) (run_state h)
      = Ok st ->
    binary_answer from_str rfc3339 env a request
      (Some (readiness_response request (readiness_state (executor st)) (last_tick_secs st) now
               (healthz_stale_after_secs (ha_tick_interval_ms a)))).

Lemma status_of_ready ready tick now stale :
  http_status_code (fun request => Some (readiness_response request ready tick now stale)) "/ready"
  = Some (if ready then 200 else 503).
Proof. destruct ready; vm_compute; reflexivity. Qed.

Lemma demo_setup_fails from_str rfc3339 env temp readiness_bind grpc_bind :
  is_ok (ha_setup from_str rfc3339 env (demo_args temp readiness_bind grpc_bind None false)) = false.
Proof.
  unfold ha_setup. cbn -[initialize_not_ready start_http start_grpc loop_start].
  destruct (initialize_not_ready _) as [[] ?]; [|done]. cbn -[start_http start_grpc].
  by destruct (start_http _ _).
Qed.
End Walkthrough.
Import Walkthrough.

(** C32. The example program cannot work.  It gives its server a gateway address but neither a
    token nor the option that allows none, so HA mode fails in its setup, no answer of the
    readiness endpoint is 200, and the walkthrough panics after its ten seconds.  With a
    token from the environment the server runs, but it refuses the first call of the
    walkthrough, whose client has no token. *)
Theorem demo_never_succeeds from_str rfc3339 env temp readiness_bind grpc_bind :
  (forall W `{!GatewayCalls W} show_f64 elapsed (w : W) fuel clock exchange,
     (forall n, binary_answer from_str rfc3339 env (demo_args temp readiness_bind grpc_bind None false)
                  (http_request "/ready") (exchange n (http_request "/ready"))) ->
     (forall m, (1 <= m)%nat -> clock O + 25 * (Z.of_nat m - 1) <= clock m) -> (401 <= fuel)%nat ->
     exists out, main show_f64 elapsed (start_demo_server fuel clock exchange grpc_bind) w
       = Some (out, Panicked "demo server never became ready")) /\
  (forall token h g W engine apply_call ha now uptime_secs show_f64 elapsed (w : W),
     ha_setup from_str rfc3339 env (demo_args temp readiness_bind grpc_bind (Some token) false) = Ok h ->
     run_grpc h = Some g ->
     fails (walkthrough (GatewayCalls0 := node_calls engine apply_call (gs_auth g) ha now uptime_secs
                           ("http://" +++ grpc_bind)) show_f64 elapsed ("http://" +++ grpc_bind)) w
       (ClientFailed (Rpc no_header))).
Proof.
  split.
  - intros W HG show_f64 elapsed w fuel clock exchange Hex Hc Hf. unfold start_demo_server.
    destruct (wait_until_ends fuel 10000 clock
      (fun n => bool_decide (http_status_code (exchange n) "/ready" = Some 200)) Hc) as (b & Hb & Ht); [lia|].
    rewrite Hb. destruct b; [|by eexists].
    destruct (Ht eq_refl) as (m & Hm%bool_decide_eq_true). specialize (Hex m).
    unfold http_status_code in Hm. remember (exchange m (http_request "/ready")) as ans eqn:Ea. clear Ea.
    destruct Hex as [|now Hh|h n st now Hs _ _]; [done| |].
    + pose proof (status_of_ready false 0 now
        (healthz_stale_after_secs (ha_tick_interval_ms (demo_args temp readiness_bind grpc_bind None false)))) as H503.
      unfold http_status_code in H503. congruence.
    + pose proof (demo_setup_fails from_str rfc3339 env temp readiness_bind grpc_bind) as H. by rewrite Hs in H.
  - intros tok h g W engine apply_call ha now uptime show elapsed w Hs Hg. apply refused_walkthrough.
    destruct (is_disabled (gs_auth g)) eqn:Ed; [|done].
    exfalso. revert Hs Hg Ed. unfold ha_setup, start_grpc.
    cbn -[initialize_not_ready start_http loop_start trim].
    destruct (initialize_not_ready _) as [[] ?]; [|done]. cbn -[start_http trim].
    destruct (start_http _ _); [|done]. cbn -[trim]. destruct (is_empty (trim tok)); [done|]. cbn.
    destruct (engine_new _ _); [|done]. destruct (parse_addr _ _); [done|].
    intros [= <-] [= <-]. done.
Qed.

(** ** Runs *)
Module DemoRun.
Import GatewayTests.

Definition NOW : Z := 1700000000.
Definition READY : string := "127.0.0.1:8088".
Definition GRPC : string := "127.0.0.1:50051".
Definition TEMP : string := "/tmp/demo".

(** The files of the temporary directory, and a clock that stays. *)
Definition files (_ : nat) (path : string) : Result IoError string :=
  if String.eqb path (join TEMP "lease.txt") then Ok (lease_text "demo-node" NOW)
  else Ok (freshness_text "demo-node" NOW).
Definition env : HaEnv :=
  mk_ha_env files (fun _ _ _ => Err "no kubectl") (fun _ => Ok NOW) [] []
    (fun _ => None) (fun _ => Ok tt) (fun _ => None) (Ok (Ok tt)) (Ok (Ok tt)).
Definition setup (token : option string) (insecure : bool) : SyncResult HaRunning :=
  ha_setup MainExample.no_json MainExample.no_time env (demo_args TEMP READY GRPC token insecure).

#[local] Instance demo_sqlite : SqliteDb test_db := {|
  db_exec := test_exec;
  db_prepare := test_prepare;
  db_changes := t_changes;
  db_last_insert_rowid := t_rowid;
|}.

Definition listed_files (w : world) : list FsNode :=
  map (fun '(path, _) => file (default path (strip_prefix "/data/" path))) (map_to_list w).
Definition demo_engine (w : world) : GatewayEngine :=
  database_engine DIR parents_made (open_in w) no_locks no_failure (dom w) (Some (FsDir "" (listed_files w))).
Definition demo_apply (w : world) (c : EngineCall) : world :=
  match c with
  | CallExecute db s gen =>
      store w db (snd (fst (Engine.execute DIR parents_made (open_in w) db s gen no_locks)))
  | CallBatch db ss m stop gen =>
      store w db (snd (fst (Engine.batch DIR parents_made (open_in w) db ss m stop gen no_locks)))
  | CallDrop db => delete (join DIR (trim db)) w
  | CallQuery _ _ _ _ _ | CallStream _ _ _ _ => w
  end.

Definition clock (n : nat) : Z := 30 * Z.of_nat n.

End DemoRun.

(** The setup without the option, polled for ten seconds; and the setup with a token, whose
    gateway refuses the walkthrough. *)
Lemma demo_never_succeeds_witness :
  let node := node_calls DemoRun.demo_engine DemoRun.demo_apply (required "secret") leader DemoRun.NOW 1
                ("http://" +++ DemoRun.GRPC) in
  (exists out, main (GatewayCalls0 := node) (fun _ => "") "0.10"
     (start_demo_server 401 DemoRun.clock
        (fun n request => if (n =? 0)%nat then None else Some (readiness_response request false 0 DemoRun.NOW 10))
        DemoRun.GRPC) ∅ = Some (out, Panicked "demo server never became ready")) /\
  fails (walkthrough (GatewayCalls0 := node) (fun _ => "") "0.10" ("http://" +++ DemoRun.GRPC)) ∅
    (ClientFailed (Rpc no_header)).
Proof.
  destruct (demo_never_succeeds MainExample.no_json MainExample.no_time DemoRun.env DemoRun.TEMP DemoRun.READY
              DemoRun.GRPC) as [H1 H2].
  split.
  - apply H1; [|unfold DemoRun.clock; lia|lia].
    intros [|n]; [apply answer_none|]. apply (answer_starting _ _ _ _ _ DemoRun.NOW). reflexivity.
  - destruct (DemoRun.setup (Some "secret") false) as [h|] eqn:Eh; [|discriminate Eh].
    refine (H2 "secret" h (mk_grpc_server (required "secret") (join DemoRun.TEMP "data") DemoRun.GRPC)
              _ _ _ _ _ _ _ _ _ Eh _).
    injection Eh as <-. reflexivity.
Defined.
